(** * fixed: a decimal number packed into one 64-bit word

    A shallow embedding of [value.go] and [signed.go] (package [fixed])
    together with the representation constants of the 8-bit-exponent
    configuration ([signBit = 0], [expBits = 8], biased exponent).

    Machine integers are modelled as [Z] with the wrap-around of each Go type
    written out: [number]/[uint64] through [u64], [int] through [i64],
    [expType]/[int32] through [i32].  Go strings are byte strings, modelled
    as [list ascii].  A Go panic is an explicit outcome of the [res] type. *)

From Stdlib Require Import ZArith List Bool Ascii String Lia Znumtheory.
Import ListNotations.
Open Scope Z_scope.

(** ** Machine integers *)

Definition u64 (x : Z) : Z := x mod 2 ^ 64.
Definition i64 (x : Z) : Z := (x + 2 ^ 63) mod 2 ^ 64 - 2 ^ 63.
Definition i32 (x : Z) : Z := (x + 2 ^ 31) mod 2 ^ 32 - 2 ^ 31.

(** ** Outcomes: a value, a returned [error], or a panic *)

Inductive strconvErr : Type :=
| ErrSyntax
| ErrRange.

(** [UnexpectedSymbol] carries the rune that the source formats with [%q]. *)
Inductive posMsg : Type :=
| UnexpectedSymbol (r : Z)
| UnexpectedDelimeter
| ExponentError (k : strconvErr).

(** [posError] of the source: a message with a position. *)
Record posError : Type := newPosError { pe_err : posMsg; pe_pos : Z }.

Inductive error : Type :=
| EmptyInput
| NegativeValue
| BadFloatNumber
| ParsingFailed (pe : posError).

Inductive panicMsg : Type :=
| DivisionByZero          (* panic("division by zero") *)
| IntegerDivideByZero     (* runtime error of [/] and [%] *)
| Div64Overflow           (* bits.Div64 with y <= hi *)
| ParseUintFailed         (* panic(err) in fromStringAndExp *).

Inductive res (A : Type) : Type :=
| Ok (a : A)
| Err (e : error)
| Panic (p : panicMsg).
Arguments Ok {A} a.
Arguments Err {A} e.
Arguments Panic {A} p.

Definition bind {A B : Type} (x : res A) (f : A -> res B) : res B :=
  match x with
  | Ok a => f a
  | Err e => Err e
  | Panic p => Panic p
  end.

Notation "x <- c1 ;; c2" := (bind c1 (fun x => c2))
  (at level 61, c1 at next level, right associativity).
Notation "' pat <- c1 ;; c2" := (bind c1 (fun x => match x with pat => c2 end))
  (at level 61, pat pattern, c1 at next level, right associativity).

Definition returns {A : Type} (x : res A) : Prop := exists a, x = Ok a.
Definition panics {A : Type} (x : res A) : Prop := exists p, x = Panic p.

(** ** Representation constants *)

Definition Value : Type := Z.

Definition bitsInNumber : Z := 64.
Definition signBit : Z := 0.
Definition expBits : Z := 8.
Definition mantBits : Z := bitsInNumber - expBits - signBit.
Definition bias : Z := - (Z.shiftl 1 (expBits - 1) - 1).
Definition maxExponent : Z := Z.shiftl 1 (expBits - 1).
Definition minExponent : Z := bias.
Definition expMask : Z := Z.shiftl 1 expBits - 1.
Definition mantMask : Z := Z.shiftl 1 mantBits - 1.
Definition maxMantissa : Z := mantMask.
Definition minMantissa : Z := 1.
Definition maxNumber : Z := Z.shiftl 1 bitsInNumber - 1.

Definition zero : Value := 0.

Definition exp (v : Value) : Z :=
  i32 (i32 (Z.land (Z.shiftr v mantBits) expMask) + bias).

Definition mant (v : Value) : Z := Z.land v mantMask.

Definition split (v : Value) : Z * Z := (mant v, exp v).

Definition fromMantAndExp (m e : Z) : Value :=
  Z.lor (u64 (Z.shiftl (u64 (i32 (e - bias))) mantBits)) (Z.land m mantMask).

Definition Max : Value := fromMantAndExp maxMantissa maxExponent.
Definition Min : Value := fromMantAndExp minMantissa minExponent.

(** ** Arithmetic kernel *)

Definition decimalFactorTable : list Z :=
  [ 1; 10; 100; 1000; 10000;
    100000; 1000000; 10000000; 100000000; 1000000000; 10000000000;
    100000000000; 1000000000000; 10000000000000; 100000000000000;
    1000000000000000; 10000000000000000; 100000000000000000;
    1000000000000000000; 10000000000000000000 ].

Definition digitsHelper : list Z :=
  [ 0; 0; 0; 0; 1; 1; 1; 2; 2; 2;
    3; 3; 3; 3; 4; 4; 4; 5; 5; 5;
    6; 6; 6; 6; 7; 7; 7; 8; 8; 8;
    9; 9; 9; 9; 10; 10; 10; 11; 11; 11;
    12; 12; 12; 12; 13; 13; 13; 14; 14; 14;
    15; 15; 15; 15; 16; 16; 16; 17; 17; 17;
    18; 18; 18; 18; 19 ].

Definition pow10 (pow : Z) : Z :=
  if (pow <? 0) || (pow >=? Z.of_nat (List.length decimalFactorTable)) then 0
  else nth (Z.to_nat pow) decimalFactorTable 0.

(** [abs] of the source: branchless, on 64-bit [int]. *)
Definition abs (val : Z) : Z :=
  let mask := Z.shiftr val 63 in
  Z.lxor (i64 (val + mask)) mask.

(** [bits.LeadingZeros64]. *)
Definition LeadingZeros64 (x : Z) : Z :=
  if x =? 0 then 64 else 63 - Z.log2 x.

Definition binaryDigits (value : Z) : Z := 64 - LeadingZeros64 value.

Definition decimalDigits (value : Z) : Z :=
  if value =? 0 then 1
  else
    let digits := nth (Z.to_nat (binaryDigits value)) digitsHelper 0 in
    if value >=? nth (Z.to_nat digits) decimalFactorTable 0 then digits + 1
    else digits.

Definition log10 (a : Z) : Z := decimalDigits a - 1.

Definition digitsInMaxMantissa : Z := decimalDigits maxMantissa.

Fixpoint trailingZeros_loop (fuel : nat) (value i : Z) : Z :=
  match fuel with
  | O => i
  | S f => if value mod 10 =? 0 then trailingZeros_loop f (value / 10) (i + 1)
           else i
  end.

Definition trailingZeros (value : Z) : Z :=
  if value =? 0 then 1 else trailingZeros_loop 20 value 0.

Definition uint64Cmp (a b : Z) : Z :=
  if a >? b then 1 else if a <? b then -1 else 0.

(** [trimZeros]: the loop runs at most [eMax - e] times. *)
Fixpoint trimZeros_loop (fuel : nat) (m e eMax : Z) : Z * Z :=
  match fuel with
  | O => (m, e)
  | S f =>
      if (e <? eMax) && (m mod 10 =? 0)
      then trimZeros_loop f (m / 10) (i32 (e + 1)) eMax
      else (m, e)
  end.

Definition trimZeros (m e eMax : Z) : Z * Z :=
  trimZeros_loop (Z.to_nat (eMax - e)) m e eMax.

(** [adjustMantExp]: the first loop divides a positive mantissa, so twenty
    rounds exhaust any 64-bit number; the second decrements the exponent down
    to [maxExponent] at most. *)
Fixpoint adjust_up (fuel : nat) (m e : Z) : Z * Z :=
  match fuel with
  | O => (m, e)
  | S f =>
      if ((m >? maxMantissa) || (e <? minExponent)) && (m >? 0)
         && (i32 (e + 1) <? maxExponent)
      then adjust_up f (m / 10) (i32 (e + 1))
      else (m, e)
  end.

Fixpoint adjust_down (fuel : nat) (m e : Z) : Z * Z :=
  match fuel with
  | O => (m, e)
  | S f =>
      if (e >? maxExponent) && (u64 (m * 10) <? maxMantissa)
      then adjust_down f (u64 (m * 10)) (i32 (e - 1))
      else (m, e)
  end.

Definition adjustMantExp (m e : Z) : Value :=
  let '(m, e) := adjust_up 20 m e in
  let '(m, e) := adjust_down (Z.to_nat (e - maxExponent)) m e in
  if (m =? 0) || (e <? minExponent) then zero
  else if e >? maxExponent then Max
  else fromMantAndExp m e.

Definition FromUint64 (v : Z) : Value := adjustMantExp v 0.
Definition FromMantAndExp (m e : Z) : Value := adjustMantExp m e.

Definition Normalized (v : Value) : Value :=
  let '(m, e) := split v in
  if m =? 0 then zero
  else let '(m', e') := trimZeros m e maxExponent in fromMantAndExp m' e'.

Definition IsZero (v : Value) : bool := mant v =? 0.

(** ** Multiplication *)

(** [bits.Div64]: panics when the quotient does not fit. *)
Definition Div64 (hi lo y : Z) : res (Z * Z) :=
  if y =? 0 then Panic IntegerDivideByZero
  else if y <=? hi then Panic Div64Overflow
  else Ok ((hi * 2 ^ 64 + lo) / y, (hi * 2 ^ 64 + lo) mod y).

(** [bits.Mul64]: the high and the low word of the 128-bit product. *)
Definition Mul64 (a b : Z) : Z * Z := ((a * b) / 2 ^ 64, (a * b) mod 2 ^ 64).

Definition mul64 (a b : Z) : res (Z * Z) :=
  let '(hi, lo) := Mul64 a b in
  if hi >? 0 then
    let expShift := decimalDigits hi in
    let toDiv := pow10 expShift in
    '(lo', _) <- Div64 hi lo toDiv ;;
    Ok (lo', expShift)
  else Ok (lo, 0).

Definition Mul (v other : Value) : res Value :=
  let v := Normalized v in
  let other := Normalized other in
  let '(m1, e1) := split v in
  let '(m2, e2) := split other in
  if (m1 =? 0) || (m2 =? 0) then Ok zero
  else
    let e := i64 (e1 + e2) in
    '(r, eShift) <- mul64 m1 m2 ;;
    let e := i64 (e + eShift) in
    Ok (adjustMantExp r (i32 e)).

(** ** Integer division that can fault *)

Definition udiv (a b : Z) : res Z :=
  if b =? 0 then Panic IntegerDivideByZero else Ok (a / b).

Definition umod (a b : Z) : res Z :=
  if b =? 0 then Panic IntegerDivideByZero else Ok (a mod b).

(** ** Addition and subtraction *)

(** [doToEqualExp] assumes [e1 >= e2]. *)
Definition doToEqualExp (m1 e1 m2 e2 : Z) : res (Z * Z * Z) :=
  let ediff := i32 (e1 - e2) in
  if ediff =? 0 then Ok (m1, m2, e1)
  else
    let '(m2, e2) := trimZeros m2 e2 e1 in
    let ediff := i32 (e1 - e2) in
    if ediff =? 0 then Ok (m1, m2, e1)
    else
      q <- udiv maxMantissa m1 ;;
      let toMult := i32 (log10 q) in
      let toMult := if toMult >? ediff then ediff else toMult in
      let m1 := u64 (m1 * pow10 toMult) in
      let e1 := i32 (e1 - toMult) in
      let ediff := i32 (e1 - e2) in
      if ediff =? 0 then Ok (m1, m2, e1)
      else
        let toDiv := pow10 ediff in
        let m2 := if toDiv >? 0 then m2 / toDiv else 0 in
        Ok (m1, m2, e1).

Definition toEqualExp (m1 e1 m2 e2 : Z) : res (Z * Z * Z) :=
  if e1 >=? e2 then doToEqualExp m1 e1 m2 e2
  else
    '(r1, r2, re) <- doToEqualExp m2 e2 m1 e1 ;;
    Ok (r2, r1, re).

Definition addWithExp (m1 m2 e : Z) : Value :=
  let r := u64 (m1 + m2) in
  if r >? maxMantissa then
    if e =? maxExponent then Max
    else fromMantAndExp (r / 10) (i32 (e + 1))
  else fromMantAndExp r e.

Definition subWithExp (m1 m2 e : Z) : Value * bool :=
  if m1 >=? m2 then (fromMantAndExp (u64 (m1 - m2)) e, false)
  else (fromMantAndExp (u64 (m2 - m1)) e, true).

Definition Add (v other : Value) : res Value :=
  let '(m1, e1) := split v in
  let '(m2, e2) := split other in
  if m1 =? 0 then (if m2 =? 0 then Ok zero else Ok other)
  else if m2 =? 0 then Ok v
  else
    '(r1, r2, re) <- toEqualExp m1 e1 m2 e2 ;;
    Ok (addWithExp r1 r2 re).

Definition Sub (v other : Value) : res (Value * bool) :=
  let '(m1, e1) := split v in
  let '(m2, e2) := split other in
  if m2 =? 0 then (if m1 =? 0 then Ok (zero, false) else Ok (v, false))
  else if m1 =? 0 then Ok (other, true)
  else
    '(r1, r2, re) <- toEqualExp m1 e1 m2 e2 ;;
    Ok (subWithExp r1 r2 re).

(** ** Comparison *)

Definition Cmp (v other : Value) : Z :=
  let '(m1, e1) := split v in
  let '(m2, e2) := split other in
  let ediff := i32 (e1 - e2) in
  if (ediff =? 0) || (m1 =? 0) || (m2 =? 0) then uint64Cmp m1 m2
  else
    let maxDigit1 := i64 (e1 + decimalDigits m1) in
    let maxDigit2 := i64 (e2 + decimalDigits m2) in
    if maxDigit1 >? maxDigit2 then 1
    else if maxDigit1 <? maxDigit2 then -1
    else if ediff >? 0 then uint64Cmp (u64 (m1 * pow10 ediff)) m2
    else uint64Cmp m1 (u64 (m2 * pow10 (i64 (- ediff)))).

Definition Eq (v other : Value) : bool :=
  if v =? other then true else Normalized v =? Normalized other.

(** ** Floor, Round, Ceil *)

Definition modeFloor : Z := 0.
Definition modeRound : Z := 1.
Definition modeCeil : Z := 2.

(** The tail of [round], from [if toCut <= 0] on; [e] is the exponent the
    function was called with, [ei] its working copy. *)
Definition round_cut (n e ei dd toCut prec mode : Z) : res (Z * Z) :=
  if toCut <=? 0 then Ok (n, e)
  else
    let toCut := if toCut >? dd then dd else toCut in
    let p := pow10 toCut in
    r <- umod n p ;;
    n <- udiv n p ;;
    let ei := i64 (ei + toCut) in
    if mode =? modeRound then
      (if r >? p / 2 then Ok (u64 (n + 1), i32 ei) else Ok (n, i32 ei))
    else if mode =? modeCeil then
      (if negb (r =? 0) then
         (if n >? 0 then Ok (u64 (n + 1), i32 ei)
          else if prec >=? 0 then Ok (1, i32 (i64 (- prec)))
          else Ok (n, i32 ei))
       else Ok (n, i32 ei))
    else Ok (n, i32 ei).

Definition round (n e prec mode : Z) : res (Z * Z) :=
  let ei := e in
  let dd := decimalDigits n in
  if prec >=? 0 then round_cut n e ei dd (i64 (- ei - prec)) prec mode
  else if e <? 0 then
    let dd := i64 (dd + ei) in
    if dd <=? 0 then
      (if (n >? 0) && (mode =? modeCeil) && (prec >=? 0)
       then Ok (1, i32 (i64 (- prec)))
       else Ok (0, 0))
    else
      n <- udiv n (pow10 (i64 (- ei))) ;;
      round_cut n e 0 dd (i64 (- prec)) prec mode
  else round_cut n e ei dd (i64 (- prec)) prec mode.

Definition Floor (v : Value) (prec : Z) : res Value :=
  let '(m, e) := split v in
  '(n, e') <- round m e prec modeFloor ;; Ok (adjustMantExp n e').

Definition Round (v : Value) (prec : Z) : res Value :=
  let '(m, e) := split v in
  '(n, e') <- round m e prec modeRound ;; Ok (adjustMantExp n e').

Definition Ceil (v : Value) (prec : Z) : res Value :=
  let '(m, e) := split v in
  '(n, e') <- round m e prec modeCeil ;; Ok (adjustMantExp n e').

(** ** Division *)

Definition divMod (v1 v2 : Value) : res (Z * Z * Z) :=
  let '(m1, e1) := split v1 in
  let '(m2, e2) := split v2 in
  if m2 =? 0 then Panic DivisionByZero
  else if m1 =? 0 then Ok (0, 0, 0)
  else
    let e := i32 (e1 - e2) in
    if m1 mod m2 =? 0 then Ok (m1 / m2, 0, e)
    else
      let toMult := log10 (maxNumber / m1) in
      let m1 := u64 (m1 * pow10 toMult) in
      let e := i32 (e - i32 toMult) in
      Ok (m1 / m2, m1 mod m2, e).

Definition DivMod (v other : Value) (prec : Z) : res (Value * Value) :=
  let v := Normalized v in
  let other := Normalized other in
  '(q, r, e) <- divMod v other ;;
  if r =? 0 then Ok (Normalized (adjustMantExp q e), zero)
  else
    let '(q, e) := if e <? maxExponent then trimZeros q e maxExponent
                   else (q, e) in
    '(q, e) <- round q e prec modeFloor ;;
    let quo := adjustMantExp q e in
    p <- Mul other quo ;;
    '(rem, _) <- Sub v p ;;
    Ok (quo, rem).

Section FloatPath.

(** The float64 computation of [float64Div], after its zero check: the
    mantissas and exponents of both operands go in, the [Value] that
    [FromFloat64] builds from the float quotient comes out.  Floating-point
    arithmetic is not modelled; it never faults. *)
Variable float64Quo : Z -> Z -> Z -> Z -> Value.

Definition float64Div (a b : Value) : res Value :=
  let '(m1, e1) := split a in
  let '(m2, e2) := split b in
  if m2 =? 0 then Panic DivisionByZero
  else Ok (float64Quo m1 e1 m2 e2).

Definition Div (v other : Value) : res Value :=
  let v := Normalized v in
  let other := Normalized other in
  '(quo, rem, e) <- divMod v other ;;
  if rem =? 0 then Ok (Normalized (adjustMantExp quo e))
  else float64Div v other.

End FloatPath.

(** ** Conversion to uint64 *)

Definition toUint64 (v : Value) : Z * bool :=
  let v := Normalized v in
  let e := exp v in
  let m := mant v in
  if m =? 0 then (0, true)
  else if e =? 0 then (m, true)
  else
    let p := pow10 (abs e) in
    if p =? 0 then (maxMantissa, false)
    else if e <? 0 then (m / p, trailingZeros m >=? i64 (- e))
    else
      let intPart := maxMantissa / m in
      let frac := maxMantissa mod m in
      let e2 := i64 (decimalDigits intPart - 1) in
      if (e2 >? e) || ((e2 =? e) && (u64 (maxMantissa - frac) <=? u64 (intPart * m)))
      then (u64 (m * p), true)
      else (maxMantissa, false).

Definition Uint64 (v : Value) : Z := fst (toUint64 v).

(** ** Byte strings *)

Definition code (c : ascii) : Z := Z.of_N (N_of_ascii c).
Definition byte (n : Z) : ascii := ascii_of_N (Z.to_N n).
Definition len (s : list ascii) : Z := Z.of_nat (List.length s).
Definition lit (s : string) : list ascii := list_ascii_of_string s.

Definition isDigit (r : ascii) : bool := (48 <=? code r) && (code r <=? 57).
Definition digitChar (d : Z) : ascii := byte (48 + d).
Definition digitVal (c : ascii) : Z := code c - 48.

Definition delim : ascii := "."%char.

(** The double quote, byte 34. *)
Definition quote : ascii := byte 34.

(** [strconv.FormatUint(m, 10)]: digits are produced from the least
    significant one, as [formatBits] does. *)
Fixpoint formatBits (fuel : nat) (n : Z) : list ascii :=
  match fuel with
  | O => []
  | S f => if n <? 10 then [digitChar n]
           else digitChar (n mod 10) :: formatBits f (n / 10)
  end.

Definition FormatUint (m : Z) : list ascii := rev (formatBits 20 m).

(** [strconv.FormatInt(i, 10)] and [strconv.Itoa]. *)
Definition FormatInt (i : Z) : list ascii :=
  if i <? 0 then "-"%char :: FormatUint (- i) else FormatUint i.

Definition Itoa (i : Z) : list ascii := FormatInt i.

Definition manyZeros : list ascii := repeat "0"%char 145.

Definition zeroStr (l : Z) : list ascii :=
  if l <? 0 then []
  else
    let l := if l >=? len manyZeros then len manyZeros - 1 else l in
    firstn (Z.to_nat l) manyZeros.

(** [Value.WriteToStringsBuilder] on an empty builder, that is [Value.String]. *)
Definition String (v : Value) : list ascii :=
  let v := Normalized v in
  let '(m, e) := split v in
  if m =? 0 then lit "0"
  else
    let s := FormatUint m in
    if e =? 0 then s
    else if e >? 0 then
      let zeros := zeroStr e in
      let moreZeros := i64 (e - len zeros) in
      s ++ zeros ++ (if moreZeros >? 0 then lit "e" ++ Itoa moreZeros else [])
    else
      let diff := i64 (len s + e) in
      if diff <=? 0 then
        let zeros := zeroStr (i64 (- diff)) in
        let moreZeros := i64 (i64 (- diff) - len zeros) in
        "0"%char :: delim :: zeros ++ s
          ++ (if moreZeros >? 0 then lit "e-" ++ Itoa moreZeros else [])
      else
        firstn (Z.to_nat diff) s ++ delim :: skipn (Z.to_nat diff) s.

(** ** Parsing *)

(** [unicode.IsSpace] on a decoded rune, read off the UTF-8 bytes: the ASCII
    spaces, U+0085 and U+00A0 in two bytes, and the three-byte spaces U+1680,
    U+2000..U+200A, U+2028, U+2029, U+202F, U+205F, U+3000. *)
Definition isSpace1 (c : ascii) : bool :=
  let n := code c in
  ((9 <=? n) && (n <=? 13)) || (n =? 32).

Definition isSpace2 (c1 c2 : ascii) : bool :=
  (code c1 =? 194) && ((code c2 =? 133) || (code c2 =? 160)).

Definition isSpace3 (c1 c2 c3 : ascii) : bool :=
  ((code c1 =? 225) && (code c2 =? 154) && (code c3 =? 128))
  || ((code c1 =? 226) && (code c2 =? 128)
      && (((128 <=? code c3) && (code c3 <=? 138))
          || (code c3 =? 168) || (code c3 =? 169) || (code c3 =? 175)))
  || ((code c1 =? 226) && (code c2 =? 129) && (code c3 =? 159))
  || ((code c1 =? 227) && (code c2 =? 128) && (code c3 =? 128)).

(** [strings.TrimLeftFunc(s, unicode.IsSpace)]. *)
Fixpoint TrimLeftSpace (s : list ascii) : list ascii :=
  match s with
  | [] => []
  | c1 :: s1 =>
      if isSpace1 c1 then TrimLeftSpace s1
      else
        match s1 with
        | [] => s
        | c2 :: s2 =>
            if isSpace2 c1 c2 then TrimLeftSpace s2
            else
              match s2 with
              | [] => s
              | c3 :: s3 => if isSpace3 c1 c2 c3 then TrimLeftSpace s3 else s
              end
        end
  end.

(** The same scan over the reversed string: the last rune is read backwards. *)
Fixpoint trimSpaceRev (s : list ascii) : list ascii :=
  match s with
  | [] => []
  | c1 :: s1 =>
      if isSpace1 c1 then trimSpaceRev s1
      else
        match s1 with
        | [] => s
        | c2 :: s2 =>
            if isSpace2 c2 c1 then trimSpaceRev s2
            else
              match s2 with
              | [] => s
              | c3 :: s3 => if isSpace3 c3 c2 c1 then trimSpaceRev s3 else s
              end
        end
  end.

(** [strings.TrimRightFunc(s, unicode.IsSpace)]. *)
Definition TrimRightSpace (s : list ascii) : list ascii :=
  rev (trimSpaceRev (rev s)).

Definition prepareString (s : list ascii) : list ascii * Z * bool :=
  match s with
  | [] => ([], 0, false)
  | c :: t =>
      let '(s, offset) := if Ascii.eqb c quote then (t, 1) else (s, 0) in
      if len s =? 0 then ([], 0, false)
      else
        let s := if Ascii.eqb (last s " "%char) quote then removelast s
                 else s in
        let trimmed := TrimLeftSpace s in
        let '(s, offset) :=
          if negb (len trimmed =? len s)
          then (trimmed, offset + (len s - len trimmed))
          else (s, offset) in
        let s := TrimRightSpace s in
        match s with
        | [] => ([], 0, false)
        | c :: t =>
            if Ascii.eqb c "-"%char then (t, offset + 1, true)
            else if Ascii.eqb c "+"%char then (t, offset + 1, false)
            else (s, offset, false)
        end
  end.

(** [strconv.ParseUint(s, 10, 64)]. *)
Fixpoint parseUint_loop (s : list ascii) (n : Z) : strconvErr + Z :=
  match s with
  | [] => inr n
  | c :: t =>
      if negb (isDigit c) then inl ErrSyntax
      else if n >=? (2 ^ 64 - 1) / 10 + 1 then inl ErrRange
      else
        let n1 := n * 10 + digitVal c in
        if n1 >? 2 ^ 64 - 1 then inl ErrRange
        else parseUint_loop t n1
  end.

Definition ParseUint (s : list ascii) : strconvErr + Z :=
  match s with
  | [] => inl ErrSyntax
  | _ => parseUint_loop s 0
  end.

(** [strconv.ParseInt(s, 10, 64)]. *)
Definition ParseInt (s : list ascii) : strconvErr + Z :=
  match s with
  | [] => inl ErrSyntax
  | c :: t =>
      let '(neg, s) :=
        if Ascii.eqb c "+"%char then (false, t)
        else if Ascii.eqb c "-"%char then (true, t)
        else (false, s) in
      match ParseUint s with
      | inl e => inl e
      | inr un =>
          let cutoff := 2 ^ 63 in
          if negb neg && (un >=? cutoff) then inl ErrRange
          else if neg && (un >? cutoff) then inl ErrRange
          else inr (if neg then - un else un)
      end
  end.

(** The rune that [for i, r := range s] yields at the head of [s]: the
    code point of a well-formed UTF-8 sequence (shortest form, no surrogate,
    at most U+10FFFF), and [RuneError] for any other byte. *)
Definition RuneError : Z := 65533.

Definition within (lo hi : Z) (c : ascii) : bool :=
  (lo <=? code c) && (code c <=? hi).

Definition DecodeRune (s : list ascii) : Z :=
  match s with
  | [] => RuneError
  | b0 :: t =>
      let c0 := code b0 in
      if c0 <? 128 then c0
      else if c0 <? 194 then RuneError
      else if c0 <? 224 then
        match t with
        | b1 :: _ =>
            if within 128 191 b1
            then Z.lor (Z.shiftl (Z.land c0 31) 6) (Z.land (code b1) 63)
            else RuneError
        | _ => RuneError
        end
      else if c0 <? 240 then
        let lo := if c0 =? 224 then 160 else 128 in
        let hi := if c0 =? 237 then 159 else 191 in
        match t with
        | b1 :: b2 :: _ =>
            if within lo hi b1 && within 128 191 b2
            then Z.lor (Z.shiftl (Z.land c0 15) 12)
                   (Z.lor (Z.shiftl (Z.land (code b1) 63) 6)
                      (Z.land (code b2) 63))
            else RuneError
        | _ => RuneError
        end
      else if c0 <? 245 then
        let lo := if c0 =? 240 then 144 else 128 in
        let hi := if c0 =? 244 then 143 else 191 in
        match t with
        | b1 :: b2 :: b3 :: _ =>
            if within lo hi b1 && within 128 191 b2 && within 128 191 b3
            then Z.lor (Z.shiftl (Z.land c0 7) 18)
                   (Z.lor (Z.shiftl (Z.land (code b1) 63) 12)
                      (Z.lor (Z.shiftl (Z.land (code b2) 63) 6)
                         (Z.land (code b3) 63)))
            else RuneError
        | _ => RuneError
        end
      else RuneError
  end.

(** The scan of [removeLeadingZeros]: [i] is the index of the next byte, [b]
    the builder, and the result carries the builder, [delimPos],
    [firstNonZeroPos] and the exponent read after an 'e'.  The source ranges
    over runes: a rune outside ASCII is no digit, no ['e'] and no delimiter,
    so it falls in the default case at the index of its first byte, and the
    bytes before it are all one-byte runes.  The default case reports the
    decoded rune. *)
Fixpoint scan (s : list ascii) (i : Z) (b : list ascii)
    (delimPos firstNonZeroPos : Z) : posError + (list ascii * Z * Z * Z) :=
  match s with
  | [] => inr (b, delimPos, firstNonZeroPos, 0)
  | r :: t =>
      if isDigit r then
        if len b =? 0 then
          if Ascii.eqb r "0"%char then scan t (i + 1) b delimPos firstNonZeroPos
          else scan t (i + 1) (b ++ [r]) delimPos i
        else scan t (i + 1) (b ++ [r]) delimPos firstNonZeroPos
      else if Ascii.eqb r "e"%char then
        match ParseInt t with
        | inl k => inl (newPosError (ExponentError k) (i + 1))
        | inr parsed => inr (b, delimPos, firstNonZeroPos, i32 parsed)
        end
      else if Ascii.eqb r delim then
        if negb (delimPos =? -1) then inl (newPosError UnexpectedDelimeter i)
        else scan t (i + 1) b i firstNonZeroPos
      else inl (newPosError (UnexpectedSymbol (DecodeRune s)) i)
  end.

Definition removeLeadingZeros (s : list ascii)
  : posError + (list ascii * Z * Z) :=
  match scan s 0 [] (-1) (-1) with
  | inl pe => inl pe
  | inr (result, delimPos, firstNonZeroPos, e) =>
      if firstNonZeroPos =? -1 then inr ([], 0, 0)
      else if delimPos >=? 0 then
        let firstNonZeroPos :=
          if delimPos <? firstNonZeroPos then firstNonZeroPos - 1
          else firstNonZeroPos in
        inr (result, delimPos - firstNonZeroPos, e)
      else inr (result, len result, e)
  end.

Fixpoint dropZerosRev (s : list ascii) : list ascii :=
  match s with
  | c :: t => if Ascii.eqb c "0"%char then dropZerosRev t else s
  | [] => []
  end.

Definition removeTrailingZerosString (s : list ascii) (delimPos : Z)
  : list ascii * Z :=
  let s := rev (dropZerosRev (rev s)) in
  (s, i32 (delimPos - len s)).

Definition parseValue (s : list ascii) : posError + (list ascii * Z) :=
  match removeLeadingZeros s with
  | inl pe => inl pe
  | inr (result, delimPos, e) =>
      let '(result, eFromDelim) := removeTrailingZerosString result delimPos in
      inr (result, i32 (e + eFromDelim))
  end.

Definition fromStringAndExp (s : list ascii) (e : Z) : res Value :=
  if len s =? 0 then Ok zero
  else
    let toCut := len s - digitsInMaxMantissa in
    let '(s, e) :=
      if toCut >? 0 then
        let expInc := i32 toCut in
        let expInc := if e <? 0 then i32 (expInc - i32 (- e)) else expInc in
        let e := if expInc >? 0 then i32 (e + expInc) else e in
        (firstn (Z.to_nat digitsInMaxMantissa) s, e)
      else (s, e) in
    match ParseUint s with
    | inl _ => Panic ParseUintFailed
    | inr u => Ok (adjustMantExp u e)
    end.

Definition addPosError (pe : posError) (offset : Z) : posError :=
  newPosError (pe_err pe) (pe_pos pe + offset).

Section FloatFallback.

(** [strconv.ParseFloat(s, 64)] followed by [FromFloat64]: [None] when the
    text is no float, otherwise what [FromFloat64] returns for the parsed
    number.  Floating-point parsing and conversion are not modelled. *)
Variable parseFloatValue : list ascii -> option (res Value).

Definition FromString (s : list ascii) : res Value :=
  let '(s, offset, neg) := prepareString s in
  if len s =? 0 then Err EmptyInput
  else if neg then Err NegativeValue
  else
    match parseValue s with
    | inl pe =>
        match parseFloatValue s with
        | Some r => r
        | None => Err (ParsingFailed (addPosError pe (offset + 1)))
        end
    | inr (parsed, e) => fromStringAndExp parsed e
    end.

End FloatFallback.

(** ** JSON *)

Definition JSONModeString : Z := 0.
Definition JSONModeFloat : Z := 1.
Definition JSONModeME : Z := 2.
Definition JSONModeCompact : Z := 3.

Definition jsonParts : list (list ascii) :=
  [ lit "{" ++ quote :: lit "m" ++ quote :: lit ":";
    lit "," ++ quote :: lit "e" ++ quote :: lit ":";
    lit "}" ].

Definition jsonLen : Z :=
  len (nth 0 jsonParts []) + len (nth 1 jsonParts []) + len (nth 2 jsonParts []).

Definition toMEJSON (v : Value) : list ascii :=
  let v := Normalized v in
  let '(m, e) := split v in
  nth 0 jsonParts [] ++ FormatUint m ++ nth 1 jsonParts [] ++ FormatInt e
    ++ nth 2 jsonParts [].

Definition int64DecimalLen (value : Z) : Z :=
  if value <? 0 then i64 (1 + decimalDigits (u64 (i64 (- value))))
  else i64 (0 + decimalDigits (u64 value)).

Definition jsonMELen (v : Value) : Z :=
  i64 (i64 (jsonLen + decimalDigits (mant v)) + int64DecimalLen (exp v)).

Definition calcStrLen (v : Value) : Z :=
  let v := Normalized v in
  let mantLen := decimalDigits (mant v) in
  let sLen := i64 (2 + mantLen) in
  let e := exp v in
  if e >? 0 then i64 (sLen + e)
  else
    let sLen := i64 (sLen + 1) in
    let diff := i64 (e + mantLen) in
    if diff <? 0 then i64 (sLen + i64 (- diff)) else sLen.

Section FloatJSON.

(** [strconv.FormatFloat(v.Float64(), 'f', -1, 64)]; not modelled. *)
Variable formatFloat : Value -> list ascii.

Definition toJSONString (v : Value) : list ascii :=
  quote :: String v ++ [quote].

(** [Value.toJSON]; the compact case calls the function again with the
    mode it has chosen, which is unfolded here. *)
Definition toJSON (v : Value) (mode : Z) : list ascii :=
  if mode =? JSONModeFloat then formatFloat v
  else if mode =? JSONModeME then toMEJSON v
  else if mode =? JSONModeCompact then
    (if calcStrLen v <=? jsonMELen v then toJSONString v else toMEJSON v)
  else toJSONString v.

End FloatJSON.

(** ** Change of exponent *)

(** [Value.ToExp]; [target] is the parameter the source calls [exp]. *)
Definition ToExp (v : Value) (target : Z) : res Value :=
  if target >? maxExponent then Ok Max
  else if target <? minExponent then Ok (fromMantAndExp 0 minExponent)
  else
    let '(m, e) := split v in
    let diff := i32 (e - target) in
    if diff =? 0 then Ok v
    else
      let p := pow10 (abs diff) in
      if p =? 0 then Ok (fromMantAndExp 0 target)
      else if diff >? 0 then
        q <- udiv maxMantissa m ;;
        if q <? p then Ok (fromMantAndExp maxMantissa target)
        else Ok (fromMantAndExp (u64 (m * p)) target)
      else
        q <- udiv m p ;;
        Ok (fromMantAndExp q target).

Definition MantUint64 (v : Value) : Z := u64 (mant v).

(** ** Decoding JSON *)

Inductive unmarshalError : Type :=
| EmptyJSON                       (* "empty json" *)
| ObjectError                     (* the error of json.Unmarshal *)
| ValueError (e : error)          (* the error of FromString *).

Section Unmarshal.

Variable parseFloatValue : list ascii -> option (res Value).

(** [json.Unmarshal] into the struct with the fields [M] and [E]: [None] when
    it fails.  The JSON decoder is not modelled. *)
Variable jsonUnmarshalME : list ascii -> option (Z * Z).

(** [Value.UnmarshalJSON], a method on a pointer: the word behind the
    receiver goes in, and comes out with the error, unchanged when there is
    one. *)
Definition UnmarshalJSON (v : Value) (data : list ascii)
  : res (Value * option unmarshalError) :=
  match data with
  | [] => Ok (v, Some EmptyJSON)
  | c :: _ =>
      if Ascii.eqb c "{"%char then
        match jsonUnmarshalME data with
        | None => Ok (v, Some ObjectError)
        | Some (m, e) => Ok (FromMantAndExp m e, None)
        end
      else
        match FromString parseFloatValue data with
        | Ok value => Ok (value, None)
        | Err err => Ok (v, Some (ValueError err))
        | Panic p => Panic p
        end
  end.

End Unmarshal.

(** ** Signed values ([signed.go]) *)

Record Signed : Type := mkSigned { Neg : bool; V : Value }.

Definition signedZero : Signed := mkSigned false zero.

Definition NewSigned (v : Value) (neg : bool) : Signed := mkSigned neg v.

Definition PosValue (v : Value) : Signed := NewSigned v false.

Definition NegValue (v : Value) : Signed := NewSigned v true.

Definition Signed_String (s : Signed) : list ascii :=
  (if Neg s then ["-"%char] else []) ++ String (V s).

Definition Signed_Add (s other : Signed) : res Signed :=
  if Bool.eqb (Neg s) (Neg other) then
    r <- Add (V s) (V other) ;; Ok (NewSigned r (Neg s))
  else if negb (Neg s) then
    '(r, neg) <- Sub (V s) (V other) ;; Ok (NewSigned r neg)
  else
    '(r, neg) <- Sub (V other) (V s) ;; Ok (NewSigned r neg).

Definition Signed_Sub (s other : Signed) : res Signed :=
  let other := mkSigned (negb (Neg other)) (V other) in
  Signed_Add s other.

Definition Signed_Mul (s other : Signed) : res Signed :=
  r <- Mul (V s) (V other) ;;
  Ok (NewSigned r (negb (Bool.eqb (Neg s) (Neg other)))).

Definition Signed_Sign (s : Signed) : Z :=
  if IsZero (V s) then 0 else if Neg s then -1 else 1.

Definition Signed_DivMod (s other : Signed) (prec : Z)
  : res (Signed * Signed) :=
  '(q, r) <- DivMod (V s) (V other) prec ;;
  let neg := negb (Bool.eqb (Neg s) (Neg other)) in
  Ok (NewSigned q neg, NewSigned r (Signed_Sign s <? 0)).

Definition Signed_Normalized (s : Signed) : Signed :=
  if IsZero (V s) then signedZero
  else NewSigned (Normalized (V s)) (Neg s).

Definition Signed_Eq (s other : Signed) : bool :=
  if negb (Bool.eqb (Neg s) (Neg other))
  then IsZero (V s) && IsZero (V other)
  else Eq (V s) (V other).

Definition Signed_Cmp (s other : Signed) : Z :=
  let s1 := Signed_Sign s in
  let s2 := Signed_Sign other in
  if s1 >? s2 then 1
  else if s1 <? s2 then -1
  else i64 (Cmp (V s) (V other) * s1).

Definition AddValue (s : Signed) (v : Value) : res Signed :=
  if negb (Neg s) then r <- Add (V s) v ;; Ok (PosValue r)
  else '(r, neg) <- Sub v (V s) ;; Ok (NewSigned r neg).

Definition SubValue (s : Signed) (v : Value) : res Signed :=
  if Neg s then r <- Add (V s) v ;; Ok (NegValue r)
  else '(r, neg) <- Sub (V s) v ;; Ok (NewSigned r neg).

Definition MulValue (s : Signed) (v : Value) : res Signed :=
  r <- Mul (V s) v ;; Ok (NewSigned r (Neg s)).

Definition DivModValue (s : Signed) (other : Value) (prec : Z)
  : res (Signed * Signed) :=
  Signed_DivMod s (PosValue other) prec.

Definition EqValue (s : Signed) (other : Value) : bool :=
  if Neg s then IsZero (V s) && IsZero other
  else Eq (V s) other.

Definition CmpValue (s : Signed) (other : Value) : Z :=
  if Neg s then
    (if IsZero (V s) && IsZero other then 0 else -1)
  else Cmp (V s) other.

(** ** Notions used in the statements *)

(** A [Value] is a 64-bit word. *)
Definition isValue (v : Value) : Prop := 0 <= v < 2 ^ 64.

(** The number a word stands for, in units of [10 ^ minExponent]. *)
Definition scaled (v : Value) : Z := mant v * 10 ^ (exp v - minExponent).

(** A word in canonical form: a zero mantissa only in [zero]; otherwise no
    trailing zero in the mantissa below the largest exponent. *)
Definition normal (m e : Z) : Prop :=
  0 < m <= maxMantissa /\ minExponent <= e <= maxExponent /\
  (e < maxExponent -> m mod 10 <> 0).

(** What the correction table must satisfy at [b] binary digits. *)
Definition digitsHelper_ok (b : Z) : bool :=
  let t := nth (Z.to_nat b) digitsHelper 0 in
  (0 <=? t) && (t <=? 19)
  && (nth (Z.to_nat t) decimalFactorTable 0 =? 10 ^ t)
  && (2 ^ b <=? 10 ^ (t + 1))
  && ((b =? 0) || (10 ^ (t - 1) <=? 2 ^ (b - 1))).

(** Text made of decimal digits with at most one delimiter. *)
Definition decimalText (s : list ascii) : Prop :=
  Forall (fun c => isDigit c = true \/ c = delim) s /\
  (count_occ ascii_dec s delim <= 1)%nat.

(** The four layouts of [Value.String] for a non-zero canonical mantissa and
    exponent, without the exponent suffix. *)
Definition render (m e : Z) : list ascii :=
  let s := FormatUint m in
  if e =? 0 then s
  else if e >? 0 then s ++ repeat "0"%char (Z.to_nat e)
  else
    let diff := len s + e in
    if diff <=? 0 then
      "0"%char :: delim :: repeat "0"%char (Z.to_nat (- diff)) ++ s
    else firstn (Z.to_nat diff) s ++ delim :: skipn (Z.to_nat diff) s.

(** The number [m * 10 ^ e] of a mantissa and an exponent that need not fit
    a word, in units of [10 ^ -1000]. *)
Definition num (m e : Z) : Z := m * 10 ^ (e + 1000).

(** The number a signed value stands for, in units of [10 ^ minExponent]. *)
Definition signedScaled (s : Signed) : Z :=
  if Neg s then - scaled (V s) else scaled (V s).

(** Every byte of the text is an ASCII space in the sense of
    [unicode.IsSpace]. *)
Definition blank (s : list ascii) : Prop := forallb isSpace1 s = true.

(** The mantissa without its decimal places, and the decimal places
    themselves: for an exponent below zero the integer part of the number
    and what stands after the point; the mantissa and nothing otherwise. *)
Definition wholeDigits (v : Value) : Z :=
  if exp v <? 0 then mant v / 10 ^ (- exp v) else mant v.

Definition fracDigits (v : Value) : Z :=
  if exp v <? 0 then mant v mod 10 ^ (- exp v) else 0.

(** * Properties *)

(** ** Machine integers *)

Lemma u64_small (x : Z) : 0 <= x < 2 ^ 64 -> u64 x = x.
Proof. intros H. unfold u64. apply Z.mod_small. exact H. Qed.

Lemma i64_small (x : Z) : - 2 ^ 63 <= x < 2 ^ 63 -> i64 x = x.
Proof. intros H. unfold i64. rewrite Z.mod_small; lia. Qed.

Lemma i32_small (x : Z) : - 2 ^ 31 <= x < 2 ^ 31 -> i32 x = x.
Proof. intros H. unfold i32. rewrite Z.mod_small; lia. Qed.

Lemma u64_range (x : Z) : 0 <= u64 x < 2 ^ 64.
Proof. unfold u64. apply Z.mod_pos_bound. lia. Qed.

(** Drop every wrap whose argument [lia] shows to be in range. *)
Ltac small :=
  repeat match goal with
         | |- context [i32 ?x] => rewrite (i32_small x) by lia
         | |- context [i64 ?x] => rewrite (i64_small x) by lia
         | |- context [u64 ?x] => rewrite (u64_small x) by lia
         end.

(** ** The packed word *)

Lemma maxMantissa_eq : maxMantissa = 72057594037927935.
Proof. reflexivity. Qed.

Lemma maxExponent_eq : maxExponent = 128.
Proof. reflexivity. Qed.

Lemma minExponent_eq : minExponent = -127.
Proof. reflexivity. Qed.

Lemma mant_mod (v : Value) : mant v = v mod 2 ^ 56.
Proof.
  unfold mant. change mantMask with (Z.ones 56).
  apply Z.land_ones. lia.
Qed.

Lemma mant_range (v : Value) : 0 <= mant v <= maxMantissa.
Proof.
  rewrite mant_mod, maxMantissa_eq.
  pose proof (Z.mod_pos_bound v (2 ^ 56)). lia.
Qed.

Lemma exp_eq (v : Value) : exp v = (v / 2 ^ 56) mod 2 ^ 8 - 127.
Proof.
  unfold exp. change expMask with (Z.ones 8). change mantBits with 56.
  rewrite Z.land_ones by lia. rewrite Z.shiftr_div_pow2 by lia.
  change bias with (-127).
  pose proof (Z.mod_pos_bound (v / 2 ^ 56) (2 ^ 8)).
  small. lia.
Qed.

Lemma exp_range (v : Value) : minExponent <= exp v <= maxExponent.
Proof.
  rewrite exp_eq, minExponent_eq, maxExponent_eq.
  pose proof (Z.mod_pos_bound (v / 2 ^ 56) (2 ^ 8)). lia.
Qed.

Lemma lor_disjoint (x m : Z) :
  Z.lor (x * 2 ^ 56) (m mod 2 ^ 56) = x * 2 ^ 56 + m mod 2 ^ 56.
Proof.
  rewrite <- Z.add_lor_land.
  assert (H : Z.land (x * 2 ^ 56) (m mod 2 ^ 56) = 0).
  { rewrite <- (Z.land_ones m 56) by lia.
    rewrite (Z.land_comm m), Z.land_assoc, Z.land_ones by lia.
    rewrite Z_mod_mult. apply Z.land_0_l. }
  rewrite H. lia.
Qed.

Lemma fromMantAndExp_eq (m e : Z) :
  minExponent <= e <= maxExponent ->
  fromMantAndExp m e = (e + 127) * 2 ^ 56 + m mod 2 ^ 56.
Proof.
  rewrite minExponent_eq, maxExponent_eq. intros He.
  unfold fromMantAndExp. change bias with (-127). change mantBits with 56.
  change mantMask with (Z.ones 56).
  rewrite Z.land_ones by lia. rewrite Z.shiftl_mul_pow2 by lia.
  small. rewrite lor_disjoint. lia.
Qed.

Lemma fromMantAndExp_isValue (m e : Z) :
  minExponent <= e <= maxExponent -> isValue (fromMantAndExp m e).
Proof.
  intros He. rewrite fromMantAndExp_eq by exact He.
  rewrite minExponent_eq, maxExponent_eq in He.
  pose proof (Z.mod_pos_bound m (2 ^ 56)). unfold isValue. lia.
Qed.

Lemma mant_fromMantAndExp (m e : Z) :
  minExponent <= e <= maxExponent ->
  mant (fromMantAndExp m e) = m mod 2 ^ 56.
Proof.
  intros He. rewrite fromMantAndExp_eq by exact He. rewrite mant_mod.
  rewrite Z.add_comm, Z_mod_plus_full. apply Z.mod_mod. lia.
Qed.

Lemma exp_fromMantAndExp (m e : Z) :
  minExponent <= e <= maxExponent ->
  exp (fromMantAndExp m e) = e.
Proof.
  intros He. rewrite fromMantAndExp_eq by exact He. rewrite exp_eq.
  rewrite minExponent_eq, maxExponent_eq in He.
  pose proof (Z.mod_pos_bound m (2 ^ 56)).
  rewrite Z.div_add_l by lia. rewrite (Z.div_small (m mod 2 ^ 56)) by lia.
  rewrite Z.add_0_r, Z.mod_small by lia. lia.
Qed.

Lemma split_fromMantAndExp (m e : Z) :
  0 <= m <= maxMantissa -> minExponent <= e <= maxExponent ->
  split (fromMantAndExp m e) = (m, e).
Proof.
  intros Hm He. unfold split.
  rewrite mant_fromMantAndExp, exp_fromMantAndExp by exact He.
  rewrite maxMantissa_eq in Hm. rewrite Z.mod_small by lia. reflexivity.
Qed.

Lemma fromMantAndExp_split (v : Value) :
  isValue v -> fromMantAndExp (mant v) (exp v) = v.
Proof.
  unfold isValue. intros Hv.
  rewrite fromMantAndExp_eq by apply exp_range.
  rewrite mant_mod, exp_eq. rewrite Z.mod_mod by lia.
  assert (Hq : 0 <= v / 2 ^ 56 < 2 ^ 8).
  { split; [apply Z.div_pos; lia | apply Z.div_lt_upper_bound; lia]. }
  rewrite (Z.mod_small (v / 2 ^ 56)) by lia.
  pose proof (Z.div_mod v (2 ^ 56)). lia.
Qed.

Lemma fromMantAndExp_inj (m1 e1 m2 e2 : Z) :
  0 <= m1 <= maxMantissa -> minExponent <= e1 <= maxExponent ->
  0 <= m2 <= maxMantissa -> minExponent <= e2 <= maxExponent ->
  fromMantAndExp m1 e1 = fromMantAndExp m2 e2 -> m1 = m2 /\ e1 = e2.
Proof.
  intros Hm1 He1 Hm2 He2 H.
  assert (Hs : split (fromMantAndExp m1 e1) = split (fromMantAndExp m2 e2))
    by (rewrite H; reflexivity).
  rewrite !split_fromMantAndExp in Hs by assumption.
  inversion Hs. split; reflexivity.
Qed.

(** ** Checking a table entry by entry *)

Lemma forallb_upto (f : Z -> bool) (n : nat) :
  forallb f (map Z.of_nat (seq 0 n)) = true ->
  forall k, 0 <= k < Z.of_nat n -> f k = true.
Proof.
  intros H k Hk. rewrite forallb_forall in H. apply H.
  apply in_map_iff. exists (Z.to_nat k). split; [lia |].
  apply in_seq. lia.
Qed.

(** ** Powers of ten and digit counts *)

Lemma pow10_eq (k : Z) : 0 <= k <= 19 -> pow10 k = 10 ^ k.
Proof.
  intros Hk.
  assert (H : (pow10 k =? 10 ^ k) = true).
  { apply (forallb_upto (fun k => pow10 k =? 10 ^ k) 20); [| lia].
    vm_compute. reflexivity. }
  apply Z.eqb_eq. exact H.
Qed.

Lemma pow10_out (k : Z) : k < 0 \/ 19 < k -> pow10 k = 0.
Proof.
  intros Hk. unfold pow10. change (Z.of_nat (List.length decimalFactorTable)) with 20.
  destruct (k <? 0) eqn:E1; [reflexivity |].
  destruct (k >=? 20) eqn:E2; [reflexivity |]. lia.
Qed.

Lemma pow10_pos (k : Z) : 0 <= k <= 19 -> 0 < pow10 k.
Proof. intros Hk. rewrite pow10_eq by exact Hk. apply Z.pow_pos_nonneg; lia. Qed.

Lemma pow10_nonneg (k : Z) : 0 <= pow10 k.
Proof.
  destruct (Z_lt_dec k 0); [rewrite pow10_out by lia; lia |].
  destruct (Z_lt_dec 19 k); [rewrite pow10_out by lia; lia |].
  pose proof (pow10_pos k). lia.
Qed.

Lemma pow_10_pos (k : Z) : 0 <= k -> 0 < 10 ^ k.
Proof. intros Hk. apply Z.pow_pos_nonneg; lia. Qed.

Lemma pow_10_succ (k : Z) : 0 <= k -> 10 ^ (k + 1) = 10 * 10 ^ k.
Proof. intros Hk. rewrite Z.pow_add_r by lia. lia. Qed.

Lemma pow_10_le (a b : Z) : 0 <= a <= b -> 10 ^ a <= 10 ^ b.
Proof. intros H. apply Z.pow_le_mono_r; lia. Qed.

Lemma pow_10_lt (a b : Z) : 0 <= a < b -> 10 ^ a < 10 ^ b.
Proof. intros H. apply Z.pow_lt_mono_r; lia. Qed.

Lemma pow_10_lt_inv (a b : Z) : 0 <= a -> 0 <= b -> 10 ^ a < 10 ^ b -> a < b.
Proof. intros Ha Hb H. apply (Z.pow_lt_mono_r_iff 10); lia. Qed.

Lemma binaryDigits_spec (x : Z) :
  0 < x < 2 ^ 64 ->
  1 <= binaryDigits x <= 64 /\
  2 ^ (binaryDigits x - 1) <= x < 2 ^ binaryDigits x.
Proof.
  intros Hx. unfold binaryDigits, LeadingZeros64.
  destruct (x =? 0) eqn:E; [lia |].
  pose proof (Z.log2_spec x ltac:(lia)) as Hs.
  pose proof (Z.log2_nonneg x) as Hn.
  assert (Hl : Z.log2 x < 64) by (apply Z.log2_lt_pow2; lia).
  replace (64 - (63 - Z.log2 x) - 1) with (Z.log2 x) by lia.
  replace (64 - (63 - Z.log2 x)) with (Z.succ (Z.log2 x)) by lia.
  lia.
Qed.

Lemma digitsHelper_checked (b : Z) : 0 <= b <= 64 -> digitsHelper_ok b = true.
Proof.
  intros Hb. apply (forallb_upto digitsHelper_ok 65); [| lia].
  vm_compute. reflexivity.
Qed.

Lemma decimalDigits_spec (x : Z) :
  0 < x < 2 ^ 64 ->
  1 <= decimalDigits x <= 20 /\
  10 ^ (decimalDigits x - 1) <= x < 10 ^ decimalDigits x.
Proof.
  intros Hx. unfold decimalDigits.
  destruct (x =? 0) eqn:E; [lia |].
  destruct (binaryDigits_spec x Hx) as [Hb Hbx].
  pose proof (digitsHelper_checked (binaryDigits x) ltac:(lia)) as Hok.
  unfold digitsHelper_ok in Hok. cbv zeta in Hok.
  set (t := nth (Z.to_nat (binaryDigits x)) digitsHelper 0) in *.
  apply andb_prop in Hok. destruct Hok as [Hok H5].
  apply andb_prop in Hok. destruct Hok as [Hok H4].
  apply andb_prop in Hok. destruct Hok as [Hok H3].
  apply andb_prop in Hok. destruct Hok as [H1 H2].
  apply Z.leb_le in H1, H2, H4. apply Z.eqb_eq in H3.
  apply orb_prop in H5.
  assert (H5' : 10 ^ (t - 1) <= 2 ^ (binaryDigits x - 1)).
  { destruct H5 as [H5 | H5]; [apply Z.eqb_eq in H5; lia | apply Z.leb_le in H5; lia]. }
  rewrite H3.
  destruct (x >=? 10 ^ t) eqn:Ex.
  - replace (t + 1 - 1) with t by lia. lia.
  - assert (Ht : t <> 0).
    { intros Ht. rewrite Ht in Ex. simpl in Ex. lia. }
    lia.
Qed.

Lemma decimalDigits_zero : decimalDigits 0 = 1.
Proof. reflexivity. Qed.

Lemma decimalDigits_unique (x k : Z) :
  0 < x < 2 ^ 64 -> 10 ^ (k - 1) <= x < 10 ^ k -> 1 <= k ->
  decimalDigits x = k.
Proof.
  intros Hx Hk Hk1.
  destruct (decimalDigits_spec x Hx) as [Hd Hdx].
  destruct (Z.lt_trichotomy (decimalDigits x) k) as [Hlt | [Heq | Hgt]];
    [| exact Heq |].
  - pose proof (pow_10_le (decimalDigits x) (k - 1) ltac:(lia)). lia.
  - pose proof (pow_10_le k (decimalDigits x - 1) ltac:(lia)). lia.
Qed.

Lemma decimalDigits_range (x : Z) :
  0 <= x < 2 ^ 64 -> 1 <= decimalDigits x <= 20.
Proof.
  intros Hx. destruct (Z.eq_dec x 0) as [-> | Hn]; [rewrite decimalDigits_zero; lia |].
  apply decimalDigits_spec. lia.
Qed.

Lemma decimalDigits_le (x k : Z) :
  0 <= x < 2 ^ 64 -> 1 <= k -> x < 10 ^ k -> decimalDigits x <= k.
Proof.
  intros Hx Hk Hlt.
  destruct (Z.eq_dec x 0) as [-> | Hn]; [rewrite decimalDigits_zero; lia |].
  destruct (decimalDigits_spec x ltac:(lia)) as [Hd Hdx].
  destruct (Z_le_gt_dec (decimalDigits x) k) as [Hle | Hgt]; [exact Hle |].
  pose proof (pow_10_le k (decimalDigits x - 1) ltac:(lia)). lia.
Qed.

Lemma decimalDigits_mantissa (m : Z) :
  0 <= m <= maxMantissa -> 1 <= decimalDigits m <= 17.
Proof.
  intros Hm. rewrite maxMantissa_eq in Hm. split.
  - apply decimalDigits_range. lia.
  - apply decimalDigits_le; lia.
Qed.

(** ** trimZeros and Normalized *)

Lemma trimZeros_loop_spec (fuel : nat) (eMax : Z) :
  eMax < 2 ^ 31 ->
  forall m e,
    0 < m -> - 2 ^ 31 <= e -> (Z.to_nat (eMax - e) <= fuel)%nat ->
    let '(m', e') := trimZeros_loop fuel m e eMax in
    0 < m' /\ m = m' * 10 ^ (e' - e) /\ e <= e' /\
    (e' <= eMax \/ e' = e) /\ (e' < eMax -> m' mod 10 <> 0).
Proof.
  intros HeMax. induction fuel as [| fuel IH]; intros m e Hm He Hfuel.
  - simpl. replace (e - e) with 0 by lia. change (10 ^ 0) with 1. lia.
  - simpl. destruct (e <? eMax) eqn:E1; simpl.
    + destruct (m mod 10 =? 0) eqn:E2.
      * apply Z.eqb_eq in E2. apply Z.ltb_lt in E1.
        rewrite i32_small by lia.
        assert (Hm10 : m = 10 * (m / 10))
          by (pose proof (Z.div_mod m 10); lia).
        specialize (IH (m / 10) (e + 1) ltac:(lia) ltac:(lia) ltac:(lia)).
        destruct (trimZeros_loop fuel (m / 10) (e + 1) eMax) as [m' e'].
        destruct IH as (H1 & H2 & H3 & H4 & H5).
        repeat split; try lia.
        replace (e' - e) with (e' - (e + 1) + 1) by lia.
        rewrite pow_10_succ by lia. lia.
      * apply Z.eqb_neq in E2.
        replace (e - e) with 0 by lia. change (10 ^ 0) with 1. lia.
    + apply Z.ltb_ge in E1.
      replace (e - e) with 0 by lia. change (10 ^ 0) with 1. lia.
Qed.

Lemma trimZeros_spec (m e eMax : Z) :
  0 < m -> - 2 ^ 31 <= e -> eMax < 2 ^ 31 ->
  let '(m', e') := trimZeros m e eMax in
  0 < m' /\ m = m' * 10 ^ (e' - e) /\ e <= e' /\
  (e' <= eMax \/ e' = e) /\ (e' < eMax -> m' mod 10 <> 0).
Proof.
  intros Hm He HeMax. unfold trimZeros.
  apply trimZeros_loop_spec; [exact HeMax | exact Hm | exact He | lia].
Qed.

Lemma trimZeros_le (m e eMax : Z) :
  0 < m -> - 2 ^ 31 <= e -> eMax < 2 ^ 31 ->
  fst (trimZeros m e eMax) <= m.
Proof.
  intros Hm He HeMax. pose proof (trimZeros_spec m e eMax Hm He HeMax) as H.
  destruct (trimZeros m e eMax) as [m' e']. simpl.
  destruct H as (H1 & H2 & H3 & _).
  pose proof (pow_10_pos (e' - e) ltac:(lia)). nia.
Qed.

Lemma Normalized_zero (v : Value) : mant v = 0 -> Normalized v = zero.
Proof.
  intros H. unfold Normalized, split. rewrite H. reflexivity.
Qed.

Lemma Normalized_nonzero (v : Value) :
  mant v <> 0 ->
  exists m e,
    Normalized v = fromMantAndExp m e /\ normal m e /\
    trimZeros (mant v) (exp v) maxExponent = (m, e) /\
    mant v = m * 10 ^ (e - exp v) /\ exp v <= e.
Proof.
  intros Hm. pose proof (mant_range v) as Hr. pose proof (exp_range v) as He.
  rewrite minExponent_eq, maxExponent_eq in He.
  unfold Normalized, split. destruct (mant v =? 0) eqn:E; [lia |].
  pose proof (trimZeros_spec (mant v) (exp v) maxExponent
                ltac:(lia) ltac:(lia) ltac:(rewrite maxExponent_eq; lia)) as H.
  destruct (trimZeros (mant v) (exp v) maxExponent) as [m' e'].
  destruct H as (H1 & H2 & H3 & H4 & H5).
  exists m', e'. rewrite maxExponent_eq in *.
  assert (Hle : m' <= mant v).
  { pose proof (pow_10_pos (e' - exp v) ltac:(lia)). nia. }
  unfold normal. rewrite minExponent_eq, maxExponent_eq.
  repeat split; try reflexivity; try assumption; try lia.
Qed.

Lemma split_Normalized_nonzero (v : Value) :
  mant v <> 0 ->
  exists m e,
    split (Normalized v) = (m, e) /\ normal m e /\
    mant v = m * 10 ^ (e - exp v) /\ exp v <= e.
Proof.
  intros Hm. destruct (Normalized_nonzero v Hm) as (m & e & H1 & H2 & _ & H3 & H4).
  exists m, e. rewrite H1. destruct H2 as (Hm' & He' & Hz).
  rewrite split_fromMantAndExp by lia.
  repeat split; try assumption; lia.
Qed.

Lemma mant_Normalized_zero (v : Value) :
  mant (Normalized v) = 0 <-> mant v = 0.
Proof.
  split; intros H.
  - destruct (Z.eq_dec (mant v) 0) as [E | E]; [exact E |].
    destruct (split_Normalized_nonzero v E) as (m & e & H1 & (H2 & _) & _).
    unfold split in H1. inversion H1. lia.
  - rewrite Normalized_zero by exact H. reflexivity.
Qed.

Lemma Normalized_isValue (v : Value) : isValue (Normalized v).
Proof.
  destruct (Z.eq_dec (mant v) 0) as [E | E].
  - rewrite Normalized_zero by exact E. unfold isValue, zero. lia.
  - destruct (Normalized_nonzero v E) as (m & e & H1 & (_ & He & _) & _).
    rewrite H1. apply fromMantAndExp_isValue. exact He.
Qed.

Lemma scaled_fromMantAndExp (m e : Z) :
  0 <= m <= maxMantissa -> minExponent <= e <= maxExponent ->
  scaled (fromMantAndExp m e) = m * 10 ^ (e - minExponent).
Proof.
  intros Hm He. unfold scaled.
  rewrite mant_fromMantAndExp, exp_fromMantAndExp by exact He.
  rewrite maxMantissa_eq in Hm. rewrite Z.mod_small by lia. reflexivity.
Qed.

Lemma scaled_Normalized (v : Value) : scaled (Normalized v) = scaled v.
Proof.
  destruct (Z.eq_dec (mant v) 0) as [E | E].
  - rewrite Normalized_zero by exact E. unfold scaled. rewrite E. reflexivity.
  - destruct (split_Normalized_nonzero v E) as (m & e & H1 & H2 & H3 & H4).
    unfold split in H1.
    assert (Hm : mant (Normalized v) = m) by congruence.
    assert (He : exp (Normalized v) = e) by congruence.
    unfold scaled. rewrite Hm, He, H3.
    pose proof (exp_range v) as Hr. rewrite minExponent_eq in *.
    rewrite <- Z.mul_assoc, <- Z.pow_add_r by lia.
    f_equal. f_equal. lia.
Qed.

(** ** adjustMantExp *)

Lemma adjust_up_id (fuel : nat) (m e : Z) :
  m <= maxMantissa -> minExponent <= e ->
  adjust_up fuel m e = (m, e).
Proof.
  intros Hm He. destruct fuel as [| fuel]; [reflexivity |]. simpl.
  destruct (m >? maxMantissa) eqn:E1; [lia |].
  destruct (e <? minExponent) eqn:E2; [lia |]. reflexivity.
Qed.

Lemma adjust_down_id (fuel : nat) (m e : Z) :
  e <= maxExponent -> adjust_down fuel m e = (m, e).
Proof.
  intros He. destruct fuel as [| fuel]; [reflexivity |]. simpl.
  destruct (e >? maxExponent) eqn:E1; [lia |]. reflexivity.
Qed.

Lemma adjust_down_S (fuel : nat) (m e : Z) :
  adjust_down (S fuel) m e =
  if (e >? maxExponent) && (u64 (m * 10) <? maxMantissa)
  then adjust_down fuel (u64 (m * 10)) (i32 (e - 1))
  else (m, e).
Proof. reflexivity. Qed.

Lemma adjust_up_S (fuel : nat) (m e : Z) :
  adjust_up (S fuel) m e =
  if ((m >? maxMantissa) || (e <? minExponent)) && (m >? 0)
     && (i32 (e + 1) <? maxExponent)
  then adjust_up fuel (m / 10) (i32 (e + 1))
  else (m, e).
Proof. reflexivity. Qed.

Lemma adjust_down_scale (j : nat) :
  forall (fuel : nat) (m : Z),
    (j <= fuel)%nat -> 0 < m -> m * 10 ^ Z.of_nat j <= maxMantissa ->
    adjust_down fuel m (maxExponent + Z.of_nat j)
    = (m * 10 ^ Z.of_nat j, maxExponent).
Proof.
  induction j as [| j IH]; intros fuel m Hf Hm Hle.
  - change (Z.of_nat 0) with 0. change (10 ^ 0) with 1.
    rewrite Z.add_0_r, Z.mul_1_r. apply adjust_down_id. lia.
  - destruct fuel as [| fuel]; [lia |]. rewrite adjust_down_S.
    replace (Z.of_nat (S j)) with (Z.of_nat j + 1) in * by lia.
    rewrite pow_10_succ in * by lia.
    pose proof (pow_10_pos (Z.of_nat j) ltac:(lia)) as Hp.
    rewrite maxMantissa_eq, maxExponent_eq in *.
    assert (Hm10 : m * 10 < 72057594037927935) by nia.
    rewrite (u64_small (m * 10)) by lia.
    destruct (128 + (Z.of_nat j + 1) >? 128) eqn:E1; [| lia].
    destruct (m * 10 <? 72057594037927935) eqn:E2; [| lia].
    assert (Hj : Z.of_nat j < 17).
    { destruct (Z_lt_ge_dec (Z.of_nat j) 17) as [Hlt | Hge]; [exact Hlt |].
      pose proof (pow_10_le 17 (Z.of_nat j) ltac:(lia)). nia. }
    cbv [andb]. rewrite i32_small by lia.
    replace (128 + (Z.of_nat j + 1) - 1) with (128 + Z.of_nat j) by lia.
    assert (Hle' : m * 10 * 10 ^ Z.of_nat j <= 72057594037927935)
      by (rewrite <- Z.mul_assoc; exact Hle).
    rewrite (IH fuel (m * 10) ltac:(lia) ltac:(lia) Hle').
    f_equal. lia.
Qed.

Lemma adjustMantExp_id (m e : Z) :
  0 < m <= maxMantissa -> minExponent <= e <= maxExponent ->
  adjustMantExp m e = fromMantAndExp m e.
Proof.
  intros Hm He. unfold adjustMantExp.
  rewrite adjust_up_id by lia. rewrite adjust_down_id by lia.
  destruct (m =? 0) eqn:E1; [lia |].
  destruct (e <? minExponent) eqn:E2; [lia |].
  destruct (e >? maxExponent) eqn:E3; [lia |]. reflexivity.
Qed.

Lemma adjustMantExp_above (m : Z) (j : nat) :
  0 < m -> m * 10 ^ Z.of_nat j <= maxMantissa ->
  adjustMantExp m (maxExponent + Z.of_nat j)
  = fromMantAndExp (m * 10 ^ Z.of_nat j) maxExponent.
Proof.
  intros Hm Hle. unfold adjustMantExp.
  pose proof (pow_10_pos (Z.of_nat j) ltac:(lia)) as Hp.
  rewrite adjust_up_id by (rewrite ?minExponent_eq, ?maxExponent_eq; nia).
  rewrite (adjust_down_scale j) by (try assumption; lia).
  destruct (m * 10 ^ Z.of_nat j =? 0) eqn:E1; [nia |].
  reflexivity.
Qed.

Lemma Max_isValue : isValue Max.
Proof. unfold isValue. vm_compute. split; [discriminate | reflexivity]. Qed.

Lemma adjustMantExp_isValue (m e : Z) : isValue (adjustMantExp m e).
Proof.
  unfold adjustMantExp.
  destruct (adjust_up 20 m e) as [m1 e1].
  destruct (adjust_down (Z.to_nat (e1 - maxExponent)) m1 e1) as [m2 e2].
  destruct (m2 =? 0); [unfold isValue, zero; simpl; lia |].
  destruct (e2 <? minExponent) eqn:E2; [unfold isValue, zero; simpl; lia |].
  destruct (e2 >? maxExponent) eqn:E3; [apply Max_isValue |].
  apply fromMantAndExp_isValue. lia.
Qed.


(** ** Saturation of [Mul] at the top of the range *)

(** C1.  [Mul] is documented to return [Max] when the product overflows
    [Max], and the claim asks [Max.Mul(v) = Max] for every [v >= 1].  At
    [v = 2] the code returns the word with mantissa [maxMantissa - 1] and
    exponent [maxExponent] instead: [adjustMantExp] receives the mantissa
    [2 * maxMantissa] with exponent 128, its first loop is blocked by the
    test [e+1 < maxExponent], and [fromMantAndExp] masks the mantissa. *)
Theorem C1_Max_Mul_two :
  10 ^ 127 <= scaled (FromUint64 2) /\
  Mul Max (FromUint64 2) = Ok (fromMantAndExp (maxMantissa - 1) maxExponent) /\
  fromMantAndExp (maxMantissa - 1) maxExponent <> Max /\
  adjustMantExp (2 * maxMantissa) maxExponent
  = fromMantAndExp (maxMantissa - 1) maxExponent.
Proof.
  repeat split; try (vm_compute; congruence).
Qed.

(** ** Range of the stored exponent *)

(** C2, as the claim states it, fails: the exponent of [Max], which the
    constructor [FromMantAndExp] returns for the largest mantissa and
    exponent 128, is 128 and not at most [2 ^ (8 - 1) - 1 = 127]. *)
Lemma C2_Max_exponent_above_127 :
  FromMantAndExp maxMantissa 128 = Max /\
  exp Max = 128 /\
  ~ exp Max <= 2 ^ (expBits - 1) - 1.
Proof.
  repeat split; try (vm_compute; congruence).
Qed.

(** C2, amended.  Every word, hence every [Value] a constructor or an
    operation returns, has its stored exponent in
    [[minExponent, maxExponent]] where [minExponent = -127] and
    [maxExponent = 2 ^ (8 - 1) = 128]: the 8-bit field is biased by -127.
    The exponent of [Max] is exactly 128, and [adjustMantExp] returns a
    64-bit word. *)
Theorem C2_exponent_range :
  (forall v : Value, minExponent <= exp v <= maxExponent) /\
  minExponent = -127 /\
  maxExponent = 2 ^ (expBits - 1) /\
  exp Max = maxExponent /\
  (forall m e, isValue (adjustMantExp m e)).
Proof.
  split; [exact exp_range |].
  split; [reflexivity |].
  split; [reflexivity |].
  split; [vm_compute; reflexivity |].
  exact adjustMantExp_isValue.
Qed.

(** ** A doubled sign *)

(** C8, as the claim states it, fails: whatever the float fallback does,
    ["   --"] is not rejected with a positioned parse error. *)
Lemma C8_doubled_sign_has_no_position :
  ~ (forall pf : list ascii -> option (res Value),
        exists msg,
          FromString pf (lit "   --")
          = Err (ParsingFailed (newPosError msg 5))).
Proof.
  intros H. destruct (H (fun _ => None)) as [msg Hmsg].
  vm_compute in Hmsg. discriminate Hmsg.
Qed.

(** C8, amended.  [FromString("   --")] fails with the error
    "negative value", which carries no position: [prepareString] trims the
    blanks, takes the first '-' as the sign and leaves ["-"] with offset 4,
    and [FromString] rejects the negative flag before it scans anything. *)
Theorem C8_doubled_sign_negative_value :
  forall pf : list ascii -> option (res Value),
    prepareString (lit "   --") = (lit "-", 4, true) /\
    FromString pf (lit "   --") = Err NegativeValue.
Proof.
  intros pf. split; reflexivity.
Qed.

(** ** Compact JSON *)

(** C7.  [JSONModeCompact] is documented to choose the shortest form, and
    the claim asks the compact output to be no longer than either form.
    For [1e-12] the estimate [calcStrLen] is 15, one short of the 16 bytes
    of ["0.000000000001"] in quotes because it does not count the digit
    before the delimiter; it ties with [jsonMELen], so compact mode emits
    the 16-byte string although the object form has 15 bytes. *)
Theorem C7_compact_picks_longer :
  forall formatFloat : Value -> list ascii,
    let v := FromMantAndExp 1 (-12) in
    calcStrLen v = 15 /\ jsonMELen v = 15 /\
    toJSON formatFloat v JSONModeCompact
    = quote :: lit "0.000000000001" ++ [quote] /\
    toJSON formatFloat v JSONModeME
    = lit "{" ++ quote :: lit "m" ++ quote :: lit ":1,"
        ++ quote :: lit "e" ++ quote :: lit ":-12}" /\
    len (toJSON formatFloat v JSONModeCompact) = 16 /\
    len (toJSON formatFloat v JSONModeME) = 15.
Proof.
  intros formatFloat v. repeat split; vm_compute; reflexivity.
Qed.

(** ** Conversion to uint64 *)

Lemma abs_nonneg (x : Z) : 0 <= x < 2 ^ 63 -> abs x = x.
Proof.
  intros Hx. unfold abs. rewrite Z.shiftr_div_pow2 by lia.
  rewrite Z.div_small by lia. rewrite Z.add_0_r, Z.lxor_0_r.
  apply i64_small. lia.
Qed.

Lemma scaled_positive_exponent (m e : Z) :
  0 <= m <= maxMantissa -> minExponent <= e ->
  maxMantissa * 10 ^ 127 < m * 10 ^ (e - minExponent) ->
  0 < e /\ maxMantissa < m * 10 ^ e.
Proof.
  rewrite minExponent_eq. intros Hm He H.
  assert (He0 : 0 < e).
  { destruct (Z_lt_ge_dec 0 e) as [Hlt | Hge]; [exact Hlt |].
    pose proof (pow_10_le (e - -127) 127 ltac:(lia)).
    pose proof (pow_10_pos (e - -127) ltac:(lia)). nia. }
  split; [exact He0 |].
  replace (e - -127) with (e + 127) in H by lia.
  rewrite Z.pow_add_r in H by lia.
  pose proof (pow_10_pos 127 ltac:(lia)). nia.
Qed.

(** C9.  A [Value] whose number exceeds [maxMantissa] is converted to
    [maxMantissa] and reported inexact, also when the number would fit in a
    uint64.  The number of [v] is [scaled v] in units of [10 ^ -127]. *)
Theorem C9_Uint64_saturates_at_maxMantissa (v : Value) :
  maxMantissa * 10 ^ 127 < scaled v ->
  toUint64 v = (maxMantissa, false) /\ Uint64 v = maxMantissa.
Proof.
  intros Hbig.
  assert (Hres : toUint64 v = (maxMantissa, false)).
  { rewrite <- scaled_Normalized in Hbig.
    assert (Hnz : mant v <> 0).
    { intros Hz. rewrite (Normalized_zero v Hz) in Hbig.
      vm_compute in Hbig. discriminate Hbig. }
    destruct (split_Normalized_nonzero v Hnz) as (m & e & Hs & Hn & _).
    unfold split in Hs.
    assert (Hm : mant (Normalized v) = m) by congruence.
    assert (He : exp (Normalized v) = e) by congruence.
    destruct Hn as (Hmr & Her & _).
    unfold scaled in Hbig. rewrite Hm, He in Hbig.
    destruct (scaled_positive_exponent m e ltac:(lia) ltac:(lia) Hbig)
      as [He0 Hgt].
    unfold toUint64. rewrite Hm, He.
    rewrite maxExponent_eq, maxMantissa_eq in *.
    destruct (m =? 0) eqn:E1; [lia |].
    destruct (e =? 0) eqn:E2; [lia |].
    rewrite abs_nonneg by lia.
    destruct (Z_le_gt_dec e 19) as [Hle | Hgt19].
    - rewrite pow10_eq by lia.
      pose proof (pow_10_pos e ltac:(lia)) as Hp.
      destruct (10 ^ e =? 0) eqn:E3; [lia |].
      destruct (e <? 0) eqn:E4; [lia |].
      assert (Hq : 0 <= 72057594037927935 / m < 10 ^ e).
      { split; [apply Z.div_pos; lia |].
        apply Z.div_lt_upper_bound; lia. }
      assert (Hd : decimalDigits (72057594037927935 / m) <= e).
      { apply decimalDigits_le; try lia.
        pose proof (pow_10_le e 19 ltac:(lia)). lia. }
      pose proof (decimalDigits_range (72057594037927935 / m)
                    ltac:(pose proof (pow_10_le e 19 ltac:(lia)); lia)) as Hr.
      rewrite (i64_small (decimalDigits (72057594037927935 / m) - 1)) by lia.
      destruct (decimalDigits (72057594037927935 / m) - 1 >? e) eqn:E5; [lia |].
      destruct (decimalDigits (72057594037927935 / m) - 1 =? e) eqn:E6; [lia |].
      reflexivity.
    - rewrite pow10_out by lia. reflexivity. }
  split; [exact Hres |]. unfold Uint64. rewrite Hres. reflexivity.
Qed.

(** The instance named in the claim: mantissa [maxMantissa], exponent 1;
    its number 720575940379279350 would fit in a uint64. *)
Lemma C9_witness :
  (maxMantissa * 10 ^ 127 < scaled (fromMantAndExp maxMantissa 1)) /\
  maxMantissa * 10 ^ 1 < 2 ^ 64 /\
  toUint64 (fromMantAndExp maxMantissa 1) = (maxMantissa, false) /\
  Uint64 (fromMantAndExp maxMantissa 1) = maxMantissa.
Proof.
  assert (H : maxMantissa * 10 ^ 127 < scaled (fromMantAndExp maxMantissa 1))
    by (vm_compute; reflexivity).
  split; [exact H |].
  split; [vm_compute; reflexivity |].
  exact (C9_Uint64_saturates_at_maxMantissa (fromMantAndExp maxMantissa 1) H).
Defined.

(** ** Decimal digits as bytes *)

Lemma digitChar_facts (d : Z) :
  0 <= d <= 9 ->
  isDigit (digitChar d) = true /\ digitVal (digitChar d) = d /\
  Ascii.eqb (digitChar d) "0"%char = (d =? 0).
Proof.
  intros Hd.
  assert (H : (isDigit (digitChar d) && (digitVal (digitChar d) =? d)
               && Bool.eqb (Ascii.eqb (digitChar d) "0"%char) (d =? 0)) = true).
  { apply (forallb_upto
             (fun d => isDigit (digitChar d) && (digitVal (digitChar d) =? d)
                       && Bool.eqb (Ascii.eqb (digitChar d) "0"%char) (d =? 0))
             10); [vm_compute; reflexivity | lia]. }
  apply andb_prop in H. destruct H as [H H3].
  apply andb_prop in H. destruct H as [H1 H2].
  apply Z.eqb_eq in H2. apply Bool.eqb_prop in H3. auto.
Qed.

Lemma len_nonneg (s : list ascii) : 0 <= len s.
Proof. unfold len. lia. Qed.

Lemma len_app (s t : list ascii) : len (s ++ t) = len s + len t.
Proof. unfold len. rewrite length_app. lia. Qed.

Lemma len_cons (c : ascii) (s : list ascii) : len (c :: s) = 1 + len s.
Proof. unfold len. simpl List.length. lia. Qed.

Lemma len_rev (s : list ascii) : len (rev s) = len s.
Proof. unfold len. rewrite length_rev. reflexivity. Qed.

Lemma len_repeat (c : ascii) (n : nat) : len (repeat c n) = Z.of_nat n.
Proof. unfold len. rewrite repeat_length. reflexivity. Qed.

Lemma len_nil : len [] = 0.
Proof. reflexivity. Qed.

Lemma formatBits_S (fuel : nat) (n : Z) :
  formatBits (S fuel) n =
  if n <? 10 then [digitChar n]
  else digitChar (n mod 10) :: formatBits fuel (n / 10).
Proof. reflexivity. Qed.

Lemma formatBits_allDigits (fuel : nat) :
  forall n, 0 <= n -> forallb isDigit (formatBits fuel n) = true.
Proof.
  induction fuel as [| fuel IH]; intros n Hn; [reflexivity |].
  rewrite formatBits_S. destruct (n <? 10) eqn:E.
  - simpl. destruct (digitChar_facts n ltac:(lia)) as (H & _). rewrite H.
    reflexivity.
  - simpl. pose proof (Z.mod_pos_bound n 10 ltac:(lia)).
    destruct (digitChar_facts (n mod 10) ltac:(lia)) as (H1 & _).
    rewrite H1. simpl. apply IH. apply Z.div_pos; lia.
Qed.

Lemma parseUint_loop_cons (c : ascii) (t : list ascii) (n : Z) :
  parseUint_loop (c :: t) n =
  if negb (isDigit c) then inl ErrSyntax
  else if n >=? 1844674407370955162 then inl ErrRange
  else if n * 10 + digitVal c >? 18446744073709551615 then inl ErrRange
  else parseUint_loop t (n * 10 + digitVal c).
Proof. reflexivity. Qed.

Lemma parseUint_loop_app (s t : list ascii) :
  forall n,
    parseUint_loop (s ++ t) n =
    match parseUint_loop s n with
    | inl k => inl k
    | inr n' => parseUint_loop t n'
    end.
Proof.
  induction s as [| c s IH]; intros n; [reflexivity |].
  rewrite <- app_comm_cons, !parseUint_loop_cons.
  destruct (negb (isDigit c)); [reflexivity |].
  destruct (n >=? 1844674407370955162); [reflexivity |].
  destruct (n * 10 + digitVal c >? 18446744073709551615); [reflexivity |].
  apply IH.
Qed.

Lemma formatBits_parse (fuel : nat) :
  forall n,
    0 <= n < 2 ^ 64 -> n < 10 ^ Z.of_nat fuel ->
    parseUint_loop (rev (formatBits fuel n)) 0 = inr n.
Proof.
  induction fuel as [| fuel IH]; intros n Hn Hf.
  - change (10 ^ Z.of_nat 0) with 1 in Hf. assert (n = 0) by lia. subst n.
    reflexivity.
  - rewrite formatBits_S. destruct (n <? 10) eqn:E.
    + destruct (digitChar_facts n ltac:(lia)) as (H1 & H2 & _).
      change (rev [digitChar n]) with [digitChar n].
      rewrite parseUint_loop_cons, H1, H2. cbn [negb].
      change (2 ^ 64) with 18446744073709551616 in Hn.
      destruct (0 >=? 1844674407370955162) eqn:E3; [lia |].
      destruct (0 * 10 + n >? 18446744073709551615) eqn:E2; [lia |].
      reflexivity.
    + pose proof (Z.mod_pos_bound n 10 ltac:(lia)) as Hmod.
      pose proof (Z.div_mod n 10 ltac:(lia)) as Hdm.
      destruct (digitChar_facts (n mod 10) ltac:(lia)) as (H1 & H2 & _).
      replace (Z.of_nat (S fuel)) with (Z.of_nat fuel + 1) in Hf by lia.
      rewrite pow_10_succ in Hf by lia.
      change (rev (digitChar (n mod 10) :: formatBits fuel (n / 10)))
        with (rev (formatBits fuel (n / 10)) ++ [digitChar (n mod 10)]).
      rewrite parseUint_loop_app.
      rewrite IH by lia.
      rewrite parseUint_loop_cons, H1, H2. cbn [negb].
      change (2 ^ 64) with 18446744073709551616 in Hn.
      destruct (n / 10 >=? 1844674407370955162) eqn:E3; [lia |].
      destruct (n / 10 * 10 + n mod 10 >? 18446744073709551615) eqn:E4; [lia |].
      cbn [parseUint_loop]. f_equal. lia.
Qed.

Lemma formatBits_length (fuel : nat) :
  forall n,
    0 <= n < 2 ^ 64 -> n < 10 ^ Z.of_nat fuel -> (1 <= fuel)%nat ->
    len (formatBits fuel n) = decimalDigits n.
Proof.
  induction fuel as [| fuel IH]; intros n Hn Hf H1; [lia |].
  rewrite formatBits_S. destruct (n <? 10) eqn:E.
  - change (len [digitChar n]) with 1.
    destruct (Z.eq_dec n 0) as [-> | Hnz]; [reflexivity |].
    symmetry. apply decimalDigits_unique; [lia | | lia].
    change (10 ^ (1 - 1)) with 1. change (10 ^ 1) with 10. lia.
  - replace (Z.of_nat (S fuel)) with (Z.of_nat fuel + 1) in Hf by lia.
    rewrite pow_10_succ in Hf by lia.
    pose proof (Z.div_mod n 10 ltac:(lia)) as Hdm.
    pose proof (Z.mod_pos_bound n 10 ltac:(lia)) as Hmod.
    destruct fuel as [| fuel'].
    { change (10 ^ Z.of_nat 0) with 1 in Hf. lia. }
    rewrite len_cons. rewrite IH by lia.
    destruct (decimalDigits_spec (n / 10) ltac:(lia)) as [Hd Hdx].
    symmetry. apply decimalDigits_unique; [lia | | lia].
    replace (1 + decimalDigits (n / 10) - 1)
      with (decimalDigits (n / 10) - 1 + 1) by lia.
    replace (1 + decimalDigits (n / 10))
      with (decimalDigits (n / 10) + 1) by lia.
    rewrite !pow_10_succ by lia. lia.
Qed.

(** The most significant digit of a positive number is not zero. *)
Lemma formatBits_leading (fuel : nat) :
  forall n,
    0 < n -> n < 10 ^ Z.of_nat fuel ->
    exists c t, rev (formatBits fuel n) = c :: t /\
                isDigit c = true /\ Ascii.eqb c "0"%char = false.
Proof.
  induction fuel as [| fuel IH]; intros n Hn Hf.
  - change (10 ^ Z.of_nat 0) with 1 in Hf. lia.
  - rewrite formatBits_S. destruct (n <? 10) eqn:E.
    + destruct (digitChar_facts n ltac:(lia)) as (H1 & _ & H3).
      exists (digitChar n), []. repeat split; try assumption.
      rewrite H3. apply Z.eqb_neq. lia.
    + replace (Z.of_nat (S fuel)) with (Z.of_nat fuel + 1) in Hf by lia.
      rewrite pow_10_succ in Hf by lia.
      pose proof (Z.div_mod n 10 ltac:(lia)) as Hdm.
      pose proof (Z.mod_pos_bound n 10 ltac:(lia)) as Hmod.
      destruct (IH (n / 10) ltac:(lia) ltac:(lia)) as (c & t & Hr & Hc).
      exists c, (t ++ [digitChar (n mod 10)]).
      split; [| exact Hc].
      change (rev (digitChar (n mod 10) :: formatBits fuel (n / 10)))
        with (rev (formatBits fuel (n / 10)) ++ [digitChar (n mod 10)]).
      rewrite Hr. reflexivity.
Qed.

(** The least significant digit, first in [formatBits], is zero exactly when
    ten divides the number. *)
Lemma formatBits_trailing (fuel : nat) (n : Z) :
  0 <= n ->
  exists t, formatBits (S fuel) n = digitChar (n mod 10) :: t.
Proof.
  intros Hn. rewrite formatBits_S. destruct (n <? 10) eqn:E.
  - exists []. rewrite Z.mod_small by lia. reflexivity.
  - eexists. reflexivity.
Qed.

Lemma pow_10_20 : 2 ^ 64 < 10 ^ Z.of_nat 20.
Proof. vm_compute. reflexivity. Qed.

Lemma forallb_rev_eq (f : ascii -> bool) (l : list ascii) :
  forallb f (rev l) = forallb f l.
Proof.
  induction l as [| c l IH]; [reflexivity |].
  simpl. rewrite forallb_app, IH. simpl.
  rewrite andb_true_r. apply andb_comm.
Qed.

Lemma FormatUint_allDigits (m : Z) :
  0 <= m -> forallb isDigit (FormatUint m) = true.
Proof.
  intros Hm. unfold FormatUint. rewrite forallb_rev_eq.
  apply formatBits_allDigits. exact Hm.
Qed.

Lemma FormatUint_parse (m : Z) :
  0 <= m < 2 ^ 64 -> parseUint_loop (FormatUint m) 0 = inr m.
Proof.
  intros Hm. unfold FormatUint. apply formatBits_parse; [exact Hm |].
  pose proof pow_10_20. lia.
Qed.

Lemma FormatUint_length (m : Z) :
  0 <= m < 2 ^ 64 -> len (FormatUint m) = decimalDigits m.
Proof.
  intros Hm. unfold FormatUint. rewrite len_rev.
  apply formatBits_length; [exact Hm | pose proof pow_10_20; lia | lia].
Qed.

Lemma FormatUint_leading (m : Z) :
  0 < m < 2 ^ 64 ->
  exists c t, FormatUint m = c :: t /\
              isDigit c = true /\ Ascii.eqb c "0"%char = false.
Proof.
  intros Hm. unfold FormatUint. apply formatBits_leading; [lia |].
  pose proof pow_10_20. lia.
Qed.

(** ** The layout of [Value.String] *)

Lemma firstn_repeat_le (c : ascii) (n m : nat) :
  (n <= m)%nat -> firstn n (repeat c m) = repeat c n.
Proof.
  revert m. induction n as [| n IH]; intros m H; [reflexivity |].
  destruct m as [| m]; [lia |]. simpl. f_equal. apply IH. lia.
Qed.

Lemma zeroStr_eq (l : Z) :
  0 <= l <= 144 -> zeroStr l = repeat "0"%char (Z.to_nat l).
Proof.
  intros Hl. unfold zeroStr. change (len manyZeros) with 145.
  destruct (l <? 0) eqn:E1; [lia |].
  destruct (l >=? 145) eqn:E2; [lia |].
  unfold manyZeros. apply firstn_repeat_le. lia.
Qed.

Lemma String_zero (v : Value) : mant v = 0 -> String v = lit "0".
Proof.
  intros H. unfold String. rewrite (Normalized_zero v H). reflexivity.
Qed.

Lemma FormatUint_mantissa_length (m : Z) :
  0 <= m <= maxMantissa -> 1 <= len (FormatUint m) <= 17.
Proof.
  intros Hm. rewrite FormatUint_length by (rewrite maxMantissa_eq in Hm; lia).
  apply decimalDigits_mantissa. exact Hm.
Qed.

Lemma String_render (v : Value) (m e : Z) :
  split (Normalized v) = (m, e) -> normal m e -> String v = render m e.
Proof.
  intros Hs (Hm & He & _). unfold String, render. rewrite Hs.
  rewrite minExponent_eq, maxExponent_eq in He.
  pose proof (FormatUint_mantissa_length m ltac:(lia)) as Hl.
  destruct (m =? 0) eqn:E0; [lia |].
  destruct (e =? 0) eqn:E1; [reflexivity |].
  destruct (e >? 0) eqn:E2.
  - rewrite zeroStr_eq by lia. rewrite len_repeat.
    rewrite Z2Nat.id by lia. replace (e - e) with 0 by lia.
    change (i64 0 >? 0) with false. cbv iota. rewrite app_nil_r. reflexivity.
  - rewrite (i64_small (len (FormatUint m) + e)) by lia.
    destruct (len (FormatUint m) + e <=? 0) eqn:E3; [| reflexivity].
    rewrite (i64_small (- (len (FormatUint m) + e))) by lia.
    rewrite zeroStr_eq by lia. rewrite len_repeat.
    rewrite Z2Nat.id by lia.
    replace (- (len (FormatUint m) + e) - - (len (FormatUint m) + e))
      with 0 by lia.
    change (i64 0 >? 0) with false. cbv iota. rewrite app_nil_r. reflexivity.
Qed.

Lemma allDigits_plain (s : list ascii) :
  forallb isDigit s = true ->
  Forall (fun c => isDigit c = true \/ c = delim) s /\
  count_occ ascii_dec s delim = 0%nat.
Proof.
  induction s as [| c s IH]; intros H; [split; [constructor | reflexivity] |].
  simpl in H. apply andb_prop in H. destruct H as [Hc Hs].
  destruct (IH Hs) as [IH1 IH2]. split.
  - constructor; [left; exact Hc | exact IH1].
  - simpl. destruct (ascii_dec c delim) as [E | E]; [| exact IH2].
    subst c. vm_compute in Hc. discriminate Hc.
Qed.

Lemma decimalText_digits (s : list ascii) :
  forallb isDigit s = true -> decimalText s.
Proof.
  intros H. destruct (allDigits_plain s H) as [H1 H2].
  split; [exact H1 | lia].
Qed.

Lemma decimalText_delim (a b : list ascii) :
  forallb isDigit a = true -> forallb isDigit b = true ->
  decimalText (a ++ delim :: b).
Proof.
  intros Ha Hb.
  destruct (allDigits_plain a Ha) as [A1 A2].
  destruct (allDigits_plain b Hb) as [B1 B2]. split.
  - apply Forall_app. split; [exact A1 |].
    constructor; [right; reflexivity | exact B1].
  - rewrite count_occ_app, A2. simpl.
    destruct (ascii_dec delim delim) as [_ | E]; [| contradiction].
    rewrite B2. lia.
Qed.

Lemma allDigits_zeros (n : nat) : forallb isDigit (repeat "0"%char n) = true.
Proof. induction n as [| n IH]; [reflexivity | simpl; exact IH]. Qed.

Lemma allDigits_firstn_skipn (k : nat) (s : list ascii) :
  forallb isDigit s = true ->
  forallb isDigit (firstn k s) = true /\ forallb isDigit (skipn k s) = true.
Proof.
  intros H. rewrite <- (firstn_skipn k s) in H.
  rewrite forallb_app in H. apply andb_prop in H. exact H.
Qed.

Lemma render_decimalText (m e : Z) : 0 <= m -> decimalText (render m e).
Proof.
  intros Hm. pose proof (FormatUint_allDigits m Hm) as Hd. unfold render.
  destruct (e =? 0); [apply decimalText_digits; exact Hd |].
  destruct (e >? 0).
  - apply decimalText_digits. rewrite forallb_app, Hd. apply allDigits_zeros.
  - destruct (len (FormatUint m) + e <=? 0).
    + apply (decimalText_delim ["0"%char]); [reflexivity |].
      rewrite forallb_app, Hd, allDigits_zeros. reflexivity.
    + destruct (allDigits_firstn_skipn
                  (Z.to_nat (len (FormatUint m) + e)) _ Hd) as [H1 H2].
      apply decimalText_delim; assumption.
Qed.

(** C10.  In the 8-bit-exponent, 56-bit-mantissa configuration [String]
    never emits the ['e'] suffix: the output consists of decimal digits and
    at most one ['.'].  For a non-zero value with canonical mantissa [m] and
    exponent [e] it is [render m e], where the appended run has [e <= 128]
    zeros for a positive exponent and at most 126 zeros after ["0."] for a
    negative one, both below the 145 zeros of [manyZeros]. *)
Theorem C10_String_without_exponent_suffix (v : Value) :
  decimalText (String v) /\
  (String v = lit "0" \/
   exists m e,
     split (Normalized v) = (m, e) /\ 0 < m /\ String v = render m e /\
     e <= 128 /\ - (len (FormatUint m) + e) <= 126) /\
  128 < len manyZeros.
Proof.
  destruct (Z.eq_dec (mant v) 0) as [E | E].
  - rewrite (String_zero v E).
    split; [apply decimalText_digits; reflexivity |].
    split; [left; reflexivity | vm_compute; reflexivity].
  - destruct (split_Normalized_nonzero v E) as (m & e & Hs & Hn & _).
    rewrite (String_render v m e Hs Hn).
    pose proof Hn as (Hm & He & _).
    rewrite minExponent_eq, maxExponent_eq in He.
    pose proof (FormatUint_mantissa_length m ltac:(lia)) as Hl.
    split; [apply render_decimalText; lia |].
    split; [| vm_compute; reflexivity].
    right. exists m, e. repeat split; lia || assumption || reflexivity.
Qed.

(** ** Scanning the text [String] writes *)

Lemma isDigit_code (c : ascii) : isDigit c = true -> 48 <= code c <= 57.
Proof. unfold isDigit. intros H. apply andb_prop in H. lia. Qed.

Lemma digit_neq (c x : ascii) :
  isDigit c = true -> isDigit x = false -> Ascii.eqb c x = false.
Proof.
  intros Hc Hx. destruct (Ascii.eqb c x) eqn:E; [| reflexivity].
  apply Ascii.eqb_eq in E. subst x. congruence.
Qed.

Lemma scan_cons (r : ascii) (t : list ascii) (i : Z) (b : list ascii)
    (delimPos firstNonZeroPos : Z) :
  scan (r :: t) i b delimPos firstNonZeroPos =
  if isDigit r then
    if len b =? 0 then
      if Ascii.eqb r "0"%char then scan t (i + 1) b delimPos firstNonZeroPos
      else scan t (i + 1) (b ++ [r]) delimPos i
    else scan t (i + 1) (b ++ [r]) delimPos firstNonZeroPos
  else if Ascii.eqb r "e"%char then
    match ParseInt t with
    | inl k => inl (newPosError (ExponentError k) (i + 1))
    | inr parsed => inr (b, delimPos, firstNonZeroPos, i32 parsed)
    end
  else if Ascii.eqb r delim then
    if negb (delimPos =? -1) then inl (newPosError UnexpectedDelimeter i)
    else scan t (i + 1) b i firstNonZeroPos
  else inl (newPosError (UnexpectedSymbol (DecodeRune (r :: t))) i).
Proof. reflexivity. Qed.

Lemma scan_digits (ds rest : list ascii) :
  forallb isDigit ds = true ->
  forall i b delimPos firstNonZeroPos,
    b <> [] ->
    scan (ds ++ rest) i b delimPos firstNonZeroPos
    = scan rest (i + len ds) (b ++ ds) delimPos firstNonZeroPos.
Proof.
  induction ds as [| c ds IH]; intros Hd i b dp fnz Hb.
  - rewrite len_nil, Z.add_0_r, app_nil_r. reflexivity.
  - simpl in Hd. apply andb_prop in Hd. destruct Hd as [Hc Hds].
    rewrite <- app_comm_cons, scan_cons, Hc.
    assert (Hl : (len b =? 0) = false).
    { apply Z.eqb_neq. destruct b; [contradiction |]. rewrite len_cons.
      pose proof (len_nonneg b). lia. }
    rewrite Hl. rewrite IH; [| exact Hds | destruct b; discriminate].
    rewrite len_cons, <- app_assoc. simpl app.
    f_equal. lia.
Qed.

Lemma scan_zeros (n : nat) (rest : list ascii) :
  forall i delimPos firstNonZeroPos,
    scan (repeat "0"%char n ++ rest) i [] delimPos firstNonZeroPos
    = scan rest (i + Z.of_nat n) [] delimPos firstNonZeroPos.
Proof.
  induction n as [| n IH]; intros i dp fnz.
  - simpl. rewrite Z.add_0_r. reflexivity.
  - change (repeat "0"%char (S n) ++ rest)
      with ("0"%char :: (repeat "0"%char n ++ rest)).
    rewrite scan_cons. change (isDigit "0") with true.
    change (len [] =? 0) with true. change (Ascii.eqb "0" "0") with true.
    cbv iota. rewrite IH. f_equal. lia.
Qed.

Lemma scan_first (c : ascii) (rest : list ascii) (i delimPos firstNonZeroPos : Z) :
  isDigit c = true -> Ascii.eqb c "0"%char = false ->
  scan (c :: rest) i [] delimPos firstNonZeroPos
  = scan rest (i + 1) [c] delimPos i.
Proof.
  intros Hc Hz. rewrite scan_cons, Hc, Hz. reflexivity.
Qed.

Lemma scan_delim (rest : list ascii) (i : Z) (b : list ascii) (firstNonZeroPos : Z) :
  scan (delim :: rest) i b (-1) firstNonZeroPos
  = scan rest (i + 1) b i firstNonZeroPos.
Proof. reflexivity. Qed.

(** A number that starts with a non-zero digit: the scan keeps every digit
    and records position [i] of the first one. *)
Lemma scan_number (c : ascii) (t rest : list ascii)
    (i delimPos firstNonZeroPos : Z) :
  isDigit c = true -> Ascii.eqb c "0"%char = false ->
  forallb isDigit t = true ->
  scan (c :: t ++ rest) i [] delimPos firstNonZeroPos
  = scan rest (i + 1 + len t) (c :: t) delimPos i.
Proof.
  intros Hc Hz Ht. rewrite scan_first by assumption.
  rewrite scan_digits by (assumption || discriminate). reflexivity.
Qed.

Lemma scan_number_end (c : ascii) (t : list ascii)
    (i delimPos firstNonZeroPos : Z) :
  isDigit c = true -> Ascii.eqb c "0"%char = false ->
  forallb isDigit t = true ->
  scan (c :: t) i [] delimPos firstNonZeroPos = inr (c :: t, delimPos, i, 0).
Proof.
  intros Hc Hz Ht. rewrite <- (app_nil_r t) at 1.
  rewrite scan_number by assumption. reflexivity.
Qed.

Lemma scan_digits_end (ds : list ascii) (i : Z) (b : list ascii)
    (delimPos firstNonZeroPos : Z) :
  forallb isDigit ds = true -> b <> [] ->
  scan ds i b delimPos firstNonZeroPos
  = inr (b ++ ds, delimPos, firstNonZeroPos, 0).
Proof.
  intros Hd Hb. rewrite <- (app_nil_r ds) at 1.
  rewrite scan_digits by assumption. reflexivity.
Qed.

Lemma FormatUint_shape (m : Z) :
  0 < m <= maxMantissa ->
  exists c t,
    FormatUint m = c :: t /\ isDigit c = true /\
    Ascii.eqb c "0"%char = false /\ forallb isDigit t = true /\
    1 + len t <= 17.
Proof.
  intros Hm. rewrite maxMantissa_eq in Hm.
  destruct (FormatUint_leading m ltac:(lia)) as (c & t & Hs & Hc & Hz).
  pose proof (FormatUint_allDigits m ltac:(lia)) as Hd.
  pose proof (FormatUint_mantissa_length m
                ltac:(rewrite maxMantissa_eq; lia)) as Hl.
  rewrite Hs in Hd, Hl. simpl in Hd. rewrite Hc in Hd. rewrite len_cons in Hl.
  exists c, t. repeat split; try assumption. lia.
Qed.

Lemma removeLeadingZeros_render (m e : Z) :
  normal m e ->
  removeLeadingZeros (render m e)
  = inr (FormatUint m ++ repeat "0"%char (Z.to_nat e),
         len (FormatUint m) + e, 0).
Proof.
  intros (Hm & He & _). rewrite minExponent_eq, maxExponent_eq in He.
  destruct (FormatUint_shape m Hm) as (c & t & Hs & Hc & Hz & Ht & Hl).
  pose proof (len_nonneg t) as Hlt.
  unfold render, removeLeadingZeros. rewrite Hs.
  destruct (e =? 0) eqn:E0; [| destruct (e >? 0) eqn:E1].
  - apply Z.eqb_eq in E0. subst e.
    rewrite scan_number_end by assumption.
    change (Z.to_nat 0) with 0%nat. simpl repeat. rewrite app_nil_r.
    rewrite Z.add_0_r. reflexivity.
  - rewrite <- app_comm_cons.
    rewrite scan_number_end;
      [| assumption | assumption | rewrite forallb_app, Ht; apply allDigits_zeros].
    cbv beta iota.
    change (0 =? -1) with false. change (-1 >=? 0) with false. cbv iota.
    rewrite len_cons, len_app, len_repeat, Z2Nat.id by lia.
    rewrite len_cons. rewrite Z.add_assoc. reflexivity.
  - rewrite len_cons.
    destruct (1 + len t + e <=? 0) eqn:E2.
    + set (k := Z.to_nat (- (1 + len t + e))).
      change ("0"%char :: delim :: repeat "0"%char k ++ c :: t)
        with (repeat "0"%char 1 ++ delim :: repeat "0"%char k ++ c :: t).
      rewrite scan_zeros, scan_delim, scan_zeros.
      rewrite scan_number_end by assumption.
      cbv beta iota.
      replace (0 + Z.of_nat 1 + 1 + Z.of_nat k) with (2 + Z.of_nat k) by lia.
      replace (0 + Z.of_nat 1) with 1 by lia.
      destruct (2 + Z.of_nat k =? -1) eqn:E3; [lia |].
      change (1 >=? 0) with true. cbv iota.
      destruct (1 <? 2 + Z.of_nat k) eqn:E4; [| lia].
      replace (Z.to_nat e) with 0%nat by lia. simpl repeat.
      rewrite app_nil_r.
      replace (1 - (2 + Z.of_nat k - 1)) with (1 + len t + e)
        by (unfold k; lia).
      reflexivity.
    + assert (Hk : Z.to_nat (1 + len t + e) = S (Z.to_nat (len t + e))) by lia.
      rewrite Hk. set (k := Z.to_nat (len t + e)).
      cbn [firstn skipn]. rewrite <- app_comm_cons.
      destruct (allDigits_firstn_skipn k t Ht) as [Hf Hsk].
      rewrite scan_number by assumption.
      rewrite scan_delim.
      rewrite scan_digits_end by (assumption || discriminate).
      cbv beta iota.
      change (0 =? -1) with false. cbv iota.
      assert (Hlen : len (firstn k t) = len t + e).
      { unfold len. rewrite firstn_length_le by (unfold len in *; lia).
        unfold k. unfold len in *. lia. }
      rewrite Hlen.
      destruct (0 + 1 + (len t + e) >=? 0) eqn:E3; [| lia].
      destruct (0 + 1 + (len t + e) <? 0) eqn:E4; [lia |].
      replace (Z.to_nat e) with 0%nat by lia. simpl repeat.
      rewrite app_nil_r. rewrite <- app_comm_cons, firstn_skipn.
      replace (0 + 1 + (len t + e) - 0) with (1 + len t + e) by lia.
      reflexivity.
Qed.

(** ** Trailing zeros of the digit string *)

Lemma dropZerosRev_zeros (n : nat) (l : list ascii) :
  dropZerosRev (repeat "0"%char n ++ l) = dropZerosRev l.
Proof. induction n as [| n IH]; [reflexivity | simpl; exact IH]. Qed.

Lemma rev_zeros (n : nat) : rev (repeat "0"%char n) = repeat "0"%char n.
Proof.
  induction n as [| n IH]; [reflexivity |].
  simpl. rewrite IH. clear IH.
  induction n as [| n IH]; [reflexivity | simpl; rewrite IH; reflexivity].
Qed.

(** Dropping the zeros at the low end of a number's digits leaves the digits
    of the number without its factors of ten. *)
Lemma dropZerosRev_formatBits (fuel : nat) :
  forall n,
    0 < n < 2 ^ 64 -> n < 10 ^ Z.of_nat fuel ->
    exists (j : nat) (n' : Z),
      0 < n' /\ n = n' * 10 ^ Z.of_nat j /\ n' mod 10 <> 0 /\
      parseUint_loop (rev (dropZerosRev (formatBits fuel n))) 0 = inr n' /\
      len (dropZerosRev (formatBits fuel n)) + Z.of_nat j
      = len (formatBits fuel n) /\
      1 <= len (dropZerosRev (formatBits fuel n)).
Proof.
  induction fuel as [| fuel IH]; intros n Hn Hf.
  - change (10 ^ Z.of_nat 0) with 1 in Hf. lia.
  - pose proof (formatBits_parse (S fuel) n ltac:(lia) Hf) as Hparse.
    rewrite formatBits_S in *.
    assert (Hkeep : forall c t,
               Ascii.eqb c "0"%char = false -> n mod 10 <> 0 ->
               parseUint_loop (rev (c :: t)) 0 = inr n ->
               exists (j : nat) (n' : Z),
                 0 < n' /\ n = n' * 10 ^ Z.of_nat j /\ n' mod 10 <> 0 /\
                 parseUint_loop (rev (dropZerosRev (c :: t))) 0 = inr n' /\
                 len (dropZerosRev (c :: t)) + Z.of_nat j = len (c :: t) /\
                 1 <= len (dropZerosRev (c :: t))).
    { intros c t Hc Hmod Hp. exists 0%nat, n.
      cbn [dropZerosRev]. rewrite Hc. rewrite len_cons.
      pose proof (len_nonneg t).
      change (10 ^ Z.of_nat 0) with 1. repeat split; try lia. exact Hp. }
    destruct (n <? 10) eqn:E.
    + destruct (digitChar_facts n ltac:(lia)) as (_ & _ & H3).
      apply Hkeep; [rewrite H3; apply Z.eqb_neq; lia | | exact Hparse].
      rewrite Z.mod_small by lia. lia.
    + pose proof (Z.mod_pos_bound n 10 ltac:(lia)) as Hmod.
      pose proof (Z.div_mod n 10 ltac:(lia)) as Hdm.
      destruct (digitChar_facts (n mod 10) ltac:(lia)) as (_ & _ & H3).
      destruct (Z.eq_dec (n mod 10) 0) as [Hz | Hnz].
      * replace (Z.of_nat (S fuel)) with (Z.of_nat fuel + 1) in Hf by lia.
        rewrite pow_10_succ in Hf by lia.
        destruct (IH (n / 10) ltac:(lia) ltac:(lia))
          as (j & n' & H1 & H2 & H4 & H5 & H6 & H7).
        exists (S j), n'.
        cbn [dropZerosRev]. rewrite H3, Hz. change (0 =? 0) with true.
        cbv iota. rewrite len_cons.
        replace (Z.of_nat (S j)) with (Z.of_nat j + 1) by lia.
        rewrite pow_10_succ by lia.
        repeat split; try assumption; try lia.
      * apply Hkeep; [rewrite H3; apply Z.eqb_neq; exact Hnz | exact Hnz |].
        exact Hparse.
Qed.

Lemma ParseUint_nonempty (s : list ascii) :
  1 <= len s -> ParseUint s = parseUint_loop s 0.
Proof.
  intros H. destruct s as [| c s]; [rewrite len_nil in H; lia | reflexivity].
Qed.

Lemma parseValue_render (m e : Z) :
  normal m e ->
  exists (j : nat) (m' : Z) (digits : list ascii),
    parseValue (render m e) = inr (digits, e + Z.of_nat j) /\
    0 < m' /\ m = m' * 10 ^ Z.of_nat j /\ m' mod 10 <> 0 /\
    ParseUint digits = inr m' /\ 1 <= len digits <= 17.
Proof.
  intros Hn. pose proof Hn as (Hm & He & _).
  rewrite minExponent_eq, maxExponent_eq, maxMantissa_eq in *.
  unfold parseValue. rewrite (removeLeadingZeros_render m e Hn).
  unfold removeTrailingZerosString.
  rewrite rev_app_distr, rev_zeros, dropZerosRev_zeros.
  pose proof pow_10_20 as H20.
  destruct (dropZerosRev_formatBits 20 m ltac:(lia) ltac:(lia))
    as (j & m' & H1 & H2 & H3 & H4 & H5 & H6).
  pose proof (FormatUint_mantissa_length m
                ltac:(rewrite maxMantissa_eq; lia)) as Hl.
  unfold FormatUint in Hl |- *. rewrite !rev_involutive. rewrite len_rev in *.
  set (l := dropZerosRev (formatBits 20 m)) in *.
  exists j, m', (rev l).
  rewrite len_rev.
  rewrite (i32_small (len (formatBits 20 m) + e - len l)) by lia.
  rewrite (i32_small (0 + (len (formatBits 20 m) + e - len l))) by lia.
  replace (0 + (len (formatBits 20 m) + e - len l)) with (e + Z.of_nat j)
    by lia.
  repeat split; try assumption; try lia.
  rewrite ParseUint_nonempty by (rewrite len_rev; lia). exact H4.
Qed.

Lemma fromStringAndExp_digits (digits : list ascii) (u e : Z) :
  1 <= len digits <= 17 -> ParseUint digits = inr u ->
  fromStringAndExp digits e = Ok (adjustMantExp u e).
Proof.
  intros Hl Hp. unfold fromStringAndExp.
  change digitsInMaxMantissa with 17.
  destruct (len digits =? 0) eqn:E1; [lia |].
  destruct (len digits - 17 >? 0) eqn:E2; [lia |].
  rewrite Hp. reflexivity.
Qed.

(** ** prepareString on a plain number *)

Lemma isSpace1_digit (c : ascii) : isDigit c = true -> isSpace1 c = false.
Proof.
  intros H. apply isDigit_code in H. unfold isSpace1. cbv zeta.
  destruct (9 <=? code c) eqn:E1; destruct (code c <=? 13) eqn:E2;
    destruct (code c =? 32) eqn:E3; try reflexivity; lia.
Qed.

Lemma isSpace2_digit_l (c c2 : ascii) :
  isDigit c = true -> isSpace2 c c2 = false.
Proof.
  intros H. apply isDigit_code in H. unfold isSpace2.
  destruct (code c =? 194) eqn:E1; [lia | reflexivity].
Qed.

Lemma isSpace3_digit_l (c c2 c3 : ascii) :
  isDigit c = true -> isSpace3 c c2 c3 = false.
Proof.
  intros H. apply isDigit_code in H. unfold isSpace3.
  destruct (code c =? 225) eqn:E1; [lia |].
  destruct (code c =? 226) eqn:E2; [lia |].
  destruct (code c =? 227) eqn:E3; [lia |]. reflexivity.
Qed.

Lemma isSpace2_digit_r (c d : ascii) :
  isDigit d = true -> isSpace2 c d = false.
Proof.
  intros H. apply isDigit_code in H. unfold isSpace2.
  destruct (code d =? 133) eqn:E1; [lia |].
  destruct (code d =? 160) eqn:E2; [lia |].
  apply andb_false_r.
Qed.

Lemma isSpace3_digit_r (c3 c2 d : ascii) :
  isDigit d = true -> isSpace3 c3 c2 d = false.
Proof.
  intros H. apply isDigit_code in H. unfold isSpace3.
  destruct (code d =? 128) eqn:E1; [lia |].
  destruct (128 <=? code d) eqn:E2; [lia |].
  destruct (code d =? 168) eqn:E3; [lia |].
  destruct (code d =? 169) eqn:E4; [lia |].
  destruct (code d =? 175) eqn:E5; [lia |].
  destruct (code d =? 159) eqn:E6; [lia |].
  cbn [andb orb]. rewrite !andb_false_r. reflexivity.
Qed.

Lemma TrimLeftSpace_digit (c : ascii) (r : list ascii) :
  isDigit c = true -> TrimLeftSpace (c :: r) = c :: r.
Proof.
  intros H. cbn [TrimLeftSpace]. rewrite (isSpace1_digit c H).
  destruct r as [| c2 r]; [reflexivity |].
  rewrite (isSpace2_digit_l c c2 H).
  destruct r as [| c3 r]; [reflexivity |].
  rewrite (isSpace3_digit_l c c2 c3 H). reflexivity.
Qed.

Lemma trimSpaceRev_digit (d : ascii) (r : list ascii) :
  isDigit d = true -> trimSpaceRev (d :: r) = d :: r.
Proof.
  intros H. cbn [trimSpaceRev]. rewrite (isSpace1_digit d H).
  destruct r as [| c2 r]; [reflexivity |].
  rewrite (isSpace2_digit_r c2 d H).
  destruct r as [| c3 r]; [reflexivity |].
  rewrite (isSpace3_digit_r c3 c2 d H). reflexivity.
Qed.

Lemma prepareString_plain (c d : ascii) (r r' : list ascii) :
  isDigit c = true -> isDigit d = true -> rev (c :: r) = d :: r' ->
  prepareString (c :: r) = (c :: r, 0, false).
Proof.
  intros Hc Hd Hrev.
  assert (Hs : c :: r = rev r' ++ [d]).
  { rewrite <- (rev_involutive (c :: r)), Hrev. reflexivity. }
  unfold prepareString.
  rewrite (digit_neq c quote Hc) by reflexivity.
  rewrite len_cons. pose proof (len_nonneg r) as Hl.
  destruct (1 + len r =? 0) eqn:E; [lia |].
  assert (Hlast : last (c :: r) " "%char = d).
  { rewrite Hs. apply last_last. }
  rewrite Hlast. rewrite (digit_neq d quote Hd) by reflexivity.
  rewrite (TrimLeftSpace_digit c r Hc).
  rewrite Z.eqb_refl. cbn [negb].
  unfold TrimRightSpace. rewrite Hrev, (trimSpaceRev_digit d r' Hd).
  rewrite <- Hrev, rev_involutive.
  rewrite (digit_neq c "-"%char Hc) by reflexivity.
  rewrite (digit_neq c "+"%char Hc) by reflexivity.
  reflexivity.
Qed.

Lemma ends_with_digit (a t : list ascii) :
  forallb isDigit t = true -> t <> [] ->
  exists d r', rev (a ++ t) = d :: r' /\ isDigit d = true.
Proof.
  intros Ht Hne. destruct (exists_last Hne) as (t' & d & ->).
  rewrite forallb_app in Ht. apply andb_prop in Ht. destruct Ht as [_ Hd].
  simpl in Hd. rewrite andb_true_r in Hd.
  exists d, (rev (a ++ t')). split; [| exact Hd].
  rewrite app_assoc, rev_app_distr. reflexivity.
Qed.

Lemma render_plain (m e : Z) :
  normal m e ->
  exists c r d r',
    render m e = c :: r /\ isDigit c = true /\
    rev (render m e) = d :: r' /\ isDigit d = true.
Proof.
  intros (Hm & He & _). rewrite minExponent_eq, maxExponent_eq in He.
  destruct (FormatUint_shape m Hm) as (c & t & Hs & Hc & Hz & Ht & Hl).
  assert (Hall : forallb isDigit (c :: t) = true)
    by (simpl; rewrite Hc; exact Ht).
  pose proof (len_nonneg t) as Hlt.
  unfold render. rewrite Hs. rewrite len_cons.
  destruct (e =? 0) eqn:E0; [| destruct (e >? 0) eqn:E1;
    [| destruct (1 + len t + e <=? 0) eqn:E2]].
  - destruct (ends_with_digit [] (c :: t) Hall ltac:(discriminate))
      as (d & r' & Hr & Hd).
    exists c, t, d, r'. repeat split; assumption.
  - destruct (ends_with_digit [] ((c :: t) ++ repeat "0"%char (Z.to_nat e)))
      as (d & r' & Hr & Hd);
      [rewrite forallb_app, Hall; apply allDigits_zeros | discriminate |].
    exists c, (t ++ repeat "0"%char (Z.to_nat e)), d, r'.
    repeat split; assumption.
  - destruct (ends_with_digit
                ("0"%char :: delim
                 :: repeat "0"%char (Z.to_nat (- (1 + len t + e))))
                (c :: t) Hall ltac:(discriminate)) as (d & r' & Hr & Hd).
    exists "0"%char,
      (delim :: repeat "0"%char (Z.to_nat (- (1 + len t + e))) ++ c :: t),
      d, r'.
    repeat split; try assumption. 
  - assert (Hk : Z.to_nat (1 + len t + e) = S (Z.to_nat (len t + e))) by lia.
    rewrite Hk. set (k := Z.to_nat (len t + e)).
    cbn [firstn skipn].
    destruct (allDigits_firstn_skipn k t Ht) as [Hf Hsk].
    assert (Hne : skipn k t <> []).
    { intros Hnil. pose proof (length_skipn k t) as Hlen.
      rewrite Hnil in Hlen. simpl in Hlen. unfold len in *. lia. }
    destruct (ends_with_digit ((c :: firstn k t) ++ [delim]) (skipn k t)
                Hsk Hne) as (d & r' & Hr & Hd).
    rewrite <- app_assoc in Hr.
    exists c, (firstn k t ++ delim :: skipn k t), d, r'.
    repeat split; assumption.
Qed.

(** ** The string round trip *)

(** C3.  For every [Value] [v], [FromString] accepts the text [String]
    writes for [v], without error and without recourse to the float
    fallback, and returns exactly the word [Normalized v]. *)
Theorem C3_String_roundtrip :
  forall (pf : list ascii -> option (res Value)) (v : Value),
    FromString pf (String v) = Ok (Normalized v).
Proof.
  intros pf v. destruct (Z.eq_dec (mant v) 0) as [E | E].
  - rewrite (String_zero v E), (Normalized_zero v E). reflexivity.
  - destruct (Normalized_nonzero v E) as (m & e & HN & Hn & _).
    assert (Hs : split (Normalized v) = (m, e)).
    { rewrite HN. destruct Hn as (Hm & He & _).
      apply split_fromMantAndExp; lia. }
    rewrite (String_render v m e Hs Hn), HN.
    destruct (render_plain m e Hn) as (c & r & d & r' & Hr & Hc & Hrev & Hd).
    destruct (parseValue_render m e Hn)
      as (j & m' & digits & Hp & Hm' & Hmj & Hmod & Hu & Hl).
    unfold FromString. rewrite Hr in Hrev |- *.
    rewrite (prepareString_plain c d r r' Hc Hd Hrev).
    rewrite <- Hr, Hp.
    assert (Hlen : (len (render m e) =? 0) = false).
    { rewrite Hr, len_cons. pose proof (len_nonneg r). apply Z.eqb_neq. lia. }
    rewrite Hlen.
    rewrite (fromStringAndExp_digits digits m' (e + Z.of_nat j) Hl Hu).
    f_equal. destruct Hn as (Hm & He & Hz).
    destruct j as [| j].
    + change (Z.of_nat 0) with 0 in *. change (10 ^ 0) with 1 in Hmj.
      rewrite Z.add_0_r. replace m' with m by lia.
      apply adjustMantExp_id; assumption.
    + assert (He128 : e = maxExponent).
      { destruct (Z.eq_dec e maxExponent) as [Heq | Hne]; [exact Heq |].
        exfalso. apply Hz; [lia |].
        replace (Z.of_nat (S j)) with (Z.of_nat j + 1) in Hmj by lia.
        rewrite pow_10_succ in Hmj by lia.
        rewrite Hmj. replace (m' * (10 * 10 ^ Z.of_nat j))
          with ((m' * 10 ^ Z.of_nat j) * 10) by lia.
        apply Z_mod_mult. }
      subst e. rewrite adjustMantExp_above by lia.
      rewrite <- Hmj. reflexivity.
Qed.

(** ** Faults of the division *)

Lemma i32_range (x : Z) : - 2 ^ 31 <= i32 x < 2 ^ 31.
Proof. unfold i32. pose proof (Z.mod_pos_bound (x + 2 ^ 31) (2 ^ 32)). lia. Qed.

Lemma i64_range (x : Z) : - 2 ^ 63 <= i64 x < 2 ^ 63.
Proof. unfold i64. pose proof (Z.mod_pos_bound (x + 2 ^ 63) (2 ^ 64)). lia. Qed.

Lemma trimZeros_loop_bounds (fuel : nat) (eMax : Z) :
  forall m e,
    0 <= m -> - 2 ^ 31 <= e < 2 ^ 31 ->
    0 <= fst (trimZeros_loop fuel m e eMax) <= m /\
    - 2 ^ 31 <= snd (trimZeros_loop fuel m e eMax) < 2 ^ 31.
Proof.
  induction fuel as [| fuel IH]; intros m e Hm He; [simpl; lia |].
  cbn [trimZeros_loop].
  destruct ((e <? eMax) && (m mod 10 =? 0)); [| simpl; lia].
  assert (Hq : 0 <= m / 10 <= m).
  { split; [apply Z.div_pos; lia |].
    apply Z.div_le_upper_bound; lia. }
  destruct (IH (m / 10) (i32 (e + 1)) ltac:(lia) (i32_range _)) as [H1 H2].
  split; [lia | exact H2].
Qed.

Lemma round_cut_returns (n e ei dd toCut prec mode : Z) :
  1 <= dd <= 19 ->
  exists n' e', round_cut n e ei dd toCut prec mode = Ok (n', e').
Proof.
  intros Hdd. unfold round_cut.
  destruct (toCut <=? 0) eqn:E0; [eauto |].
  set (c := if toCut >? dd then dd else toCut).
  assert (Hc : 1 <= c <= 19) by (unfold c; destruct (toCut >? dd) eqn:E; lia).
  pose proof (pow10_pos c ltac:(lia)) as Hp.
  unfold umod, udiv. destruct (pow10 c =? 0) eqn:E1; [lia |].
  cbn [bind].
  destruct (mode =? modeRound).
  { destruct (n mod pow10 c >? pow10 c / 2); eauto. }
  destruct (mode =? modeCeil); [| eauto].
  destruct (negb (n mod pow10 c =? 0)); [| eauto].
  destruct (n / pow10 c >? 0); [eauto |].
  destruct (prec >=? 0); eauto.
Qed.

Lemma round_returns (n e prec mode : Z) :
  0 <= n < 10 ^ 19 -> - 2 ^ 31 <= e < 2 ^ 31 ->
  exists n' e', round n e prec mode = Ok (n', e').
Proof.
  intros Hn He.
  assert (Hd : 1 <= decimalDigits n <= 19).
  { pose proof (decimalDigits_range n ltac:(lia)).
    pose proof (decimalDigits_le n 19 ltac:(lia) ltac:(lia) ltac:(lia)).
    lia. }
  unfold round. cbv zeta.
  destruct (prec >=? 0); [apply round_cut_returns; exact Hd |].
  destruct (e <? 0) eqn:E1; [| apply round_cut_returns; exact Hd].
  rewrite (i64_small (decimalDigits n + e)) by lia.
  destruct (decimalDigits n + e <=? 0) eqn:E2.
  { destruct ((n >? 0) && (mode =? modeCeil) && false); eauto. }
  rewrite (i64_small (- e)) by lia.
  pose proof (pow10_pos (- e) ltac:(lia)) as Hp.
  unfold udiv at 1. destruct (pow10 (- e) =? 0) eqn:E3; [lia |].
  cbn [bind]. apply round_cut_returns. lia.
Qed.

Lemma mul64_returns (a b : Z) :
  0 <= a <= maxMantissa -> 0 <= b <= maxMantissa ->
  exists r s, mul64 a b = Ok (r, s).
Proof.
  rewrite maxMantissa_eq. intros Ha Hb. unfold mul64, Mul64.
  destruct (a * b / 2 ^ 64 >? 0) eqn:E; [| eauto].
  set (hi := a * b / 2 ^ 64) in *.
  assert (Hhi : 0 < hi < 2 ^ 48).
  { split; [lia |]. unfold hi. apply Z.div_lt_upper_bound; [lia |].
    change (2 ^ 64 * 2 ^ 48) with (72057594037927936 * 72057594037927936).
    nia. }
  destruct (decimalDigits_spec hi ltac:(lia)) as [Hd Hdx].
  assert (Hd15 : decimalDigits hi <= 15).
  { apply decimalDigits_le; lia. }
  rewrite pow10_eq by lia.
  unfold Div64.
  pose proof (pow_10_pos (decimalDigits hi) ltac:(lia)) as Hp.
  destruct (10 ^ decimalDigits hi =? 0) eqn:E1; [lia |].
  destruct (10 ^ decimalDigits hi <=? hi) eqn:E2; [lia |].
  cbn [bind]. eauto.
Qed.

Lemma Mul_returns (v other : Value) : exists r, Mul v other = Ok r.
Proof.
  unfold Mul, split.
  destruct ((mant (Normalized v) =? 0) || (mant (Normalized other) =? 0));
    [eauto |].
  destruct (mul64_returns _ _ (mant_range (Normalized v))
              (mant_range (Normalized other))) as (r & s & H).
  rewrite H. cbn [bind]. eauto.
Qed.

Lemma doToEqualExp_returns (m1 e1 m2 e2 : Z) :
  m1 <> 0 -> exists r1 r2 re, doToEqualExp m1 e1 m2 e2 = Ok (r1, r2, re).
Proof.
  intros Hm. unfold doToEqualExp.
  destruct (i32 (e1 - e2) =? 0); [eauto |].
  destruct (trimZeros m2 e2 e1) as [m2' e2'].
  destruct (i32 (e1 - e2') =? 0); [eauto |].
  unfold udiv. destruct (m1 =? 0) eqn:E; [lia |]. cbn [bind]. cbv zeta.
  match goal with |- context [if ?c then Ok _ else Ok _] => destruct c end;
    eauto.
Qed.

Lemma toEqualExp_returns (m1 e1 m2 e2 : Z) :
  m1 <> 0 -> m2 <> 0 ->
  exists r1 r2 re, toEqualExp m1 e1 m2 e2 = Ok (r1, r2, re).
Proof.
  intros H1 H2. unfold toEqualExp. destruct (e1 >=? e2).
  - apply doToEqualExp_returns. exact H1.
  - destruct (doToEqualExp_returns m2 e2 m1 e1 H2) as (r1 & r2 & re & H).
    rewrite H. cbn [bind]. eauto.
Qed.

Lemma Sub_returns (v other : Value) : exists r neg, Sub v other = Ok (r, neg).
Proof.
  unfold Sub, split.
  destruct (mant other =? 0) eqn:E2.
  { destruct (mant v =? 0); eauto. }
  destruct (mant v =? 0) eqn:E1; [eauto |].
  destruct (toEqualExp_returns (mant v) (exp v) (mant other) (exp other)
              ltac:(lia) ltac:(lia)) as (r1 & r2 & re & H).
  rewrite H. cbn [bind]. unfold subWithExp.
  destruct (r1 >=? r2); eauto.
Qed.

Lemma Add_returns (v other : Value) : exists r, Add v other = Ok r.
Proof.
  unfold Add, split.
  destruct (mant v =? 0) eqn:E1.
  { destruct (mant other =? 0); eauto. }
  destruct (mant other =? 0) eqn:E2; [eauto |].
  destruct (toEqualExp_returns (mant v) (exp v) (mant other) (exp other)
              ltac:(lia) ltac:(lia)) as (r1 & r2 & re & H).
  rewrite H. cbn [bind]. eauto.
Qed.

(** What [divMod] returns for a non-zero divisor: a remainder that is zero,
    or a quotient below [10 ^ 19]. *)
Lemma divMod_returns (v1 v2 : Value) :
  mant v2 <> 0 ->
  exists q r e,
    divMod v1 v2 = Ok (q, r, e) /\ 0 <= q /\ (r <> 0 -> q < 10 ^ 19) /\
    - 2 ^ 31 <= e < 2 ^ 31.
Proof.
  intros H2. unfold divMod, split.
  pose proof (mant_range v1) as R1. pose proof (mant_range v2) as R2.
  rewrite maxMantissa_eq in *.
  destruct (mant v2 =? 0) eqn:E2; [lia |].
  destruct (mant v1 =? 0) eqn:E1.
  { exists 0, 0, 0. repeat split; lia. }
  destruct (mant v1 mod mant v2 =? 0) eqn:E3.
  { exists (mant v1 / mant v2), 0, (i32 (exp v1 - exp v2)).
    repeat split; try lia; try apply i32_range.
    apply Z.div_pos; lia. }
  cbv zeta.
  set (m1 := u64 (mant v1 * pow10 (log10 (maxNumber / mant v1)))).
  pose proof (u64_range (mant v1 * pow10 (log10 (maxNumber / mant v1)))) as Hm1.
  fold m1 in Hm1.
  assert (Hm2 : 2 <= mant v2).
  { destruct (Z.eq_dec (mant v2) 1) as [H1 | H1]; [| lia].
    rewrite H1, Z.mod_1_r in E3. discriminate E3. }
  eexists _, _, _. split; [reflexivity |].
  split; [apply Z.div_pos; lia |].
  split; [| apply i32_range].
  intros _. apply Z.div_lt_upper_bound; [lia |].
  change (10 ^ 19) with 10000000000000000000.
  change (2 ^ 64) with 18446744073709551616 in Hm1. nia.
Qed.

Lemma divMod_zero_divisor (v1 v2 : Value) :
  mant v2 = 0 -> divMod v1 v2 = Panic DivisionByZero.
Proof.
  intros H. unfold divMod, split. rewrite H. reflexivity.
Qed.

Lemma DivMod_returns (a b : Value) (p : Z) :
  mant b <> 0 -> exists q r, DivMod a b p = Ok (q, r).
Proof.
  intros Hb.
  assert (Hb' : mant (Normalized b) <> 0)
    by (rewrite mant_Normalized_zero; exact Hb).
  destruct (divMod_returns (Normalized a) (Normalized b) Hb')
    as (q & r & e & Hdm & Hq & Hr & He).
  unfold DivMod. rewrite Hdm. cbn [bind].
  destruct (r =? 0) eqn:Er; [eauto |].
  specialize (Hr ltac:(lia)).
  assert (Htrim : exists q' e',
             (if e <? maxExponent then trimZeros q e maxExponent else (q, e))
             = (q', e') /\ 0 <= q' < 10 ^ 19 /\ - 2 ^ 31 <= e' < 2 ^ 31).
  { destruct (e <? maxExponent).
    - pose proof (trimZeros_loop_bounds (Z.to_nat (maxExponent - e))
                    maxExponent q e Hq He) as [H1 H2].
      unfold trimZeros.
      destruct (trimZeros_loop (Z.to_nat (maxExponent - e)) q e maxExponent)
        as [q' e'].
      exists q', e'. simpl in H1, H2. split; [reflexivity | lia].
    - exists q, e. split; [reflexivity | lia]. }
  destruct Htrim as (q' & e' & Ht & Hq' & He').
  rewrite Ht.
  destruct (round_returns q' e' p modeFloor Hq' He') as (n & e'' & Hround).
  rewrite Hround. cbn [bind].
  destruct (Mul_returns (Normalized b) (adjustMantExp n e'')) as (x & Hx).
  rewrite Hx. cbn [bind].
  destruct (Sub_returns (Normalized a) x) as (rem & neg & Hs).
  rewrite Hs. cbn [bind]. eauto.
Qed.

Lemma Div_returns (float64Quo : Z -> Z -> Z -> Z -> Value) (a b : Value) :
  mant b <> 0 -> exists d, Div float64Quo a b = Ok d.
Proof.
  intros Hb.
  assert (Hb' : mant (Normalized b) <> 0)
    by (rewrite mant_Normalized_zero; exact Hb).
  destruct (divMod_returns (Normalized a) (Normalized b) Hb')
    as (q & r & e & Hdm & _).
  unfold Div. rewrite Hdm. cbn [bind].
  destruct (r =? 0); [eauto |].
  unfold float64Div, split.
  destruct (mant (Normalized b) =? 0) eqn:E; [lia | eauto].
Qed.

(** C5.  [Div] and [DivMod] panic with "division by zero" exactly when the
    divisor has a zero mantissa; for every other divisor, every dividend
    and every precision they return values: no panic of the explicit check,
    of an integer division or of [bits.Div64], and no [error].  The float64
    path of [Div] is a parameter; floating-point arithmetic does not fault. *)
Theorem C5_division_faults_iff_zero_divisor :
  forall (float64Quo : Z -> Z -> Z -> Z -> Value) (a b : Value) (p : Z),
  exists d q r,
    Div float64Quo a b
    = (if mant b =? 0 then Panic DivisionByZero else Ok d) /\
    DivMod a b p
    = (if mant b =? 0 then Panic DivisionByZero else Ok (q, r)).
Proof.
  intros fq a b p. destruct (mant b =? 0) eqn:E.
  - apply Z.eqb_eq in E.
    assert (Hz : mant (Normalized b) = 0)
      by (rewrite mant_Normalized_zero; exact E).
    exists zero, zero, zero. unfold Div, DivMod.
    rewrite (divMod_zero_divisor _ _ Hz). split; reflexivity.
  - apply Z.eqb_neq in E.
    destruct (Div_returns fq a b E) as (d & Hd).
    destruct (DivMod_returns a b p E) as (q & r & Hqr).
    exists d, q, r. split; assumption.
Qed.

(** ** The loops end by their own condition

    Each loop of the source is modelled with a bound on its rounds.  The
    bound is never what stops it: on exit the loop condition is false. *)

Lemma adjust_up_exit (fuel : nat) :
  forall m e,
    0 <= m < 10 ^ Z.of_nat fuel ->
    let '(m', e') := adjust_up fuel m e in
    (((m' >? maxMantissa) || (e' <? minExponent)) && (m' >? 0)
     && (i32 (e' + 1) <? maxExponent)) = false.
Proof.
  induction fuel as [| fuel IH]; intros m e Hm.
  - change (10 ^ Z.of_nat 0) with 1 in Hm. assert (m = 0) by lia. subst m.
    cbn [adjust_up]. change (0 >? 0) with false.
    rewrite andb_false_r. reflexivity.
  - rewrite adjust_up_S.
    destruct (((m >? maxMantissa) || (e <? minExponent)) && (m >? 0)
              && (i32 (e + 1) <? maxExponent)) eqn:E; [| exact E].
    apply IH.
    replace (Z.of_nat (S fuel)) with (Z.of_nat fuel + 1) in Hm by lia.
    rewrite pow_10_succ in Hm by lia.
    split; [apply Z.div_pos; lia | apply Z.div_lt_upper_bound; lia].
Qed.

Lemma adjust_down_exit (fuel : nat) :
  forall m e,
    - 2 ^ 31 <= e < 2 ^ 31 -> e - maxExponent <= Z.of_nat fuel ->
    let '(m', e') := adjust_down fuel m e in
    ((e' >? maxExponent) && (u64 (m' * 10) <? maxMantissa)) = false.
Proof.
  induction fuel as [| fuel IH]; intros m e He Hf.
  - cbn [adjust_down]. destruct (e >? maxExponent) eqn:E; [lia | reflexivity].
  - rewrite adjust_down_S.
    destruct ((e >? maxExponent) && (u64 (m * 10) <? maxMantissa)) eqn:E;
      [| exact E].
    apply andb_prop in E. destruct E as [E1 _].
    rewrite maxExponent_eq in *.
    rewrite (i32_small (e - 1)) by lia.
    apply IH; lia.
Qed.

Lemma trimZeros_exit (m e eMax : Z) :
  - 2 ^ 31 <= e -> eMax < 2 ^ 31 ->
  let '(m', e') := trimZeros m e eMax in
  ((e' <? eMax) && (m' mod 10 =? 0)) = false.
Proof.
  intros He HeMax. unfold trimZeros.
  assert (H : forall fuel m e,
             - 2 ^ 31 <= e -> eMax - e <= Z.of_nat fuel ->
             let '(m', e') := trimZeros_loop fuel m e eMax in
             ((e' <? eMax) && (m' mod 10 =? 0)) = false).
  { clear m e He. induction fuel as [| fuel IH]; intros m e He Hf.
    - cbn [trimZeros_loop]. destruct (e <? eMax) eqn:E; [lia | reflexivity].
    - cbn [trimZeros_loop].
      destruct ((e <? eMax) && (m mod 10 =? 0)) eqn:E; [| exact E].
      apply andb_prop in E. destruct E as [E1 _].
      rewrite (i32_small (e + 1)) by lia. apply IH; lia. }
  apply H; lia.
Qed.

Lemma adjustMantExp_loops_exit (m e : Z) :
  0 <= m < 2 ^ 64 -> - 2 ^ 31 <= e < 2 ^ 31 ->
  let '(m1, e1) := adjust_up 20 m e in
  let '(m2, e2) := adjust_down (Z.to_nat (e1 - maxExponent)) m1 e1 in
  (((m1 >? maxMantissa) || (e1 <? minExponent)) && (m1 >? 0)
   && (i32 (e1 + 1) <? maxExponent)) = false /\
  ((e2 >? maxExponent) && (u64 (m2 * 10) <? maxMantissa)) = false.
Proof.
  intros Hm He.
  pose proof (adjust_up_exit 20 m e ltac:(pose proof pow_10_20; lia)) as H1.
  assert (Hr : - 2 ^ 31 <= snd (adjust_up 20 m e) < 2 ^ 31).
  { clear H1. generalize 20%nat. intros fuel. revert m e Hm He.
    induction fuel as [| fuel IH]; intros m e Hm He; [simpl; lia |].
    rewrite adjust_up_S.
    destruct (((m >? maxMantissa) || (e <? minExponent)) && (m >? 0)
              && (i32 (e + 1) <? maxExponent)); [| simpl; lia].
    apply IH; [| apply i32_range].
    split; [apply Z.div_pos; lia |].
    apply Z.div_lt_upper_bound; lia. }
  destruct (adjust_up 20 m e) as [m1 e1]. simpl in Hr.
  pose proof (adjust_down_exit (Z.to_nat (e1 - maxExponent)) m1 e1 Hr
                ltac:(lia)) as H2.
  destruct (adjust_down (Z.to_nat (e1 - maxExponent)) m1 e1) as [m2 e2].
  split; assumption.
Qed.

(** ** Comparison of a word with a larger one *)

Lemma uint64Cmp_ge (a b : Z) : b <= a -> 0 <= uint64Cmp a b.
Proof.
  intros H. unfold uint64Cmp.
  destruct (a >? b); [lia |]. destruct (a <? b) eqn:E; lia.
Qed.

(** [Cmp] answers 0 or 1 when the left word has the larger exponent and
    stands for at least the number of the right word. *)
Lemma Cmp_ge_of_scaled (n e' m e : Z) (w : Value) :
  0 < n <= maxMantissa -> 0 < m <= maxMantissa ->
  minExponent <= e -> e <= e' -> e' <= maxExponent ->
  split w = (m, e) ->
  m <= n * 10 ^ (e' - e) ->
  0 <= Cmp (fromMantAndExp n e') w.
Proof.
  intros Hn Hm He Hee He' Hw Hle. unfold Cmp.
  rewrite split_fromMantAndExp by lia. rewrite Hw.
  rewrite minExponent_eq, maxExponent_eq, maxMantissa_eq in *.
  rewrite (i32_small (e' - e)) by lia.
  destruct (e' - e =? 0) eqn:E0.
  { cbn [orb]. apply uint64Cmp_ge.
    replace (e' - e) with 0 in Hle by lia. change (10 ^ 0) with 1 in Hle. lia. }
  destruct (n =? 0) eqn:E1; [lia |]. destruct (m =? 0) eqn:E2; [lia |].
  cbn [orb].
  destruct (decimalDigits_spec n ltac:(lia)) as [Hdn Hdnx].
  destruct (decimalDigits_spec m ltac:(lia)) as [Hdm Hdmx].
  pose proof (decimalDigits_mantissa n ltac:(rewrite maxMantissa_eq; lia)) as Hn17.
  pose proof (decimalDigits_mantissa m ltac:(rewrite maxMantissa_eq; lia)) as Hm17.
  set (k := e' - e) in *.
  assert (Hk : decimalDigits m - 1 < decimalDigits n + k).
  { apply pow_10_lt_inv; try lia.
    rewrite Z.pow_add_r by lia.
    pose proof (pow_10_pos k ltac:(lia)). nia. }
  rewrite (i64_small (e' + decimalDigits n)) by lia.
  rewrite (i64_small (e + decimalDigits m)) by lia.
  destruct (e' + decimalDigits n >? e + decimalDigits m) eqn:E3; [lia |].
  destruct (e' + decimalDigits n <? e + decimalDigits m) eqn:E4; [lia |].
  destruct (k >? 0) eqn:E5; [| lia].
  assert (Hkd : decimalDigits n + k = decimalDigits m) by lia.
  rewrite pow10_eq by lia.
  assert (Hlt : n * 10 ^ k < 10 ^ 17).
  { apply Z.lt_le_trans with (10 ^ (decimalDigits n + k)).
    - rewrite Z.pow_add_r by lia.
      pose proof (pow_10_pos k ltac:(lia)). nia.
    - apply pow_10_le. lia. }
  pose proof (pow_10_pos k ltac:(lia)).
  rewrite (u64_small (n * 10 ^ k)) by (change (10 ^ 17) with 100000000000000000 in Hlt; nia).
  apply uint64Cmp_ge. exact Hle.
Qed.

(** ** Ceil at a non-negative precision *)

Lemma round_ceil_up (m e p : Z) :
  0 < m <= maxMantissa -> minExponent <= e <= maxExponent ->
  0 <= p <= 2 ^ 63 - 128 ->
  exists n e',
    round m e p modeCeil = Ok (n, e') /\
    0 < n <= maxMantissa /\ e <= e' /\ e' <= maxExponent /\
    m <= n * 10 ^ (e' - e).
Proof.
  intros Hm He Hp.
  rewrite minExponent_eq, maxExponent_eq, maxMantissa_eq in *.
  destruct (decimalDigits_spec m ltac:(lia)) as [Hd Hdx].
  pose proof (decimalDigits_mantissa m ltac:(rewrite maxMantissa_eq; lia)) as H17.
  unfold round. cbv zeta.
  destruct (p >=? 0) eqn:Ep; [| lia].
  rewrite (i64_small (- e - p)) by lia.
  unfold round_cut.
  destruct (- e - p <=? 0) eqn:E0.
  { exists m, e. replace (e - e) with 0 by lia. change (10 ^ 0) with 1.
    split; [reflexivity |]. repeat split; lia. }
  set (c := if - e - p >? decimalDigits m then decimalDigits m else - e - p).
  assert (Hc : 1 <= c <= decimalDigits m /\ c <= - e - p).
  { unfold c. destruct (- e - p >? decimalDigits m) eqn:E; lia. }
  rewrite pow10_eq by lia.
  pose proof (pow_10_pos c ltac:(lia)) as HP.
  unfold umod, udiv. destruct (10 ^ c =? 0) eqn:E1; [lia |].
  cbn [bind].
  pose proof (Z.div_mod m (10 ^ c) ltac:(lia)) as Hdm.
  pose proof (Z.mod_pos_bound m (10 ^ c) ltac:(lia)) as Hmod.
  assert (Hq : 0 <= m / 10 ^ c) by (apply Z.div_pos; lia).
  assert (HP10 : 10 <= 10 ^ c).
  { change 10 with (10 ^ 1) at 1. apply pow_10_le. lia. }
  rewrite (i64_small (e + c)) by lia.
  rewrite (i32_small (e + c)) by lia.
  change (modeCeil =? modeRound) with false.
  change (modeCeil =? modeCeil) with true. cbv iota.
  destruct (m mod 10 ^ c =? 0) eqn:Er; cbn [negb].
  - exists (m / 10 ^ c), (e + c).
    replace (e + c - e) with c by lia.
    split; [reflexivity |]. repeat split; try lia; nia.
  - destruct (m / 10 ^ c >? 0) eqn:En.
    + rewrite (u64_small (m / 10 ^ c + 1)) by nia.
      exists (m / 10 ^ c + 1), (e + c).
      replace (e + c - e) with c by lia.
      split; [reflexivity |]. repeat split; try lia; nia.
    + assert (Hn0 : m / 10 ^ c = 0) by lia.
      assert (Hcd : c = decimalDigits m).
      { destruct (Z.eq_dec c (decimalDigits m)) as [Heq | Hne]; [exact Heq |].
        pose proof (pow_10_le c (decimalDigits m - 1) ltac:(lia)). nia. }
      rewrite Ep. rewrite (i64_small (- p)) by lia.
      rewrite (i32_small (- p)) by lia.
      exists 1, (- p).
      pose proof (pow_10_le c (- p - e) ltac:(lia)).
      split; [reflexivity |]. repeat split; try lia; nia.
Qed.

(** ** Ceil at a negative precision *)

(** An exponent above the largest one: the second loop of [adjustMantExp]
    lowers it while the mantissa has room, and stops above the largest
    exponent when the room runs out. *)
Lemma adjust_down_full (j : nat) :
  forall (fuel : nat) (m : Z),
    (j <= fuel)%nat -> Z.of_nat j < 2 ^ 30 ->
    0 < m <= maxMantissa -> maxMantissa < m * 10 ^ Z.of_nat j ->
    exists m' e',
      adjust_down fuel m (maxExponent + Z.of_nat j) = (m', e') /\
      0 < m' /\ maxExponent < e'.
Proof.
  induction j as [| j IH]; intros fuel m Hf Hj Hm Hover.
  - change (Z.of_nat 0) with 0 in Hover. change (10 ^ 0) with 1 in Hover. lia.
  - destruct fuel as [| fuel]; [lia |].
    rewrite adjust_down_S.
    rewrite maxMantissa_eq, maxExponent_eq in *.
    rewrite (u64_small (m * 10)) by lia.
    assert (E1 : (128 + Z.of_nat (S j) >? 128) = true)
      by (apply Z.gtb_gt; lia).
    rewrite E1. cbn [andb].
    destruct (m * 10 <? 72057594037927935) eqn:E2.
    + rewrite (i32_small (128 + Z.of_nat (S j) - 1)) by lia.
      replace (128 + Z.of_nat (S j) - 1) with (128 + Z.of_nat j) by lia.
      replace (Z.of_nat (S j)) with (Z.of_nat j + 1) in Hover by lia.
      rewrite pow_10_succ in Hover by lia.
      destruct (IH fuel (m * 10)) as (m' & e' & H & Hm' & He').
      { lia. }
      { lia. }
      { lia. }
      { lia. }
      exists m', e'. split; [exact H |]. split; [exact Hm' | exact He'].
    + exists m, (128 + Z.of_nat (S j)). split; [reflexivity |].
      split; lia.
Qed.

Lemma adjustMantExp_over (m e : Z) :
  0 < m <= maxMantissa -> maxExponent <= e < 2 ^ 30 ->
  adjustMantExp m e = Max \/
  (m * 10 ^ (e - maxExponent) <= maxMantissa /\
   adjustMantExp m e = fromMantAndExp (m * 10 ^ (e - maxExponent)) maxExponent).
Proof.
  intros Hm He.
  pose proof maxExponent_eq as HX.
  remember (Z.to_nat (e - maxExponent)) as j eqn:Ej.
  assert (Hj : e = maxExponent + Z.of_nat j).
  { rewrite Ej. rewrite Z2Nat.id; lia. }
  assert (Hjz : e - maxExponent = Z.of_nat j) by lia.
  assert (Hjb : Z.of_nat j < 2 ^ 30) by lia.
  rewrite Hjz.
  destruct (Z_le_gt_dec (m * 10 ^ Z.of_nat j) maxMantissa) as [Hle | Hgt].
  - right. split; [exact Hle |]. rewrite Hj.
    apply adjustMantExp_above; [lia | exact Hle].
  - left. unfold adjustMantExp.
    rewrite adjust_up_id by (rewrite ?minExponent_eq, ?maxExponent_eq in *; lia).
    rewrite <- Ej. rewrite Hj.
    destruct (adjust_down_full j j m (le_n j) Hjb Hm ltac:(lia))
      as (m' & e' & H & Hm' & He').
    rewrite H.
    destruct (m' =? 0) eqn:E1; [lia |].
    rewrite minExponent_eq, maxExponent_eq in *.
    destruct (e' <? -127) eqn:E2; [lia |]. cbn [orb].
    destruct (e' >? 128) eqn:E3; [reflexivity | lia].
Qed.

(** [Cmp] answers 0 or 1 when the left word is what [adjustMantExp] makes of
    a mantissa and an exponent that stand for at least the number of the
    right word. *)
Lemma Cmp_adjust_ge (n e' : Z) (v : Value) :
  0 < n <= maxMantissa -> mant v <> 0 ->
  exp v <= e' -> e' < 2 ^ 30 ->
  mant v <= n * 10 ^ (e' - exp v) ->
  0 <= Cmp (adjustMantExp n e') v.
Proof.
  intros Hn Hv Hee He' Hle.
  pose proof (mant_range v) as Hm. pose proof (exp_range v) as He.
  pose proof maxMantissa_eq as HM. pose proof maxExponent_eq as HX.
  pose proof minExponent_eq as HN.
  assert (Hs : split v = (mant v, exp v)) by reflexivity.
  destruct (Z_le_gt_dec e' maxExponent) as [Hin | Hout].
  - rewrite adjustMantExp_id by lia.
    apply (Cmp_ge_of_scaled n e' (mant v) (exp v) v Hn); try lia;
      assumption.
  - destruct (adjustMantExp_over n e' Hn ltac:(lia)) as [HA | [Hfit HA]];
      rewrite HA.
    + unfold Max.
      assert (H1 : 0 < maxMantissa <= maxMantissa) by lia.
      apply (Cmp_ge_of_scaled maxMantissa maxExponent (mant v) (exp v) v H1);
        try lia; try assumption.
    + pose proof (pow_10_pos (e' - maxExponent) ltac:(lia)) as HP.
      assert (H1 : 0 < n * 10 ^ (e' - maxExponent) <= maxMantissa) by nia.
      apply (Cmp_ge_of_scaled (n * 10 ^ (e' - maxExponent)) maxExponent
               (mant v) (exp v) v H1); try lia; try assumption.
      rewrite <- Z.mul_assoc. rewrite <- Z.pow_add_r by lia.
      replace (e' - maxExponent + (maxExponent - exp v)) with (e' - exp v)
        by lia.
      exact Hle.
Qed.

(** [round] in ceiling mode at a negative precision [p], for a mantissa
    whose digits before the point make at least [10 ^ -p], and where a
    fraction is dropped only together with a non-zero remainder: the result
    stands for at least [m * 10 ^ e]. *)
Lemma round_ceil_neg (m e p : Z) :
  0 < m <= maxMantissa -> minExponent <= e <= maxExponent ->
  p < 0 ->
  10 ^ (- p) <= (if e <? 0 then m / 10 ^ (- e) else m) ->
  (if e <? 0 then m mod 10 ^ (- e) else 0) = 0 \/
  (if e <? 0 then m / 10 ^ (- e) else m) mod 10 ^ (- p) <> 0 ->
  exists n e',
    round m e p modeCeil = Ok (n, e') /\
    0 < n <= maxMantissa /\ e <= e' /\ e' < 2 ^ 30 /\
    m <= n * 10 ^ (e' - e).
Proof.
  intros Hm He Hp Hbig Hfrac.
  rewrite minExponent_eq, maxExponent_eq, maxMantissa_eq in *.
  destruct (decimalDigits_spec m ltac:(lia)) as [Hd Hdx].
  pose proof (decimalDigits_mantissa m ltac:(rewrite maxMantissa_eq; lia))
    as H17.
  remember (- p) as c eqn:Ec.
  assert (Hc0 : 0 < c) by lia.
  pose proof (pow_10_pos c ltac:(lia)) as HP.
  assert (HP10 : 10 <= 10 ^ c).
  { change 10 with (10 ^ 1) at 1. apply pow_10_le. lia. }
  unfold round. cbv zeta.
  destruct (p >=? 0) eqn:Ep; [lia |].
  rewrite <- Ec.
  destruct (e <? 0) eqn:Ee.
  - (* decimal places are dropped first *)
    remember (- e) as k eqn:Ek.
    assert (Hk0 : 0 < k <= 127) by lia.
    pose proof (pow_10_pos k ltac:(lia)) as HK.
    pose proof (Z.div_mod m (10 ^ k) ltac:(lia)) as Hdm.
    pose proof (Z.mod_pos_bound m (10 ^ k) ltac:(lia)) as Hmod.
    remember (m / 10 ^ k) as w eqn:Ew.
    remember (m mod 10 ^ k) as f eqn:Ef.
    assert (Hck : c + k < decimalDigits m).
    { apply pow_10_lt_inv; try lia.
      rewrite Z.pow_add_r by lia.
      apply Z.le_lt_trans with m; [| lia]. nia. }
    rewrite (i64_small (decimalDigits m + e)) by lia.
    destruct (decimalDigits m + e <=? 0) eqn:Edd; [lia |].
    rewrite (i64_small k) by lia.
    rewrite (pow10_eq k) by lia.
    unfold udiv at 1. destruct (10 ^ k =? 0) eqn:E1; [lia |].
    rewrite <- Ew. cbn [bind].
    rewrite (i64_small c) by lia.
    unfold round_cut.
    destruct (c <=? 0) eqn:E2; [lia |].
    destruct (c >? decimalDigits m + e) eqn:E3; [lia |].
    rewrite pow10_eq by lia.
    unfold umod, udiv. destruct (10 ^ c =? 0) eqn:E4; [lia |].
    cbn [bind].
    pose proof (Z.div_mod w (10 ^ c) ltac:(lia)) as Hdw.
    pose proof (Z.mod_pos_bound w (10 ^ c) ltac:(lia)) as Hmw.
    assert (Hq : 1 <= w / 10 ^ c).
    { apply Z.div_le_lower_bound; lia. }
    assert (Hwm : w <= m) by nia.
    assert (Hqw : w / 10 ^ c < w) by nia.
    rewrite (i64_small (0 + c)) by lia.
    rewrite (i32_small (0 + c)) by lia.
    change (modeCeil =? modeRound) with false.
    change (modeCeil =? modeCeil) with true. cbv iota.
    assert (Hsplit : 10 ^ (0 + c - e) = 10 ^ c * 10 ^ k).
    { replace (0 + c - e) with (c + k) by lia. apply Z.pow_add_r; lia. }
    destruct (w mod 10 ^ c =? 0) eqn:Er; cbn [negb].
    + apply Z.eqb_eq in Er.
      destruct Hfrac as [Hf0 | Hr0]; [| congruence].
      exists (w / 10 ^ c), (0 + c).
      split; [reflexivity |]. split; [lia |]. split; [lia |].
      split; [lia |]. rewrite Hsplit. nia.
    + destruct (w / 10 ^ c >? 0) eqn:En; [| lia].
      rewrite (u64_small (w / 10 ^ c + 1)) by lia.
      exists (w / 10 ^ c + 1), (0 + c).
      split; [reflexivity |]. split; [lia |]. split; [lia |].
      split; [lia |]. rewrite Hsplit. nia.
  - (* no decimal places *)
    assert (Hcd : c < decimalDigits m).
    { apply pow_10_lt_inv; try lia. }
    rewrite (i64_small c) by lia.
    unfold round_cut.
    destruct (c <=? 0) eqn:E2; [lia |].
    destruct (c >? decimalDigits m) eqn:E3; [lia |].
    rewrite pow10_eq by lia.
    unfold umod, udiv. destruct (10 ^ c =? 0) eqn:E4; [lia |].
    cbn [bind].
    pose proof (Z.div_mod m (10 ^ c) ltac:(lia)) as Hdw.
    pose proof (Z.mod_pos_bound m (10 ^ c) ltac:(lia)) as Hmw.
    assert (Hq : 1 <= m / 10 ^ c).
    { apply Z.div_le_lower_bound; lia. }
    assert (Hqw : m / 10 ^ c < m) by nia.
    rewrite (i64_small (e + c)) by lia.
    rewrite (i32_small (e + c)) by lia.
    change (modeCeil =? modeRound) with false.
    change (modeCeil =? modeCeil) with true. cbv iota.
    assert (Hec : e <= e + c /\ e + c < 2 ^ 30) by lia.
    assert (Hsplit : 10 ^ (e + c - e) = 10 ^ c).
    { replace (e + c - e) with c by lia. reflexivity. }
    destruct (m mod 10 ^ c =? 0) eqn:Er; cbn [negb].
    + apply Z.eqb_eq in Er.
      exists (m / 10 ^ c), (e + c).
      split; [reflexivity |]. split; [lia |]. split; [apply Hec |].
      split; [apply Hec |]. rewrite Hsplit. nia.
    + destruct (m / 10 ^ c >? 0) eqn:En; [| lia].
      rewrite (u64_small (m / 10 ^ c + 1)) by lia.
      exists (m / 10 ^ c + 1), (e + c).
      split; [reflexivity |]. split; [lia |]. split; [apply Hec |].
      split; [apply Hec |]. rewrite Hsplit. nia.
Qed.

(** For an exponent that is not positive [wholeDigits] is the integer part
    of the number and [fracDigits] is zero exactly when the number is an
    integer. *)
Lemma wholeDigits_scaled (v : Value) :
  exp v <= 0 ->
  wholeDigits v = scaled v / 10 ^ 127 /\
  (fracDigits v = 0 <-> scaled v mod 10 ^ 127 = 0).
Proof.
  intros Hle. pose proof (exp_range v) as He.
  rewrite minExponent_eq in He.
  unfold wholeDigits, fracDigits, scaled. rewrite minExponent_eq.
  destruct (exp v <? 0) eqn:E.
  - remember (- exp v) as k eqn:Ek.
    assert (Hk : 0 < k <= 127) by lia.
    replace (exp v - -127) with (127 - k) by lia.
    assert (H127 : 10 ^ 127 = 10 ^ k * 10 ^ (127 - k)).
    { rewrite <- Z.pow_add_r by lia. f_equal. lia. }
    rewrite H127.
    pose proof (pow_10_pos k ltac:(lia)) as HK.
    pose proof (pow_10_pos (127 - k) ltac:(lia)) as HA.
    split.
    + rewrite Z.div_mul_cancel_r by lia. reflexivity.
    + rewrite Z.mul_mod_distr_r by lia. split; intros H; [rewrite H; lia | nia].
  - assert (E0 : exp v = 0) by lia. rewrite E0.
    change (0 - -127) with 127.
    pose proof (pow_10_pos 127 ltac:(lia)) as HA.
    split; [rewrite Z.div_mul by lia; reflexivity |].
    rewrite Z.mod_mul by lia. split; reflexivity.
Qed.

(** C6, as the claim states it, fails.  [123.456.Ceil(-3)] is [zero], which
    compares below [123.456]; the repository's round test expects this
    result.  At the other end, [Max.Ceil(2^63-1)] is 10: the subtraction
    [-ei - prec] wraps around. *)
Lemma C6_Ceil_rounds_down :
  let v := FromMantAndExp 123456 (-3) in
  mant v <> 0 /\ Ceil v (-3) = Ok zero /\ Cmp zero v = -1 /\
  mant Max <> 0 /\ Ceil Max (2 ^ 63 - 1) = Ok (FromMantAndExp 1 1) /\
  Cmp (FromMantAndExp 1 1) Max = -1.
Proof.
  cbv zeta. repeat split; vm_compute; congruence.
Qed.

(** C6, amended.  For every [Value] with a non-zero mantissa [Ceil(p)]
    returns a value that compares greater than or equal to [v], for every
    precision [p] with [0 <= p <= 2^63 - 128], and for every negative [p]
    such that the digits of the mantissa before the point make a number of
    at least [10^-p] and, when a fraction stands after the point, that
    number is no multiple of [10^-p]. *)
Theorem C6_Ceil_not_below (v : Value) (p : Z) :
  mant v <> 0 ->
  0 <= p <= 2 ^ 63 - 128 \/
  (p < 0 /\ 10 ^ (- p) <= wholeDigits v /\
   (fracDigits v = 0 \/ wholeDigits v mod 10 ^ (- p) <> 0)) ->
  exists c, Ceil v p = Ok c /\ 0 <= Cmp c v.
Proof.
  intros Hv Hp.
  pose proof (mant_range v) as Hm. pose proof (exp_range v) as He.
  assert (Hr : exists n e',
             round (mant v) (exp v) p modeCeil = Ok (n, e') /\
             0 < n <= maxMantissa /\ exp v <= e' /\ e' < 2 ^ 30 /\
             mant v <= n * 10 ^ (e' - exp v)).
  { destruct Hp as [Hp | (Hp & Hbig & Hfrac)].
    - destruct (round_ceil_up (mant v) (exp v) p ltac:(lia) He Hp)
        as (n & e' & Hr & Hn & Hee & He' & Hle).
      exists n, e'. rewrite maxExponent_eq in He'.
      repeat split; try assumption; lia.
    - apply round_ceil_neg; try assumption. lia. }
  destruct Hr as (n & e' & Hr & Hn & Hee & He' & Hle).
  unfold Ceil, split. rewrite Hr. cbn [bind].
  exists (adjustMantExp n e'). split; [reflexivity |].
  apply Cmp_adjust_ge; assumption.
Qed.

(** 123.456 at two decimal places gives 123.46, and at the precision -1
    gives 130. *)
Lemma C6_witness :
  mant (FromMantAndExp 123456 (-3)) <> 0 /\
  Ceil (FromMantAndExp 123456 (-3)) (-1) = Ok (FromMantAndExp 13 1) /\
  (exists c, Ceil (FromMantAndExp 123456 (-3)) 2 = Ok c /\
             0 <= Cmp c (FromMantAndExp 123456 (-3))) /\
  (exists c, Ceil (FromMantAndExp 123456 (-3)) (-1) = Ok c /\
             0 <= Cmp c (FromMantAndExp 123456 (-3))).
Proof.
  assert (H1 : mant (FromMantAndExp 123456 (-3)) <> 0)
    by (vm_compute; discriminate).
  assert (H2 : 0 <= 2 <= 2 ^ 63 - 128) by (vm_compute; split; discriminate).
  assert (H3 : -1 < 0) by reflexivity.
  assert (H4 : 10 ^ (- -1) <= wholeDigits (FromMantAndExp 123456 (-3)))
    by (vm_compute; discriminate).
  assert (H5 : wholeDigits (FromMantAndExp 123456 (-3)) mod 10 ^ (- -1) <> 0)
    by (vm_compute; discriminate).
  split; [exact H1 |]. split; [reflexivity |]. split.
  - exact (C6_Ceil_not_below (FromMantAndExp 123456 (-3)) 2 H1
             (or_introl H2)).
  - exact (C6_Ceil_not_below (FromMantAndExp 123456 (-3)) (-1) H1
             (or_intror (conj H3 (conj H4 (or_intror H5))))).
Defined.

(** Where [Ceil] at a negative precision answers below its argument although
    the argument is not below [10^-p].  [round] drops the decimal places
    before it looks at the remainder: 120.456 at the precision -1 gives 120.
    It cuts digits of the mantissa whatever the exponent is: the word with
    mantissa 5 and exponent 3, which stands for 5000, gives [zero] at the
    precision -1, and the word with mantissa 13 and exponent 1, which stands
    for 130, gives 200. *)
Example Ceil_negative_precision_cases :
  Ceil (FromMantAndExp 120456 (-3)) (-1) = Ok (FromMantAndExp 12 1) /\
  Cmp (FromMantAndExp 12 1) (FromMantAndExp 120456 (-3)) = -1 /\
  split (FromMantAndExp 5 3) = (5, 3) /\
  Ceil (FromMantAndExp 5 3) (-1) = Ok zero /\
  Cmp zero (FromMantAndExp 5 3) = -1 /\
  split (FromMantAndExp 13 1) = (13, 1) /\
  Ceil (FromMantAndExp 13 1) (-1) = Ok (FromMantAndExp 2 2).
Proof. vm_compute. repeat split. Qed.

(** ** trimZeros on a mantissa with known factors of ten *)

Lemma trimZeros_loop_exact (k : nat) (eMax : Z) :
  eMax < 2 ^ 31 ->
  forall (fuel : nat) (m e : Z),
    0 < m -> - 2 ^ 31 <= e -> (Z.to_nat (eMax - e) <= fuel)%nat ->
    e + Z.of_nat k <= eMax ->
    (e + Z.of_nat k < eMax -> m mod 10 <> 0) ->
    trimZeros_loop fuel (m * 10 ^ Z.of_nat k) e eMax = (m, e + Z.of_nat k).
Proof.
  intros HeMax. induction k as [| k IH]; intros fuel m e Hm He Hf Hk Hz.
  - change (Z.of_nat 0) with 0 in *. change (10 ^ 0) with 1.
    rewrite Z.mul_1_r, Z.add_0_r in *.
    destruct fuel as [| fuel]; [reflexivity |]. cbn [trimZeros_loop].
    destruct (e <? eMax) eqn:E1; [| reflexivity].
    destruct (m mod 10 =? 0) eqn:E2; [| reflexivity].
    exfalso. apply Hz; lia.
  - replace (Z.of_nat (S k)) with (Z.of_nat k + 1) in * by lia.
    rewrite pow_10_succ by lia.
    destruct fuel as [| fuel]; [lia |]. cbn [trimZeros_loop].
    destruct (e <? eMax) eqn:E1; [| lia].
    replace (m * (10 * 10 ^ Z.of_nat k)) with (m * 10 ^ Z.of_nat k * 10) by lia.
    rewrite Z_mod_mult. change (0 =? 0) with true. cbn [andb].
    rewrite Z.div_mul by lia. rewrite (i32_small (e + 1)) by lia.
    rewrite IH by (try assumption; try lia; intros; apply Hz; lia).
    f_equal. lia.
Qed.

Lemma trimZeros_exact (k : nat) (m e eMax : Z) :
  0 < m -> - 2 ^ 31 <= e -> eMax < 2 ^ 31 ->
  e + Z.of_nat k <= eMax ->
  (e + Z.of_nat k < eMax -> m mod 10 <> 0) ->
  trimZeros (m * 10 ^ Z.of_nat k) e eMax = (m, e + Z.of_nat k).
Proof.
  intros Hm He HeMax Hk Hz. unfold trimZeros.
  apply trimZeros_loop_exact; try assumption. lia.
Qed.

(** The canonical form is unique: a word that stands for the number of a
    canonical pair normalizes to that pair. *)
Lemma Normalized_unique (w : Value) (m e : Z) (k : nat) :
  normal m e -> mant w = m * 10 ^ Z.of_nat k -> exp w = e - Z.of_nat k ->
  Normalized w = fromMantAndExp m e.
Proof.
  intros (Hm & He & Hz) Hmw Hew.
  rewrite minExponent_eq, maxExponent_eq in *.
  pose proof (exp_range w) as Hr. rewrite minExponent_eq in Hr.
  pose proof (pow_10_pos (Z.of_nat k) ltac:(lia)) as Hp.
  unfold Normalized, split. rewrite Hmw, Hew.
  destruct (m * 10 ^ Z.of_nat k =? 0) eqn:E; [nia |].
  rewrite maxExponent_eq.
  rewrite (trimZeros_exact k m (e - Z.of_nat k) 128) by (try lia; intros; apply Hz; lia).
  f_equal. lia.
Qed.

Lemma Normalized_normal (m e : Z) :
  normal m e -> Normalized (fromMantAndExp m e) = fromMantAndExp m e.
Proof.
  intros Hn. pose proof Hn as (Hm & He & _).
  apply (Normalized_unique _ m e 0 Hn).
  - rewrite mant_fromMantAndExp by exact He.
    rewrite maxMantissa_eq in Hm. rewrite Z.mod_small by lia.
    change (10 ^ Z.of_nat 0) with 1. lia.
  - rewrite exp_fromMantAndExp by exact He. change (Z.of_nat 0) with 0. lia.
Qed.

(** How far a mantissa can be scaled up: [log10 (limit / m)] digits. *)
Lemma log10_headroom (limit m : Z) :
  0 < m <= limit -> limit < 2 ^ 64 ->
  let t := log10 (limit / m) in
  0 <= t <= 19 /\ m * 10 ^ t <= limit /\ limit < m * 10 ^ (t + 1).
Proof.
  intros Hm Hl. cbv zeta. unfold log10.
  assert (Hq : 1 <= limit / m).
  { apply Z.div_le_lower_bound; lia. }
  assert (Hq2 : limit / m <= limit).
  { apply Z.div_le_upper_bound; nia. }
  destruct (decimalDigits_spec (limit / m) ltac:(lia)) as [Hd Hdx].
  pose proof (Z.div_mod limit m ltac:(lia)) as Hdm.
  pose proof (Z.mod_pos_bound limit m ltac:(lia)) as Hmod.
  replace (decimalDigits (limit / m) - 1 + 1) with (decimalDigits (limit / m))
    by lia.
  split; [lia |]. split; nia.
Qed.

(** ** Aligning two exponents *)

(** [doToEqualExp] in closed form: the zeros trimmed off the second mantissa,
    then [t] digits gained by the first, then the rest cut from the second. *)
Lemma doToEqualExp_eq (m1 e1 m2 e2 m2' e2' : Z) :
  0 < m1 <= maxMantissa -> 0 < m2 <= maxMantissa ->
  minExponent <= e2 -> e2 <= e1 -> e1 <= maxExponent ->
  trimZeros m2 e2 e1 = (m2', e2') ->
  let t := if e2' =? e1 then 0
           else Z.min (log10 (maxMantissa / m1)) (e1 - e2') in
  doToEqualExp m1 e1 m2 e2
  = Ok (m1 * 10 ^ t, m2' / 10 ^ (e1 - t - e2'), e1 - t).
Proof.
  intros Hm1 Hm2 He2 He21 He1 Htrim.
  rewrite minExponent_eq, maxExponent_eq in *.
  pose proof (trimZeros_spec m2 e2 e1 ltac:(lia) ltac:(lia) ltac:(lia)) as Hs.
  rewrite Htrim in Hs. destruct Hs as (Hm2' & Hmul & Hle & Hup & Hz).
  assert (Hm2'le : m2' <= m2).
  { pose proof (pow_10_pos (e2' - e2) ltac:(lia)). nia. }
  pose proof (log10_headroom maxMantissa m1 Hm1 ltac:(rewrite maxMantissa_eq; lia))
    as (Ht0 & Hfit & Hover).
  cbv zeta. unfold doToEqualExp.
  rewrite (i32_small (e1 - e2)) by lia.
  destruct (e1 - e2 =? 0) eqn:E0.
  { assert (e2' = e1) by lia. subst e2'.
    assert (m2' = m2).
    { replace (e1 - e2) with 0 in Hmul by lia. change (10 ^ 0) with 1 in Hmul.
      lia. }
    subst m2'. rewrite Z.eqb_refl.
    replace (e1 - 0 - e1) with 0 by lia. change (10 ^ 0) with 1.
    rewrite Z.mul_1_r, Z.div_1_r, Z.sub_0_r. reflexivity. }
  rewrite Htrim. rewrite (i32_small (e1 - e2')) by lia.
  destruct (e2' =? e1) eqn:E1.
  { apply Z.eqb_eq in E1. subst e2'.
    replace (e1 - e1) with 0 by lia. change (0 =? 0) with true. cbv iota.
    replace (e1 - 0 - e1) with 0 by lia. change (10 ^ 0) with 1.
    rewrite Z.mul_1_r, Z.div_1_r, Z.sub_0_r. reflexivity. }
  destruct (e1 - e2' =? 0) eqn:E2; [lia |].
  unfold udiv. destruct (m1 =? 0) eqn:E3; [lia |]. cbn [bind].
  set (t0 := log10 (maxMantissa / m1)) in *.
  rewrite (i32_small t0) by lia.
  assert (Hmin : (if t0 >? e1 - e2' then e1 - e2' else t0)
                 = Z.min t0 (e1 - e2')).
  { destruct (t0 >? e1 - e2') eqn:E; lia. }
  rewrite Hmin. set (t := Z.min t0 (e1 - e2')).
  assert (Ht : 0 <= t <= t0 /\ t <= e1 - e2') by (unfold t; lia).
  rewrite pow10_eq by lia.
  assert (Hfit' : m1 * 10 ^ t <= maxMantissa).
  { pose proof (pow_10_le t t0 ltac:(lia)).
    pose proof (pow_10_pos t ltac:(lia)). nia. }
  pose proof (pow_10_pos t ltac:(lia)) as Hpt.
  rewrite maxMantissa_eq in *.
  rewrite (u64_small (m1 * 10 ^ t)) by nia.
  rewrite (i32_small (e1 - t)) by lia.
  rewrite (i32_small (e1 - t - e2')) by lia.
  destruct (e1 - t - e2' =? 0) eqn:E4.
  { apply Z.eqb_eq in E4. rewrite E4. change (10 ^ 0) with 1.
    rewrite Z.div_1_r. reflexivity. }
  destruct (Z_le_gt_dec (e1 - t - e2') 19) as [Hj | Hj].
  - rewrite pow10_eq by lia.
    pose proof (pow_10_pos (e1 - t - e2') ltac:(lia)) as Hpj.
    destruct (10 ^ (e1 - t - e2') >? 0) eqn:E5; [reflexivity | lia].
  - rewrite pow10_out by lia. change (0 >? 0) with false. cbv iota.
    rewrite Z.div_small; [reflexivity |].
    pose proof (pow_10_le 17 (e1 - t - e2') ltac:(lia)).
    change (10 ^ 17) with 100000000000000000 in *. lia.
Qed.

(** ** Add undoes Sub *)

Lemma Sub_nonzero (v other : Value) (r1 r2 re : Z) :
  mant v <> 0 -> mant other <> 0 ->
  toEqualExp (mant v) (exp v) (mant other) (exp other) = Ok (r1, r2, re) ->
  Sub v other = Ok (subWithExp r1 r2 re).
Proof.
  intros Hv Ho H. unfold Sub, split.
  destruct (mant other =? 0) eqn:E2; [lia |].
  destruct (mant v =? 0) eqn:E1; [lia |].
  rewrite H. reflexivity.
Qed.

Lemma Add_nonzero (v other : Value) (r1 r2 re : Z) :
  mant v <> 0 -> mant other <> 0 ->
  toEqualExp (mant v) (exp v) (mant other) (exp other) = Ok (r1, r2, re) ->
  Add v other = Ok (addWithExp r1 r2 re).
Proof.
  intros Hv Ho H. unfold Add, split.
  destruct (mant v =? 0) eqn:E1; [lia |].
  destruct (mant other =? 0) eqn:E2; [lia |].
  rewrite H. reflexivity.
Qed.

Lemma Add_zero_r (v other : Value) :
  mant v <> 0 -> mant other = 0 -> Add v other = Ok v.
Proof.
  intros Hv Ho. unfold Add, split. rewrite Ho.
  destruct (mant v =? 0) eqn:E1; [lia | reflexivity].
Qed.

Lemma Add_zero_l (v other : Value) :
  mant v = 0 -> mant other <> 0 -> Add v other = Ok other.
Proof.
  intros Hv Ho. unfold Add, split. rewrite Hv.
  destruct (mant other =? 0) eqn:E1; [lia | reflexivity].
Qed.

Lemma subWithExp_ge (r1 r2 e : Z) :
  0 <= r2 <= r1 -> r1 < 2 ^ 64 ->
  subWithExp r1 r2 e = (fromMantAndExp (r1 - r2) e, false).
Proof.
  intros H1 H2. unfold subWithExp.
  destruct (r1 >=? r2) eqn:E; [| lia].
  rewrite u64_small by lia. reflexivity.
Qed.

Lemma addWithExp_fit (r1 r2 e : Z) :
  0 <= r1 -> 0 <= r2 -> r1 + r2 <= maxMantissa ->
  addWithExp r1 r2 e = fromMantAndExp (r1 + r2) e.
Proof.
  rewrite maxMantissa_eq. intros H1 H2 H3. unfold addWithExp.
  rewrite u64_small by lia. rewrite maxMantissa_eq.
  destruct (r1 + r2 >? 72057594037927935) eqn:E; [lia | reflexivity].
Qed.

Lemma addWithExp_carry (r1 r2 e : Z) :
  0 <= r1 <= maxMantissa -> 0 <= r2 <= maxMantissa ->
  maxMantissa < r1 + r2 -> - 2 ^ 31 <= e < maxExponent ->
  addWithExp r1 r2 e = fromMantAndExp ((r1 + r2) / 10) (e + 1).
Proof.
  rewrite maxMantissa_eq, maxExponent_eq. intros H1 H2 H3 He.
  unfold addWithExp. rewrite u64_small by lia.
  rewrite maxMantissa_eq, maxExponent_eq.
  destruct (r1 + r2 >? 72057594037927935) eqn:E; [| lia].
  destruct (e =? 128) eqn:E2; [lia |].
  rewrite i32_small by lia. reflexivity.
Qed.

Lemma toEqualExp_same (m1 m2 e : Z) :
  toEqualExp m1 e m2 e = Ok (m1, m2, e).
Proof.
  unfold toEqualExp. destruct (e >=? e) eqn:E; [| lia].
  unfold doToEqualExp. replace (e - e) with 0 by lia. reflexivity.
Qed.

Lemma split_word (m e : Z) :
  0 <= m <= maxMantissa -> minExponent <= e <= maxExponent ->
  mant (fromMantAndExp m e) = m /\ exp (fromMantAndExp m e) = e.
Proof.
  intros Hm He. pose proof (split_fromMantAndExp m e Hm He) as H.
  unfold split in H. split; congruence.
Qed.

(** A word whose mantissa is [ma * 10 ^ t] at exponent [ea - t] normalizes
    to the canonical pair [(ma, ea)]. *)
Lemma Normalized_scaled_word (ma ea t : Z) :
  normal ma ea -> 0 <= t -> ma * 10 ^ t <= maxMantissa ->
  minExponent <= ea - t ->
  Normalized (fromMantAndExp (ma * 10 ^ t) (ea - t)) = fromMantAndExp ma ea.
Proof.
  intros Hn Ht Hfit He. pose proof Hn as (Hm & Hea & _).
  pose proof (pow_10_pos t Ht) as Hp.
  destruct (split_word (ma * 10 ^ t) (ea - t) ltac:(nia) ltac:(lia))
    as [H1 H2].
  apply (Normalized_unique _ ma ea (Z.to_nat t) Hn).
  - rewrite H1, Z2Nat.id by lia. reflexivity.
  - rewrite H2, Z2Nat.id by lia. reflexivity.
Qed.

Lemma restore_same_exp (ma ea : Z) (x : Value) :
  normal ma ea -> exp x = ea -> 0 < mant x <= ma ->
  exists rem neg y,
    Sub (fromMantAndExp ma ea) x = Ok (rem, neg) /\ Add x rem = Ok y /\
    Normalized y = fromMantAndExp ma ea.
Proof.
  intros Hn Hex Hmx. pose proof Hn as (Hm & He & _).
  destruct (split_word ma ea ltac:(lia) He) as [Wm We].
  rewrite maxMantissa_eq in Hm.
  exists (fromMantAndExp (ma - mant x) ea), false.
  assert (HS : Sub (fromMantAndExp ma ea) x
               = Ok (fromMantAndExp (ma - mant x) ea, false)).
  { rewrite (Sub_nonzero _ _ ma (mant x) ea) by
        (rewrite ?Wm, ?We, ?Hex; try lia; apply toEqualExp_same).
    rewrite subWithExp_ge by lia. reflexivity. }
  destruct (split_word (ma - mant x) ea
              ltac:(rewrite maxMantissa_eq; lia) He) as [Rm Re].
  destruct (Z.eq_dec (ma - mant x) 0) as [Hz | Hnz].
  - exists x. split; [exact HS |]. split.
    + apply Add_zero_r; [lia | rewrite Rm; exact Hz].
    + apply (Normalized_unique x ma ea 0 Hn).
      * change (10 ^ Z.of_nat 0) with 1. lia.
      * change (Z.of_nat 0) with 0. lia.
  - exists (fromMantAndExp ma ea). split; [exact HS |]. split.
    + rewrite (Add_nonzero _ _ (mant x) (ma - mant x) ea) by
          (rewrite ?Rm, ?Re, ?Hex; try lia; apply toEqualExp_same).
      rewrite addWithExp_fit by (rewrite ?maxMantissa_eq; lia).
      do 2 f_equal. lia.
    + apply Normalized_normal. exact Hn.
Qed.

Lemma trimZeros_none (m e eMax : Z) :
  0 < m -> - 2 ^ 31 <= e -> eMax < 2 ^ 31 -> e <= eMax ->
  (e < eMax -> m mod 10 <> 0) ->
  trimZeros m e eMax = (m, e).
Proof.
  intros Hm He HeMax Hle Hz.
  pose proof (trimZeros_exact 0 m e eMax Hm He HeMax) as H.
  change (Z.of_nat 0) with 0 in H. change (10 ^ 0) with 1 in H.
  rewrite Z.mul_1_r, Z.add_0_r in H. apply H; assumption.
Qed.

Lemma toMult_full (m d : Z) :
  0 < m <= maxMantissa -> 0 <= d -> m * 10 ^ d <= maxMantissa ->
  Z.min (log10 (maxMantissa / m)) d = d.
Proof.
  intros Hm Hd Hfit.
  pose proof (log10_headroom maxMantissa m Hm
                ltac:(rewrite maxMantissa_eq; lia)) as (Ht0 & _ & Hover).
  set (t0 := log10 (maxMantissa / m)) in *.
  destruct (Z_lt_ge_dec t0 d) as [Hlt | Hge]; [| lia].
  exfalso. pose proof (pow_10_le (t0 + 1) d ltac:(lia)). nia.
Qed.

Lemma mod10_sub_multiple (a b d : Z) :
  1 <= d -> (a - b * 10 ^ d) mod 10 = a mod 10.
Proof.
  intros Hd. replace d with (d - 1 + 1) by lia.
  rewrite pow_10_succ by lia.
  replace (a - b * (10 * 10 ^ (d - 1)))
    with (a + (- (b * 10 ^ (d - 1))) * 10) by lia.
  apply Z_mod_plus_full.
Qed.

Lemma restore_higher_exp (ma ea : Z) (x : Value) :
  normal ma ea -> ea < exp x -> 0 < mant x ->
  mant x * 10 ^ (exp x - ea) <= ma ->
  exists rem neg y,
    Sub (fromMantAndExp ma ea) x = Ok (rem, neg) /\ Add x rem = Ok y /\
    Normalized y = fromMantAndExp ma ea.
Proof.
  intros Hn Hlt Hmx Hle. pose proof Hn as (Hm & He & Hz).
  pose proof (exp_range x) as Hex. pose proof (mant_range x) as Hmr.
  destruct (split_word ma ea ltac:(lia) He) as [Wm We].
  set (mx := mant x) in *. set (ex := exp x) in *. set (d := ex - ea) in *.
  pose proof (pow_10_pos d ltac:(lia)) as Hp.
  rewrite minExponent_eq, maxExponent_eq, maxMantissa_eq in *.
  assert (Hma10 : ma mod 10 <> 0) by (apply Hz; lia).
  assert (Hfull : Z.min (log10 (maxMantissa / mx)) d = d).
  { apply toMult_full; rewrite ?maxMantissa_eq; lia. }
  assert (Hne : (ea =? ex) = false) by (apply Z.eqb_neq; lia).
  (* the subtraction *)
  assert (HT : toEqualExp ma ea mx ex = Ok (ma, mx * 10 ^ d, ea)).
  { unfold toEqualExp. destruct (ea >=? ex) eqn:E; [lia |].
    rewrite (doToEqualExp_eq mx ex ma ea ma ea)
      by (rewrite ?minExponent_eq, ?maxExponent_eq, ?maxMantissa_eq; try lia;
          apply trimZeros_none; try lia; intros; exact Hma10).
    cbv zeta. rewrite Hne. fold d. rewrite Hfull.
    replace (ex - d - ea) with 0 by (unfold d; lia). change (10 ^ 0) with 1.
    rewrite Z.div_1_r. replace (ex - d) with ea by (unfold d; lia).
    reflexivity. }
  set (mr := ma - mx * 10 ^ d).
  assert (Hmr10 : mr mod 10 <> 0).
  { unfold mr. rewrite mod10_sub_multiple by lia. exact Hma10. }
  assert (Hmrpos : 0 < mr <= ma).
  { unfold mr. split; [| nia].
    destruct (Z.eq_dec (ma - mx * 10 ^ d) 0) as [Hz0 | Hnz]; [| lia].
    exfalso. apply Hmr10. unfold mr. rewrite Hz0. reflexivity. }
  exists (fromMantAndExp mr ea), false, (fromMantAndExp ma ea).
  destruct (split_word mr ea
              ltac:(rewrite maxMantissa_eq; lia)
              ltac:(rewrite minExponent_eq, maxExponent_eq; lia)) as [Rm Re].
  split; [| split].
  - rewrite (Sub_nonzero _ _ ma (mx * 10 ^ d) ea)
      by (rewrite ?Wm, ?We; fold mx ex; try lia; exact HT).
    rewrite subWithExp_ge by nia. reflexivity.
  - assert (HA : toEqualExp mx ex mr ea = Ok (mx * 10 ^ d, mr, ea)).
    { unfold toEqualExp. destruct (ex >=? ea) eqn:E; [| lia].
      rewrite (doToEqualExp_eq mx ex mr ea mr ea)
        by (rewrite ?minExponent_eq, ?maxExponent_eq, ?maxMantissa_eq; try lia;
            apply trimZeros_none; try lia; intros; exact Hmr10).
      cbv zeta. rewrite Hne. fold d. rewrite Hfull.
      replace (ex - d - ea) with 0 by (unfold d; lia). change (10 ^ 0) with 1.
      rewrite Z.div_1_r. replace (ex - d) with ea by (unfold d; lia).
      reflexivity. }
    rewrite (Add_nonzero _ _ (mx * 10 ^ d) mr ea)
      by (rewrite ?Rm, ?Re; fold mx ex; try lia; exact HA).
    rewrite addWithExp_fit by (rewrite ?maxMantissa_eq; unfold mr; nia).
    do 2 f_equal. unfold mr. lia.
  - apply Normalized_normal. exact Hn.
Qed.

Lemma scale_fit (m t t0 limit : Z) :
  0 < m -> 0 <= t <= t0 -> m * 10 ^ t0 <= limit ->
  0 < m * 10 ^ t <= limit.
Proof.
  intros Hm Ht Hfit.
  pose proof (pow_10_pos t ltac:(lia)) as Hp.
  pose proof (pow_10_le t t0 ltac:(lia)) as Hle.
  split; [apply Z.mul_pos_pos; lia |].
  apply Z.le_trans with (m * 10 ^ t0); [| exact Hfit].
  apply Z.mul_le_mono_nonneg_l; lia.
Qed.

Lemma pow_10_split (a b : Z) : 0 <= a -> 0 <= b -> 10 ^ (a + b) = 10 ^ a * 10 ^ b.
Proof. intros Ha Hb. apply Z.pow_add_r; assumption. Qed.

(** The sum of the cut subtrahend and the scaled difference, as [Add] forms
    it when the difference gained one digit. *)
Lemma carry_sum (T b mr R : Z) :
  0 <= b -> mr = T - b / 10 -> R = mr * 10 -> (b + R) / 10 = T.
Proof.
  intros Hb Hmr HR. subst R mr.
  pose proof (Z.div_mod b 10 ltac:(lia)) as Hdm.
  pose proof (Z.mod_pos_bound b 10 ltac:(lia)) as Hmod.
  replace (b + (T - b / 10) * 10) with (T * 10 + b mod 10) by lia.
  rewrite Z.div_add_l by lia. rewrite Z.div_small by lia. lia.
Qed.

Lemma restore_lower_exp (ma ea : Z) (x : Value) :
  normal ma ea -> exp x < ea -> 0 < mant x ->
  mant x <= ma * 10 ^ (ea - exp x) ->
  exists rem neg y,
    Sub (fromMantAndExp ma ea) x = Ok (rem, neg) /\ Add x rem = Ok y /\
    Normalized y = fromMantAndExp ma ea.
Proof.
  intros Hn Hlt Hmx Hle. pose proof Hn as (Hm & He & Hz).
  pose proof (exp_range x) as Hex. pose proof (mant_range x) as Hmr.
  destruct (split_word ma ea ltac:(lia) He) as [Wm We].
  set (mx := mant x) in *. set (ex := exp x) in *.
  rewrite minExponent_eq, maxExponent_eq, maxMantissa_eq in *.
  (* the zeros Sub trims off x *)
  destruct (trimZeros mx ex ea) as [mx' ex'] eqn:Htrim.
  pose proof (trimZeros_spec mx ex ea ltac:(lia) ltac:(lia) ltac:(lia)) as Hs.
  rewrite Htrim in Hs. destruct Hs as (Hmx' & Hmul & Hle1 & Hup & Hz').
  assert (Hex' : ex' <= ea) by lia.
  pose proof (pow_10_pos (ex' - ex) ltac:(lia)) as Hpk.
  assert (Hmx'le : mx' <= ma * 10 ^ (ea - ex')).
  { replace (ea - ex) with ((ea - ex') + (ex' - ex)) in Hle by lia.
    rewrite pow_10_split in Hle by lia.
    pose proof (pow_10_pos (ea - ex') ltac:(lia)). nia. }
  assert (Hmx'max : mx' <= 72057594037927935) by nia.
  (* the digits a gains and those x loses *)
  pose proof (log10_headroom maxMantissa ma
                ltac:(rewrite maxMantissa_eq; lia)
                ltac:(rewrite maxMantissa_eq; lia)) as (Ht0 & Hfit0 & Hover0).
  set (t0 := log10 (maxMantissa / ma)) in *.
  set (t := if ex' =? ea then 0 else Z.min t0 (ea - ex')).
  assert (Ht : 0 <= t <= t0 /\ t <= ea - ex' /\ (t < ea - ex' -> t = t0)).
  { unfold t. destruct (ex' =? ea) eqn:E; lia. }
  set (j := ea - t - ex').
  assert (Hj : 0 <= j) by (unfold j; lia).
  set (T := ma * 10 ^ t).
  pose proof (pow_10_pos t ltac:(lia)) as Hpt.
  pose proof (pow_10_pos j Hj) as Hpj.
  rewrite maxMantissa_eq in *.
  assert (HT : 0 < T <= 72057594037927935).
  { unfold T. apply (scale_fit ma t t0); lia. }
  assert (HTj : mx' <= T * 10 ^ j).
  { unfold T. rewrite <- Z.mul_assoc, <- pow_10_split by lia.
    replace (t + j) with (ea - ex') by (unfold j; lia). exact Hmx'le. }
  set (q := mx' / 10 ^ j).
  assert (Hq : 0 <= q <= T /\ q * 10 ^ j <= mx').
  { unfold q. split; [split |].
    - apply Z.div_pos; lia.
    - apply Z.div_le_upper_bound; lia.
    - pose proof (Z.mul_div_le mx' (10 ^ j) Hpj). lia. }
  assert (HE : toEqualExp ma ea mx ex = Ok (T, q, ea - t)).
  { unfold toEqualExp. destruct (ea >=? ex) eqn:E; [| lia].
    rewrite (doToEqualExp_eq ma ea mx ex mx' ex')
      by (rewrite ?minExponent_eq, ?maxExponent_eq, ?maxMantissa_eq; try lia;
          exact Htrim).
    reflexivity. }
  set (mr := T - q).
  destruct (split_word mr (ea - t)
              ltac:(rewrite maxMantissa_eq; unfold mr; lia)
              ltac:(rewrite minExponent_eq, maxExponent_eq; lia)) as [Rm Re].
  assert (HS : Sub (fromMantAndExp ma ea) x
               = Ok (fromMantAndExp mr (ea - t), false)).
  { rewrite (Sub_nonzero _ _ T q (ea - t))
      by (rewrite ?Wm, ?We; fold mx ex; try lia; exact HE).
    rewrite subWithExp_ge by lia. reflexivity. }
  exists (fromMantAndExp mr (ea - t)), false.
  destruct (Z.eq_dec mr 0) as [Hmr0 | Hmrnz].
  - (* nothing is left: x stands for the number of a *)
    assert (Hea : ex' = ea).
    { destruct (Z.eq_dec ex' ea) as [Heq | Hne]; [exact Heq |].
      exfalso. apply Hz'; [lia |].
      assert (Hmx'eq : mx' = ma * 10 ^ (ea - ex')).
      { unfold mr in Hmr0. unfold T in HTj, Hmr0.
        rewrite <- Z.mul_assoc, <- pow_10_split in HTj by lia.
        replace (t + j) with (ea - ex') in HTj by (unfold j; lia).
        assert (q = ma * 10 ^ t) by lia.
        destruct Hq as [_ Hq2]. rewrite H in Hq2.
        rewrite <- Z.mul_assoc, <- pow_10_split in Hq2 by lia.
        replace (t + j) with (ea - ex') in Hq2 by (unfold j; lia). lia. }
      rewrite Hmx'eq. replace (ea - ex') with (ea - ex' - 1 + 1) by lia.
      rewrite pow_10_succ by lia.
      replace (ma * (10 * 10 ^ (ea - ex' - 1)))
        with (ma * 10 ^ (ea - ex' - 1) * 10) by lia.
      apply Z_mod_mult. }
    assert (Ht00 : t = 0) by (unfold t; rewrite Hea, Z.eqb_refl; reflexivity).
    assert (Hj0 : j = 0) by (unfold j; lia).
    assert (Hmx'ma : mx' = ma).
    { unfold mr, q, T in Hmr0. rewrite Ht00, Hj0 in Hmr0.
      change (10 ^ 0) with 1 in Hmr0. rewrite Z.div_1_r in Hmr0. lia. }
    exists x. split; [exact HS |]. split.
    + apply Add_zero_r; [fold mx; lia | rewrite Rm; exact Hmr0].
    + apply (Normalized_unique x ma ea (Z.to_nat (ea - ex)) Hn).
      * fold mx. rewrite Z2Nat.id by lia. rewrite Hmul, Hmx'ma, Hea.
        reflexivity.
      * fold ex. rewrite Z2Nat.id by lia. lia.
  - (* the sum is a scaled up to exponent [ea - t] *)
    assert (Hmrpos : 0 < mr <= 72057594037927935) by (unfold mr; lia).
    exists (fromMantAndExp T (ea - t)). split; [exact HS |].
    split; [| unfold T; apply Normalized_scaled_word;
              rewrite ?minExponent_eq, ?maxMantissa_eq; try assumption; try lia;
              fold T; lia].
    destruct (Z.eq_dec ex (ea - t)) as [Hsame | Hdiff].
    + (* x already has that exponent *)
      assert (Hj0 : j = 0) by (unfold j; lia).
      assert (Hk0 : ex' = ex) by (unfold j in Hj0; lia).
      assert (Hmxeq : mx' = mx).
      { rewrite Hmul, Hk0. replace (ex - ex) with 0 by lia.
        change (10 ^ 0) with 1. lia. }
      assert (Hqeq : q = mx).
      { unfold q. rewrite Hj0. change (10 ^ 0) with 1.
        rewrite Z.div_1_r. exact Hmxeq. }
      rewrite (Add_nonzero _ _ mx mr ex)
        by (rewrite ?Rm, ?Re; fold mx ex; try lia;
            rewrite <- Hsame; apply toEqualExp_same).
      rewrite addWithExp_fit by (rewrite ?maxMantissa_eq; unfold mr; lia).
      rewrite Hsame. do 2 f_equal. unfold mr. lia.
    + (* Add trims the same zeros off x and scales the difference *)
      assert (Hlt2 : ex < ea - t) by (unfold j in Hj; lia).
      assert (Htrim2 : trimZeros mx ex (ea - t) = (mx', ex')).
      { rewrite Hmul.
        replace (ex' - ex) with (Z.of_nat (Z.to_nat (ex' - ex))) by lia.
        replace ex' with (ex + Z.of_nat (Z.to_nat (ex' - ex))) at 2 by lia.
        apply trimZeros_exact; lia. }
      pose proof (log10_headroom maxMantissa mr
                    ltac:(rewrite maxMantissa_eq; lia)
                    ltac:(rewrite maxMantissa_eq; lia))
        as (Ht0' & Hfit0' & Hover0').
      set (t0' := log10 (maxMantissa / mr)) in *.
      set (t' := if ex' =? ea - t then 0 else Z.min t0' (ea - t - ex')).
      assert (Ht' : 0 <= t' <= t0' /\ t' <= j /\ (j = 0 -> t' = 0)).
      { unfold t', j. destruct (ex' =? ea - t) eqn:E; lia. }
      set (b := mx' / 10 ^ (ea - t - t' - ex')).
      set (R := mr * 10 ^ t').
      pose proof (pow_10_pos t' ltac:(lia)) as Hpt'.
      pose proof (pow_10_pos (j - t') ltac:(lia)) as Hpjt.
      rewrite maxMantissa_eq in *.
      assert (HR : 0 < R <= 72057594037927935).
      { unfold R. apply (scale_fit mr t' t0'); lia. }
      assert (Hb : 0 <= b <= mx').
      { unfold b. replace (ea - t - t' - ex') with (j - t') by (unfold j; lia).
        split; [apply Z.div_pos; lia |].
        apply Z.div_le_upper_bound; [lia |].
        replace mx' with (1 * mx') at 1 by lia.
        apply Z.mul_le_mono_nonneg_r; lia. }
      assert (HA : toEqualExp mx ex mr (ea - t) = Ok (b, R, ea - t - t')).
      { unfold toEqualExp. destruct (ex >=? ea - t) eqn:E; [lia |].
        rewrite (doToEqualExp_eq mr (ea - t) mx ex mx' ex')
          by (rewrite ?minExponent_eq, ?maxExponent_eq, ?maxMantissa_eq;
              try lia; exact Htrim2).
        reflexivity. }
      rewrite (Add_nonzero _ _ b R (ea - t - t'))
        by (rewrite ?Rm, ?Re; fold mx ex; try lia; exact HA).
      assert (Hqb : q = b / 10 ^ t').
      { unfold q, b. replace (ea - t - t' - ex') with (j - t') by (unfold j; lia).
        rewrite Z.div_div by lia. rewrite <- pow_10_split by lia.
        replace (j - t' + t') with j by lia. reflexivity. }
      destruct (Z.eq_dec t' 0) as [Ht'0 | Ht'nz].
      * (* no digit gained: the cut parts cancel *)
        assert (Hbq : b = q).
        { rewrite Hqb, Ht'0. change (10 ^ 0) with 1. rewrite Z.div_1_r.
          reflexivity. }
        assert (HRm : R = mr).
        { unfold R. rewrite Ht'0. change (10 ^ 0) with 1. lia. }
        rewrite addWithExp_fit by (rewrite ?maxMantissa_eq; unfold mr in *; lia).
        rewrite Ht'0, Z.sub_0_r. do 2 f_equal. unfold mr in *. lia.
      * (* one digit gained: the sum overflows and the digit is dropped *)
        assert (Hjpos : 0 < j) by lia.
        assert (Htt0 : t = t0) by (apply Ht; unfold j in Hjpos; lia).
        assert (HT10 : 72057594037927935 < T * 10).
        { unfold T. rewrite Htt0. rewrite pow_10_succ in Hover0 by lia. lia. }
        pose proof (Z.div_mod b (10 ^ t') ltac:(lia)) as Hdm.
        pose proof (Z.mod_pos_bound b (10 ^ t') ltac:(lia)) as Hmod.
        assert (HSum : b + R = T * 10 ^ t' + b mod 10 ^ t').
        { unfold R, mr. rewrite Hqb. lia. }
        assert (Ht'1 : t' = 1).
        { destruct (Z.eq_dec t' 1) as [H1 | H1]; [exact H1 |].
          exfalso. pose proof (pow_10_le 2 t' ltac:(lia)) as H100.
          change (10 ^ 2) with 100 in H100.
          assert (HX : T * 100 <= T * 10 ^ t')
            by (apply Z.mul_le_mono_nonneg_l; lia).
          lia. }
        rewrite Ht'1 in *. change (10 ^ 1) with 10 in *.
        rewrite addWithExp_carry
          by (rewrite ?maxMantissa_eq, ?maxExponent_eq; lia).
        rewrite (carry_sum T b mr R) by (try lia; unfold R; reflexivity || lia).
        do 2 f_equal. lia.
Qed.

(** [Add] undoes [Sub]: for a canonical [a] and any word [x] that stands
    for at most the number of [a], adding [|a - x|] back to [x] gives a word
    that normalizes to [a], whatever digits the alignment of the exponents
    dropped on the way. *)
Lemma Add_Sub_restores (ma ea : Z) (x : Value) :
  normal ma ea ->
  scaled x <= ma * 10 ^ (ea - minExponent) ->
  exists rem neg y,
    Sub (fromMantAndExp ma ea) x = Ok (rem, neg) /\ Add x rem = Ok y /\
    Normalized y = fromMantAndExp ma ea.
Proof.
  intros Hn Hle. pose proof Hn as (Hm & He & _).
  pose proof (exp_range x) as Hex. pose proof (mant_range x) as Hmr.
  destruct (split_word ma ea ltac:(lia) He) as [Wm We].
  unfold scaled in Hle. rewrite minExponent_eq, maxExponent_eq in *.
  destruct (Z.eq_dec (mant x) 0) as [Hz | Hnz].
  - exists (fromMantAndExp ma ea), false, (fromMantAndExp ma ea).
    split; [| split].
    + unfold Sub, split. rewrite Hz, Wm. change (0 =? 0) with true. cbv iota.
      destruct (ma =? 0) eqn:E; [lia | reflexivity].
    + apply Add_zero_l; [exact Hz | rewrite Wm; lia].
    + apply Normalized_normal. exact Hn.
  - destruct (Z.lt_trichotomy (exp x) ea) as [Hlt | [Heq | Hgt]].
    + apply restore_lower_exp; try assumption; try lia.
      replace (ea - -127) with ((ea - exp x) + (exp x - -127)) in Hle by lia.
      rewrite pow_10_split, Z.mul_assoc in Hle by lia.
      pose proof (pow_10_pos (exp x - -127) ltac:(lia)) as Hp.
      apply (Z.mul_le_mono_pos_r _ _ _ Hp). exact Hle.
    + apply restore_same_exp; try assumption. split; [lia |].
      rewrite Heq in Hle.
      pose proof (pow_10_pos (ea - -127) ltac:(lia)) as Hp.
      apply (Z.mul_le_mono_pos_r _ _ _ Hp). exact Hle.
    + apply restore_higher_exp; try assumption; try lia.
      replace (exp x - -127) with ((exp x - ea) + (ea - -127)) in Hle by lia.
      rewrite pow_10_split, Z.mul_assoc in Hle by lia.
      pose proof (pow_10_pos (ea - -127) ltac:(lia)) as Hp.
      apply (Z.mul_le_mono_pos_r _ _ _ Hp). exact Hle.
Qed.

(** ** The number of a mantissa and an exponent *)

Lemma num_nonneg (m e : Z) : 0 <= m -> 0 <= num m e.
Proof.
  intros Hm. unfold num. apply Z.mul_nonneg_nonneg; [exact Hm |].
  apply Z.pow_nonneg. lia.
Qed.

Lemma num_shift (m e j : Z) :
  - 1000 <= e -> 0 <= j -> num (m * 10 ^ j) e = num m (e + j).
Proof.
  intros He Hj. unfold num.
  replace (e + j + 1000) with (j + (e + 1000)) by lia.
  rewrite (pow_10_split j (e + 1000)) by lia. ring.
Qed.

Lemma num_mono (m1 m2 e : Z) : m1 <= m2 -> num m1 e <= num m2 e.
Proof.
  intros H. unfold num. apply Z.mul_le_mono_nonneg_r; [| exact H].
  apply Z.pow_nonneg. lia.
Qed.

Lemma num_exp_mono (m e e' : Z) :
  0 <= m -> - 1000 <= e <= e' -> num m e <= num m e'.
Proof.
  intros Hm He. unfold num. apply Z.mul_le_mono_nonneg_l; [exact Hm |].
  apply pow_10_le. lia.
Qed.

Lemma num_floor (m e j : Z) :
  0 <= m -> 0 <= j -> - 1000 <= e -> num (m / 10 ^ j) (e + j) <= num m e.
Proof.
  intros Hm Hj He. rewrite <- num_shift by lia. apply num_mono.
  pose proof (Z.mul_div_le m (10 ^ j) (pow_10_pos j Hj)). lia.
Qed.

Lemma num_scaled (v : Value) : num (mant v) (exp v) = scaled v * 10 ^ 873.
Proof.
  unfold num, scaled. pose proof (exp_range v) as He.
  rewrite minExponent_eq in *.
  replace (exp v + 1000) with ((exp v - -127) + 873) by lia.
  rewrite (pow_10_split (exp v - -127) 873) by lia. ring.
Qed.

Lemma num_Normalized (v : Value) :
  num (mant (Normalized v)) (exp (Normalized v)) = num (mant v) (exp v).
Proof. rewrite !num_scaled, scaled_Normalized. reflexivity. Qed.

Lemma u64_le (y : Z) : 0 <= y -> 0 <= u64 y <= y.
Proof.
  intros Hy. unfold u64. split.
  - apply Z.mod_pos_bound. lia.
  - apply Z.mod_le; lia.
Qed.

Lemma adjust_up_num (fuel : nat) :
  forall m e,
    0 <= m -> - 1000 <= e -> e + Z.of_nat fuel < 2 ^ 31 ->
    let '(m', e') := adjust_up fuel m e in
    0 <= m' <= m /\ e <= e' <= e + Z.of_nat fuel /\ num m' e' <= num m e.
Proof.
  induction fuel as [| fuel IH]; intros m e Hm He Hf.
  - cbn [adjust_up]. lia.
  - rewrite adjust_up_S.
    destruct (((m >? maxMantissa) || (e <? minExponent)) && (m >? 0)
              && (i32 (e + 1) <? maxExponent)); [| lia].
    rewrite (i32_small (e + 1)) by lia.
    assert (Hq : 0 <= m / 10 <= m).
    { split; [apply Z.div_pos; lia | apply Z.div_le_upper_bound; lia]. }
    specialize (IH (m / 10) (e + 1) ltac:(lia) ltac:(lia) ltac:(lia)).
    destruct (adjust_up fuel (m / 10) (e + 1)) as [m' e'].
    destruct IH as (H1 & H2 & H3).
    split; [lia |]. split; [lia |].
    apply Z.le_trans with (num (m / 10) (e + 1)); [exact H3 |].
    pose proof (num_floor m e 1 ltac:(lia) ltac:(lia) He) as Hfl.
    change (10 ^ 1) with 10 in Hfl. exact Hfl.
Qed.

Lemma adjust_down_num (fuel : nat) :
  forall m e,
    0 <= m -> - 1000 <= e < 2 ^ 31 ->
    let '(m', e') := adjust_down fuel m e in
    0 <= m' /\ Z.min e maxExponent <= e' <= e /\ num m' e' <= num m e.
Proof.
  induction fuel as [| fuel IH]; intros m e Hm He.
  - cbn [adjust_down]. lia.
  - rewrite adjust_down_S.
    destruct ((e >? maxExponent) && (u64 (m * 10) <? maxMantissa)) eqn:E;
      [| lia].
    apply andb_prop in E. destruct E as [E1 _].
    rewrite maxExponent_eq in *.
    rewrite (i32_small (e - 1)) by lia.
    pose proof (u64_le (m * 10) ltac:(lia)) as Hu.
    specialize (IH (u64 (m * 10)) (e - 1) ltac:(lia) ltac:(lia)).
    destruct (adjust_down fuel (u64 (m * 10)) (e - 1)) as [m' e'].
    destruct IH as (H1 & H2 & H3).
    split; [lia |]. split; [lia |].
    apply Z.le_trans with (num (u64 (m * 10)) (e - 1)); [exact H3 |].
    apply Z.le_trans with (num (m * 10) (e - 1)); [apply num_mono; lia |].
    change 10 with (10 ^ 1) at 1. rewrite num_shift by lia.
    replace (e - 1 + 1) with e by lia. lia.
Qed.

(** [adjustMantExp] never returns a word that stands for more than its
    arguments: it truncates, masks or saturates downwards. *)
Lemma adjustMantExp_num (m e : Z) :
  0 <= m -> - 1000 <= e <= 2000 ->
  num (mant (adjustMantExp m e)) (exp (adjustMantExp m e)) <= num m e.
Proof.
  intros Hm He. unfold adjustMantExp.
  pose proof (adjust_up_num 20 m e Hm ltac:(lia) ltac:(lia)) as Hup.
  destruct (adjust_up 20 m e) as [m1 e1]. destruct Hup as (U1 & U2 & U3).
  pose proof (adjust_down_num (Z.to_nat (e1 - maxExponent)) m1 e1
                ltac:(lia) ltac:(lia)) as Hdn.
  pose proof (adjust_down_exit (Z.to_nat (e1 - maxExponent)) m1 e1
                ltac:(lia) ltac:(lia)) as Hexit.
  destruct (adjust_down (Z.to_nat (e1 - maxExponent)) m1 e1) as [m2 e2].
  destruct Hdn as (D1 & D2 & D3).
  assert (Hle : num m2 e2 <= num m e) by lia.
  rewrite maxExponent_eq, minExponent_eq in *.
  destruct ((m2 =? 0) || (e2 <? -127)) eqn:E1.
  { change (mant zero) with 0. unfold num at 1. rewrite Z.mul_0_l.
    apply num_nonneg. exact Hm. }
  apply orb_false_elim in E1. destruct E1 as [E1 E2].
  destruct (e2 >? 128) eqn:E3.
  - change (mant Max) with maxMantissa. change (exp Max) with 128.
    cbn [andb] in Hexit.
    pose proof (u64_le (m2 * 10) ltac:(lia)) as Hu.
    apply Z.le_trans with (num m2 e2); [| exact Hle].
    apply Z.le_trans with (num (m2 * 10) 128); [apply num_mono; lia |].
    change 10 with (10 ^ 1) at 1. rewrite num_shift by lia.
    apply num_exp_mono; lia.
  - rewrite mant_fromMantAndExp, exp_fromMantAndExp
      by (rewrite minExponent_eq, maxExponent_eq; lia).
    apply Z.le_trans with (num m2 e2); [| exact Hle].
    apply num_mono. apply Z.mod_le; lia.
Qed.

Lemma trimZeros_num (m e eMax : Z) :
  0 <= m -> - 1000 <= e < 2 ^ 31 -> eMax < 2 ^ 31 ->
  let '(m', e') := trimZeros m e eMax in
  0 <= m' <= m /\ e <= e' <= Z.max e eMax /\ num m' e' = num m e.
Proof.
  intros Hm He HeMax. unfold trimZeros.
  generalize (Z.to_nat (eMax - e)). intros fuel.
  revert m e Hm He. induction fuel as [| fuel IH]; intros m e Hm He.
  - cbn [trimZeros_loop]. lia.
  - cbn [trimZeros_loop].
    destruct ((e <? eMax) && (m mod 10 =? 0)) eqn:E; [| lia].
    apply andb_prop in E. destruct E as [E1 E2].
    apply Z.eqb_eq in E2. apply Z.ltb_lt in E1.
    rewrite (i32_small (e + 1)) by lia.
    pose proof (Z.div_mod m 10 ltac:(lia)) as Hdm.
    specialize (IH (m / 10) (e + 1) ltac:(lia) ltac:(lia)).
    destruct (trimZeros_loop fuel (m / 10) (e + 1) eMax) as [m' e'].
    destruct IH as (H1 & H2 & H3).
    split; [lia |]. split; [lia |].
    rewrite H3. replace m with (m / 10 * 10 ^ 1) at 2
      by (change (10 ^ 1) with 10; lia).
    rewrite num_shift by lia. reflexivity.
Qed.

(** [round] in floor mode never rounds up, at any precision. *)
Lemma round_cut_floor_num (n e ei dd toCut prec bound : Z) :
  0 <= n -> 1 <= dd <= 19 -> - 1000 <= ei <= 1000 -> - 1000 <= e <= 1000 ->
  num n e <= bound -> num n ei <= bound ->
  exists n' e',
    round_cut n e ei dd toCut prec modeFloor = Ok (n', e') /\
    0 <= n' <= n /\ - 1000 <= e' <= 1019 /\ num n' e' <= bound.
Proof.
  intros Hn Hdd Hei He Hb1 Hb2. unfold round_cut.
  destruct (toCut <=? 0) eqn:E0.
  { exists n, e. repeat split; lia. }
  set (c := if toCut >? dd then dd else toCut).
  assert (Hc : 1 <= c <= 19) by (unfold c; destruct (toCut >? dd) eqn:E; lia).
  rewrite pow10_eq by lia.
  pose proof (pow_10_pos c ltac:(lia)) as Hp.
  unfold umod, udiv. destruct (10 ^ c =? 0) eqn:E1; [lia |].
  cbn [bind]. change (modeFloor =? modeRound) with false.
  change (modeFloor =? modeCeil) with false. cbv iota.
  rewrite (i64_small (ei + c)) by lia. rewrite (i32_small (ei + c)) by lia.
  exists (n / 10 ^ c), (ei + c).
  split; [reflexivity |].
  split; [split; [apply Z.div_pos; lia |] |].
  { apply Z.div_le_upper_bound; [lia |].
    replace n with (1 * n) at 1 by lia.
    apply Z.mul_le_mono_nonneg_r; lia. }
  split; [lia |].
  apply Z.le_trans with (num n ei); [| exact Hb2].
  apply num_floor; lia.
Qed.

Lemma round_floor_num (n e prec : Z) :
  0 <= n < 10 ^ 19 -> - 1000 <= e <= 1000 ->
  exists n' e',
    round n e prec modeFloor = Ok (n', e') /\
    0 <= n' <= n /\ - 1000 <= e' <= 1019 /\ num n' e' <= num n e.
Proof.
  intros Hn He.
  assert (Hd : 1 <= decimalDigits n <= 19).
  { pose proof (decimalDigits_range n ltac:(lia)).
    pose proof (decimalDigits_le n 19 ltac:(lia) ltac:(lia) ltac:(lia)).
    lia. }
  unfold round. cbv zeta.
  destruct (prec >=? 0).
  { apply round_cut_floor_num; lia. }
  destruct (e <? 0) eqn:E1; [| apply round_cut_floor_num; lia].
  rewrite (i64_small (decimalDigits n + e)) by lia.
  destruct (decimalDigits n + e <=? 0) eqn:E2.
  { change (modeFloor =? modeCeil) with false. rewrite andb_false_r.
    cbn [andb]. exists 0, 0.
    split; [reflexivity |]. split; [lia |]. split; [lia |].
    unfold num at 1. rewrite Z.mul_0_l. apply num_nonneg. lia. }
  rewrite (i64_small (- e)) by lia.
  rewrite pow10_eq by lia.
  pose proof (pow_10_pos (- e) ltac:(lia)) as Hp.
  unfold udiv at 1. destruct (10 ^ (- e) =? 0) eqn:E3; [lia |].
  cbn [bind].
  assert (Hq : 0 <= n / 10 ^ (- e) <= n).
  { split; [apply Z.div_pos; lia |].
    apply Z.div_le_upper_bound; [lia |].
    replace n with (1 * n) at 1 by lia.
    apply Z.mul_le_mono_nonneg_r; lia. }
  assert (Hfl : num (n / 10 ^ (- e)) 0 <= num n e).
  { pose proof (num_floor n e (- e) ltac:(lia) ltac:(lia) ltac:(lia)) as H.
    replace (e + - e) with 0 in H by lia. exact H. }
  destruct (round_cut_floor_num (n / 10 ^ (- e)) e 0
              (decimalDigits n + e) (i64 (- prec)) prec (num n e)
              ltac:(lia) ltac:(lia) ltac:(lia) ltac:(lia))
    as (n' & e' & H1 & H2 & H3 & H4).
  - apply num_mono. lia.
  - exact Hfl.
  - exists n', e'. split; [exact H1 |]. split; [lia |]. split; [lia |].
    exact H4.
Qed.

Lemma mul64_num (a b : Z) :
  0 <= a <= maxMantissa -> 0 <= b <= maxMantissa ->
  exists r sh,
    mul64 a b = Ok (r, sh) /\ 0 <= r /\ 0 <= sh <= 15 /\
    r * 10 ^ sh <= a * b.
Proof.
  rewrite maxMantissa_eq. intros Ha Hb. unfold mul64, Mul64.
  assert (Hab : 0 <= a * b) by nia.
  pose proof (Z.div_mod (a * b) (2 ^ 64) ltac:(lia)) as Hdm.
  pose proof (Z.mod_pos_bound (a * b) (2 ^ 64) ltac:(lia)) as Hmod.
  destruct (a * b / 2 ^ 64 >? 0) eqn:E.
  - set (hi := a * b / 2 ^ 64) in *. set (lo := (a * b) mod 2 ^ 64) in *.
    assert (Hhi : 0 < hi < 2 ^ 48).
    { split; [lia |]. unfold hi. apply Z.div_lt_upper_bound; [lia |].
      change (2 ^ 64 * 2 ^ 48) with (72057594037927936 * 72057594037927936).
      nia. }
    destruct (decimalDigits_spec hi ltac:(lia)) as [Hd Hdx].
    assert (Hd15 : decimalDigits hi <= 15) by (apply decimalDigits_le; lia).
    rewrite pow10_eq by lia. unfold Div64.
    pose proof (pow_10_pos (decimalDigits hi) ltac:(lia)) as Hp.
    destruct (10 ^ decimalDigits hi =? 0) eqn:E1; [lia |].
    destruct (10 ^ decimalDigits hi <=? hi) eqn:E2; [lia |].
    cbn [bind].
    exists ((hi * 2 ^ 64 + lo) / 10 ^ decimalDigits hi), (decimalDigits hi).
    split; [reflexivity |].
    replace (hi * 2 ^ 64 + lo) with (a * b) by lia.
    split; [apply Z.div_pos; lia |]. split; [lia |].
    pose proof (Z.mul_div_le (a * b) (10 ^ decimalDigits hi) Hp). lia.
  - exists ((a * b) mod 2 ^ 64), 0.
    split; [reflexivity |].
    assert (Hz : a * b / 2 ^ 64 = 0).
    { pose proof (Z.div_pos (a * b) (2 ^ 64) Hab ltac:(lia)). lia. }
    split; [lia |]. split; [lia |].
    change (10 ^ 0) with 1. lia.
Qed.

Lemma Normalized_idempotent (v : Value) :
  Normalized (Normalized v) = Normalized v.
Proof.
  destruct (Z.eq_dec (mant v) 0) as [E | E].
  - rewrite (Normalized_zero v E). reflexivity.
  - destruct (Normalized_nonzero v E) as (m & e & H1 & H2 & _).
    rewrite H1. apply Normalized_normal. exact H2.
Qed.

(** [Mul] never returns more than the product of its operands. *)
Lemma Mul_num (v other : Value) :
  exists x,
    Mul v other = Ok x /\
    num (mant x) (exp x) * 10 ^ 1000
    <= num (mant v) (exp v) * num (mant other) (exp other).
Proof.
  pose proof (num_Normalized v) as HNv.
  pose proof (num_Normalized other) as HNo.
  pose proof (mant_range (Normalized v)) as Rv.
  pose proof (mant_range (Normalized other)) as Ro.
  pose proof (exp_range (Normalized v)) as Ev.
  pose proof (exp_range (Normalized other)) as Eo.
  rewrite minExponent_eq, maxExponent_eq in *.
  unfold Mul, split.
  set (m1 := mant (Normalized v)) in *. set (e1 := exp (Normalized v)) in *.
  set (m2 := mant (Normalized other)) in *.
  set (e2 := exp (Normalized other)) in *.
  rewrite <- HNv, <- HNo.
  destruct ((m1 =? 0) || (m2 =? 0)) eqn:E.
  { exists zero. split; [reflexivity |].
    change (mant zero) with 0. unfold num at 1. rewrite !Z.mul_0_l.
    apply Z.mul_nonneg_nonneg; apply num_nonneg; lia. }
  destruct (mul64_num m1 m2 Rv Ro) as (r & sh & Hmul & Hr & Hsh & Hle).
  rewrite Hmul. cbn [bind].
  rewrite (i64_small (e1 + e2)) by lia.
  rewrite (i64_small (e1 + e2 + sh)) by lia.
  rewrite (i32_small (e1 + e2 + sh)) by lia.
  exists (adjustMantExp r (e1 + e2 + sh)). split; [reflexivity |].
  pose proof (adjustMantExp_num r (e1 + e2 + sh) Hr ltac:(lia)) as Hadj.
  apply Z.le_trans with (num r (e1 + e2 + sh) * 10 ^ 1000).
  { apply Z.mul_le_mono_nonneg_r; [apply Z.pow_nonneg; lia | exact Hadj]. }
  rewrite <- num_shift by lia.
  unfold num.
  replace (m1 * 10 ^ (e1 + 1000) * (m2 * 10 ^ (e2 + 1000)))
    with (m1 * m2 * (10 ^ (e1 + 1000) * 10 ^ (e2 + 1000))) by ring.
  rewrite <- pow_10_split by lia.
  replace (e1 + 1000 + (e2 + 1000)) with ((e1 + e2 + 1000) + 1000) by lia.
  rewrite (pow_10_split (e1 + e2 + 1000) 1000) by lia.
  rewrite !Z.mul_assoc.
  apply Z.mul_le_mono_nonneg_r; [apply Z.pow_nonneg; lia |].
  apply Z.mul_le_mono_nonneg_r; [apply Z.pow_nonneg; lia | exact Hle].
Qed.

Lemma Mul_Normalized_l (v other : Value) :
  Mul (Normalized v) other = Mul v other.
Proof. unfold Mul. rewrite Normalized_idempotent. reflexivity. Qed.

(** The inexact branch of [divMod]: the quotient of the scaled mantissa,
    times the divisor, stays below the dividend. *)
Lemma divMod_inexact_num (ma ea mb eb q r e : Z) :
  normal ma ea -> normal mb eb ->
  divMod (fromMantAndExp ma ea) (fromMantAndExp mb eb) = Ok (q, r, e) ->
  r <> 0 ->
  0 <= q < 10 ^ 19 /\ - 300 <= e <= 300 /\
  num q e * num mb eb <= num ma ea * 10 ^ 1000.
Proof.
  intros (Hma & Hea & _) (Hmb & Heb & _) Hdiv Hr.
  destruct (split_word ma ea ltac:(lia) Hea) as [Am Ae].
  destruct (split_word mb eb ltac:(lia) Heb) as [Bm Be].
  rewrite minExponent_eq, maxExponent_eq, maxMantissa_eq in *.
  unfold divMod, split in Hdiv. rewrite Am, Ae, Bm, Be in Hdiv.
  destruct (mb =? 0) eqn:E1; [lia |].
  destruct (ma =? 0) eqn:E2; [lia |].
  rewrite (i32_small (ea - eb)) in Hdiv by lia.
  destruct (ma mod mb =? 0) eqn:E3.
  { injection Hdiv as _ Hr0 _. lia. }
  cbv zeta in Hdiv.
  pose proof (log10_headroom maxNumber ma
                ltac:(change maxNumber with 18446744073709551615; lia)
                ltac:(change maxNumber with 18446744073709551615; lia))
    as (Ht & Hfit & _).
  set (tm := log10 (maxNumber / ma)) in *.
  change maxNumber with 18446744073709551615 in Hfit.
  rewrite pow10_eq in Hdiv by lia.
  pose proof (pow_10_pos tm ltac:(lia)) as Hp.
  rewrite (u64_small (ma * 10 ^ tm)) in Hdiv by nia.
  rewrite (i32_small tm) in Hdiv by lia.
  rewrite (i32_small (ea - eb - tm)) in Hdiv by lia.
  injection Hdiv as Hq Hrr He. subst q e.
  assert (Hmb2 : 2 <= mb).
  { destruct (Z.eq_dec mb 1) as [H1 | H1]; [| lia].
    rewrite H1, Z.mod_1_r in E3. discriminate E3. }
  set (M := ma * 10 ^ tm) in *.
  assert (HM : 0 < M) by (unfold M; nia).
  pose proof (Z.mul_div_le M mb ltac:(lia)) as Hfloor.
  split; [| split].
  - split; [apply Z.div_pos; lia |].
    apply Z.div_lt_upper_bound; [lia |].
    change (10 ^ 19) with 10000000000000000000. lia.
  - lia.
  - unfold num.
    replace (M / mb * 10 ^ (ea - eb - tm + 1000) * (mb * 10 ^ (eb + 1000)))
      with (mb * (M / mb)
            * (10 ^ (ea - eb - tm + 1000) * 10 ^ (eb + 1000))) by ring.
    rewrite <- pow_10_split by lia.
    replace (ea - eb - tm + 1000 + (eb + 1000))
      with ((ea - tm + 1000) + 1000) by lia.
    rewrite (pow_10_split (ea - tm + 1000) 1000) by lia.
    rewrite Z.mul_assoc.
    apply Z.mul_le_mono_nonneg_r; [apply Z.pow_nonneg; lia |].
    apply Z.le_trans with (M * 10 ^ (ea - tm + 1000)).
    + apply Z.mul_le_mono_nonneg_r; [apply Z.pow_nonneg; lia | exact Hfloor].
    + unfold M. rewrite <- Z.mul_assoc.
      rewrite <- (pow_10_split tm (ea - tm + 1000)) by lia.
      replace (tm + (ea - tm + 1000)) with (ea + 1000) by lia. lia.
Qed.

(** On the path of [DivMod] where the scaled integer division leaves a
    remainder, the product of the divisor and the returned quotient stands
    for at most the dividend. *)
Lemma DivMod_inexact_product (ma ea mb eb q0 r0 e0 p : Z) :
  normal ma ea -> normal mb eb ->
  divMod (fromMantAndExp ma ea) (fromMantAndExp mb eb) = Ok (q0, r0, e0) ->
  r0 <> 0 ->
  exists q1 e1 n e2 x,
    (if e0 <? maxExponent then trimZeros q0 e0 maxExponent else (q0, e0))
    = (q1, e1) /\
    round q1 e1 p modeFloor = Ok (n, e2) /\
    Mul (fromMantAndExp mb eb) (adjustMantExp n e2) = Ok x /\
    scaled x <= ma * 10 ^ (ea - minExponent).
Proof.
  intros Hna Hnb Hdiv Hr.
  destruct (divMod_inexact_num ma ea mb eb q0 r0 e0 Hna Hnb Hdiv Hr)
    as (Hq0 & He0 & Hprod).
  pose proof Hna as (Hma & Hea & _). pose proof Hnb as (Hmb & Heb & _).
  destruct (split_word mb eb ltac:(lia) Heb) as [Bm Be].
  assert (Htrim : exists q1 e1,
             (if e0 <? maxExponent then trimZeros q0 e0 maxExponent
              else (q0, e0)) = (q1, e1) /\
             0 <= q1 <= q0 /\ - 300 <= e1 <= 300 /\
             num q1 e1 = num q0 e0).
  { destruct (e0 <? maxExponent) eqn:E.
    - pose proof (trimZeros_num q0 e0 maxExponent ltac:(lia) ltac:(lia)
                    ltac:(rewrite maxExponent_eq; lia)) as H.
      destruct (trimZeros q0 e0 maxExponent) as [q1 e1].
      exists q1, e1. rewrite maxExponent_eq in *.
      split; [reflexivity | lia].
    - exists q0, e0. split; [reflexivity | lia]. }
  destruct Htrim as (q1 & e1 & Ht & Hq1 & He1 & Hnum1).
  destruct (round_floor_num q1 e1 p ltac:(lia) ltac:(lia))
    as (n & e2 & Hround & Hn & He2 & Hnum2).
  pose proof (adjustMantExp_num n e2 ltac:(lia) ltac:(lia)) as Hadj.
  destruct (Mul_num (fromMantAndExp mb eb) (adjustMantExp n e2))
    as (x & Hmul & Hx).
  rewrite Bm, Be in Hx.
  exists q1, e1, n, e2, x.
  split; [exact Ht |]. split; [exact Hround |]. split; [exact Hmul |].
  set (quo := adjustMantExp n e2) in *.
  assert (Hchain : num (mant x) (exp x) * 10 ^ 1000 <= num ma ea * 10 ^ 1000).
  { apply Z.le_trans with (num mb eb * num (mant quo) (exp quo));
      [exact Hx |].
    apply Z.le_trans with (num mb eb * num q0 e0).
    - apply Z.mul_le_mono_nonneg_l; [apply num_nonneg; lia | lia].
    - rewrite Z.mul_comm. exact Hprod. }
  pose proof (pow_10_pos 1000 ltac:(lia)) as Hp.
  apply Z.mul_le_mono_pos_r in Hchain; [| exact Hp].
  rewrite num_scaled in Hchain. unfold num in Hchain.
  rewrite minExponent_eq in *.
  replace (ea + 1000) with ((ea - -127) + 873) in Hchain by lia.
  rewrite (pow_10_split (ea - -127) 873), Z.mul_assoc in Hchain by lia.
  pose proof (pow_10_pos 873 ltac:(lia)) as Hp2.
  apply Z.mul_le_mono_pos_r in Hchain; [exact Hchain | exact Hp2].
Qed.

(** ** The division identity *)

(** Whenever the scaled integer division of the normalized mantissas leaves
    a remainder, which is the path on which [DivMod] computes the remainder
    as [a - b * quo] through [Sub], the identity of the documentation holds
    for every dividend, every divisor and every precision, negative ones
    included: [DivMod] returns [(quo, rem)], and [b.Mul(quo).Add(rem)]
    normalizes to the word [a.Normalized()]. *)
Theorem DivMod_identity_with_remainder (a b : Value) (p q0 r0 e0 : Z) :
  divMod (Normalized a) (Normalized b) = Ok (q0, r0, e0) -> r0 <> 0 ->
  exists quo rem x y,
    DivMod a b p = Ok (quo, rem) /\
    Mul b quo = Ok x /\ Add x rem = Ok y /\
    Normalized y = Normalized a.
Proof.
  intros Hdiv Hr.
  assert (Hb : mant (Normalized b) <> 0).
  { intros Hz. rewrite (divMod_zero_divisor _ _ Hz) in Hdiv.
    discriminate Hdiv. }
  assert (Ha : mant (Normalized a) <> 0).
  { intros Hz. unfold divMod, split in Hdiv. rewrite Hz in Hdiv.
    destruct (mant (Normalized b) =? 0) eqn:E; [lia |].
    change (0 =? 0) with true in Hdiv. cbv iota in Hdiv.
    injection Hdiv as _ Hr0 _. lia. }
  rewrite mant_Normalized_zero in Ha, Hb.
  destruct (Normalized_nonzero a Ha) as (ma & ea & HNa & Hna & _).
  destruct (Normalized_nonzero b Hb) as (mb & eb & HNb & Hnb & _).
  rewrite HNa, HNb in Hdiv.
  destruct (DivMod_inexact_product ma ea mb eb q0 r0 e0 p Hna Hnb Hdiv Hr)
    as (q1 & e1 & n & e2 & x & Ht & Hround & Hmul & Hle).
  destruct (Add_Sub_restores ma ea x Hna Hle)
    as (rem & neg & y & Hsub & Hadd & Hnorm).
  exists (adjustMantExp n e2), rem, x, y.
  split; [| split; [| split]].
  - unfold DivMod. rewrite HNa, HNb, Hdiv. cbn [bind].
    destruct (r0 =? 0) eqn:E; [lia |].
    rewrite Ht, Hround. cbn [bind]. rewrite Hmul. cbn [bind].
    rewrite Hsub. reflexivity.
  - rewrite <- Mul_Normalized_l, HNb. exact Hmul.
  - exact Hadd.
  - rewrite HNa. exact Hnorm.
Qed.

(** The scenario of the specification, 15 divided by 7 to three places:
    the quotient is 2.142, the remainder 0.006, and the identity holds. *)
Example DivMod_identity_15_7 :
  DivMod (FromMantAndExp 15 0) (FromMantAndExp 7 0) 3
  = Ok (FromMantAndExp 2142 (-3), FromMantAndExp 6 (-3)) /\
  exists quo rem x y,
    DivMod (FromMantAndExp 15 0) (FromMantAndExp 7 0) 3 = Ok (quo, rem) /\
    Mul (FromMantAndExp 7 0) quo = Ok x /\ Add x rem = Ok y /\
    Normalized y = Normalized (FromMantAndExp 15 0).
Proof.
  split; [vm_compute; reflexivity |].
  apply (DivMod_identity_with_remainder
           (FromMantAndExp 15 0) (FromMantAndExp 7 0) 3
           2142857142857142857 1 (-18)).
  - vm_compute. reflexivity.
  - discriminate.
Defined.

(** When the scaled integer division leaves no remainder, [DivMod] returns
    early with the remainder [zero] and never calls [Sub]; a quotient that
    [adjustMantExp] saturates is then not made up for.  [Max] divided by 0.1
    gives [(Max, zero)], and 0.1 times [Max] is a tenth of [Max]. *)
Example DivMod_saturated_quotient :
  let a := Max in
  let b := FromMantAndExp 1 (-1) in
  mant b <> 0 /\
  divMod (Normalized a) (Normalized b) = Ok (maxMantissa, 0, 129) /\
  DivMod a b 0 = Ok (Max, zero) /\
  Mul b Max = Ok (fromMantAndExp maxMantissa 127) /\
  Add (fromMantAndExp maxMantissa 127) zero
  = Ok (fromMantAndExp maxMantissa 127) /\
  Normalized (fromMantAndExp maxMantissa 127) <> Normalized a.
Proof.
  cbv zeta. repeat split; vm_compute; congruence.
Qed.

(** C4: the division identity [b.Mul(q).Add(r).Normalized() = a.Normalized()]
    for [(q, r) = a.DivMod(b, p)] fails at a = 72057594037927935, b = 4,
    p = 0.  The scaled division 7205759403792793500 / 4 =
    1801439850948198375 leaves no remainder, [DivMod] returns early with
    the remainder [zero], and [adjustMantExp] cuts the 19-digit quotient to
    18014398509481983; four times that is 72057594037927932, which is not
    the dividend.  The exact quotient with remainder would be
    18014398509481983 and 3. *)
Theorem C4_DivMod_early_return_drops_remainder :
  let a := FromUint64 72057594037927935 in
  let b := FromUint64 4 in
  let q := FromUint64 18014398509481983 in
  mant b <> 0 /\
  divMod (Normalized a) (Normalized b) = Ok (1801439850948198375, 0, -2) /\
  DivMod a b 0 = Ok (q, zero) /\
  Mul b q = Ok (FromUint64 72057594037927932) /\
  Add (FromUint64 72057594037927932) zero
  = Ok (FromUint64 72057594037927932) /\
  Normalized (FromUint64 72057594037927932) <> Normalized a /\
  Sub a (FromUint64 72057594037927932) = Ok (FromUint64 3, false).
Proof.
  cbv zeta. repeat split; vm_compute; congruence.
Qed.

(** * Further properties *)

(** ** Comparison and equality against the numbers the words stand for *)

Lemma uint64Cmp_sgn (a b : Z) : uint64Cmp a b = Z.sgn (a - b).
Proof.
  unfold uint64Cmp.
  destruct (a >? b) eqn:E1.
  - symmetry. apply Z.sgn_pos. lia.
  - destruct (a <? b) eqn:E2.
    + symmetry. apply Z.sgn_neg. lia.
    + replace (a - b) with 0 by lia. reflexivity.
Qed.

Lemma sgn_scale (a b P : Z) : 0 < P -> Z.sgn (a * P - b * P) = Z.sgn (a - b).
Proof.
  intros HP. replace (a * P - b * P) with ((a - b) * P) by ring.
  rewrite Z.sgn_mul, (Z.sgn_pos P HP). lia.
Qed.

Lemma scaled_eq (v : Value) : scaled v = mant v * 10 ^ (exp v + 127).
Proof.
  unfold scaled. rewrite minExponent_eq.
  replace (exp v - -127) with (exp v + 127) by lia. reflexivity.
Qed.

Lemma Cmp_sgn (v w : Value) : Cmp v w = Z.sgn (scaled v - scaled w).
Proof.
  rewrite !scaled_eq. unfold Cmp, split. cbv beta iota zeta.
  pose proof (mant_range v) as Hm1. pose proof (exp_range v) as He1.
  pose proof (mant_range w) as Hm2. pose proof (exp_range w) as He2.
  rewrite minExponent_eq, maxExponent_eq, maxMantissa_eq in *.
  set (m1 := mant v) in *. set (e1 := exp v) in *.
  set (m2 := mant w) in *. set (e2 := exp w) in *.
  rewrite (i32_small (e1 - e2)) by lia.
  destruct (e1 - e2 =? 0) eqn:E0.
  { cbn [orb]. replace e2 with e1 by lia.
    rewrite sgn_scale by (apply pow_10_pos; lia). apply uint64Cmp_sgn. }
  destruct (m1 =? 0) eqn:E1.
  { cbn [orb]. replace m1 with 0 by lia. rewrite uint64Cmp_sgn.
    replace (0 * 10 ^ (e1 + 127) - m2 * 10 ^ (e2 + 127))
      with ((0 - m2) * 10 ^ (e2 + 127)) by ring.
    rewrite Z.sgn_mul, (Z.sgn_pos (10 ^ (e2 + 127))) by (apply pow_10_pos; lia).
    lia. }
  destruct (m2 =? 0) eqn:E2.
  { cbn [orb]. replace m2 with 0 by lia. rewrite uint64Cmp_sgn.
    replace (m1 * 10 ^ (e1 + 127) - 0 * 10 ^ (e2 + 127))
      with ((m1 - 0) * 10 ^ (e1 + 127)) by ring.
    rewrite Z.sgn_mul, (Z.sgn_pos (10 ^ (e1 + 127))) by (apply pow_10_pos; lia).
    lia. }
  cbn [orb].
  destruct (decimalDigits_spec m1 ltac:(lia)) as [Hd1 Hx1].
  destruct (decimalDigits_spec m2 ltac:(lia)) as [Hd2 Hx2].
  pose proof (decimalDigits_mantissa m1 ltac:(rewrite maxMantissa_eq; lia)) as H17a.
  pose proof (decimalDigits_mantissa m2 ltac:(rewrite maxMantissa_eq; lia)) as H17b.
  set (d1 := decimalDigits m1) in *. set (d2 := decimalDigits m2) in *.
  rewrite (i64_small (e1 + d1)) by lia.
  rewrite (i64_small (e2 + d2)) by lia.
  (* the numbers lie between consecutive powers of ten *)
  assert (Hlo1 : 10 ^ (e1 + d1 + 126) <= m1 * 10 ^ (e1 + 127)).
  { replace (e1 + d1 + 126) with ((d1 - 1) + (e1 + 127)) by lia.
    rewrite (pow_10_split (d1 - 1) (e1 + 127)) by lia.
    apply Z.mul_le_mono_nonneg_r; [| lia].
    apply Z.lt_le_incl, pow_10_pos; lia. }
  assert (Hhi1 : m1 * 10 ^ (e1 + 127) < 10 ^ (e1 + d1 + 127)).
  { replace (e1 + d1 + 127) with (d1 + (e1 + 127)) by lia.
    rewrite (pow_10_split d1 (e1 + 127)) by lia.
    apply Z.mul_lt_mono_pos_r; [apply pow_10_pos; lia | lia]. }
  assert (Hlo2 : 10 ^ (e2 + d2 + 126) <= m2 * 10 ^ (e2 + 127)).
  { replace (e2 + d2 + 126) with ((d2 - 1) + (e2 + 127)) by lia.
    rewrite (pow_10_split (d2 - 1) (e2 + 127)) by lia.
    apply Z.mul_le_mono_nonneg_r; [| lia].
    apply Z.lt_le_incl, pow_10_pos; lia. }
  assert (Hhi2 : m2 * 10 ^ (e2 + 127) < 10 ^ (e2 + d2 + 127)).
  { replace (e2 + d2 + 127) with (d2 + (e2 + 127)) by lia.
    rewrite (pow_10_split d2 (e2 + 127)) by lia.
    apply Z.mul_lt_mono_pos_r; [apply pow_10_pos; lia | lia]. }
  destruct (e1 + d1 >? e2 + d2) eqn:E3.
  { symmetry. apply Z.sgn_pos.
    pose proof (pow_10_le (e2 + d2 + 127) (e1 + d1 + 126) ltac:(lia)). lia. }
  destruct (e1 + d1 <? e2 + d2) eqn:E4.
  { symmetry. apply Z.sgn_neg.
    pose proof (pow_10_le (e1 + d1 + 127) (e2 + d2 + 126) ltac:(lia)). lia. }
  assert (HD : e1 + d1 = e2 + d2) by lia.
  destruct (e1 - e2 >? 0) eqn:E5.
  - set (k := e1 - e2) in *.
    rewrite pow10_eq by lia.
    assert (Hlt : m1 * 10 ^ k < 10 ^ 17).
    { apply Z.lt_le_trans with (10 ^ (d1 + k)).
      - rewrite (pow_10_split d1 k) by lia.
        apply Z.mul_lt_mono_pos_r; [apply pow_10_pos; lia | lia].
      - apply pow_10_le. lia. }
    pose proof (pow_10_pos k ltac:(lia)) as Hk.
    assert (0 <= m1 * 10 ^ k) by (apply Z.mul_nonneg_nonneg; lia).
    rewrite (u64_small (m1 * 10 ^ k))
      by (change (10 ^ 17) with 100000000000000000 in Hlt; lia).
    rewrite uint64Cmp_sgn.
    replace (e1 + 127) with (k + (e2 + 127)) by lia.
    rewrite (pow_10_split k (e2 + 127)) by lia.
    rewrite Z.mul_assoc.
    symmetry. apply sgn_scale. apply pow_10_pos. lia.
  - set (k := e2 - e1) in *.
    replace (- (e1 - e2)) with k by lia.
    rewrite (i64_small k) by lia.
    rewrite pow10_eq by lia.
    assert (Hlt : m2 * 10 ^ k < 10 ^ 17).
    { apply Z.lt_le_trans with (10 ^ (d2 + k)).
      - rewrite (pow_10_split d2 k) by lia.
        apply Z.mul_lt_mono_pos_r; [apply pow_10_pos; lia | lia].
      - apply pow_10_le. lia. }
    pose proof (pow_10_pos k ltac:(lia)) as Hk.
    assert (0 <= m2 * 10 ^ k) by (apply Z.mul_nonneg_nonneg; lia).
    rewrite (u64_small (m2 * 10 ^ k))
      by (change (10 ^ 17) with 100000000000000000 in Hlt; lia).
    rewrite uint64Cmp_sgn.
    replace (e2 + 127) with (k + (e1 + 127)) by lia.
    rewrite (pow_10_split k (e1 + 127)) by lia.
    rewrite Z.mul_assoc.
    symmetry. apply sgn_scale. apply pow_10_pos. lia.
Qed.

Lemma normal_unique (m e m' e' : Z) :
  normal m e -> normal m' e' ->
  m * 10 ^ (e + 127) = m' * 10 ^ (e' + 127) -> m = m' /\ e = e'.
Proof.
  intros (Hm & He & Hn) (Hm' & He' & Hn') Heq.
  rewrite minExponent_eq, maxExponent_eq in *.
  assert (Hstep : forall a ea b eb,
             0 < a -> 0 < b -> -127 <= ea -> ea < eb -> eb <= 128 ->
             a * 10 ^ (ea + 127) = b * 10 ^ (eb + 127) -> a mod 10 = 0).
  { intros a ea b eb Ha Hb Hea Hlt Heb H.
    replace (eb + 127) with ((eb - ea - 1) + 1 + (ea + 127)) in H by lia.
    rewrite (pow_10_split (eb - ea - 1 + 1) (ea + 127)) in H by lia.
    rewrite (pow_10_split (eb - ea - 1) 1) in H by lia.
    rewrite Z.mul_assoc in H.
    apply Z.mul_cancel_r in H;
      [| pose proof (pow_10_pos (ea + 127) ltac:(lia)); lia].
    rewrite H. change (10 ^ 1) with 10.
    rewrite Z.mul_assoc. apply Z.mod_mul. lia. }
  destruct (Z.lt_trichotomy e e') as [Hlt | [Heq' | Hgt]].
  - exfalso. apply Hn; [lia |]. apply (Hstep m e m' e'); lia.
  - subst e'. split; [| reflexivity].
    apply Z.mul_cancel_r in Heq;
      [exact Heq | pose proof (pow_10_pos (e + 127) ltac:(lia)); lia].
  - exfalso. apply Hn'; [lia |]. apply (Hstep m' e' m e); try lia.
Qed.

Lemma Normalized_eq_scaled (v w : Value) :
  Normalized v = Normalized w <-> scaled v = scaled w.
Proof.
  split.
  - intros H. rewrite <- (scaled_Normalized v), <- (scaled_Normalized w), H.
    reflexivity.
  - intros H. rewrite !scaled_eq in H.
    pose proof (exp_range v) as He1. pose proof (exp_range w) as He2.
    rewrite minExponent_eq, maxExponent_eq in *.
    pose proof (pow_10_pos (exp v + 127) ltac:(lia)) as P1.
    pose proof (pow_10_pos (exp w + 127) ltac:(lia)) as P2.
    destruct (Z.eq_dec (mant v) 0) as [Z1 | N1].
    + assert (Z2 : mant w = 0).
      { rewrite Z1 in H. symmetry in H. apply Z.mul_eq_0 in H. lia. }
      rewrite (Normalized_zero v Z1), (Normalized_zero w Z2). reflexivity.
    + assert (N2 : mant w <> 0).
      { intros Z2. rewrite Z2 in H. apply Z.mul_eq_0 in H. lia. }
      destruct (Normalized_nonzero v N1) as (m & e & HN & Hn & _ & Hm & Hee).
      destruct (Normalized_nonzero w N2) as (m' & e' & HN' & Hn' & _ & Hm' & Hee').
      rewrite HN, HN'.
      destruct (normal_unique m e m' e' Hn Hn') as [-> ->]; [| reflexivity].
      destruct Hn as (_ & Hr & _). destruct Hn' as (_ & Hr' & _).
      rewrite minExponent_eq, maxExponent_eq in *.
      rewrite Hm, Hm' in H.
      rewrite <- !Z.mul_assoc, <- !pow_10_split in H by lia.
      replace (e - exp v + (exp v + 127)) with (e + 127) in H by lia.
      replace (e' - exp w + (exp w + 127)) with (e' + 127) in H by lia.
      exact H.
Qed.

Lemma Eq_scaled (v w : Value) : Eq v w = true <-> scaled v = scaled w.
Proof.
  unfold Eq. destruct (v =? w) eqn:E.
  - apply Z.eqb_eq in E. subst w. split; reflexivity.
  - rewrite Z.eqb_eq. apply Normalized_eq_scaled.
Qed.

(** [Cmp] orders two words as the numbers they stand for, whatever their
    exponents and trailing zeros: the answer is -1, 0 or 1 exactly when the
    number of the first is below, equal to or above the number of the
    second. *)
Theorem Cmp_numeric_order (v w : Value) :
  (Cmp v w = -1 <-> scaled v < scaled w) /\
  (Cmp v w = 0 <-> scaled v = scaled w) /\
  (Cmp v w = 1 <-> scaled w < scaled v).
Proof.
  rewrite Cmp_sgn.
  destruct (Z.lt_trichotomy (scaled v) (scaled w)) as [H | [H | H]].
  - rewrite (Z.sgn_neg (scaled v - scaled w)) by lia. lia.
  - rewrite H, Z.sub_diag. cbn. lia.
  - rewrite (Z.sgn_pos (scaled v - scaled w)) by lia. lia.
Qed.

(** [Eq] holds exactly when both words stand for the same number, and
    exactly when [Cmp] answers 0. *)
Theorem Eq_same_number (v w : Value) :
  (Eq v w = true <-> scaled v = scaled w) /\
  (Eq v w = true <-> Cmp v w = 0).
Proof.
  split; [apply Eq_scaled |].
  rewrite Eq_scaled, Cmp_sgn. split.
  - intros H. rewrite H, Z.sub_diag. reflexivity.
  - intros H. apply Z.sgn_null_iff in H. lia.
Qed.

(** [Cmp] is a total order on the numbers: a word compares equal to
    itself, swapping the operands negates the answer, and the order is
    transitive. *)
Theorem Cmp_order_laws (u v w : Value) :
  Cmp v v = 0 /\
  Cmp w v = - Cmp v w /\
  (Cmp u v <= 0 /\ Cmp v w <= 0 -> Cmp u w <= 0) /\
  -1 <= Cmp v w <= 1.
Proof.
  rewrite !Cmp_sgn. repeat split.
  - rewrite Z.sub_diag. reflexivity.
  - rewrite <- Z.sgn_opp. f_equal. lia.
  - intros [H1 H2].
    apply Z.sgn_nonpos in H1. apply Z.sgn_nonpos in H2.
    apply Z.sgn_nonpos. lia.
  - destruct (Z.sgn_spec (scaled v - scaled w)) as [[_ ->] | [[_ ->] | [_ ->]]]; lia.
  - destruct (Z.sgn_spec (scaled v - scaled w)) as [[_ ->] | [[_ ->] | [_ ->]]]; lia.
Qed.

(** No word compares above [Max], and no word with a non-zero mantissa
    compares below [Min]. *)
Theorem Max_largest_Min_smallest (v : Value) :
  Cmp v Max <= 0 /\ (IsZero v = true \/ 0 <= Cmp v Min).
Proof.
  rewrite !Cmp_sgn. rewrite !scaled_eq.
  pose proof (mant_range v) as Hm. pose proof (exp_range v) as He.
  rewrite minExponent_eq, maxExponent_eq, maxMantissa_eq in *.
  change (mant Max) with 72057594037927935. change (exp Max) with 128.
  change (mant Min) with 1. change (exp Min) with (-127).
  pose proof (pow_10_pos (exp v + 127) ltac:(lia)) as HP.
  split.
  - apply Z.sgn_nonpos.
    pose proof (pow_10_le (exp v + 127) (128 + 127) ltac:(lia)) as Hle.
    assert (mant v * 10 ^ (exp v + 127)
            <= 72057594037927935 * 10 ^ (128 + 127)).
    { apply Z.le_trans with (72057594037927935 * 10 ^ (exp v + 127)).
      - apply Z.mul_le_mono_nonneg_r; lia.
      - apply Z.mul_le_mono_nonneg_l; lia. }
    lia.
  - unfold IsZero. destruct (mant v =? 0) eqn:E; [left; reflexivity | right].
    apply Z.sgn_nonneg. change (-127 + 127) with 0. change (10 ^ 0) with 1.
    assert (1 * 1 <= mant v * 10 ^ (exp v + 127)).
    { apply Z.mul_le_mono_nonneg; lia. }
    lia.
Qed.

(** [Normalized] keeps the number, is idempotent, returns either [zero] or a
    canonical word (no trailing zero in the mantissa unless the exponent is
    the largest one), and sends two words to the same word exactly when they
    stand for the same number. *)
Theorem Normalized_canonical (v w : Value) :
  scaled (Normalized v) = scaled v /\
  Normalized (Normalized v) = Normalized v /\
  (Normalized v = zero \/
   normal (mant (Normalized v)) (exp (Normalized v))) /\
  (Normalized v = Normalized w <-> scaled v = scaled w).
Proof.
  split; [apply scaled_Normalized |].
  split; [apply Normalized_idempotent |].
  split; [| apply Normalized_eq_scaled].
  destruct (Z.eq_dec (mant v) 0) as [Z1 | N1].
  - left. apply Normalized_zero. exact Z1.
  - right. destruct (Normalized_nonzero v N1) as (m & e & HN & Hn & _).
    rewrite HN. destruct Hn as (Hm & He & Hz).
    destruct (split_word m e ltac:(lia) He) as [-> ->].
    repeat split; tauto || lia.
Qed.

(** Packing and unpacking: a mantissa up to [maxMantissa] and an exponent
    from [minExponent] to [maxExponent] packed by [fromMantAndExp] come back
    unchanged from [split]. *)
Theorem split_fromMantAndExp_roundtrip (m e : Z) :
  0 <= m <= maxMantissa -> minExponent <= e <= maxExponent ->
  split (fromMantAndExp m e) = (m, e) /\
  mant (fromMantAndExp m e) = m /\ exp (fromMantAndExp m e) = e /\
  isValue (fromMantAndExp m e).
Proof.
  intros Hm He.
  destruct (split_word m e Hm He) as [H1 H2].
  repeat split; try assumption.
  - apply split_fromMantAndExp; assumption.
  - apply (fromMantAndExp_isValue m e He).
  - apply (fromMantAndExp_isValue m e He).
Qed.

Lemma split_fromMantAndExp_roundtrip_witness :
  0 <= 123456 <= maxMantissa /\ minExponent <= -3 <= maxExponent /\
  split (fromMantAndExp 123456 (-3)) = (123456, -3).
Proof.
  assert (H1 : 0 <= 123456 <= maxMantissa) by (vm_compute; split; discriminate).
  assert (H2 : minExponent <= -3 <= maxExponent)
    by (vm_compute; split; discriminate).
  split; [exact H1 |]. split; [exact H2 |].
  exact (proj1 (split_fromMantAndExp_roundtrip 123456 (-3) H1 H2)).
Defined.

(** Unpacking and packing: every 64-bit word is rebuilt by [fromMantAndExp]
    from its own mantissa and exponent, and both lie in their ranges. *)
Theorem fromMantAndExp_split_roundtrip (v : Value) :
  isValue v ->
  fromMantAndExp (mant v) (exp v) = v /\
  0 <= mant v <= maxMantissa /\ minExponent <= exp v <= maxExponent.
Proof.
  intros Hv. split; [apply fromMantAndExp_split; exact Hv |].
  split; [apply mant_range | apply exp_range].
Qed.

Lemma fromMantAndExp_split_roundtrip_witness :
  isValue 18446744073709551615 /\
  fromMantAndExp (mant 18446744073709551615) (exp 18446744073709551615)
  = 18446744073709551615.
Proof.
  assert (H : isValue 18446744073709551615)
    by (unfold isValue; vm_compute; split; [discriminate | reflexivity]).
  split; [exact H |].
  exact (proj1 (fromMantAndExp_split_roundtrip 18446744073709551615 H)).
Defined.

(** [decimalDigits] counts decimal digits: for a non-zero 64-bit number the
    answer [d] satisfies [10^(d-1) <= x < 10^d]; for 0 it is 1. *)
Theorem decimalDigits_counts_digits (x : Z) :
  0 <= x < 2 ^ 64 ->
  1 <= decimalDigits x <= 20 /\
  x < 10 ^ decimalDigits x /\
  (x = 0 \/ 10 ^ (decimalDigits x - 1) <= x).
Proof.
  intros Hx. destruct (Z.eq_dec x 0) as [-> | Hn].
  - rewrite decimalDigits_zero. split; [lia |].
    split; [reflexivity | left; reflexivity].
  - destruct (decimalDigits_spec x ltac:(lia)) as [H1 H2].
    split; [lia |]. split; [lia | right; lia].
Qed.

Lemma decimalDigits_counts_digits_witness :
  0 <= 72057594037927935 < 2 ^ 64 /\ decimalDigits 72057594037927935 = 17 /\
  72057594037927935 < 10 ^ decimalDigits 72057594037927935.
Proof.
  assert (H : 0 <= 72057594037927935 < 2 ^ 64)
    by (vm_compute; split; [discriminate | reflexivity]).
  split; [exact H |]. split; [vm_compute; reflexivity |].
  exact (proj1 (proj2 (decimalDigits_counts_digits 72057594037927935 H))).
Defined.

(** [pow10] is the power of ten for an argument from 0 to 19 and 0 for any
    other argument, negative ones included. *)
Theorem pow10_table (k : Z) :
  pow10 k = if (0 <=? k) && (k <=? 19) then 10 ^ k else 0.
Proof.
  destruct (0 <=? k) eqn:E1; destruct (k <=? 19) eqn:E2; cbn [andb].
  - apply pow10_eq. lia.
  - apply pow10_out. lia.
  - apply pow10_out. lia.
  - apply pow10_out. lia.
Qed.

(** ** Construction from an integer, and back *)

Lemma abs_neg (x : Z) : - 2 ^ 63 < x < 0 -> abs x = - x.
Proof.
  intros Hx. unfold abs. rewrite Z.shiftr_div_pow2 by lia.
  replace (x / 2 ^ 63) with (-1)
    by (apply (Z.div_unique x (2 ^ 63) (-1) (x + 2 ^ 63)); lia).
  rewrite Z.lxor_m1_r. rewrite (i64_small (x + -1)) by lia.
  unfold Z.lnot. lia.
Qed.

Lemma adjust_down_zero (fuel : nat) :
  forall e, fst (adjust_down fuel 0 e) = 0.
Proof.
  induction fuel as [| f IH]; intros e; [reflexivity |].
  rewrite adjust_down_S.
  destruct ((e >? maxExponent) && (u64 (0 * 10) <? maxMantissa)).
  - change (u64 (0 * 10)) with 0. apply IH.
  - reflexivity.
Qed.

Lemma adjustMantExp_zero (e : Z) : adjustMantExp 0 e = zero.
Proof.
  unfold adjustMantExp.
  assert (Hup : adjust_up 20 0 e = (0, e)).
  { rewrite adjust_up_S. change (0 >? 0) with false.
    rewrite andb_false_r. reflexivity. }
  rewrite Hup.
  pose proof (adjust_down_zero (Z.to_nat (e - maxExponent)) e) as Hd.
  destruct (adjust_down (Z.to_nat (e - maxExponent)) 0 e) as [m' e'].
  cbn [fst] in Hd. subst m'. reflexivity.
Qed.

(** [adjust_up] from exponent 0 on a number above [maxMantissa]: the least
    number of low digits is dropped. *)
Lemma adjust_up_uint64 (n : Z) :
  0 < n < 2 ^ 64 ->
  exists j,
    0 <= j <= 3 /\ adjust_up 20 n 0 = (n / 10 ^ j, j) /\
    0 < n / 10 ^ j <= maxMantissa /\
    (0 < j -> maxMantissa < n / 10 ^ (j - 1)).
Proof.
  intros Hn. rewrite maxMantissa_eq.
  destruct (Z_le_gt_dec n 72057594037927935) as [H0 | H0].
  { exists 0. change (10 ^ 0) with 1. rewrite Z.div_1_r.
    split; [lia |]. split; [| lia].
    apply adjust_up_id; rewrite ?maxMantissa_eq, ?minExponent_eq; lia. }
  assert (Hstep : forall f m e,
             maxMantissa < m -> 0 <= e < 100 ->
             adjust_up (S f) m e = adjust_up f (m / 10) (e + 1)).
  { intros f m e Hm He. rewrite adjust_up_S.
    rewrite maxMantissa_eq, maxExponent_eq in *.
    rewrite (i32_small (e + 1)) by lia.
    destruct (m >? 72057594037927935) eqn:E1; [| lia].
    destruct (m >? 0) eqn:E2; [| lia].
    destruct (e + 1 <? 128) eqn:E3; [| lia].
    reflexivity. }
  assert (Hstop : forall f m e,
             m <= maxMantissa -> 0 <= e -> adjust_up f m e = (m, e)).
  { intros f m e Hm He. apply adjust_up_id; [exact Hm |].
    rewrite minExponent_eq. lia. }
  rewrite maxMantissa_eq in *.
  assert (D1 : n / 10 = n / 10 ^ 1) by reflexivity.
  assert (D2 : n / 10 / 10 = n / 10 ^ 2)
    by (rewrite Z.div_div by lia; reflexivity).
  assert (D3 : n / 10 / 10 / 10 = n / 10 ^ 3)
    by (rewrite !Z.div_div by lia; reflexivity).
  change (2 ^ 64) with 18446744073709551616 in Hn.
  destruct (Z_le_gt_dec (n / 10) 72057594037927935) as [H1 | H1].
  { exists 1. split; [lia |]. split.
    - rewrite (Hstep 19%nat n 0) by lia. rewrite <- D1. apply Hstop; lia.
    - rewrite <- D1. split; [| intros _; change (10 ^ (1 - 1)) with 1;
                                rewrite Z.div_1_r; lia].
      pose proof (Z.div_le_lower_bound n 10 1 ltac:(lia) ltac:(lia)). lia. }
  destruct (Z_le_gt_dec (n / 10 / 10) 72057594037927935) as [H2 | H2].
  { exists 2. split; [lia |]. split.
    - rewrite (Hstep 19%nat n 0) by lia.
      rewrite (Hstep 18%nat (n / 10) (0 + 1)) by lia.
      rewrite <- D2. apply Hstop; lia.
    - rewrite <- D2. split; [| intros _; change (10 ^ (2 - 1)) with 10; lia].
      pose proof (Z.div_le_lower_bound (n / 10) 10 1 ltac:(lia) ltac:(lia)).
      lia. }
  assert (Hq3 : n / 10 / 10 / 10 < 18446744073709552).
  { apply Z.div_lt_upper_bound; [lia |].
    apply Z.div_lt_upper_bound; [lia |].
    apply Z.div_lt_upper_bound; lia. }
  exists 3. split; [lia |]. split.
  - rewrite (Hstep 19%nat n 0) by lia.
    rewrite (Hstep 18%nat (n / 10) (0 + 1)) by lia.
    rewrite (Hstep 17%nat (n / 10 / 10) (0 + 1 + 1)) by lia.
    rewrite <- D3. apply Hstop; [| lia].
    lia.
  - rewrite <- D3. split.
    + split.
      * pose proof (Z.div_le_lower_bound (n / 10 / 10) 10 1 ltac:(lia) ltac:(lia)).
        lia.
      * lia.
    + intros _. change (3 - 1) with 2. rewrite <- D2. lia.
Qed.

Lemma FromUint64_shape (n : Z) :
  0 < n < 2 ^ 64 ->
  exists j,
    0 <= j <= 3 /\ FromUint64 n = fromMantAndExp (n / 10 ^ j) j /\
    0 < n / 10 ^ j <= maxMantissa /\
    (0 < j -> maxMantissa < n / 10 ^ (j - 1)).
Proof.
  intros Hn. destruct (adjust_up_uint64 n Hn) as (j & Hj & Hup & Hm & Hmin).
  exists j. split; [exact Hj |]. split; [| split; assumption].
  unfold FromUint64, adjustMantExp. rewrite Hup.
  rewrite adjust_down_id by (rewrite maxExponent_eq; lia).
  rewrite minExponent_eq, maxExponent_eq.
  destruct (n / 10 ^ j =? 0) eqn:E1; [lia |].
  destruct (j <? -127) eqn:E2; [lia |].
  destruct (j >? 128) eqn:E3; [lia |].
  reflexivity.
Qed.

(** [FromUint64] keeps a number up to [maxMantissa] as it is; from a larger
    one it drops the fewest low decimal digits (one to three) that make the
    mantissa fit, so that the result never exceeds the argument. *)
Theorem FromUint64_truncates (n : Z) :
  0 < n < 2 ^ 64 ->
  exists j,
    0 <= j <= 3 /\
    split (FromUint64 n) = (n / 10 ^ j, j) /\
    n / 10 ^ j <= maxMantissa /\
    (0 < j -> maxMantissa < n / 10 ^ (j - 1)) /\
    (n <= maxMantissa -> j = 0) /\
    scaled (FromUint64 n) <= n * 10 ^ 127 /\
    n * 10 ^ 127 < scaled (FromUint64 n) + 10 ^ (j + 127).
Proof.
  intros Hn. destruct (FromUint64_shape n Hn) as (j & Hj & Hf & Hm & Hmin).
  exists j. rewrite Hf.
  pose proof maxExponent_eq as HX. pose proof minExponent_eq as HI.
  split; [exact Hj |].
  split; [apply split_fromMantAndExp; lia |].
  split; [lia |]. split; [exact Hmin |].
  assert (Hj0 : n <= maxMantissa -> j = 0).
  { intros Hle. destruct (Z.eq_dec j 0) as [-> | Hne]; [reflexivity |].
    exfalso. specialize (Hmin ltac:(lia)).
    pose proof (pow_10_pos (j - 1) ltac:(lia)) as HP.
    assert (n / 10 ^ (j - 1) <= n)
      by (apply Z.div_le_upper_bound; [lia | nia]).
    lia. }
  split; [exact Hj0 |].
  rewrite scaled_fromMantAndExp by lia. rewrite HI.
  replace (j - -127) with (j + 127) by lia.
  rewrite (pow_10_split j 127) by lia. rewrite Z.mul_assoc.
  pose proof (pow_10_pos j ltac:(lia)) as HPj.
  pose proof (pow_10_pos 127 ltac:(lia)) as HP.
  pose proof (Z.div_mod n (10 ^ j) ltac:(lia)) as Hdm.
  pose proof (Z.mod_pos_bound n (10 ^ j) HPj) as Hmod.
  split.
  - apply Z.mul_le_mono_nonneg_r; [lia |]. lia.
  - rewrite <- Z.mul_add_distr_r. apply Z.mul_lt_mono_pos_r; [exact HP |]. lia.
Qed.

Lemma FromUint64_truncates_witness :
  0 < 18446744073709551615 < 2 ^ 64 /\
  exists j, 0 <= j <= 3 /\
    split (FromUint64 18446744073709551615) = (18446744073709551615 / 10 ^ j, j).
Proof.
  assert (H : 0 < 18446744073709551615 < 2 ^ 64)
    by (vm_compute; split; reflexivity).
  split; [exact H |].
  destruct (FromUint64_truncates 18446744073709551615 H) as (j & Hj & Hs & _).
  exists j. split; [exact Hj | exact Hs].
Defined.

(** [FromMantAndExp] stores a mantissa from 1 to [maxMantissa] with an
    exponent from [minExponent] to [maxExponent] unchanged, and turns a zero
    mantissa into [zero] whatever the exponent. *)
Theorem FromMantAndExp_in_range (m e e0 : Z) :
  0 < m <= maxMantissa -> minExponent <= e <= maxExponent ->
  split (FromMantAndExp m e) = (m, e) /\
  scaled (FromMantAndExp m e) = m * 10 ^ (e - minExponent) /\
  FromMantAndExp 0 e0 = zero.
Proof.
  intros Hm He. unfold FromMantAndExp.
  rewrite adjustMantExp_id by assumption.
  split; [apply split_fromMantAndExp; lia |].
  split; [apply scaled_fromMantAndExp; lia | apply adjustMantExp_zero].
Qed.

Lemma FromMantAndExp_in_range_witness :
  0 < 15 <= maxMantissa /\ minExponent <= -1 <= maxExponent /\
  split (FromMantAndExp 15 (-1)) = (15, -1).
Proof.
  assert (H1 : 0 < 15 <= maxMantissa) by (vm_compute; split; [reflexivity | discriminate]).
  assert (H2 : minExponent <= -1 <= maxExponent)
    by (vm_compute; split; discriminate).
  split; [exact H1 |]. split; [exact H2 |].
  exact (proj1 (FromMantAndExp_in_range 15 (-1) 0 H1 H2)).
Defined.

(** ** What [toUint64] answers *)

Lemma trailingZeros_none (m : Z) :
  m <> 0 -> m mod 10 <> 0 -> trailingZeros m = 0.
Proof.
  intros Hm Hr. unfold trailingZeros.
  destruct (m =? 0) eqn:E; [lia |].
  cbn [trailingZeros_loop]. destruct (m mod 10 =? 0) eqn:E1; [lia | reflexivity].
Qed.

(** The answer of [toUint64], by the canonical mantissa and exponent. *)
Lemma toUint64_cases (v : Value) (m e : Z) :
  split (Normalized v) = (m, e) -> normal m e ->
  toUint64 v =
  if e =? 0 then (m, true)
  else if e <? 0 then
    (if -19 <=? e then (m / 10 ^ (- e), false) else (maxMantissa, false))
  else if m * 10 ^ e <=? maxMantissa then (m * 10 ^ e, true)
  else (maxMantissa, false).
Proof.
  intros Hs (Hm & He & Hz). unfold split in Hs.
  assert (Hm' : mant (Normalized v) = m) by congruence.
  assert (He' : exp (Normalized v) = e) by congruence.
  unfold toUint64. rewrite Hm', He'.
  rewrite minExponent_eq, maxExponent_eq, maxMantissa_eq in *.
  destruct (m =? 0) eqn:E0; [lia |].
  destruct (e =? 0) eqn:E1; [reflexivity |].
  destruct (e <? 0) eqn:E2.
  - rewrite abs_neg by lia.
    destruct (-19 <=? e) eqn:E3.
    + rewrite pow10_eq by lia.
      pose proof (pow_10_pos (- e) ltac:(lia)) as HP.
      destruct (10 ^ (- e) =? 0) eqn:E4; [lia |].
      rewrite trailingZeros_none by (try apply Hz; lia).
      rewrite (i64_small (- e)) by lia.
      destruct (0 >=? - e) eqn:E5; [lia | reflexivity].
    + rewrite pow10_out by lia. reflexivity.
  - rewrite abs_nonneg by lia.
    destruct (Z_le_gt_dec e 19) as [Hle | Hgt].
    + rewrite pow10_eq by lia.
      pose proof (pow_10_pos e ltac:(lia)) as HP.
      destruct (10 ^ e =? 0) eqn:E4; [lia |].
      set (q := 72057594037927935 / m).
      pose proof (Z.div_mod 72057594037927935 m ltac:(lia)) as Hdm.
      pose proof (Z.mod_pos_bound 72057594037927935 m ltac:(lia)) as Hmod.
      fold q in Hdm.
      assert (Hq : 1 <= q <= 72057594037927935).
      { unfold q. split.
        - apply Z.div_le_lower_bound; lia.
        - apply Z.div_le_upper_bound; [lia | nia]. }
      destruct (decimalDigits_spec q ltac:(lia)) as [Hd Hx].
      rewrite (i64_small (decimalDigits q - 1)) by lia.
      assert (Hsame : 72057594037927935 - 72057594037927935 mod m = q * m)
        by lia.
      rewrite Hsame. rewrite Z.leb_refl. rewrite andb_true_r.
      destruct (m * 10 ^ e <=? 72057594037927935) eqn:E5.
      * assert (Hqe : 10 ^ e <= q).
        { unfold q. apply Z.div_le_lower_bound; lia. }
        assert (Hde : e <= decimalDigits q - 1).
        { assert (e < decimalDigits q); [| lia].
          apply pow_10_lt_inv; lia. }
        assert (Hor : (decimalDigits q - 1 >? e)
                      || (decimalDigits q - 1 =? e) = true).
        { destruct (decimalDigits q - 1 >? e) eqn:E6; [reflexivity |].
          cbn [orb]. apply Z.eqb_eq. lia. }
        rewrite Hor. rewrite u64_small by lia. reflexivity.
      * assert (Hqe : q < 10 ^ e).
        { unfold q. apply Z.div_lt_upper_bound; lia. }
        assert (Hde : decimalDigits q - 1 < e).
        { apply pow_10_lt_inv; lia. }
        destruct (decimalDigits q - 1 >? e) eqn:E6; [lia |].
        destruct (decimalDigits q - 1 =? e) eqn:E7; [lia |].
        reflexivity.
    + rewrite pow10_out by lia. cbn [Z.eqb].
      assert (Hbig : 72057594037927935 < m * 10 ^ e).
      { pose proof (pow_10_le 20 e ltac:(lia)) as Hp.
        change (10 ^ 20) with 100000000000000000000 in Hp. nia. }
      destruct (m * 10 ^ e <=? 72057594037927935) eqn:E5; [lia | reflexivity].
Qed.

Lemma toUint64_zero (v : Value) : mant v = 0 -> toUint64 v = (0, true).
Proof.
  intros Hz. unfold toUint64. rewrite (Normalized_zero v Hz). reflexivity.
Qed.

Lemma scaled_canonical (v : Value) (m e : Z) :
  split (Normalized v) = (m, e) -> scaled v = m * 10 ^ (e + 127).
Proof.
  intros Hs. rewrite <- scaled_Normalized, scaled_eq.
  unfold split in Hs. congruence.
Qed.

Lemma toUint64_exact (v : Value) (n : Z) :
  toUint64 v = (n, true) <-> 0 <= n <= maxMantissa /\ scaled v = n * 10 ^ 127.
Proof.
  destruct (Z.eq_dec (mant v) 0) as [Z1 | N1].
  { rewrite (toUint64_zero v Z1).
    assert (Hs : scaled v = 0) by (unfold scaled; rewrite Z1; reflexivity).
    rewrite Hs. rewrite maxMantissa_eq.
    pose proof (pow_10_pos 127 ltac:(lia)) as HP.
    split.
    - intros H. injection H as <-. lia.
    - intros [_ H]. assert (n = 0) by nia. subst n. reflexivity. }
  destruct (split_Normalized_nonzero v N1) as (m & e & Hs & Hn & _).
  rewrite (toUint64_cases v m e Hs Hn), (scaled_canonical v m e Hs).
  destruct Hn as (Hm & He & Hz).
  rewrite minExponent_eq, maxExponent_eq, maxMantissa_eq in *.
  pose proof (pow_10_pos 127 ltac:(lia)) as HP.
  destruct (e =? 0) eqn:E1.
  { replace e with 0 by lia. change (0 + 127) with 127. split.
    - intros H. injection H as <-. lia.
    - intros [_ H]. apply Z.mul_cancel_r in H; [| lia]. subst n. reflexivity. }
  destruct (e <? 0) eqn:E2.
  { split.
    - destruct (-19 <=? e); intros H; discriminate H.
    - intros [Hn H]. exfalso. apply Hz; [lia |].
      replace 127 with ((- e - 1) + 1 + (e + 127)) in H at 2 by lia.
      rewrite (pow_10_split (- e - 1 + 1) (e + 127)) in H by lia.
      rewrite (pow_10_split (- e - 1) 1) in H by lia.
      rewrite Z.mul_assoc in H.
      apply Z.mul_cancel_r in H;
        [| pose proof (pow_10_pos (e + 127) ltac:(lia)); lia].
      rewrite H. change (10 ^ 1) with 10. rewrite Z.mul_assoc.
      apply Z.mod_mul. lia. }
  rewrite (pow_10_split e 127) by lia. rewrite Z.mul_assoc.
  destruct (m * 10 ^ e <=? 72057594037927935) eqn:E3.
  - split.
    + intros H. injection H as <-.
      pose proof (pow_10_pos e ltac:(lia)). split; [nia | reflexivity].
    + intros [_ H]. apply Z.mul_cancel_r in H; [| lia]. rewrite H. reflexivity.
  - split.
    + intros H. discriminate H.
    + intros [Hn H]. apply Z.mul_cancel_r in H; [| lia]. lia.
Qed.

(** The exact flag of [toUint64] is set exactly when the number is an
    integer that is at most [maxMantissa], and the integer is what is
    returned. *)
Theorem toUint64_exact_iff_integer (v : Value) (n : Z) :
  toUint64 v = (n, true) <->
  0 <= n <= maxMantissa /\ scaled v = n * 10 ^ (0 - minExponent).
Proof.
  rewrite minExponent_eq. change (0 - -127) with 127. apply toUint64_exact.
Qed.

(** An integer up to [maxMantissa] survives [FromUint64] followed by
    [Uint64], and the conversion back is reported exact. *)
Theorem Uint64_FromUint64_roundtrip (n : Z) :
  0 <= n <= maxMantissa ->
  toUint64 (FromUint64 n) = (n, true) /\ Uint64 (FromUint64 n) = n.
Proof.
  intros Hn.
  assert (H : toUint64 (FromUint64 n) = (n, true)).
  { apply toUint64_exact. split; [exact Hn |].
    destruct (Z.eq_dec n 0) as [-> | Hne].
    - unfold FromUint64. rewrite adjustMantExp_zero. reflexivity.
    - unfold FromUint64. rewrite adjustMantExp_id
        by (rewrite ?minExponent_eq, ?maxExponent_eq; lia).
      rewrite scaled_fromMantAndExp
        by (rewrite ?minExponent_eq, ?maxExponent_eq; lia).
      rewrite minExponent_eq. reflexivity. }
  split; [exact H |]. unfold Uint64. rewrite H. reflexivity.
Qed.

Lemma Uint64_FromUint64_roundtrip_witness :
  0 <= 72057594037927935 <= maxMantissa /\
  Uint64 (FromUint64 72057594037927935) = 72057594037927935.
Proof.
  assert (H : 0 <= 72057594037927935 <= maxMantissa)
    by (vm_compute; split; discriminate).
  split; [exact H |].
  exact (proj2 (Uint64_FromUint64_roundtrip 72057594037927935 H)).
Defined.

(** For a number with a fractional part whose canonical exponent is -19 or
    more, [Uint64] is the integer part, reported inexact. *)
Theorem Uint64_integer_part (v : Value) :
  mant v <> 0 -> -19 <= exp (Normalized v) < 0 ->
  snd (toUint64 v) = false /\
  Uint64 v * 10 ^ 127 <= scaled v < (Uint64 v + 1) * 10 ^ 127.
Proof.
  intros N1 He.
  destruct (split_Normalized_nonzero v N1) as (m & e & Hs & Hn & _).
  assert (Hee : exp (Normalized v) = e) by (unfold split in Hs; congruence).
  rewrite Hee in He.
  unfold Uint64.
  rewrite (toUint64_cases v m e Hs Hn), (scaled_canonical v m e Hs).
  destruct Hn as (Hm & _ & _).
  destruct (e =? 0) eqn:E1; [lia |].
  destruct (e <? 0) eqn:E2; [| lia].
  destruct (-19 <=? e) eqn:E3; [| lia].
  cbn [fst snd]. split; [reflexivity |].
  assert (HS : 10 ^ 127 = 10 ^ (- e) * 10 ^ (e + 127)).
  { rewrite <- pow_10_split by lia. f_equal. lia. }
  rewrite HS. rewrite !Z.mul_assoc.
  pose proof (pow_10_pos (- e) ltac:(lia)) as HP.
  pose proof (pow_10_pos (e + 127) ltac:(lia)) as HQ.
  pose proof (Z.div_mod m (10 ^ (- e)) ltac:(lia)) as Hdm.
  pose proof (Z.mod_pos_bound m (10 ^ (- e)) HP) as Hmod.
  split.
  - apply Z.mul_le_mono_nonneg_r; lia.
  - apply Z.mul_lt_mono_pos_r; [exact HQ |]. lia.
Qed.

Lemma Uint64_integer_part_witness :
  mant (FromMantAndExp 123456 (-3)) <> 0 /\
  -19 <= exp (Normalized (FromMantAndExp 123456 (-3))) < 0 /\
  Uint64 (FromMantAndExp 123456 (-3)) = 123 /\
  snd (toUint64 (FromMantAndExp 123456 (-3))) = false.
Proof.
  assert (H1 : mant (FromMantAndExp 123456 (-3)) <> 0)
    by (vm_compute; discriminate).
  assert (H2 : -19 <= exp (Normalized (FromMantAndExp 123456 (-3))) < 0)
    by (vm_compute; split; [discriminate | reflexivity]).
  split; [exact H1 |]. split; [exact H2 |].
  split; [vm_compute; reflexivity |].
  exact (proj1 (Uint64_integer_part (FromMantAndExp 123456 (-3)) H1 H2)).
Defined.

(** A non-zero number whose canonical exponent is below -19, a number under
    [10^-2] at the most, is converted to [maxMantissa] and reported
    inexact: [pow10] has no entry for the exponent, and the branch taken for
    a missing entry is the one of numbers that are too large. *)
Theorem Uint64_small_fraction_is_maxMantissa (v : Value) :
  mant v <> 0 -> exp (Normalized v) < -19 ->
  toUint64 v = (maxMantissa, false) /\ Uint64 v = maxMantissa /\
  scaled v < 10 ^ 125.
Proof.
  intros N1 He.
  destruct (split_Normalized_nonzero v N1) as (m & e & Hs & Hn & _).
  assert (Hee : exp (Normalized v) = e) by (unfold split in Hs; congruence).
  rewrite Hee in He.
  assert (H : toUint64 v = (maxMantissa, false)).
  { rewrite (toUint64_cases v m e Hs Hn).
    destruct (e =? 0) eqn:E1; [lia |].
    destruct (e <? 0) eqn:E2; [| lia].
    destruct (-19 <=? e) eqn:E3; [lia | reflexivity]. }
  split; [exact H |]. split; [unfold Uint64; rewrite H; reflexivity |].
  rewrite (scaled_canonical v m e Hs).
  destruct Hn as (Hm & Her & _).
  rewrite minExponent_eq, maxMantissa_eq in *.
  apply Z.lt_le_trans with (10 ^ 17 * 10 ^ (e + 127)).
  - apply Z.mul_lt_mono_pos_r; [apply pow_10_pos; lia |].
    change (10 ^ 17) with 100000000000000000. lia.
  - rewrite <- pow_10_split by lia. apply pow_10_le. lia.
Qed.

Lemma Uint64_small_fraction_is_maxMantissa_witness :
  mant (FromMantAndExp 1 (-20)) <> 0 /\
  exp (Normalized (FromMantAndExp 1 (-20))) < -19 /\
  Uint64 (FromMantAndExp 1 (-20)) = maxMantissa.
Proof.
  assert (H1 : mant (FromMantAndExp 1 (-20)) <> 0)
    by (vm_compute; discriminate).
  assert (H2 : exp (Normalized (FromMantAndExp 1 (-20))) < -19)
    by (vm_compute; reflexivity).
  split; [exact H1 |]. split; [exact H2 |].
  exact (proj1 (proj2 (Uint64_small_fraction_is_maxMantissa
                         (FromMantAndExp 1 (-20)) H1 H2))).
Defined.

(** ** Multiplication against the product of the numbers *)

Lemma mul64_comm (a b : Z) : mul64 a b = mul64 b a.
Proof. unfold mul64, Mul64. rewrite (Z.mul_comm a b). reflexivity. Qed.

Lemma Mul_commutative (v w : Value) : Mul v w = Mul w v.
Proof.
  unfold Mul. cbv zeta. unfold split.
  rewrite (mul64_comm (mant (Normalized v)) (mant (Normalized w))).
  rewrite (Z.add_comm (exp (Normalized v)) (exp (Normalized w))).
  rewrite (orb_comm (mant (Normalized v) =? 0)).
  reflexivity.
Qed.

Lemma scaled_num (v : Value) : num (mant v) (exp v) = scaled v * 10 ^ 873.
Proof. apply num_scaled. Qed.

(** [Mul] always returns, and its result never exceeds the product of the
    numbers of its operands: digits that do not fit are cut, not rounded.
    With numbers in units of [10^-127], the product of two numbers is
    [scaled v * scaled w] in units of [10^-254]. *)
Theorem Mul_never_above_product (v w : Value) :
  exists x, Mul v w = Ok x /\ scaled x * 10 ^ 127 <= scaled v * scaled w.
Proof.
  destruct (Mul_num v w) as (x & Hx & Hle).
  exists x. split; [exact Hx |].
  rewrite !num_scaled in Hle.
  pose proof (pow_10_pos 1746 ltac:(lia)) as HP.
  apply (Z.mul_le_mono_pos_r _ _ (10 ^ 1746) HP).
  replace (scaled x * 10 ^ 127 * 10 ^ 1746)
    with (scaled x * 10 ^ 873 * 10 ^ 1000).
  - replace (scaled v * scaled w * 10 ^ 1746)
      with (scaled v * 10 ^ 873 * (scaled w * 10 ^ 873)); [exact Hle |].
    change 1746 with (873 + 873). rewrite (pow_10_split 873 873) by lia. ring.
  - change 1746 with (873 + 873). rewrite (pow_10_split 873 873) by lia.
    change 1000 with (127 + 873). rewrite (pow_10_split 127 873) by lia. ring.
Qed.

(** [Mul] is exact when the product of the canonical mantissas fits a
    mantissa and the sum of the canonical exponents is an exponent. *)
Theorem Mul_exact_when_it_fits (v w : Value) :
  mant v <> 0 -> mant w <> 0 ->
  mant (Normalized v) * mant (Normalized w) <= maxMantissa ->
  minExponent <= exp (Normalized v) + exp (Normalized w) <= maxExponent ->
  Mul v w = Ok (fromMantAndExp (mant (Normalized v) * mant (Normalized w))
                  (exp (Normalized v) + exp (Normalized w))) /\
  exists x, Mul v w = Ok x /\ scaled x * 10 ^ 127 = scaled v * scaled w.
Proof.
  intros N1 N2 Hfit He.
  destruct (split_Normalized_nonzero v N1) as (m1 & e1 & Hs1 & Hn1 & _).
  destruct (split_Normalized_nonzero w N2) as (m2 & e2 & Hs2 & Hn2 & _).
  pose proof (scaled_canonical v m1 e1 Hs1) as Hv.
  pose proof (scaled_canonical w m2 e2 Hs2) as Hw.
  unfold split in Hs1, Hs2.
  assert (Hm1 : mant (Normalized v) = m1) by congruence.
  assert (He1 : exp (Normalized v) = e1) by congruence.
  assert (Hm2 : mant (Normalized w) = m2) by congruence.
  assert (He2 : exp (Normalized w) = e2) by congruence.
  rewrite Hm1, He1, Hm2, He2 in *.
  destruct Hn1 as (Hr1 & Hx1 & _). destruct Hn2 as (Hr2 & Hx2 & _).
  assert (Hp : 0 < m1 * m2) by (apply Z.mul_pos_pos; lia).
  assert (HM : Mul v w = Ok (fromMantAndExp (m1 * m2) (e1 + e2))).
  { unfold Mul. cbv zeta. unfold split. rewrite Hm1, He1, Hm2, He2.
    destruct (m1 =? 0) eqn:E1; [lia |]. destruct (m2 =? 0) eqn:E2; [lia |].
    cbn [orb]. unfold mul64, Mul64.
    rewrite minExponent_eq, maxExponent_eq, maxMantissa_eq in *.
    rewrite (Z.div_small (m1 * m2) (2 ^ 64)) by lia.
    rewrite (Z.mod_small (m1 * m2) (2 ^ 64)) by lia.
    change (0 >? 0) with false. cbv iota. cbn [bind].
    rewrite (i64_small (e1 + e2)) by lia. rewrite Z.add_0_r.
    rewrite (i64_small (e1 + e2)) by lia.
    rewrite (i32_small (e1 + e2)) by lia.
    rewrite adjustMantExp_id
      by (rewrite ?minExponent_eq, ?maxExponent_eq, ?maxMantissa_eq; lia).
    reflexivity. }
  split; [exact HM |].
  exists (fromMantAndExp (m1 * m2) (e1 + e2)). split; [exact HM |].
  rewrite scaled_fromMantAndExp by lia.
  rewrite Hv, Hw, minExponent_eq in *.
  replace (e1 + e2 - -127) with ((e1 + 127) + e2) by lia.
  rewrite <- Z.mul_assoc.
  replace (10 ^ (e1 + 127 + e2) * 10 ^ 127)
    with (10 ^ (e1 + 127) * 10 ^ (e2 + 127)).
  - ring.
  - rewrite <- !pow_10_split by lia. f_equal. lia.
Qed.

Lemma Mul_exact_when_it_fits_witness :
  mant (FromMantAndExp 15 (-1)) <> 0 /\ mant (FromMantAndExp 20 0) <> 0 /\
  Mul (FromMantAndExp 15 (-1)) (FromMantAndExp 20 0)
  = Ok (fromMantAndExp 30 0).
Proof.
  assert (H1 : mant (FromMantAndExp 15 (-1)) <> 0) by (vm_compute; discriminate).
  assert (H2 : mant (FromMantAndExp 20 0) <> 0) by (vm_compute; discriminate).
  assert (H3 : mant (Normalized (FromMantAndExp 15 (-1)))
               * mant (Normalized (FromMantAndExp 20 0)) <= maxMantissa)
    by (vm_compute; discriminate).
  assert (H4 : minExponent
               <= exp (Normalized (FromMantAndExp 15 (-1)))
                  + exp (Normalized (FromMantAndExp 20 0)) <= maxExponent)
    by (vm_compute; split; discriminate).
  split; [exact H1 |]. split; [exact H2 |].
  exact (proj1 (Mul_exact_when_it_fits _ _ H1 H2 H3 H4)).
Defined.

(** ** Addition and subtraction against the numbers *)

(** [toEqualExp] in terms of the numbers: both mantissas returned are the
    numbers of the operands divided by the unit of the common exponent,
    with the quotient cut to an integer; the operand with the larger
    exponent loses nothing. *)
Lemma doToEqualExp_floor (m1 e1 m2 e2 : Z) :
  0 < m1 <= maxMantissa -> 0 < m2 <= maxMantissa ->
  minExponent <= e2 -> e2 <= e1 -> e1 <= maxExponent ->
  exists r1 r2 re,
    doToEqualExp m1 e1 m2 e2 = Ok (r1, r2, re) /\
    e2 <= re <= e1 /\
    0 < r1 <= maxMantissa /\ 0 <= r2 <= maxMantissa /\
    r1 * 10 ^ (re + 127) = m1 * 10 ^ (e1 + 127) /\
    r2 = (m2 * 10 ^ (e2 + 127)) / 10 ^ (re + 127).
Proof.
  intros Hm1 Hm2 He2 He21 He1.
  destruct (trimZeros m2 e2 e1) as [m2' e2'] eqn:Htrim.
  pose proof (doToEqualExp_eq m1 e1 m2 e2 m2' e2' Hm1 Hm2 He2 He21 He1 Htrim)
    as Heq.
  cbv zeta in Heq.
  rewrite minExponent_eq, maxExponent_eq in *.
  pose proof (trimZeros_spec m2 e2 e1 ltac:(lia) ltac:(lia) ltac:(lia)) as Hs.
  rewrite Htrim in Hs. destruct Hs as (Hm2' & Hmul & Hle & Hup & Hz).
  assert (Hm2'le : m2' <= m2).
  { pose proof (pow_10_pos (e2' - e2) ltac:(lia)). nia. }
  pose proof (log10_headroom maxMantissa m1 Hm1
                ltac:(rewrite maxMantissa_eq; lia)) as (Ht0 & Hfit & _).
  set (t := if e2' =? e1 then 0
            else Z.min (log10 (maxMantissa / m1)) (e1 - e2')) in *.
  assert (Ht : 0 <= t <= log10 (maxMantissa / m1) /\ t <= e1 - e2').
  { unfold t. destruct (e2' =? e1) eqn:E; lia. }
  destruct (scale_fit m1 t (log10 (maxMantissa / m1)) maxMantissa
              ltac:(lia) ltac:(lia) Hfit) as [Hr1a Hr1b].
  set (d := e1 - t - e2') in *.
  assert (Hd : 0 <= d) by (unfold d; lia).
  pose proof (pow_10_pos d Hd) as HPd.
  exists (m1 * 10 ^ t), (m2' / 10 ^ d), (e1 - t).
  split; [exact Heq |]. split; [lia |]. split; [lia |].
  split.
  { split; [apply Z.div_pos; lia |].
    apply Z.le_trans with m2'; [| lia].
    apply Z.div_le_upper_bound; [lia |]. nia. }
  split.
  { rewrite <- Z.mul_assoc, <- pow_10_split by lia.
    f_equal. f_equal. lia. }
  rewrite Hmul. rewrite <- Z.mul_assoc, <- pow_10_split by lia.
  replace (e2' - e2 + (e2 + 127)) with (e2' + 127) by lia.
  replace (e1 - t + 127) with (d + (e2' + 127)) by (unfold d; lia).
  rewrite (pow_10_split d (e2' + 127)) by lia.
  rewrite Z.div_mul_cancel_r;
    [reflexivity | lia | pose proof (pow_10_pos (e2' + 127) ltac:(lia)); lia].
Qed.

Lemma toEqualExp_floor (m1 e1 m2 e2 : Z) :
  0 < m1 <= maxMantissa -> 0 < m2 <= maxMantissa ->
  minExponent <= e1 <= maxExponent -> minExponent <= e2 <= maxExponent ->
  exists r1 r2 re,
    toEqualExp m1 e1 m2 e2 = Ok (r1, r2, re) /\
    minExponent <= re <= maxExponent /\
    0 <= r1 <= maxMantissa /\ 0 <= r2 <= maxMantissa /\
    r1 = (m1 * 10 ^ (e1 + 127)) / 10 ^ (re + 127) /\
    r2 = (m2 * 10 ^ (e2 + 127)) / 10 ^ (re + 127) /\
    (e2 <= e1 -> r1 * 10 ^ (re + 127) = m1 * 10 ^ (e1 + 127)) /\
    (e1 <= e2 -> r2 * 10 ^ (re + 127) = m2 * 10 ^ (e2 + 127)).
Proof.
  intros Hm1 Hm2 He1 He2. unfold toEqualExp.
  destruct (e1 >=? e2) eqn:E.
  - destruct (doToEqualExp_floor m1 e1 m2 e2 Hm1 Hm2 ltac:(lia) ltac:(lia)
                ltac:(lia)) as (r1 & r2 & re & Heq & Hre & Hr1 & Hr2 & Hx & Hf).
    exists r1, r2, re.
    rewrite minExponent_eq in *.
    pose proof (pow_10_pos (re + 127) ltac:(lia)) as HP.
    split; [exact Heq |]. split; [lia |]. split; [lia |]. split; [lia |].
    split; [rewrite <- Hx; symmetry; apply Z.div_mul; lia |].
    split; [exact Hf |]. split; [intros _; exact Hx |].
    intros Hle. assert (e1 = e2) by lia. subst e2.
    assert (re = e1) by lia. subst re.
    rewrite Hf. rewrite Z.div_mul by lia. reflexivity.
  - destruct (doToEqualExp_floor m2 e2 m1 e1 Hm2 Hm1 ltac:(lia) ltac:(lia)
                ltac:(lia)) as (r2 & r1 & re & Heq & Hre & Hr2 & Hr1 & Hx & Hf).
    exists r1, r2, re. rewrite Heq. cbn [bind].
    rewrite minExponent_eq in *.
    pose proof (pow_10_pos (re + 127) ltac:(lia)) as HP.
    split; [reflexivity |]. split; [lia |]. split; [lia |]. split; [lia |].
    split; [exact Hf |].
    split; [rewrite <- Hx; symmetry; apply Z.div_mul; lia |].
    split; [intros Hle; lia | intros _; exact Hx].
Qed.

Lemma addWithExp_comm (r1 r2 e : Z) : addWithExp r1 r2 e = addWithExp r2 r1 e.
Proof. unfold addWithExp. rewrite (Z.add_comm r1 r2). reflexivity. Qed.

Lemma Add_commutative (v w : Value) : Add v w = Add w v.
Proof.
  unfold Add, split.
  destruct (mant v =? 0) eqn:E1; destruct (mant w =? 0) eqn:E2;
    try reflexivity.
  unfold toEqualExp.
  destruct (Z.lt_trichotomy (exp v) (exp w)) as [H | [H | H]].
  - destruct (exp v >=? exp w) eqn:E3; [lia |].
    destruct (exp w >=? exp v) eqn:E4; [| lia].
    destruct (doToEqualExp (mant w) (exp w) (mant v) (exp v))
      as [[[r1 r2] re] | err | p]; cbn [bind]; try reflexivity.
    rewrite addWithExp_comm. reflexivity.
  - rewrite H. rewrite Z.geb_leb, Z.leb_refl.
    unfold doToEqualExp. rewrite Z.sub_diag. change (i32 0 =? 0) with true.
    cbv iota. cbn [bind]. rewrite addWithExp_comm. reflexivity.
  - destruct (exp v >=? exp w) eqn:E3; [| lia].
    destruct (exp w >=? exp v) eqn:E4; [lia |].
    destruct (doToEqualExp (mant v) (exp v) (mant w) (exp w))
      as [[[r1 r2] re] | err | p]; cbn [bind]; try reflexivity.
    rewrite addWithExp_comm. reflexivity.
Qed.

Lemma toEqualExp_of_words (v w : Value) :
  mant v <> 0 -> mant w <> 0 ->
  exists r1 r2 re,
    toEqualExp (mant v) (exp v) (mant w) (exp w) = Ok (r1, r2, re) /\
    minExponent <= re <= maxExponent /\
    0 <= r1 <= maxMantissa /\ 0 <= r2 <= maxMantissa /\
    r1 = scaled v / 10 ^ (re + 127) /\
    r2 = scaled w / 10 ^ (re + 127) /\
    (exp w <= exp v -> r1 * 10 ^ (re + 127) = scaled v) /\
    (exp v <= exp w -> r2 * 10 ^ (re + 127) = scaled w).
Proof.
  intros N1 N2. rewrite !scaled_eq.
  pose proof (mant_range v). pose proof (mant_range w).
  apply toEqualExp_floor; try lia; apply exp_range.
Qed.

Lemma Add_le_sum (v w : Value) :
  exists x, Add v w = Ok x /\ scaled x <= scaled v + scaled w.
Proof.
  pose proof (mant_range v) as Hv. pose proof (mant_range w) as Hw.
  pose proof (exp_range v) as Hev. pose proof (exp_range w) as Hew.
  assert (Hsv : 0 <= scaled v).
  { rewrite scaled_eq. rewrite minExponent_eq in *.
    pose proof (pow_10_pos (exp v + 127) ltac:(lia)). nia. }
  assert (Hsw : 0 <= scaled w).
  { rewrite scaled_eq. rewrite minExponent_eq in *.
    pose proof (pow_10_pos (exp w + 127) ltac:(lia)). nia. }
  destruct (Z.eq_dec (mant v) 0) as [Z1 | N1].
  { unfold Add, split. rewrite Z1. change (0 =? 0) with true. cbv iota.
    destruct (mant w =? 0).
    - exists zero. split; [reflexivity |]. change (scaled zero) with 0. lia.
    - exists w. split; [reflexivity | lia]. }
  destruct (Z.eq_dec (mant w) 0) as [Z2 | N2].
  { exists v. split; [apply Add_zero_r; assumption | lia]. }
  destruct (toEqualExp_of_words v w N1 N2)
    as (r1 & r2 & re & Heq & Hre & Hr1 & Hr2 & Hf1 & Hf2 & _).
  rewrite (Add_nonzero v w r1 r2 re N1 N2 Heq).
  exists (addWithExp r1 r2 re). split; [reflexivity |].
  rewrite minExponent_eq, maxExponent_eq, maxMantissa_eq in *.
  pose proof (pow_10_pos (re + 127) ltac:(lia)) as HP.
  assert (Hsum : (r1 + r2) * 10 ^ (re + 127) <= scaled v + scaled w).
  { pose proof (Z.mul_div_le (scaled v) (10 ^ (re + 127)) HP).
    pose proof (Z.mul_div_le (scaled w) (10 ^ (re + 127)) HP).
    rewrite Z.mul_add_distr_r, Hf1, Hf2. lia. }
  unfold addWithExp. rewrite (u64_small (r1 + r2)) by lia.
  rewrite maxMantissa_eq, maxExponent_eq.
  destruct (r1 + r2 >? 72057594037927935) eqn:E1.
  - destruct (re =? 128) eqn:E2.
    + apply Z.le_trans with ((r1 + r2) * 10 ^ (re + 127)); [| exact Hsum].
      replace re with 128 by lia. change (scaled Max)
        with (72057594037927935 * 10 ^ (128 + 127)).
      apply Z.mul_le_mono_nonneg_r; lia.
    + rewrite (i32_small (re + 1)) by lia.
      assert (Hq : 0 <= (r1 + r2) / 10 <= 72057594037927935).
      { split; [apply Z.div_pos; lia |].
        apply Z.div_le_upper_bound; lia. }
      rewrite scaled_fromMantAndExp
        by (rewrite ?minExponent_eq, ?maxExponent_eq, ?maxMantissa_eq; lia).
      rewrite minExponent_eq.
      replace (re + 1 - -127) with (1 + (re + 127)) by lia.
      rewrite (pow_10_split 1 (re + 127)) by lia. change (10 ^ 1) with 10.
      apply Z.le_trans with ((r1 + r2) * 10 ^ (re + 127)); [| exact Hsum].
      rewrite Z.mul_assoc. apply Z.mul_le_mono_nonneg_r; [lia |].
      pose proof (Z.mul_div_le (r1 + r2) 10 ltac:(lia)). lia.
  - rewrite scaled_fromMantAndExp
      by (rewrite ?minExponent_eq, ?maxExponent_eq, ?maxMantissa_eq; lia).
    rewrite minExponent_eq.
    replace (re - -127) with (re + 127) by lia. exact Hsum.
Qed.

(** [Add] always returns, its result never exceeds the sum of the numbers
    of its operands, and an operand with a zero mantissa leaves the other
    operand as the result. *)
Theorem Add_never_above_sum (v w : Value) :
  exists x,
    Add v w = Ok x /\ scaled x <= scaled v + scaled w /\
    (IsZero w = true -> IsZero v = false -> x = v) /\
    (IsZero v = true -> IsZero w = false -> x = w).
Proof.
  destruct (Add_le_sum v w) as (x & Hx & Hle).
  exists x. split; [exact Hx |]. split; [exact Hle |].
  unfold IsZero. split; intros H1 H2.
  - apply Z.eqb_eq in H1. apply Z.eqb_neq in H2.
    rewrite (Add_zero_r v w H2 H1) in Hx. congruence.
  - apply Z.eqb_eq in H1. apply Z.eqb_neq in H2.
    rewrite (Add_zero_l v w H1 H2) in Hx. congruence.
Qed.

(** Adding anything to [Max] gives [Max], on either side. *)
Theorem Add_Max_absorbs (v : Value) :
  Add Max v = Ok Max /\ Add v Max = Ok Max.
Proof.
  assert (H : Add Max v = Ok Max).
  { destruct (Z.eq_dec (mant v) 0) as [Z1 | N1].
    { apply Add_zero_r; [vm_compute; discriminate | exact Z1]. }
    assert (NM : mant Max <> 0) by (vm_compute; discriminate).
    destruct (toEqualExp_of_words Max v NM N1)
      as (r1 & r2 & re & Heq & Hre & Hr1 & Hr2 & Hf1 & Hf2 & Hx1 & _).
    rewrite (Add_nonzero Max v r1 r2 re NM N1 Heq).
    pose proof (exp_range v) as Hev.
    change (exp Max) with 128 in Hx1.
    rewrite minExponent_eq, maxExponent_eq, maxMantissa_eq in *.
    specialize (Hx1 ltac:(lia)).
    change (scaled Max) with (72057594037927935 * 10 ^ (128 + 127)) in Hx1.
    assert (Hre128 : re = 128).
    { destruct (Z.eq_dec re 128) as [-> | Hne]; [reflexivity |].
      exfalso.
      replace (128 + 127) with ((128 - re) + (re + 127)) in Hx1 by lia.
      rewrite (pow_10_split (128 - re) (re + 127)) in Hx1 by lia.
      rewrite Z.mul_assoc in Hx1.
      apply Z.mul_cancel_r in Hx1;
        [| pose proof (pow_10_pos (re + 127) ltac:(lia)); lia].
      pose proof (pow_10_le 1 (128 - re) ltac:(lia)) as Hp.
      change (10 ^ 1) with 10 in Hp. nia. }
    subst re.
    apply Z.mul_cancel_r in Hx1;
      [| pose proof (pow_10_pos (128 + 127) ltac:(lia)); lia].
    subst r1. unfold addWithExp.
    rewrite (u64_small (72057594037927935 + r2)) by lia.
    rewrite maxMantissa_eq, maxExponent_eq.
    destruct (72057594037927935 + r2 >? 72057594037927935) eqn:E.
    - reflexivity.
    - replace r2 with 0 by lia. reflexivity. }
  split; [exact H |]. rewrite Add_commutative. exact H.
Qed.

Lemma subWithExp_mant_zero (m e : Z) :
  minExponent <= e <= maxExponent ->
  subWithExp m m e = (fromMantAndExp 0 e, false).
Proof.
  intros He. unfold subWithExp. rewrite Z.geb_leb, Z.leb_refl.
  rewrite Z.sub_diag. reflexivity.
Qed.

(** A value subtracted from itself gives a word with a zero mantissa, not
    flagged negative; the word keeps the exponent of the operand, so it is
    [zero] itself only when that exponent is the smallest one or the operand
    has a zero mantissa. *)
Theorem Sub_self (v : Value) :
  exists r,
    Sub v v = Ok (r, false) /\ IsZero r = true /\ scaled r = 0 /\
    Normalized r = zero /\
    r = (if IsZero v then zero else fromMantAndExp 0 (exp v)).
Proof.
  unfold IsZero. destruct (mant v =? 0) eqn:E.
  - exists zero. unfold Sub, split. rewrite E. repeat split; reflexivity.
  - exists (fromMantAndExp 0 (exp v)).
    pose proof (exp_range v) as He.
    assert (Hm : mant (fromMantAndExp 0 (exp v)) = 0).
    { rewrite mant_fromMantAndExp by exact He. reflexivity. }
    split.
    + unfold Sub, split. rewrite E. rewrite toEqualExp_same. cbn [bind].
      rewrite subWithExp_mant_zero by exact He. reflexivity.
    + rewrite Hm. split; [reflexivity |].
      split; [unfold scaled; rewrite Hm; reflexivity |].
      split; [apply Normalized_zero; exact Hm | reflexivity].
Qed.

Lemma Sub_flag_sound (v w r : Value) (neg : bool) :
  Sub v w = Ok (r, neg) ->
  (neg = true -> scaled v < scaled w) /\
  (neg = false -> exp v <= exp w -> scaled w <= scaled v).
Proof.
  intros HS.
  pose proof (mant_range v) as Hv. pose proof (mant_range w) as Hw.
  pose proof (exp_range v) as Hev. pose proof (exp_range w) as Hew.
  rewrite minExponent_eq, maxExponent_eq in *.
  pose proof (pow_10_pos (exp v + 127) ltac:(lia)) as HPv.
  pose proof (pow_10_pos (exp w + 127) ltac:(lia)) as HPw.
  destruct (Z.eq_dec (mant w) 0) as [Z2 | N2].
  { assert (Hsw : scaled w = 0) by (unfold scaled; rewrite Z2; reflexivity).
    assert (Hsv : 0 <= scaled v) by (rewrite scaled_eq; nia).
    unfold Sub, split in HS. rewrite Z2 in HS. change (0 =? 0) with true in HS.
    cbv iota in HS.
    destruct (mant v =? 0); injection HS as _ <-;
      (split; [discriminate | intros _ _; lia]). }
  destruct (Z.eq_dec (mant v) 0) as [Z1 | N1].
  { assert (Hsv : scaled v = 0) by (unfold scaled; rewrite Z1; reflexivity).
    assert (Hsw : 0 < scaled w) by (rewrite scaled_eq; nia).
    unfold Sub, split in HS. rewrite Z1 in HS.
    destruct (mant w =? 0) eqn:E; [lia |].
    change (0 =? 0) with true in HS. cbv iota in HS.
    injection HS as _ <-. split; [intros _; lia | discriminate]. }
  destruct (toEqualExp_of_words v w N1 N2)
    as (r1 & r2 & re & Heq & Hre & Hr1 & Hr2 & Hf1 & Hf2 & Hx1 & Hx2).
  rewrite (Sub_nonzero v w r1 r2 re N1 N2 Heq) in HS.
  rewrite minExponent_eq in Hre.
  pose proof (pow_10_pos (re + 127) ltac:(lia)) as HP.
  pose proof (Z.mul_div_le (scaled v) (10 ^ (re + 127)) HP) as Hlo1.
  pose proof (Z.mul_div_le (scaled w) (10 ^ (re + 127)) HP) as Hlo2.
  pose proof (Z.mul_succ_div_gt (scaled v) (10 ^ (re + 127)) HP) as Hhi1.
  rewrite <- Hf1 in *. rewrite <- Hf2 in *.
  unfold subWithExp in HS.
  destruct (r1 >=? r2) eqn:E; injection HS as _ <-.
  - split; [discriminate |]. intros _ Hle. specialize (Hx2 Hle).
    rewrite <- Hx2.
    apply Z.le_trans with (10 ^ (re + 127) * r1); [| lia].
    rewrite (Z.mul_comm r2). apply Z.mul_le_mono_nonneg_l; lia.
  - split; [| discriminate]. intros _.
    apply Z.lt_le_trans with (10 ^ (re + 127) * Z.succ r1); [exact Hhi1 |].
    apply Z.le_trans with (10 ^ (re + 127) * r2); [| lia].
    apply Z.mul_le_mono_nonneg_l; lia.
Qed.

(** The flag of [Sub] is sound: when it says the result is negative, the
    first number is below the second.  When the flag is not set and the
    first operand has the smaller or the same exponent, the first number is
    at least the second. *)
Theorem Sub_negative_flag_sound (v w r : Value) (neg : bool) :
  Sub v w = Ok (r, neg) ->
  (neg = true -> scaled v < scaled w) /\
  (neg = false -> exp v <= exp w -> scaled w <= scaled v).
Proof.
  apply Sub_flag_sound.
Qed.

Lemma Sub_negative_flag_sound_witness :
  Sub (FromUint64 3) (FromMantAndExp 35 (-1))
  = Ok (FromMantAndExp 5 (-1), true) /\
  scaled (FromUint64 3) < scaled (FromMantAndExp 35 (-1)).
Proof.
  assert (H : Sub (FromUint64 3) (FromMantAndExp 35 (-1))
              = Ok (FromMantAndExp 5 (-1), true)) by (vm_compute; reflexivity).
  split; [exact H |].
  exact (proj1 (Sub_negative_flag_sound _ _ _ _ H) eq_refl).
Defined.

(** ** Subtraction undone by addition *)

(** Taking a number away from a canonical word that is at least as large
    and adding it back restores the word: [Sub] reports no negative result,
    and the sum normalizes to the word started from. *)
Theorem Sub_then_Add_restores (a x : Value) :
  scaled x <= scaled a ->
  exists rem y,
    Sub (Normalized a) x = Ok (rem, false) /\ Add x rem = Ok y /\
    Normalized y = Normalized a.
Proof.
  intros Hle.
  assert (Hneg : forall rem neg,
             Sub (Normalized a) x = Ok (rem, neg) -> neg = false).
  { intros rem neg HS. destruct neg; [| reflexivity]. exfalso.
    pose proof (proj1 (Sub_flag_sound _ _ _ _ HS) eq_refl) as H.
    rewrite scaled_Normalized in H. lia. }
  destruct (Z.eq_dec (mant a) 0) as [Z1 | N1].
  - assert (Hsa : scaled a = 0) by (unfold scaled; rewrite Z1; reflexivity).
    pose proof (mant_range x) as Hx. pose proof (exp_range x) as Hex.
    rewrite minExponent_eq in *.
    pose proof (pow_10_pos (exp x + 127) ltac:(lia)) as HP.
    assert (Z2 : mant x = 0).
    { rewrite scaled_eq in Hle. nia. }
    rewrite (Normalized_zero a Z1).
    exists zero, zero. unfold Sub, Add, split. rewrite Z2.
    repeat split; reflexivity.
  - destruct (Normalized_nonzero a N1) as (ma & ea & HN & Hn & _).
    assert (Hsc : scaled a = ma * 10 ^ (ea - minExponent)).
    { rewrite <- scaled_Normalized, HN. destruct Hn as (Hm & He & _).
      apply scaled_fromMantAndExp; lia. }
    rewrite Hsc in Hle.
    destruct (Add_Sub_restores ma ea x Hn Hle)
      as (rem & neg & y & HS & HA & HY).
    rewrite HN. exists rem, y.
    rewrite <- HN in HS. rewrite (Hneg rem neg HS) in HS. rewrite HN in HS.
    split; [exact HS |]. split; [exact HA | exact HY].
Qed.

Lemma Sub_then_Add_restores_witness :
  scaled (FromMantAndExp 125 (-2)) <= scaled (FromUint64 7) /\
  exists rem y,
    Sub (Normalized (FromUint64 7)) (FromMantAndExp 125 (-2)) = Ok (rem, false)
    /\ Add (FromMantAndExp 125 (-2)) rem = Ok y /\
    Normalized y = Normalized (FromUint64 7).
Proof.
  assert (H : scaled (FromMantAndExp 125 (-2)) <= scaled (FromUint64 7))
    by (vm_compute; discriminate).
  split; [exact H |].
  exact (Sub_then_Add_restores (FromUint64 7) (FromMantAndExp 125 (-2)) H).
Defined.

(** ** A value divided by itself *)

(** Dividing a non-zero value by itself gives one with remainder [zero], at
    every precision, and [Div] gives one as well, without the float path. *)
Theorem DivMod_by_itself (float64Quo : Z -> Z -> Z -> Z -> Value)
    (a : Value) (p : Z) :
  mant a <> 0 ->
  DivMod a a p = Ok (FromUint64 1, zero) /\
  Div float64Quo a a = Ok (FromUint64 1).
Proof.
  intros N1.
  destruct (split_Normalized_nonzero a N1) as (m & e & Hs & Hn & _).
  destruct Hn as (Hm & He & _).
  assert (Hd : divMod (Normalized a) (Normalized a) = Ok (1, 0, 0)).
  { unfold divMod. rewrite Hs.
    destruct (m =? 0) eqn:E; [lia |].
    rewrite Z.sub_diag. change (i32 0) with 0.
    rewrite Z.mod_same by lia. change (0 =? 0) with true. cbv iota.
    rewrite Z.div_same by lia. reflexivity. }
  unfold DivMod, Div. rewrite Hd. cbn [bind].
  change (0 =? 0) with true. cbv iota.
  split; reflexivity.
Qed.

Lemma DivMod_by_itself_witness :
  mant (FromMantAndExp 15 (-1)) <> 0 /\
  DivMod (FromMantAndExp 15 (-1)) (FromMantAndExp 15 (-1)) 3
  = Ok (FromUint64 1, zero).
Proof.
  assert (H : mant (FromMantAndExp 15 (-1)) <> 0) by (vm_compute; discriminate).
  split; [exact H |].
  exact (proj1 (DivMod_by_itself (fun _ _ _ _ => zero)
                  (FromMantAndExp 15 (-1)) 3 H)).
Defined.

(** ** Floor, Round and Ceil *)

Lemma scaled_nonneg (v : Value) : 0 <= scaled v.
Proof.
  rewrite scaled_eq. pose proof (mant_range v). pose proof (exp_range v).
  rewrite minExponent_eq in *.
  pose proof (pow_10_pos (exp v + 127) ltac:(lia)). nia.
Qed.

Lemma adjustMantExp_word (v : Value) :
  isValue v -> mant v <> 0 -> adjustMantExp (mant v) (exp v) = v.
Proof.
  intros Hv N1. pose proof (mant_range v). pose proof (exp_range v).
  rewrite adjustMantExp_id by lia. apply fromMantAndExp_split. exact Hv.
Qed.

(** [Floor], [Round] and [Ceil] return for every word and every precision,
    negative ones included: no division inside [round] is by zero.  The
    result of [Floor] never exceeds the number it is given. *)
Theorem rounding_always_returns (v : Value) (p : Z) :
  exists f r c,
    Floor v p = Ok f /\ Round v p = Ok r /\ Ceil v p = Ok c /\
    scaled f <= scaled v.
Proof.
  pose proof (mant_range v) as Hm. pose proof (exp_range v) as He.
  rewrite minExponent_eq, maxExponent_eq, maxMantissa_eq in *.
  assert (Hn : 0 <= mant v < 10 ^ 19)
    by (change (10 ^ 19) with 10000000000000000000; lia).
  destruct (round_floor_num (mant v) (exp v) p Hn ltac:(lia))
    as (n1 & e1 & H1 & Hn1 & He1 & Hle).
  destruct (round_returns (mant v) (exp v) p modeRound Hn ltac:(lia))
    as (n2 & e2 & H2).
  destruct (round_returns (mant v) (exp v) p modeCeil Hn ltac:(lia))
    as (n3 & e3 & H3).
  exists (adjustMantExp n1 e1), (adjustMantExp n2 e2), (adjustMantExp n3 e3).
  unfold Floor, Round, Ceil, split. rewrite H1, H2, H3. cbn [bind].
  repeat split.
  pose proof (adjustMantExp_num n1 e1 ltac:(lia) ltac:(lia)) as Ha.
  rewrite num_scaled in Ha.
  assert (Hc : scaled (adjustMantExp n1 e1) * 10 ^ 873 <= scaled v * 10 ^ 873).
  { rewrite <- (num_scaled v). lia. }
  apply Z.mul_le_mono_pos_r in Hc; [exact Hc | apply pow_10_pos; lia].
Qed.

(** Rounding a 64-bit word [v] to [p] decimal places, where [0 <= p < 2^63]
    (a non-negative [int]), [p] is at least the number of decimal places of
    the word ([- exp v <= p]) and [p + exp v <= 2^63] (the difference
    [-exp - p] that [round] computes does not wrap; every [p] up to
    [2^63 - 128] qualifies), gives in all three modes the word itself when
    its mantissa is not zero, and [zero] when its mantissa is zero. *)
Theorem rounding_keeps_precise_value (v : Value) (p : Z) :
  isValue v -> 0 <= p < 2 ^ 63 -> - exp v <= p -> p + exp v <= 2 ^ 63 ->
  let w := if mant v =? 0 then zero else v in
  Floor v p = Ok w /\ Round v p = Ok w /\ Ceil v p = Ok w.
Proof.
  intros Hv Hp Hprec Hwrap w.
  pose proof (exp_range v) as He.
  rewrite minExponent_eq, maxExponent_eq in *.
  assert (Hr : forall mode, round (mant v) (exp v) p mode
                            = Ok (mant v, exp v)).
  { intros mode. unfold round. cbv zeta.
    destruct (p >=? 0) eqn:E; [| lia].
    rewrite (i64_small (- exp v - p)) by lia.
    unfold round_cut. destruct (- exp v - p <=? 0) eqn:E1; [reflexivity | lia]. }
  assert (Ha : adjustMantExp (mant v) (exp v) = w).
  { unfold w. destruct (mant v =? 0) eqn:E0.
    - apply Z.eqb_eq in E0. rewrite E0. apply adjustMantExp_zero.
    - apply Z.eqb_neq in E0. apply adjustMantExp_word; assumption. }
  unfold Floor, Round, Ceil, split. rewrite !Hr. cbn [bind].
  rewrite Ha. repeat split.
Qed.

(** 123.456 at three and at [2^63 - 1] places stays 123.456; a word with
    mantissa zero and exponent 5 becomes [zero]. *)
Lemma rounding_keeps_precise_value_witness :
  Floor (FromMantAndExp 123456 (-3)) 3 = Ok (FromMantAndExp 123456 (-3)) /\
  Ceil (FromMantAndExp 123456 (-3)) (2 ^ 63 - 1)
  = Ok (FromMantAndExp 123456 (-3)) /\
  Round (fromMantAndExp 0 5) 0 = Ok zero.
Proof.
  assert (H1 : isValue (FromMantAndExp 123456 (-3)))
    by (apply adjustMantExp_isValue).
  assert (H1' : isValue (fromMantAndExp 0 5))
    by (vm_compute; split; [discriminate | reflexivity]).
  assert (H3 : 0 <= 3 < 2 ^ 63)
    by (vm_compute; split; [discriminate | reflexivity]).
  assert (H5 : 0 <= 2 ^ 63 - 1 < 2 ^ 63)
    by (vm_compute; split; [discriminate | reflexivity]).
  assert (H0 : 0 <= 0 < 2 ^ 63)
    by (vm_compute; split; [discriminate | reflexivity]).
  assert (H4 : - exp (FromMantAndExp 123456 (-3)) <= 3)
    by (vm_compute; discriminate).
  assert (H6 : - exp (FromMantAndExp 123456 (-3)) <= 2 ^ 63 - 1)
    by (vm_compute; discriminate).
  assert (H7 : - exp (fromMantAndExp 0 5) <= 0)
    by (vm_compute; discriminate).
  assert (W3 : 3 + exp (FromMantAndExp 123456 (-3)) <= 2 ^ 63)
    by (vm_compute; discriminate).
  assert (W5 : 2 ^ 63 - 1 + exp (FromMantAndExp 123456 (-3)) <= 2 ^ 63)
    by (vm_compute; discriminate).
  assert (W0 : 0 + exp (fromMantAndExp 0 5) <= 2 ^ 63)
    by (vm_compute; discriminate).
  split; [| split].
  - exact (proj1 (rounding_keeps_precise_value _ 3 H1 H3 H4 W3)).
  - exact (proj2 (proj2 (rounding_keeps_precise_value _ _ H1 H5 H6 W5))).
  - exact (proj1 (proj2 (rounding_keeps_precise_value _ 0 H1' H0 H7 W0))).
Defined.

(** Past that bound the difference wraps: the word 5 * 10^2 at
    [p = 2^63 - 1] goes to [zero] under [Floor] and [Round] and to 10 under
    [Ceil]. *)
Example rounding_precision_wrap :
  let v := FromMantAndExp 5 2 in
  split v = (5, 2) /\
  Floor v (2 ^ 63 - 1) = Ok zero /\ Round v (2 ^ 63 - 1) = Ok zero /\
  Ceil v (2 ^ 63 - 1) = Ok (FromMantAndExp 1 1).
Proof. vm_compute. repeat split. Qed.

(** The cut of [round] in floor mode at a precision from 0 to 127. *)
Lemma round_floor_cut (n e p : Z) :
  0 <= n <= maxMantissa -> minExponent <= e <= maxExponent ->
  0 <= p <= 127 ->
  exists n' e',
    round n e p modeFloor = Ok (n', e') /\
    0 <= n' <= maxMantissa /\ minExponent <= e' <= maxExponent /\
    n' * 10 ^ (e' + 127)
    = (n * 10 ^ (e + 127)) / 10 ^ (127 - p) * 10 ^ (127 - p).
Proof.
  intros Hn He Hp.
  rewrite minExponent_eq, maxExponent_eq, maxMantissa_eq in *.
  pose proof (decimalDigits_mantissa n
                ltac:(rewrite maxMantissa_eq; lia)) as Hd.
  pose proof (pow_10_pos (127 - p) ltac:(lia)) as HU.
  unfold round. cbv zeta.
  destruct (p >=? 0) eqn:E; [| lia].
  rewrite (i64_small (- e - p)) by lia.
  unfold round_cut.
  destruct (- e - p <=? 0) eqn:E1.
  { exists n, e. split; [reflexivity |]. split; [lia |]. split; [lia |].
    replace (e + 127) with ((e + p) + (127 - p)) by lia.
    rewrite (pow_10_split (e + p) (127 - p)) by lia.
    rewrite Z.mul_assoc. rewrite Z.div_mul by lia. reflexivity. }
  set (c := if - e - p >? decimalDigits n then decimalDigits n else - e - p).
  assert (Hc : 1 <= c <= decimalDigits n /\ c <= - e - p).
  { unfold c. destruct (- e - p >? decimalDigits n) eqn:E2; lia. }
  rewrite pow10_eq by lia.
  pose proof (pow_10_pos c ltac:(lia)) as HP.
  unfold umod, udiv. destruct (10 ^ c =? 0) eqn:E2; [lia |]. cbn [bind].
  change (modeFloor =? modeRound) with false.
  change (modeFloor =? modeCeil) with false. cbv iota.
  rewrite (i64_small (e + c)) by lia. rewrite (i32_small (e + c)) by lia.
  assert (Hq : 0 <= n / 10 ^ c <= n).
  { split; [apply Z.div_pos; lia |].
    apply Z.div_le_upper_bound; [lia |].
    replace n with (1 * n) at 1 by lia.
    apply Z.mul_le_mono_nonneg_r; lia. }
  exists (n / 10 ^ c), (e + c).
  split; [reflexivity |]. split; [lia |]. split; [lia |].
  (* the number over the unit is the mantissa over [10 ^ (- e - p)] *)
  assert (HUe : 10 ^ (127 - p) = 10 ^ (- e - p) * 10 ^ (e + 127)).
  { rewrite <- pow_10_split by lia. f_equal. lia. }
  pose proof (pow_10_pos (e + 127) ltac:(lia)) as HE.
  pose proof (pow_10_pos (- e - p) ltac:(lia)) as HT.
  assert (Hquo : (n * 10 ^ (e + 127)) / 10 ^ (127 - p) = n / 10 ^ (- e - p)).
  { rewrite HUe. apply Z.div_mul_cancel_r; lia. }
  rewrite Hquo.
  destruct (Z.eq_dec c (- e - p)) as [Hce | Hne].
  - rewrite Hce. replace (e + (- e - p) + 127) with (127 - p) by lia.
    reflexivity.
  - assert (Hcd : c = decimalDigits n) by (unfold c in *; destruct (- e - p >? decimalDigits n); lia).
    assert (Hlt : n < 10 ^ c).
    { rewrite Hcd. destruct (Z.eq_dec n 0) as [-> | Hn0].
      - apply pow_10_pos. lia.
      - apply (decimalDigits_spec n). lia. }
    rewrite (Z.div_small n (10 ^ c)) by lia.
    rewrite (Z.div_small n (10 ^ (- e - p))).
    + reflexivity.
    + pose proof (pow_10_le c (- e - p) ltac:(lia)). lia.
Qed.

(** At a precision [p] from 0 to 127 [Floor] cuts the number to [p] decimal
    places: the result is the largest multiple of [10^-p] that does not
    exceed the number. *)
Theorem Floor_cuts_to_precision (v : Value) (p : Z) :
  0 <= p <= 127 ->
  exists f,
    Floor v p = Ok f /\
    scaled f = scaled v / 10 ^ (127 - p) * 10 ^ (127 - p) /\
    scaled f <= scaled v < scaled f + 10 ^ (127 - p).
Proof.
  intros Hp.
  pose proof (mant_range v) as Hm. pose proof (exp_range v) as He.
  destruct (round_floor_cut (mant v) (exp v) p Hm He Hp)
    as (n' & e' & Hr & Hn' & He' & Hval).
  rewrite <- scaled_eq in Hval.
  exists (adjustMantExp n' e').
  unfold Floor, split. rewrite Hr. cbn [bind].
  assert (Hs : scaled (adjustMantExp n' e') = n' * 10 ^ (e' + 127)).
  { destruct (Z.eq_dec n' 0) as [-> | Hn0].
    - rewrite adjustMantExp_zero. reflexivity.
    - rewrite adjustMantExp_id by lia.
      rewrite scaled_fromMantAndExp by lia. rewrite minExponent_eq.
      replace (e' - -127) with (e' + 127) by lia. reflexivity. }
  split; [reflexivity |]. rewrite Hs, Hval.
  split; [reflexivity |].
  pose proof (pow_10_pos (127 - p) ltac:(lia)) as HU.
  pose proof (Z.div_mod (scaled v) (10 ^ (127 - p)) ltac:(lia)) as Hdm.
  pose proof (Z.mod_pos_bound (scaled v) (10 ^ (127 - p)) HU) as Hmod.
  lia.
Qed.

Lemma Floor_cuts_to_precision_witness :
  0 <= 2 <= 127 /\
  Floor (FromMantAndExp 123456 (-3)) 2 = Ok (FromMantAndExp 12345 (-2)) /\
  exists f,
    Floor (FromMantAndExp 123456 (-3)) 2 = Ok f /\
    scaled f <= scaled (FromMantAndExp 123456 (-3)) < scaled f + 10 ^ (127 - 2).
Proof.
  assert (H : 0 <= 2 <= 127) by (split; discriminate).
  split; [exact H |]. split; [vm_compute; reflexivity |].
  destruct (Floor_cuts_to_precision (FromMantAndExp 123456 (-3)) 2 H)
    as (f & Hf & _ & Hb).
  exists f. split; [exact Hf | exact Hb].
Defined.

Lemma ceil_div (n T : Z) :
  0 <= n -> 0 < T ->
  (n + T - 1) / T = if n mod T =? 0 then n / T else n / T + 1.
Proof.
  intros Hn HT.
  pose proof (Z.div_mod n T ltac:(lia)) as Hdm.
  pose proof (Z.mod_pos_bound n T HT) as Hmod.
  destruct (n mod T =? 0) eqn:E.
  - symmetry. apply (Z.div_unique _ _ _ (T - 1)); lia.
  - symmetry. apply (Z.div_unique _ _ _ (n mod T - 1)); lia.
Qed.

(** The cut of [round] in ceiling mode at a precision from 0 to 127. *)
Lemma round_ceil_cut (n e p : Z) :
  0 < n <= maxMantissa -> minExponent <= e <= maxExponent ->
  0 <= p <= 127 ->
  exists n' e',
    round n e p modeCeil = Ok (n', e') /\
    0 < n' <= maxMantissa /\ minExponent <= e' <= maxExponent /\
    n' * 10 ^ (e' + 127)
    = (n * 10 ^ (e + 127) + 10 ^ (127 - p) - 1) / 10 ^ (127 - p)
      * 10 ^ (127 - p).
Proof.
  intros Hn He Hp.
  rewrite minExponent_eq, maxExponent_eq, maxMantissa_eq in *.
  pose proof (decimalDigits_mantissa n
                ltac:(rewrite maxMantissa_eq; lia)) as Hd.
  destruct (decimalDigits_spec n ltac:(lia)) as [_ Hdx].
  pose proof (pow_10_pos (127 - p) ltac:(lia)) as HU.
  pose proof (pow_10_pos (e + 127) ltac:(lia)) as HE.
  unfold round. cbv zeta.
  destruct (p >=? 0) eqn:E; [| lia].
  rewrite (i64_small (- e - p)) by lia.
  unfold round_cut.
  destruct (- e - p <=? 0) eqn:E1.
  { exists n, e. split; [reflexivity |]. split; [lia |]. split; [lia |].
    replace (e + 127) with ((e + p) + (127 - p)) by lia.
    rewrite (pow_10_split (e + p) (127 - p)) by lia.
    rewrite Z.mul_assoc.
    pose proof (pow_10_pos (e + p) ltac:(lia)) as HQ.
    assert (H0 : 0 <= n * 10 ^ (e + p) * 10 ^ (127 - p)).
    { apply Z.mul_nonneg_nonneg; [apply Z.mul_nonneg_nonneg |]; lia. }
    rewrite (ceil_div _ _ H0 HU).
    rewrite Z.mod_mul by lia. change (0 =? 0) with true. cbv iota.
    rewrite Z.div_mul by lia. reflexivity. }
  assert (HUe : 10 ^ (127 - p) = 10 ^ (- e - p) * 10 ^ (e + 127)).
  { rewrite <- pow_10_split by lia. f_equal. lia. }
  pose proof (pow_10_pos (- e - p) ltac:(lia)) as HT.
  (* the target, on the mantissa *)
  assert (Htarget :
            (n * 10 ^ (e + 127) + 10 ^ (127 - p) - 1) / 10 ^ (127 - p)
            = if n mod 10 ^ (- e - p) =? 0 then n / 10 ^ (- e - p)
              else n / 10 ^ (- e - p) + 1).
  { assert (H0 : 0 <= n * 10 ^ (e + 127))
      by (apply Z.mul_nonneg_nonneg; lia).
    rewrite (ceil_div _ _ H0 HU). rewrite HUe.
    rewrite Z.div_mul_cancel_r by lia.
    rewrite Z.mul_mod_distr_r by lia.
    destruct (n mod 10 ^ (- e - p) =? 0) eqn:E2.
    - apply Z.eqb_eq in E2. rewrite E2. reflexivity.
    - destruct (n mod 10 ^ (- e - p) * 10 ^ (e + 127) =? 0) eqn:E3;
        [| reflexivity].
      apply Z.eqb_eq in E3. apply Z.mul_eq_0 in E3. lia. }
  rewrite Htarget.
  set (c := if - e - p >? decimalDigits n then decimalDigits n else - e - p).
  assert (Hc : 1 <= c <= decimalDigits n /\ c <= - e - p).
  { unfold c. destruct (- e - p >? decimalDigits n) eqn:E2; lia. }
  rewrite pow10_eq by lia.
  pose proof (pow_10_pos c ltac:(lia)) as HP.
  unfold umod, udiv. destruct (10 ^ c =? 0) eqn:E2; [lia |]. cbn [bind].
  change (modeCeil =? modeRound) with false.
  change (modeCeil =? modeCeil) with true. cbv iota.
  rewrite (i64_small (e + c)) by lia. rewrite (i32_small (e + c)) by lia.
  pose proof (Z.div_mod n (10 ^ c) ltac:(lia)) as Hdm.
  pose proof (Z.mod_pos_bound n (10 ^ c) HP) as Hmod.
  assert (Hq : 0 <= n / 10 ^ c) by (apply Z.div_pos; lia).
  assert (HP10 : 10 <= 10 ^ c).
  { change 10 with (10 ^ 1) at 1. apply pow_10_le. lia. }
  assert (Hqle : n / 10 ^ c + 1 <= 72057594037927935) by nia.
  rewrite E. rewrite (i64_small (- p)) by lia. rewrite (i32_small (- p)) by lia.
  destruct (Z.eq_dec c (- e - p)) as [Hce | Hne].
  - rewrite <- Hce.
    replace (127 - p) with (e + c + 127) by lia.
    destruct (n mod 10 ^ c =? 0) eqn:Er; cbn [negb].
    + exists (n / 10 ^ c), (e + c). split; [reflexivity |].
      split; [nia |]. split; [lia | reflexivity].
    + destruct (n / 10 ^ c >? 0) eqn:En.
      * rewrite (u64_small (n / 10 ^ c + 1)) by lia.
        exists (n / 10 ^ c + 1), (e + c). split; [reflexivity |].
        split; [lia |]. split; [lia | reflexivity].
      * exists 1, (- p). split; [reflexivity |].
        split; [lia |]. split; [lia |].
        replace (n / 10 ^ c) with 0 by lia.
        replace (- p + 127) with (e + c + 127) by lia. reflexivity.
  - assert (Hcd : c = decimalDigits n)
      by (unfold c in *; destruct (- e - p >? decimalDigits n); lia).
    assert (Hlt : n < 10 ^ c) by (rewrite Hcd; lia).
    pose proof (pow_10_le c (- e - p) ltac:(lia)) as Hple.
    rewrite (Z.mod_small n (10 ^ c)) by lia.
    rewrite (Z.div_small n (10 ^ c)) by lia.
    rewrite (Z.mod_small n (10 ^ (- e - p))) by lia.
    rewrite (Z.div_small n (10 ^ (- e - p))) by lia.
    destruct (n =? 0) eqn:En; [lia |]. cbn [negb].
    change (0 >? 0) with false. cbv iota.
    exists 1, (- p). split; [reflexivity |].
    split; [lia |]. split; [lia |].
    replace (- p + 127) with (127 - p) by lia. reflexivity.
Qed.

(** At a precision [p] from 0 to 127 [Ceil] raises a non-zero number to [p]
    decimal places: the result is the smallest multiple of [10^-p] that is
    not below the number. *)
Theorem Ceil_raises_to_precision (v : Value) (p : Z) :
  mant v <> 0 -> 0 <= p <= 127 ->
  exists c,
    Ceil v p = Ok c /\
    scaled c
    = (scaled v + 10 ^ (127 - p) - 1) / 10 ^ (127 - p) * 10 ^ (127 - p) /\
    scaled v <= scaled c < scaled v + 10 ^ (127 - p).
Proof.
  intros N1 Hp.
  pose proof (mant_range v) as Hm. pose proof (exp_range v) as He.
  destruct (round_ceil_cut (mant v) (exp v) p ltac:(lia) He Hp)
    as (n' & e' & Hr & Hn' & He' & Hval).
  rewrite <- scaled_eq in Hval.
  exists (adjustMantExp n' e').
  unfold Ceil, split. rewrite Hr. cbn [bind].
  assert (Hs : scaled (adjustMantExp n' e') = n' * 10 ^ (e' + 127)).
  { rewrite adjustMantExp_id by lia.
    rewrite scaled_fromMantAndExp by lia. rewrite minExponent_eq.
    replace (e' - -127) with (e' + 127) by lia. reflexivity. }
  split; [reflexivity |]. rewrite Hs, Hval.
  split; [reflexivity |].
  pose proof (pow_10_pos (127 - p) ltac:(lia)) as HU.
  pose proof (scaled_nonneg v) as H0.
  rewrite (ceil_div _ _ H0 HU).
  pose proof (Z.div_mod (scaled v) (10 ^ (127 - p)) ltac:(lia)) as Hdm.
  pose proof (Z.mod_pos_bound (scaled v) (10 ^ (127 - p)) HU) as Hmod.
  destruct (scaled v mod 10 ^ (127 - p) =? 0) eqn:E; lia.
Qed.

Lemma Ceil_raises_to_precision_witness :
  mant (FromMantAndExp 123456 (-3)) <> 0 /\ 0 <= 2 <= 127 /\
  Ceil (FromMantAndExp 123456 (-3)) 2 = Ok (FromMantAndExp 12346 (-2)) /\
  exists c,
    Ceil (FromMantAndExp 123456 (-3)) 2 = Ok c /\
    scaled (FromMantAndExp 123456 (-3)) <= scaled c
    < scaled (FromMantAndExp 123456 (-3)) + 10 ^ (127 - 2).
Proof.
  assert (H1 : mant (FromMantAndExp 123456 (-3)) <> 0)
    by (vm_compute; discriminate).
  assert (H : 0 <= 2 <= 127) by (split; discriminate).
  split; [exact H1 |]. split; [exact H |]. split; [vm_compute; reflexivity |].
  destruct (Ceil_raises_to_precision (FromMantAndExp 123456 (-3)) 2 H1 H)
    as (c & Hc & _ & Hb).
  exists c. split; [exact Hc | exact Hb].
Defined.

(** The cut of [round] in rounding mode at a precision from 0 to 127, when
    the digits to cut are digits the mantissa has. *)
Lemma round_nearest_cut (n e p : Z) :
  0 <= n <= maxMantissa -> minExponent <= e <= maxExponent ->
  0 <= p <= 127 -> - e - p <= decimalDigits n ->
  exists n' e',
    round n e p modeRound = Ok (n', e') /\
    0 <= n' <= maxMantissa /\ minExponent <= e' <= maxExponent /\
    exists k,
      n' * 10 ^ (e' + 127) = k * 10 ^ (127 - p) /\
      - 10 ^ (127 - p)
      <= 2 * (n' * 10 ^ (e' + 127) - n * 10 ^ (e + 127))
      < 10 ^ (127 - p).
Proof.
  intros Hn He Hp Hcut.
  rewrite minExponent_eq, maxExponent_eq, maxMantissa_eq in *.
  pose proof (decimalDigits_mantissa n
                ltac:(rewrite maxMantissa_eq; lia)) as Hd.
  pose proof (pow_10_pos (127 - p) ltac:(lia)) as HU.
  pose proof (pow_10_pos (e + 127) ltac:(lia)) as HE.
  unfold round. cbv zeta.
  destruct (p >=? 0) eqn:E; [| lia].
  rewrite (i64_small (- e - p)) by lia.
  unfold round_cut.
  destruct (- e - p <=? 0) eqn:E1.
  { exists n, e. split; [reflexivity |]. split; [lia |]. split; [lia |].
    exists (n * 10 ^ (e + p)).
    split; [| lia].
    rewrite <- Z.mul_assoc, <- pow_10_split by lia.
    f_equal. f_equal. lia. }
  set (c := - e - p) in *.
  destruct (c >? decimalDigits n) eqn:E2; [lia |].
  assert (Hc : 1 <= c <= 17) by lia.
  rewrite pow10_eq by lia.
  pose proof (pow_10_pos c ltac:(lia)) as HP.
  unfold umod, udiv. destruct (10 ^ c =? 0) eqn:E3; [lia |]. cbn [bind].
  change (modeRound =? modeRound) with true. cbv iota.
  rewrite (i64_small (e + c)) by lia. rewrite (i32_small (e + c)) by lia.
  pose proof (Z.div_mod n (10 ^ c) ltac:(lia)) as Hdm.
  pose proof (Z.mod_pos_bound n (10 ^ c) HP) as Hmod.
  assert (Hq : 0 <= n / 10 ^ c) by (apply Z.div_pos; lia).
  assert (HP10 : 10 ^ c = 10 * 10 ^ (c - 1)).
  { replace c with (1 + (c - 1)) at 1 by lia.
    rewrite (pow_10_split 1 (c - 1)) by lia. reflexivity. }
  pose proof (pow_10_pos (c - 1) ltac:(lia)) as HP1.
  assert (Hhalf : 10 ^ c / 2 = 5 * 10 ^ (c - 1)).
  { rewrite HP10. replace (10 * 10 ^ (c - 1)) with (5 * 10 ^ (c - 1) * 2) by ring.
    apply Z.div_mul. lia. }
  assert (Hqle : n / 10 ^ c + 1 <= 72057594037927935) by nia.
  assert (HUe : 10 ^ (127 - p) = 10 ^ c * 10 ^ (e + 127)).
  { rewrite <- pow_10_split by lia. f_equal. unfold c. lia. }
  assert (Hexp : e + c + 127 = 127 - p) by (unfold c; lia).
  set (q := n / 10 ^ c) in *. set (r := n mod 10 ^ c) in *.
  rewrite Hhalf.
  destruct (r >? 5 * 10 ^ (c - 1)) eqn:E4.
  - rewrite (u64_small (q + 1)) by lia.
    exists (q + 1), (e + c). split; [reflexivity |].
    split; [lia |]. split; [lia |].
    exists (q + 1). rewrite Hexp. split; [reflexivity |].
    rewrite HUe.
    replace ((q + 1) * (10 ^ c * 10 ^ (e + 127)) - n * 10 ^ (e + 127))
      with ((10 ^ c - r) * 10 ^ (e + 127)) by (rewrite Hdm at 1; ring).
    split.
    + apply Z.le_trans with 0; [| nia ].
      assert (0 <= 10 ^ c * 10 ^ (e + 127)) by nia. lia.
    + rewrite Z.mul_assoc. apply Z.mul_lt_mono_pos_r; [exact HE |]. lia.
  - exists q, (e + c). split; [reflexivity |].
    split; [nia |]. split; [lia |].
    exists q. rewrite Hexp. split; [reflexivity |].
    rewrite HUe.
    replace (q * (10 ^ c * 10 ^ (e + 127)) - n * 10 ^ (e + 127))
      with (- r * 10 ^ (e + 127)) by (rewrite Hdm at 1; ring).
    split.
    + rewrite Z.mul_assoc, <- Z.mul_opp_l.
      apply Z.mul_le_mono_nonneg_r; lia.
    + apply Z.le_lt_trans with 0; [nia |].
      apply Z.mul_pos_pos; lia.
Qed.

(** At a precision [p] from 0 to 127 that cuts no more digits than the
    mantissa has, [Round] gives the multiple of [10^-p] nearest to the
    number, and the lower one of the two when the number is half-way. *)
Theorem Round_to_nearest_half_down (v : Value) (p : Z) :
  0 <= p <= 127 -> - exp v - p <= decimalDigits (mant v) ->
  exists r k,
    Round v p = Ok r /\
    scaled r = k * 10 ^ (127 - p) /\
    - 10 ^ (127 - p) <= 2 * (scaled r - scaled v) < 10 ^ (127 - p).
Proof.
  intros Hp Hcut.
  pose proof (mant_range v) as Hm. pose proof (exp_range v) as He.
  destruct (round_nearest_cut (mant v) (exp v) p Hm He Hp Hcut)
    as (n' & e' & Hr & Hn' & He' & k & Hk & Hb).
  rewrite <- scaled_eq in Hb.
  exists (adjustMantExp n' e'), k.
  unfold Round, split. rewrite Hr. cbn [bind].
  assert (Hs : scaled (adjustMantExp n' e') = n' * 10 ^ (e' + 127)).
  { destruct (Z.eq_dec n' 0) as [-> | Hn0].
    - rewrite adjustMantExp_zero. reflexivity.
    - rewrite adjustMantExp_id by lia.
      rewrite scaled_fromMantAndExp by lia. rewrite minExponent_eq.
      replace (e' - -127) with (e' + 127) by lia. reflexivity. }
  split; [reflexivity |]. rewrite Hs. split; [exact Hk | exact Hb].
Qed.

Lemma Round_to_nearest_half_down_witness :
  0 <= 2 <= 127 /\
  Round (FromMantAndExp 123456 (-3)) 2 = Ok (FromMantAndExp 12346 (-2)) /\
  Round (FromMantAndExp 5 (-1)) 0 = Ok zero /\
  exists r k,
    Round (FromMantAndExp 5 (-1)) 0 = Ok r /\
    scaled r = k * 10 ^ (127 - 0).
Proof.
  assert (H : 0 <= 0 <= 127) by (split; discriminate).
  assert (H2 : 0 <= 2 <= 127) by (split; discriminate).
  assert (Hc : - exp (FromMantAndExp 5 (-1)) - 0
               <= decimalDigits (mant (FromMantAndExp 5 (-1))))
    by (vm_compute; discriminate).
  split; [exact H2 |]. split; [vm_compute; reflexivity |].
  split; [vm_compute; reflexivity |].
  destruct (Round_to_nearest_half_down (FromMantAndExp 5 (-1)) 0 H Hc)
    as (r & k & Hr & Hk & _).
  exists r, k. split; [exact Hr | exact Hk].
Defined.

(** Below that range [Round] leaves the grid of the precision: a number
    under a tenth of the unit [10^-p] whose leading digits exceed one half
    is rounded up to the next power of ten of its own size, as 0.06 at
    precision 0 becomes 0.1. *)
Theorem Round_small_number_leaves_grid (v : Value) (p : Z) :
  mant v <> 0 -> 0 <= p <= 127 ->
  decimalDigits (mant v) < - exp v - p ->
  5 * 10 ^ (decimalDigits (mant v) - 1) < mant v ->
  Round v p = Ok (FromMantAndExp 1 (exp v + decimalDigits (mant v))) /\
  exp v + decimalDigits (mant v) < - p.
Proof.
  intros N1 Hp Hcut Hbig.
  pose proof (mant_range v) as Hm. pose proof (exp_range v) as He.
  rewrite minExponent_eq, maxExponent_eq, maxMantissa_eq in *.
  set (n := mant v) in *. set (e := exp v) in *.
  pose proof (decimalDigits_mantissa n
                ltac:(rewrite maxMantissa_eq; lia)) as Hd.
  destruct (decimalDigits_spec n ltac:(lia)) as [_ Hdx].
  set (c := decimalDigits n) in *.
  split; [| lia].
  unfold Round, split. fold n e. unfold round. cbv zeta.
  destruct (p >=? 0) eqn:E; [| lia].
  rewrite (i64_small (- e - p)) by lia.
  unfold round_cut.
  destruct (- e - p <=? 0) eqn:E1; [lia |].
  fold c. destruct (- e - p >? c) eqn:E2; [| lia].
  rewrite pow10_eq by lia.
  pose proof (pow_10_pos c ltac:(lia)) as HP.
  unfold umod, udiv. destruct (10 ^ c =? 0) eqn:E3; [lia |]. cbn [bind].
  change (modeRound =? modeRound) with true. cbv iota.
  rewrite (i64_small (e + c)) by lia. rewrite (i32_small (e + c)) by lia.
  rewrite (Z.mod_small n (10 ^ c)) by lia.
  rewrite (Z.div_small n (10 ^ c)) by lia.
  assert (HP10 : 10 ^ c = 10 * 10 ^ (c - 1)).
  { replace c with (1 + (c - 1)) at 1 by lia.
    rewrite (pow_10_split 1 (c - 1)) by lia. reflexivity. }
  assert (Hhalf : 10 ^ c / 2 = 5 * 10 ^ (c - 1)).
  { rewrite HP10. replace (10 * 10 ^ (c - 1)) with (5 * 10 ^ (c - 1) * 2) by ring.
    apply Z.div_mul. lia. }
  rewrite Hhalf.
  destruct (n >? 5 * 10 ^ (c - 1)) eqn:E4; [| lia].
  change (u64 (0 + 1)) with 1. unfold FromMantAndExp. reflexivity.
Qed.

Lemma Round_small_number_leaves_grid_witness :
  mant (FromMantAndExp 6 (-2)) <> 0 /\
  Round (FromMantAndExp 6 (-2)) 0 = Ok (FromMantAndExp 1 (-1)).
Proof.
  assert (H1 : mant (FromMantAndExp 6 (-2)) <> 0) by (vm_compute; discriminate).
  assert (H2 : 0 <= 0 <= 127) by (split; discriminate).
  assert (H3 : decimalDigits (mant (FromMantAndExp 6 (-2)))
               < - exp (FromMantAndExp 6 (-2)) - 0) by (vm_compute; reflexivity).
  assert (H4 : 5 * 10 ^ (decimalDigits (mant (FromMantAndExp 6 (-2))) - 1)
               < mant (FromMantAndExp 6 (-2))) by (vm_compute; reflexivity).
  split; [exact H1 |].
  exact (proj1 (Round_small_number_leaves_grid _ 0 H1 H2 H3 H4)).
Defined.

(** ** Change of exponent *)

Lemma scaled_word (m e : Z) :
  0 <= m <= maxMantissa -> minExponent <= e <= maxExponent ->
  scaled (fromMantAndExp m e) = m * 10 ^ (e + 127).
Proof.
  intros Hm He. rewrite scaled_fromMantAndExp by assumption.
  rewrite minExponent_eq. replace (e - -127) with (e + 127) by lia.
  reflexivity.
Qed.

(** [ToExp] on a non-zero word and a target exponent in range: the result
    has the target exponent and never stands for more than the word did.
    Raising the exponent cuts the number to a multiple of the new unit;
    lowering it keeps the number when the longer mantissa fits, and
    otherwise stores [maxMantissa], or a zero mantissa when the exponent is
    lowered by more than 19. *)
Theorem ToExp_in_range (v : Value) (target : Z) :
  mant v <> 0 -> minExponent <= target <= maxExponent ->
  exists w,
    ToExp v target = Ok w /\
    exp w = target /\
    scaled w <= scaled v /\
    (exp v <= target ->
     scaled w = scaled v / 10 ^ (target + 127) * 10 ^ (target + 127)) /\
    (target <= exp v ->
     mant v * 10 ^ (exp v - target) <= maxMantissa -> scaled w = scaled v) /\
    (target < exp v -> maxMantissa < mant v * 10 ^ (exp v - target) ->
     mant w = if exp v - target <=? 19 then maxMantissa else 0).
Proof.
  intros N1 Ht.
  pose proof (mant_range v) as Hm. pose proof (exp_range v) as He.
  pose proof (scaled_eq v) as Hsv.
  rewrite minExponent_eq, maxExponent_eq, maxMantissa_eq in *.
  unfold ToExp. rewrite minExponent_eq, maxExponent_eq, maxMantissa_eq.
  destruct (target >? 128) eqn:E1; [lia |].
  destruct (target <? -127) eqn:E2; [lia |].
  unfold split. set (m := mant v) in *. set (e := exp v) in *.
  rewrite (i32_small (e - target)) by lia.
  pose proof (pow_10_pos (target + 127) ltac:(lia)) as HT.
  pose proof (pow_10_pos (e + 127) ltac:(lia)) as HE.
  destruct (e - target =? 0) eqn:E3.
  { assert (e = target) by lia. exists v.
    split; [reflexivity |]. split; [assumption |].
    split; [lia |]. rewrite Hsv. replace target with e by lia.
    split; [intros _; rewrite Z.div_mul by lia; reflexivity |].
    split; [intros _ _; reflexivity | intros; lia]. }
  destruct (Z_lt_ge_dec 0 (e - target)) as [Hpos | Hneg].
  - (* the exponent is lowered *)
    set (d := e - target) in *.
    rewrite abs_nonneg by lia.
    assert (Hunit : 10 ^ (e + 127) = 10 ^ d * 10 ^ (target + 127)).
    { rewrite <- pow_10_split by lia. f_equal. unfold d. lia. }
    destruct (Z_le_gt_dec d 19) as [H19 | H19].
    + rewrite pow10_eq by lia.
      pose proof (pow_10_pos d ltac:(lia)) as HD.
      destruct (10 ^ d =? 0) eqn:E4; [lia |].
      destruct (d >? 0) eqn:E5; [| lia].
      unfold udiv. destruct (m =? 0) eqn:E6; [lia |]. cbn [bind].
      destruct (72057594037927935 / m <? 10 ^ d) eqn:E7.
      * assert (Hover : 72057594037927935 < m * 10 ^ d).
        { apply Z.ltb_lt in E7.
          pose proof (Z.div_mod 72057594037927935 m ltac:(lia)).
          pose proof (Z.mod_pos_bound 72057594037927935 m ltac:(lia)).
          nia. }
        exists (fromMantAndExp 72057594037927935 target).
        destruct (split_word 72057594037927935 target
                    ltac:(rewrite maxMantissa_eq; lia)
                    ltac:(rewrite minExponent_eq, maxExponent_eq; lia))
          as [Wm We].
        split; [reflexivity |]. split; [exact We |].
        rewrite scaled_word
          by (rewrite ?maxMantissa_eq, ?minExponent_eq, ?maxExponent_eq; lia).
        rewrite Hsv, Hunit, Z.mul_assoc.
        split; [apply Z.mul_le_mono_nonneg_r; lia |].
        split; [intros; lia |].
        split; [intros; lia |].
        intros _ _. rewrite Wm.
        destruct (d <=? 19) eqn:E8; [reflexivity | lia].
      * assert (Hfit : m * 10 ^ d <= 72057594037927935).
        { apply Z.ltb_ge in E7.
          pose proof (Z.div_mod 72057594037927935 m ltac:(lia)).
          pose proof (Z.mod_pos_bound 72057594037927935 m ltac:(lia)).
          nia. }
        assert (0 < m * 10 ^ d) by (apply Z.mul_pos_pos; lia).
        rewrite (u64_small (m * 10 ^ d)) by lia.
        exists (fromMantAndExp (m * 10 ^ d) target).
        destruct (split_word (m * 10 ^ d) target
                    ltac:(rewrite maxMantissa_eq; lia)
                    ltac:(rewrite minExponent_eq, maxExponent_eq; lia))
          as [Wm We].
        split; [reflexivity |]. split; [exact We |].
        rewrite scaled_word
          by (rewrite ?maxMantissa_eq, ?minExponent_eq, ?maxExponent_eq; lia).
        rewrite Hsv, Hunit, Z.mul_assoc.
        split; [lia |]. split; [intros; lia |].
        split; [intros; reflexivity | intros; lia].
    + rewrite pow10_out by lia. change (0 =? 0) with true. cbv iota.
      exists (fromMantAndExp 0 target).
      destruct (split_word 0 target
                  ltac:(rewrite maxMantissa_eq; lia)
                  ltac:(rewrite minExponent_eq, maxExponent_eq; lia))
        as [Wm We].
      split; [reflexivity |]. split; [exact We |].
      rewrite scaled_word
        by (rewrite ?maxMantissa_eq, ?minExponent_eq, ?maxExponent_eq; lia).
      rewrite Hsv, Z.mul_0_l.
      split; [nia |]. split; [intros; lia |].
      split.
      * intros _ Hfit. exfalso.
        pose proof (pow_10_le 20 d ltac:(lia)) as Hp.
        change (10 ^ 20) with 100000000000000000000 in Hp. nia.
      * intros _ _. rewrite Wm.
        destruct (d <=? 19) eqn:E8; [lia | reflexivity].
  - (* the exponent is raised *)
    set (d := target - e) in *.
    assert (Hd : 0 < d) by (unfold d; lia).
    rewrite abs_neg by lia. replace (- (e - target)) with d by (unfold d; lia).
    assert (Hunit : 10 ^ (target + 127) = 10 ^ d * 10 ^ (e + 127)).
    { rewrite <- pow_10_split by lia. f_equal. unfold d. lia. }
    pose proof (pow_10_pos d ltac:(lia)) as HD.
    assert (Hquo : scaled v / 10 ^ (target + 127) = m / 10 ^ d).
    { rewrite Hsv, Hunit. apply Z.div_mul_cancel_r; lia. }
    assert (Hq : 0 <= m / 10 ^ d <= m).
    { split; [apply Z.div_pos; lia |].
      apply Z.div_le_upper_bound; [lia |]. nia. }
    pose proof (Z.mul_div_le (scaled v) (10 ^ (target + 127)) HT) as Hfl.
    destruct (Z_le_gt_dec d 19) as [H19 | H19].
    + rewrite pow10_eq by lia.
      destruct (10 ^ d =? 0) eqn:E4; [lia |].
      destruct (e - target >? 0) eqn:E5; [lia |].
      unfold udiv. rewrite E4. cbn [bind].
      exists (fromMantAndExp (m / 10 ^ d) target).
      destruct (split_word (m / 10 ^ d) target
                  ltac:(rewrite maxMantissa_eq; lia)
                  ltac:(rewrite minExponent_eq, maxExponent_eq; lia))
        as [Wm We].
      split; [reflexivity |]. split; [exact We |].
      rewrite scaled_word
        by (rewrite ?maxMantissa_eq, ?minExponent_eq, ?maxExponent_eq; lia).
      rewrite Hquo in *.
      split; [lia |]. split; [intros; reflexivity |].
      split; [intros; lia | intros; lia].
    + rewrite pow10_out by lia. change (0 =? 0) with true. cbv iota.
      exists (fromMantAndExp 0 target).
      destruct (split_word 0 target
                  ltac:(rewrite maxMantissa_eq; lia)
                  ltac:(rewrite minExponent_eq, maxExponent_eq; lia))
        as [Wm We].
      split; [reflexivity |]. split; [exact We |].
      rewrite scaled_word
        by (rewrite ?maxMantissa_eq, ?minExponent_eq, ?maxExponent_eq; lia).
      rewrite Hquo in *.
      assert (Hz : m / 10 ^ d = 0).
      { apply Z.div_small.
        pose proof (pow_10_le 20 d ltac:(lia)) as Hp.
        change (10 ^ 20) with 100000000000000000000 in Hp. lia. }
      rewrite Hz.
      split; [lia |]. split; [intros; reflexivity |].
      split; [intros; lia | intros; lia].
Qed.

Lemma ToExp_in_range_witness :
  mant (FromMantAndExp 123456 (-3)) <> 0 /\
  minExponent <= -1 <= maxExponent /\
  ToExp (FromMantAndExp 123456 (-3)) (-1) = Ok (fromMantAndExp 1234 (-1)) /\
  exists w, ToExp (FromMantAndExp 123456 (-3)) (-1) = Ok w /\
            scaled w <= scaled (FromMantAndExp 123456 (-3)).
Proof.
  assert (H1 : mant (FromMantAndExp 123456 (-3)) <> 0)
    by (vm_compute; discriminate).
  assert (H2 : minExponent <= -1 <= maxExponent)
    by (vm_compute; split; discriminate).
  split; [exact H1 |]. split; [exact H2 |]. split; [vm_compute; reflexivity |].
  destruct (ToExp_in_range (FromMantAndExp 123456 (-3)) (-1) H1 H2)
    as (w & Hw & _ & Hle & _).
  exists w. split; [exact Hw | exact Hle].
Defined.

(** A target exponent outside the range is answered without looking at the
    word: [Max] above the range, a zero mantissa with the smallest exponent
    below it. *)
Theorem ToExp_out_of_range (v : Value) (target : Z) :
  (maxExponent < target -> ToExp v target = Ok Max) /\
  (target < minExponent -> ToExp v target = Ok zero).
Proof.
  unfold ToExp. rewrite minExponent_eq, maxExponent_eq. split; intros H.
  - destruct (target >? 128) eqn:E; [reflexivity | lia].
  - destruct (target >? 128) eqn:E; [lia |].
    destruct (target <? -127) eqn:E1; [reflexivity | lia].
Qed.



(** ** Where Ceil at a negative precision answers below its argument *)

Lemma Cmp_zero_below (v : Value) : mant v <> 0 -> Cmp zero v = -1.
Proof.
  intros Hv. rewrite Cmp_sgn. change (scaled zero) with 0.
  pose proof (mant_range v) as Hm. pose proof (exp_range v) as He.
  rewrite minExponent_eq in He.
  assert (Hs : 0 < scaled v).
  { rewrite scaled_eq.
    pose proof (pow_10_pos (exp v + 127) ltac:(lia)). nia. }
  apply Z.sgn_neg. lia.
Qed.

(** Too few digits before the point: [round] in ceiling mode answers with a
    zero mantissa at any negative precision. *)
Lemma round_ceil_neg_low (m e p : Z) :
  0 < m <= maxMantissa -> minExponent <= e <= maxExponent ->
  - 2 ^ 63 < p < 0 ->
  (if e <? 0 then m / 10 ^ (- e) else m) < 10 ^ (- p) ->
  exists e', round m e p modeCeil = Ok (0, e').
Proof.
  intros Hm He Hp Hlow.
  rewrite minExponent_eq, maxExponent_eq, maxMantissa_eq in *.
  destruct (decimalDigits_spec m ltac:(lia)) as [Hd Hdx].
  pose proof (decimalDigits_mantissa m ltac:(rewrite maxMantissa_eq; lia))
    as H17.
  remember (- p) as c eqn:Ec.
  assert (Hc0 : 0 < c < 2 ^ 63) by lia.
  unfold round. cbv zeta.
  destruct (p >=? 0) eqn:Ep; [lia |].
  rewrite <- Ec. rewrite (i64_small c) by lia.
  change (modeCeil =? modeCeil) with true.
  destruct (e <? 0) eqn:Ee.
  - remember (- e) as k eqn:Ek.
    assert (Hk0 : 0 < k <= 127) by lia.
    rewrite (i64_small (decimalDigits m + e)) by lia.
    destruct (decimalDigits m + e <=? 0) eqn:Edd.
    { rewrite andb_false_r. exists 0. reflexivity. }
    assert (Hkd : k < decimalDigits m) by lia.
    pose proof (pow_10_pos k ltac:(lia)) as HK.
    rewrite (i64_small k) by lia.
    rewrite (pow10_eq k) by lia.
    unfold udiv at 1. destruct (10 ^ k =? 0) eqn:E1; [lia |].
    cbn [bind].
    remember (m / 10 ^ k) as w eqn:Ew.
    remember (decimalDigits m + e) as d' eqn:Ed'.
    assert (Hw1 : 1 <= w).
    { rewrite Ew. apply Z.div_le_lower_bound; [lia |].
      apply Z.le_trans with (10 ^ (decimalDigits m - 1)); [| lia].
      rewrite Z.mul_1_r. apply pow_10_le. lia. }
    assert (Hwd : w < 10 ^ d').
    { rewrite Ew. apply Z.div_lt_upper_bound; [lia |].
      rewrite <- Z.pow_add_r by lia.
      replace (k + d') with (decimalDigits m) by lia. lia. }
    unfold round_cut.
    destruct (c <=? 0) eqn:E2; [lia |].
    remember (if c >? d' then d' else c) as c' eqn:Ec'.
    assert (Hc' : 1 <= c' <= 17 /\ w < 10 ^ c').
    { rewrite Ec'. destruct (c >? d') eqn:E3; split; try lia; assumption. }
    destruct Hc' as [Hc' Hwc].
    rewrite (pow10_eq c') by lia.
    pose proof (pow_10_pos c' ltac:(lia)) as HP.
    unfold umod, udiv. destruct (10 ^ c' =? 0) eqn:E4; [lia |].
    cbn [bind].
    rewrite (Z.mod_small w (10 ^ c')) by lia.
    rewrite (Z.div_small w (10 ^ c')) by lia.
    change (modeCeil =? modeRound) with false.
    change (modeCeil =? modeCeil) with true. cbv iota.
    destruct (w =? 0) eqn:E5; [lia |]. cbn [negb].
    change (0 >? 0) with false. cbv iota. rewrite Ep.
    eexists. reflexivity.
  - unfold round_cut.
    destruct (c <=? 0) eqn:E2; [lia |].
    remember (if c >? decimalDigits m then decimalDigits m else c) as c'
      eqn:Ec'.
    assert (Hc' : 1 <= c' <= 17 /\ m < 10 ^ c').
    { rewrite Ec'. destruct (c >? decimalDigits m) eqn:E3; split; try lia;
        assumption. }
    destruct Hc' as [Hc' Hwc].
    rewrite (pow10_eq c') by lia.
    pose proof (pow_10_pos c' ltac:(lia)) as HP.
    unfold umod, udiv. destruct (10 ^ c' =? 0) eqn:E4; [lia |].
    cbn [bind].
    rewrite (Z.mod_small m (10 ^ c')) by lia.
    rewrite (Z.div_small m (10 ^ c')) by lia.
    change (modeCeil =? modeRound) with false.
    change (modeCeil =? modeCeil) with true. cbv iota.
    destruct (m =? 0) eqn:E5; [lia |]. cbn [negb].
    change (0 >? 0) with false. cbv iota. rewrite Ep.
    eexists. reflexivity.
Qed.

(** A fraction after the point and nothing to cut before it: [round] in
    ceiling mode drops the fraction and answers with the integer part. *)
Lemma round_ceil_neg_cut (m e p : Z) :
  0 < m <= maxMantissa -> minExponent <= e < 0 -> p < 0 ->
  10 ^ (- p) <= m / 10 ^ (- e) ->
  (m / 10 ^ (- e)) mod 10 ^ (- p) = 0 ->
  - p <= 16 /\ 0 < m / 10 ^ (- e) / 10 ^ (- p) <= maxMantissa /\
  m / 10 ^ (- e) / 10 ^ (- p) * 10 ^ (- p) = m / 10 ^ (- e) /\
  round m e p modeCeil = Ok (m / 10 ^ (- e) / 10 ^ (- p), - p).
Proof.
  intros Hm He Hp Hbig Hrem.
  rewrite minExponent_eq, maxMantissa_eq in *.
  destruct (decimalDigits_spec m ltac:(lia)) as [Hd Hdx].
  pose proof (decimalDigits_mantissa m ltac:(rewrite maxMantissa_eq; lia))
    as H17.
  remember (- p) as c eqn:Ec.
  assert (Hc0 : 0 < c) by lia.
  pose proof (pow_10_pos c ltac:(lia)) as HP.
  remember (- e) as k eqn:Ek.
  assert (Hk0 : 0 < k <= 127) by lia.
  pose proof (pow_10_pos k ltac:(lia)) as HK.
  pose proof (Z.div_mod m (10 ^ k) ltac:(lia)) as Hdm.
  pose proof (Z.mod_pos_bound m (10 ^ k) ltac:(lia)) as Hmod.
  remember (m / 10 ^ k) as w eqn:Ew.
  assert (Hck : c + k < decimalDigits m).
  { apply pow_10_lt_inv; try lia.
    rewrite Z.pow_add_r by lia.
    apply Z.le_lt_trans with m; [| lia]. nia. }
  assert (HP10 : 10 <= 10 ^ c).
  { change 10 with (10 ^ 1) at 1. apply pow_10_le. lia. }
  pose proof (Z.div_mod w (10 ^ c) ltac:(lia)) as Hdw.
  assert (Hq : 1 <= w / 10 ^ c).
  { apply Z.div_le_lower_bound; lia. }
  assert (Hwm : w <= m) by nia.
  assert (Hqw : w / 10 ^ c < w) by nia.
  split; [lia |]. split; [lia |]. split; [lia |].
  unfold round. cbv zeta.
  destruct (p >=? 0) eqn:Ep; [lia |].
  destruct (e <? 0) eqn:Ee; [| lia].
  rewrite <- Ec, <- Ek.
  rewrite (i64_small (decimalDigits m + e)) by lia.
  destruct (decimalDigits m + e <=? 0) eqn:Edd; [lia |].
  rewrite (i64_small k) by lia.
  rewrite (pow10_eq k) by lia.
  unfold udiv at 1. destruct (10 ^ k =? 0) eqn:E1; [lia |].
  rewrite <- Ew. cbn [bind].
  rewrite (i64_small c) by lia.
  unfold round_cut.
  destruct (c <=? 0) eqn:E2; [lia |].
  destruct (c >? decimalDigits m + e) eqn:E3; [lia |].
  rewrite pow10_eq by lia.
  unfold umod, udiv. destruct (10 ^ c =? 0) eqn:E4; [lia |].
  cbn [bind].
  rewrite (i64_small (0 + c)) by lia.
  rewrite (i32_small (0 + c)) by lia.
  change (modeCeil =? modeRound) with false.
  change (modeCeil =? modeCeil) with true. cbv iota.
  rewrite Hrem. change (0 =? 0) with true. cbn [negb]. reflexivity.
Qed.

(** The conditions of the amended C6 at a negative precision are exact:
    for [-2^63 < p < 0] and a non-zero mantissa, where they fail [Ceil]
    returns a value that compares below its argument. *)
Theorem Ceil_negative_below (v : Value) (p : Z) :
  mant v <> 0 -> - 2 ^ 63 < p < 0 ->
  ~ (10 ^ (- p) <= wholeDigits v /\
     (fracDigits v = 0 \/ wholeDigits v mod 10 ^ (- p) <> 0)) ->
  exists c, Ceil v p = Ok c /\ Cmp c v = -1.
Proof.
  intros Hv Hp Hnot.
  pose proof (mant_range v) as Hm. pose proof (exp_range v) as He.
  destruct (Z_lt_le_dec (wholeDigits v) (10 ^ (- p))) as [Hlow | Hbig].
  - destruct (round_ceil_neg_low (mant v) (exp v) p ltac:(lia) He Hp Hlow)
      as (e' & Hr).
    unfold Ceil, split. rewrite Hr. cbn [bind].
    exists zero. rewrite adjustMantExp_zero.
    split; [reflexivity | apply Cmp_zero_below; exact Hv].
  - assert (Hf : fracDigits v <> 0) by tauto.
    assert (Hrem : wholeDigits v mod 10 ^ (- p) = 0).
    { destruct (Z.eq_dec (wholeDigits v mod 10 ^ (- p)) 0) as [H0 | H0];
        [exact H0 | tauto]. }
    unfold wholeDigits, fracDigits in *.
    destruct (exp v <? 0) eqn:Ee; [| congruence].
    destruct (round_ceil_neg_cut (mant v) (exp v) p ltac:(lia) ltac:(lia)
                ltac:(lia) Hbig Hrem) as (Hc & Hq & Hmul & Hr).
    unfold Ceil, split. rewrite Hr. cbn [bind].
    eexists. split; [reflexivity |].
    rewrite minExponent_eq, maxExponent_eq in *.
    rewrite adjustMantExp_id
      by (rewrite ?minExponent_eq, ?maxExponent_eq; lia).
    rewrite Cmp_sgn.
    rewrite scaled_word by (rewrite ?minExponent_eq, ?maxExponent_eq; lia).
    rewrite (scaled_eq v).
    apply Z.sgn_neg.
    remember (- exp v) as k eqn:Ek.
    remember (- p) as c eqn:Ec.
    pose proof (pow_10_pos k ltac:(lia)) as HK.
    pose proof (Z.div_mod (mant v) (10 ^ k) ltac:(lia)) as Hdm.
    pose proof (Z.mod_pos_bound (mant v) (10 ^ k) ltac:(lia)) as Hmod.
    assert (H1 : 10 ^ (c + 127) = 10 ^ c * 10 ^ 127)
      by (apply Z.pow_add_r; lia).
    assert (H2 : 10 ^ 127 = 10 ^ k * 10 ^ (exp v + 127)).
    { rewrite <- Z.pow_add_r by lia. f_equal. lia. }
    pose proof (pow_10_pos (exp v + 127) ltac:(lia)) as HA.
    rewrite H1, Z.mul_assoc, Hmul, H2, Z.mul_assoc.
    apply Z.lt_sub_0. apply Z.mul_lt_mono_pos_r; [exact HA |]. lia.
Qed.

(** ** Signed values *)

Lemma IsZero_scaled (v : Value) : IsZero v = true <-> scaled v = 0.
Proof.
  unfold IsZero. rewrite Z.eqb_eq, scaled_eq.
  pose proof (exp_range v). rewrite minExponent_eq in *.
  pose proof (pow_10_pos (exp v + 127) ltac:(lia)).
  split; [intros ->; reflexivity | nia].
Qed.

Lemma IsZero_false_scaled (v : Value) : IsZero v = false <-> 0 < scaled v.
Proof.
  pose proof (IsZero_scaled v) as H. pose proof (scaled_nonneg v) as Hn.
  destruct (IsZero v).
  - split; [discriminate |]. intros Hpos.
    assert (scaled v = 0) by (apply H; reflexivity). lia.
  - split; [| reflexivity]. intros _.
    destruct (Z.eq_dec (scaled v) 0) as [e0 | n0]; [| lia].
    apply H in e0. discriminate.
Qed.

Lemma Signed_Sign_sgn (s : Signed) : Signed_Sign s = Z.sgn (signedScaled s).
Proof.
  unfold Signed_Sign, signedScaled.
  destruct (IsZero (V s)) eqn:E.
  - apply IsZero_scaled in E. rewrite E. destruct (Neg s); reflexivity.
  - apply IsZero_false_scaled in E.
    destruct (Neg s); symmetry; [apply Z.sgn_neg | apply Z.sgn_pos]; lia.
Qed.

Lemma signed_cmp_arith (na nb : bool) (a b : Z) :
  0 <= a -> 0 <= b ->
  (if Z.sgn (if na then - a else a) >? Z.sgn (if nb then - b else b) then 1
   else if Z.sgn (if na then - a else a) <? Z.sgn (if nb then - b else b)
        then -1
        else i64 (Z.sgn (a - b) * Z.sgn (if na then - a else a)))
  = Z.sgn ((if na then - a else a) - (if nb then - b else b)).
Proof.
  intros Ha Hb.
  destruct na, nb;
    repeat match goal with
           | |- context [Z.sgn ?z] =>
               destruct (Z.sgn_spec z) as [[? ->] | [[? ->] | [? ->]]]
           end; try lia; reflexivity.
Qed.

Lemma Signed_Cmp_sgn (s t : Signed) :
  Signed_Cmp s t = Z.sgn (signedScaled s - signedScaled t).
Proof.
  unfold Signed_Cmp. cbv zeta. rewrite !Signed_Sign_sgn, Cmp_sgn.
  unfold signedScaled.
  apply signed_cmp_arith; apply scaled_nonneg.
Qed.

Lemma Signed_Eq_scaled (s t : Signed) :
  Signed_Eq s t = true <-> signedScaled s = signedScaled t.
Proof.
  unfold Signed_Eq, signedScaled.
  pose proof (scaled_nonneg (V s)) as Hs. pose proof (scaled_nonneg (V t)) as Ht.
  pose proof (IsZero_scaled (V s)) as Zs. pose proof (IsZero_scaled (V t)) as Zt.
  pose proof (Eq_scaled (V s) (V t)) as HE.
  destruct (Neg s), (Neg t); cbn [Bool.eqb negb].
  - rewrite HE. lia.
  - rewrite andb_true_iff, Zs, Zt. lia.
  - rewrite andb_true_iff, Zs, Zt. lia.
  - exact HE.
Qed.

(** [Signed.Cmp] orders two signed values as the numbers they stand for,
    [Signed.Eq] holds exactly when the numbers are the same, and
    [Signed.Sign] is the sign of the number; a zero of either sign is the
    same number. *)
Theorem Signed_Cmp_Eq_numeric (s t : Signed) :
  (Signed_Cmp s t = -1 <-> signedScaled s < signedScaled t) /\
  (Signed_Cmp s t = 0 <-> signedScaled s = signedScaled t) /\
  (Signed_Cmp s t = 1 <-> signedScaled t < signedScaled s) /\
  (Signed_Eq s t = true <-> signedScaled s = signedScaled t) /\
  Signed_Sign s = Z.sgn (signedScaled s).
Proof.
  rewrite Signed_Cmp_sgn, Signed_Sign_sgn, Signed_Eq_scaled.
  destruct (Z.lt_trichotomy (signedScaled s) (signedScaled t)) as [H | [H | H]].
  - rewrite (Z.sgn_neg (signedScaled s - signedScaled t)) by lia.
    repeat split; lia.
  - rewrite H, Z.sub_diag. cbn. repeat split; lia.
  - rewrite (Z.sgn_pos (signedScaled s - signedScaled t)) by lia.
    repeat split; lia.
Qed.

(** [Signed.Normalized] keeps the number, is idempotent, and sends two
    signed values to the same record exactly when they stand for the same
    number: every zero becomes the positive [signedZero]. *)
Theorem Signed_Normalized_canonical (s t : Signed) :
  signedScaled (Signed_Normalized s) = signedScaled s /\
  Signed_Normalized (Signed_Normalized s) = Signed_Normalized s /\
  (Signed_Normalized s = Signed_Normalized t
   <-> signedScaled s = signedScaled t).
Proof.
  assert (Hkeep : forall u, signedScaled (Signed_Normalized u) = signedScaled u).
  { intros u. unfold Signed_Normalized, signedScaled.
    destruct (IsZero (V u)) eqn:E.
    - apply IsZero_scaled in E. rewrite E. unfold signedZero. cbn [V Neg].
      change (scaled zero) with 0. destruct (Neg u); reflexivity.
    - unfold NewSigned. cbn [V Neg]. rewrite scaled_Normalized.
      reflexivity. }
  split; [apply Hkeep |]. split.
  - unfold Signed_Normalized. destruct (IsZero (V s)) eqn:E.
    + reflexivity.
    + cbn [V Neg NewSigned].
      assert (E' : IsZero (Normalized (V s)) = false).
      { apply IsZero_false_scaled. rewrite scaled_Normalized.
        apply IsZero_false_scaled. exact E. }
      rewrite E'. rewrite Normalized_idempotent. reflexivity.
  - split.
    + intros H. rewrite <- (Hkeep s), <- (Hkeep t), H. reflexivity.
    + intros H. unfold Signed_Normalized, signedScaled in *.
      pose proof (scaled_nonneg (V s)) as Hs.
      pose proof (scaled_nonneg (V t)) as Ht.
      destruct (IsZero (V s)) eqn:E1; destruct (IsZero (V t)) eqn:E2.
      * reflexivity.
      * apply IsZero_scaled in E1. apply IsZero_false_scaled in E2.
        destruct (Neg s), (Neg t); lia.
      * apply IsZero_scaled in E2. apply IsZero_false_scaled in E1.
        destruct (Neg s), (Neg t); lia.
      * apply IsZero_false_scaled in E1. apply IsZero_false_scaled in E2.
        unfold NewSigned.
        destruct (Neg s), (Neg t); try lia;
          (assert (Hn : Normalized (V s) = Normalized (V t))
             by (apply Normalized_eq_scaled; lia));
          rewrite Hn; reflexivity.
Qed.

(** A signed value subtracted from itself is a zero: the result has sign 0
    and equals [signedZero] in the sense of [Signed.Eq]. *)
Theorem Signed_Sub_self (s : Signed) :
  exists r,
    Signed_Sub s s = Ok r /\ Signed_Sign r = 0 /\
    Signed_Eq r signedZero = true /\ Signed_Normalized r = signedZero.
Proof.
  destruct (Sub_self (V s)) as (r & HS & Hz & Hsc & _).
  exists (NewSigned r false).
  assert (Hres : Signed_Sub s s = Ok (NewSigned r false)).
  { unfold Signed_Sub, Signed_Add. cbn [Neg V].
    destruct (Neg s); cbn [Bool.eqb negb]; rewrite HS; reflexivity. }
  split; [exact Hres |].
  split; [unfold Signed_Sign; cbn [V NewSigned]; rewrite Hz; reflexivity |].
  split.
  - apply Signed_Eq_scaled. unfold signedScaled. cbn [V Neg NewSigned signedZero].
    rewrite Hsc. reflexivity.
  - unfold Signed_Normalized. cbn [V NewSigned]. rewrite Hz. reflexivity.
Qed.

Lemma Signed_Add_commutative (s t : Signed) :
  Signed_Add s t = Signed_Add t s.
Proof.
  unfold Signed_Add.
  destruct (Neg s) eqn:E1, (Neg t) eqn:E2; cbn [Bool.eqb negb];
    try reflexivity; rewrite (Add_commutative (V s) (V t)); reflexivity.
Qed.

Lemma Signed_Mul_commutative (s t : Signed) :
  Signed_Mul s t = Signed_Mul t s.
Proof.
  unfold Signed_Mul. rewrite (Mul_commutative (V s) (V t)).
  destruct (Neg s), (Neg t); reflexivity.
Qed.

(** Addition and multiplication do not depend on the order of their
    operands, for plain values and for signed ones. *)
Theorem Add_Mul_commutative (v w : Value) (s t : Signed) :
  Add v w = Add w v /\ Mul v w = Mul w v /\
  Signed_Add s t = Signed_Add t s /\ Signed_Mul s t = Signed_Mul t s.
Proof.
  split; [apply Add_commutative |]. split; [apply Mul_commutative |].
  split; [apply Signed_Add_commutative | apply Signed_Mul_commutative].
Qed.

(** The sign that [Signed.Add] and [Signed.Sub] give a result is never a
    wrong minus: when the result is negative, the sum (or the difference)
    of the numbers is negative. *)
Theorem Signed_Add_negative_sound (s t r : Signed) :
  Signed_Add s t = Ok r -> Signed_Sign r = -1 ->
  signedScaled s + signedScaled t < 0.
Proof.
  intros HA Hneg.
  pose proof (scaled_nonneg (V s)) as Hs. pose proof (scaled_nonneg (V t)) as Ht.
  assert (Hr : Neg r = true /\ 0 < scaled (V r)).
  { unfold Signed_Sign in Hneg. destruct (IsZero (V r)) eqn:E; [lia |].
    apply IsZero_false_scaled in E. destruct (Neg r); [split; [reflexivity | lia] | lia]. }
  destruct Hr as [Hnr Hpr].
  unfold Signed_Add, signedScaled in *.
  destruct (Neg s) eqn:E1, (Neg t) eqn:E2; cbn [Bool.eqb negb] in HA.
  - destruct (Add_le_sum (V s) (V t)) as (x & Hx & Hle).
    rewrite Hx in HA. cbn [bind] in HA. injection HA as <-.
    cbn [V NewSigned] in Hpr. lia.
  - destruct (Sub (V t) (V s)) as [[x neg] | err | p] eqn:HS;
      cbn [bind] in HA; try discriminate.
    injection HA as <-. cbn [Neg NewSigned] in Hnr. subst neg.
    pose proof (proj1 (Sub_flag_sound _ _ _ _ HS) eq_refl). lia.
  - destruct (Sub (V s) (V t)) as [[x neg] | err | p] eqn:HS;
      cbn [bind] in HA; try discriminate.
    injection HA as <-. cbn [Neg NewSigned] in Hnr. subst neg.
    pose proof (proj1 (Sub_flag_sound _ _ _ _ HS) eq_refl). lia.
  - destruct (Add (V s) (V t)) as [x | err | p]; cbn [bind] in HA;
      try discriminate.
    injection HA as <-. cbn [Neg NewSigned] in Hnr. discriminate.
Qed.

Lemma Signed_Add_negative_sound_witness :
  Signed_Add (PosValue (FromUint64 3)) (NegValue (FromMantAndExp 35 (-1)))
  = Ok (NegValue (FromMantAndExp 5 (-1))) /\
  signedScaled (PosValue (FromUint64 3))
  + signedScaled (NegValue (FromMantAndExp 35 (-1))) < 0.
Proof.
  assert (H : Signed_Add (PosValue (FromUint64 3))
                (NegValue (FromMantAndExp 35 (-1)))
              = Ok (NegValue (FromMantAndExp 5 (-1))))
    by (vm_compute; reflexivity).
  split; [exact H |].
  apply (Signed_Add_negative_sound _ _ _ H). vm_compute. reflexivity.
Defined.

(** The methods taking a plain [Value] agree with the general ones on
    [PosValue]: [AddValue], [SubValue], [MulValue], [EqValue], [CmpValue]
    and [DivModValue]. *)
Theorem Value_methods_agree (s : Signed) (v : Value) (prec : Z) :
  AddValue s v = Signed_Add s (PosValue v) /\
  SubValue s v = Signed_Sub s (PosValue v) /\
  MulValue s v = Signed_Mul s (PosValue v) /\
  EqValue s v = Signed_Eq s (PosValue v) /\
  CmpValue s v = Signed_Cmp s (PosValue v) /\
  DivModValue s v prec = Signed_DivMod s (PosValue v) prec.
Proof.
  split; [| split; [| split; [| split; [| split]]]].
  - unfold AddValue, Signed_Add, PosValue, NewSigned. cbn [Neg V].
    destruct (Neg s); reflexivity.
  - unfold SubValue, Signed_Sub, Signed_Add, PosValue, NegValue, NewSigned.
    cbn [Neg V]. destruct (Neg s); reflexivity.
  - unfold MulValue, Signed_Mul, PosValue, NewSigned. cbn [Neg V].
    destruct (Neg s); reflexivity.
  - unfold EqValue, Signed_Eq, PosValue, NewSigned. cbn [Neg V].
    destruct (Neg s); reflexivity.
  - rewrite Signed_Cmp_sgn. unfold CmpValue, signedScaled, PosValue, NewSigned.
    cbn [Neg V].
    pose proof (scaled_nonneg (V s)) as Hs. pose proof (scaled_nonneg v) as Hv.
    destruct (Neg s).
    + destruct (IsZero (V s)) eqn:E1; destruct (IsZero v) eqn:E2; cbn [andb];
        try apply IsZero_scaled in E1; try apply IsZero_scaled in E2;
        try apply IsZero_false_scaled in E1;
        try apply IsZero_false_scaled in E2.
      * rewrite E1, E2. reflexivity.
      * symmetry. apply Z.sgn_neg. lia.
      * symmetry. apply Z.sgn_neg. lia.
      * symmetry. apply Z.sgn_neg. lia.
    + apply Cmp_sgn.
  - reflexivity.
Qed.

(** ** Parsing decorated text *)

Lemma String_plain (v : Value) :
  exists c r d r',
    String v = c :: r /\ isDigit c = true /\
    rev (String v) = d :: r' /\ isDigit d = true.
Proof.
  destruct (Z.eq_dec (mant v) 0) as [E | E].
  - rewrite (String_zero v E). exists "0"%char, [], "0"%char, [].
    repeat split; reflexivity.
  - destruct (Normalized_nonzero v E) as (m & e & HN & Hn & _).
    assert (Hs : split (Normalized v) = (m, e)).
    { rewrite HN. destruct Hn as (Hm & He & _).
      apply split_fromMantAndExp; lia. }
    rewrite (String_render v m e Hs Hn). apply render_plain. exact Hn.
Qed.

(** What [FromString] makes of a text that [prepareString] strips down to
    the text [String] writes. *)
Lemma FromString_prepared (pf : list ascii -> option (res Value))
    (v : Value) (s : list ascii) (off : Z) :
  prepareString s = (String v, off, false) ->
  FromString pf s = Ok (Normalized v).
Proof.
  intros Hprep. unfold FromString. rewrite Hprep.
  destruct (Z.eq_dec (mant v) 0) as [E | E].
  - rewrite (String_zero v E), (Normalized_zero v E). reflexivity.
  - destruct (Normalized_nonzero v E) as (m & e & HN & Hn & _).
    assert (Hs : split (Normalized v) = (m, e)).
    { rewrite HN. destruct Hn as (Hm & He & _).
      apply split_fromMantAndExp; lia. }
    rewrite (String_render v m e Hs Hn), HN.
    destruct (render_plain m e Hn) as (c & r & d & r' & Hr & Hc & Hrev & Hd).
    destruct (parseValue_render m e Hn)
      as (j & m' & digits & Hp & Hm' & Hmj & Hmod & Hu & Hl).
    rewrite Hp.
    assert (Hlen : (len (render m e) =? 0) = false).
    { rewrite Hr, len_cons. pose proof (len_nonneg r). apply Z.eqb_neq. lia. }
    rewrite Hlen.
    rewrite (fromStringAndExp_digits digits m' (e + Z.of_nat j) Hl Hu).
    f_equal. destruct Hn as (Hm & He & Hz).
    destruct j as [| j].
    + change (Z.of_nat 0) with 0 in *. change (10 ^ 0) with 1 in Hmj.
      rewrite Z.add_0_r. replace m' with m by lia.
      apply adjustMantExp_id; assumption.
    + assert (He128 : e = maxExponent).
      { destruct (Z.eq_dec e maxExponent) as [Heq | Hne]; [exact Heq |].
        exfalso. apply Hz; [lia |].
        replace (Z.of_nat (S j)) with (Z.of_nat j + 1) in Hmj by lia.
        rewrite pow_10_succ in Hmj by lia.
        rewrite Hmj. replace (m' * (10 * 10 ^ Z.of_nat j))
          with ((m' * 10 ^ Z.of_nat j) * 10) by lia.
        apply Z_mod_mult. }
      subst e. rewrite adjustMantExp_above by lia.
      rewrite <- Hmj. reflexivity.
Qed.

Lemma TrimLeftSpace_blank (ws s : list ascii) :
  forallb isSpace1 ws = true -> TrimLeftSpace (ws ++ s) = TrimLeftSpace s.
Proof.
  induction ws as [| a ws IH]; intros H; [reflexivity |].
  cbn [forallb] in H. apply andb_true_iff in H. destruct H as [Ha Hws].
  cbn [app TrimLeftSpace]. rewrite Ha. apply IH. exact Hws.
Qed.

Lemma trimSpaceRev_blank (ws s : list ascii) :
  forallb isSpace1 ws = true -> trimSpaceRev (ws ++ s) = trimSpaceRev s.
Proof.
  induction ws as [| a ws IH]; intros H; [reflexivity |].
  cbn [forallb] in H. apply andb_true_iff in H. destruct H as [Ha Hws].
  cbn [app trimSpaceRev]. rewrite Ha. apply IH. exact Hws.
Qed.

Lemma isSpace1_not (a x : ascii) :
  isSpace1 a = true -> isSpace1 x = false -> Ascii.eqb a x = false.
Proof.
  intros Ha Hx. destruct (Ascii.eqb a x) eqn:E; [| reflexivity].
  apply Ascii.eqb_eq in E. subst x. congruence.
Qed.

(** [prepareString] on a text that starts and ends with a digit, between
    blanks: the blanks go, and the offset counts the leading ones. *)
Lemma prepareString_padded (ws ws' : list ascii) (c d : ascii)
    (r r' : list ascii) :
  forallb isSpace1 ws = true -> forallb isSpace1 ws' = true ->
  isDigit c = true -> isDigit d = true -> rev (c :: r) = d :: r' ->
  prepareString (ws ++ (c :: r) ++ ws') = (c :: r, len ws, false).
Proof.
  intros Hws Hws' Hc Hd Hrev.
  assert (Hbody : c :: r = rev r' ++ [d]).
  { rewrite <- (rev_involutive (c :: r)), Hrev. reflexivity. }
  set (S := ws ++ (c :: r) ++ ws').
  (* the first byte is no quote *)
  assert (Hfirst : exists a t, S = a :: t /\ Ascii.eqb a quote = false).
  { unfold S. destruct ws as [| a ws0].
    - exists c, (r ++ ws'). split; [reflexivity |].
      apply digit_neq; [exact Hc | reflexivity].
    - exists a, (ws0 ++ (c :: r) ++ ws'). split; [reflexivity |].
      cbn [forallb] in Hws. apply andb_true_iff in Hws.
      apply isSpace1_not; [tauto | reflexivity]. }
  (* the last byte is no quote *)
  assert (Hlast : Ascii.eqb (last S " "%char) quote = false).
  { unfold S. destruct (rev ws') as [| z zs] eqn:Ez.
    - assert (ws' = []).
      { rewrite <- (rev_involutive ws'), Ez. reflexivity. }
      subst ws'. rewrite app_nil_r, Hbody, app_assoc, last_last.
      apply digit_neq; [exact Hd | reflexivity].
    - assert (Hw : ws' = rev zs ++ [z]).
      { rewrite <- (rev_involutive ws'), Ez. reflexivity. }
      rewrite Hw, !app_assoc, last_last.
      assert (Hz : isSpace1 z = true).
      { rewrite <- forallb_rev_eq, Ez in Hws'. cbn [forallb] in Hws'.
        apply andb_true_iff in Hws'. tauto. }
      apply isSpace1_not; [exact Hz | reflexivity]. }
  assert (Htrim : TrimLeftSpace S = (c :: r) ++ ws').
  { unfold S. rewrite (TrimLeftSpace_blank ws _ Hws).
    apply (TrimLeftSpace_digit c (r ++ ws') Hc). }
  assert (Hright : TrimRightSpace ((c :: r) ++ ws') = c :: r).
  { unfold TrimRightSpace. rewrite rev_app_distr.
    rewrite trimSpaceRev_blank by (rewrite forallb_rev_eq; exact Hws').
    rewrite Hrev, (trimSpaceRev_digit d r' Hd).
    rewrite <- Hrev. apply rev_involutive. }
  assert (HlenS : len S = len ws + len ((c :: r) ++ ws')).
  { unfold S. apply len_app. }
  destruct Hfirst as (a & t & HS & Ha).
  unfold prepareString. fold S. rewrite HS. rewrite Ha. rewrite <- HS.
  pose proof (len_nonneg ws) as Hl1.
  pose proof (len_nonneg (r ++ ws')) as Hl2.
  assert (Hl3 : len ((c :: r) ++ ws') = 1 + len (r ++ ws'))
    by (apply (len_cons c (r ++ ws'))).
  destruct (len S =? 0) eqn:E0; [lia |].
  rewrite Hlast, Htrim.
  assert (Hpair :
            (if negb (len ((c :: r) ++ ws') =? len S)
             then ((c :: r) ++ ws', 0 + (len S - len ((c :: r) ++ ws')))
             else (S, 0))
            = ((c :: r) ++ ws', len ws)).
  { destruct (len ((c :: r) ++ ws') =? len S) eqn:E1; cbn [negb].
    - assert (Hz : len ws = 0) by lia.
      assert (ws = []).
      { destruct ws; [reflexivity |].
        rewrite len_cons in Hz. pose proof (len_nonneg ws). lia. }
      subst ws. unfold S. reflexivity.
    - f_equal. lia. }
  rewrite Hpair. rewrite Hright.
  rewrite (digit_neq c "-"%char Hc) by reflexivity.
  rewrite (digit_neq c "+"%char Hc) by reflexivity.
  reflexivity.
Qed.

(** Blanks around the text that [String] writes are ignored by
    [FromString]: the value parsed is the canonical form of the value
    written, whatever the float fallback would do. *)
Theorem FromString_ignores_blanks (pf : list ascii -> option (res Value))
    (v : Value) (ws ws' : list ascii) :
  blank ws -> blank ws' ->
  FromString pf (ws ++ String v ++ ws') = Ok (Normalized v).
Proof.
  intros Hws Hws'.
  destruct (String_plain v) as (c & r & d & r' & Hs & Hc & Hrev & Hd).
  apply (FromString_prepared pf v _ (len ws)).
  rewrite Hs in *. apply (prepareString_padded ws ws' c d r r'); assumption.
Qed.

Lemma FromString_ignores_blanks_witness :
  blank (lit "  ") /\ blank [byte 9; byte 10] /\
  FromString (fun _ => None)
    (lit "  " ++ String (FromMantAndExp 15 (-1)) ++ [byte 9; byte 10])
  = Ok (Normalized (FromMantAndExp 15 (-1))).
Proof.
  assert (H1 : blank (lit "  ")) by reflexivity.
  assert (H2 : blank [byte 9; byte 10]) by reflexivity.
  split; [exact H1 |]. split; [exact H2 |].
  exact (FromString_ignores_blanks (fun _ => None) (FromMantAndExp 15 (-1))
           (lit "  ") [byte 9; byte 10] H1 H2).
Defined.

Lemma prepareString_signed (sign c d : ascii) (r r' : list ascii) :
  isDigit c = true -> isDigit d = true -> rev (c :: r) = d :: r' ->
  sign = "-"%char \/ sign = "+"%char ->
  prepareString (sign :: c :: r)
  = (c :: r, 1, Ascii.eqb sign "-"%char).
Proof.
  intros Hc Hd Hrev Hsign.
  assert (Hbody : c :: r = rev r' ++ [d]).
  { rewrite <- (rev_involutive (c :: r)), Hrev. reflexivity. }
  assert (Hq : Ascii.eqb sign quote = false)
    by (destruct Hsign as [-> | ->]; reflexivity).
  assert (Hsp : isSpace1 sign = false)
    by (destruct Hsign as [-> | ->]; reflexivity).
  assert (Hsp2 : forall x, isSpace2 sign x = false)
    by (intros x; destruct Hsign as [-> | ->]; reflexivity).
  assert (Hsp3 : forall x y, isSpace3 sign x y = false)
    by (intros x y; destruct Hsign as [-> | ->]; reflexivity).
  unfold prepareString. rewrite Hq.
  rewrite len_cons. pose proof (len_nonneg (c :: r)) as Hl.
  destruct (1 + len (c :: r) =? 0) eqn:E; [lia |].
  assert (Hlast : last (sign :: c :: r) " "%char = d).
  { rewrite Hbody. change (sign :: rev r' ++ [d])
      with ((sign :: rev r') ++ [d]). apply last_last. }
  rewrite Hlast. rewrite (digit_neq d quote Hd) by reflexivity.
  assert (Htrim : TrimLeftSpace (sign :: c :: r) = sign :: c :: r).
  { cbn [TrimLeftSpace]. rewrite Hsp, Hsp2.
    destruct r as [| c3 r0]; [reflexivity |]. rewrite Hsp3. reflexivity. }
  rewrite Htrim. rewrite Z.eqb_refl. cbn [negb].
  assert (Hright : TrimRightSpace (sign :: c :: r) = sign :: c :: r).
  { unfold TrimRightSpace.
    change (rev (sign :: c :: r)) with (rev (c :: r) ++ [sign]).
    rewrite Hrev. cbn [app]. rewrite (trimSpaceRev_digit d _ Hd).
    change (d :: r' ++ [sign]) with ((d :: r') ++ [sign]).
    rewrite <- Hrev. rewrite rev_app_distr, rev_involutive. reflexivity. }
  rewrite Hright.
  destruct Hsign as [-> | ->]; reflexivity.
Qed.

(** A plus sign before the text that [String] writes is accepted and
    changes nothing; a minus sign is refused as a negative value. *)
Theorem FromString_sign (pf : list ascii -> option (res Value)) (v : Value) :
  FromString pf ("+"%char :: String v) = Ok (Normalized v) /\
  FromString pf ("-"%char :: String v) = Err NegativeValue.
Proof.
  destruct (String_plain v) as (c & r & d & r' & Hs & Hc & Hrev & Hd).
  split.
  - apply (FromString_prepared pf v _ 1). rewrite Hs in *.
    apply (prepareString_signed "+"%char c d r r' Hc Hd Hrev). right; reflexivity.
  - unfold FromString. rewrite Hs in *.
    rewrite (prepareString_signed "-"%char c d r r' Hc Hd Hrev)
      by (left; reflexivity).
    rewrite len_cons. pose proof (len_nonneg r).
    destruct (1 + len r =? 0) eqn:E; [lia | reflexivity].
Qed.

(** Text with nothing to parse is answered with the empty-input error:
    the empty text, text of blanks only, a lone sign and a lone pair of
    quotes. *)
Theorem FromString_empty_input (pf : list ascii -> option (res Value))
    (ws : list ascii) :
  blank ws ->
  FromString pf ws = Err EmptyInput /\
  FromString pf (ws ++ lit "-") = Err EmptyInput /\
  FromString pf (ws ++ lit "+") = Err EmptyInput /\
  FromString pf [quote; quote] = Err EmptyInput /\
  FromString pf [quote] = Err EmptyInput.
Proof.
  intros Hws.
  assert (Hsign : forall sign,
             sign = "-"%char \/ sign = "+"%char ->
             FromString pf (ws ++ [sign]) = Err EmptyInput).
  { intros sign Hsign.
    assert (Hq : Ascii.eqb sign quote = false)
      by (destruct Hsign as [-> | ->]; reflexivity).
    assert (Hsp : isSpace1 sign = false)
      by (destruct Hsign as [-> | ->]; reflexivity).
    assert (Hfirst : exists a t, ws ++ [sign] = a :: t
                                 /\ Ascii.eqb a quote = false).
    { destruct ws as [| a ws0].
      - exists sign, []. split; [reflexivity | exact Hq].
      - exists a, (ws0 ++ [sign]). split; [reflexivity |].
        unfold blank in Hws. cbn [forallb] in Hws.
        apply andb_true_iff in Hws.
        apply isSpace1_not; [tauto | reflexivity]. }
    destruct Hfirst as (a & t & HS & Ha).
    unfold FromString, prepareString. rewrite HS, Ha, <- HS.
    rewrite last_last, Hq.
    rewrite (TrimLeftSpace_blank ws [sign] Hws).
    assert (Ht : TrimLeftSpace [sign] = [sign])
      by (cbn [TrimLeftSpace]; rewrite Hsp; reflexivity).
    rewrite Ht.
    assert (Hr : TrimRightSpace [sign] = [sign])
      by (unfold TrimRightSpace; cbn [rev app trimSpaceRev]; rewrite Hsp;
          reflexivity).
    rewrite !len_app, !len_cons, !len_nil.
    pose proof (len_nonneg ws) as Hl.
    destruct (len ws + (1 + 0) =? 0) eqn:E0; [lia |].
    destruct (1 + 0 =? len ws + (1 + 0)) eqn:E1; cbn [negb].
    - assert (ws = []).
      { destruct ws as [| b ws1]; [reflexivity |].
        rewrite len_cons in E1. pose proof (len_nonneg ws1). lia. }
      subst ws. cbn [app]. rewrite Hr.
      destruct Hsign as [-> | ->]; reflexivity.
    - rewrite Hr. destruct Hsign as [-> | ->]; reflexivity. }
  split; [| split; [apply Hsign; left; reflexivity
                   | split; [apply Hsign; right; reflexivity
                            | split; reflexivity]]].
  destruct ws as [| a ws0]; [reflexivity |].
  assert (Ha : Ascii.eqb a quote = false).
  { unfold blank in Hws. cbn [forallb] in Hws. apply andb_true_iff in Hws.
    apply isSpace1_not; [tauto | reflexivity]. }
  set (S := a :: ws0) in *.
  assert (Hlast : Ascii.eqb (last S " "%char) quote = false).
  { destruct (rev S) as [| z zs] eqn:Ez.
    - assert (S = []) by (rewrite <- (rev_involutive S), Ez; reflexivity).
      discriminate.
    - assert (Hw : S = rev zs ++ [z])
        by (rewrite <- (rev_involutive S), Ez; reflexivity).
      rewrite Hw, last_last.
      assert (Hz : isSpace1 z = true).
      { unfold blank in Hws. rewrite <- forallb_rev_eq, Ez in Hws.
        cbn [forallb] in Hws. apply andb_true_iff in Hws. tauto. }
      apply isSpace1_not; [exact Hz | reflexivity]. }
  assert (Htrim : TrimLeftSpace S = []).
  { rewrite <- (app_nil_r S). rewrite (TrimLeftSpace_blank S [] Hws).
    reflexivity. }
  unfold FromString, prepareString. fold S. unfold S at 1. rewrite Ha.
  fold S. unfold S at 1. rewrite len_cons. pose proof (len_nonneg ws0).
  destruct (1 + len ws0 =? 0) eqn:E0; [lia |].
  fold S. rewrite Hlast, Htrim.
  rewrite len_nil. unfold S at 1. rewrite len_cons.
  destruct (0 =? 1 + len ws0) eqn:E1; [lia |]. cbn [negb].
  reflexivity.
Qed.

Lemma FromString_empty_input_witness :
  blank (lit "   ") /\
  FromString (fun _ => None) (lit "   ") = Err EmptyInput /\
  FromString (fun _ => None) (lit "   " ++ lit "-") = Err EmptyInput.
Proof.
  assert (H : blank (lit "   ")) by reflexivity.
  split; [exact H |].
  destruct (FromString_empty_input (fun _ => None) (lit "   ") H)
    as (H1 & H2 & _).
  split; [exact H1 | exact H2].
Defined.

(** ** Where a parse error points *)

Lemma scan_decimalText (pre rest : list ascii) :
  Forall (fun c => isDigit c = true \/ c = delim) pre ->
  forall i b dp fnz,
    0 <= i ->
    (dp = -1 /\ (count_occ ascii_dec pre delim <= 1)%nat)
    \/ count_occ ascii_dec pre delim = 0%nat ->
    exists b' dp' fnz',
      scan (pre ++ rest) i b dp fnz = scan rest (i + len pre) b' dp' fnz'.
Proof.
  induction 1 as [| a pre Ha Hpre IH]; intros i b dp fnz Hi Hcount.
  - exists b, dp, fnz. rewrite len_nil, Z.add_0_r. reflexivity.
  - assert (Hidx : forall j, j + 1 + len pre = j + len (a :: pre))
      by (intros j; rewrite len_cons; lia).
    cbn [app]. rewrite scan_cons.
    destruct (isDigit a) eqn:Ed.
    + assert (Hnd : a <> delim) by (intros ->; discriminate Ed).
      assert (Hc : (dp = -1 /\ (count_occ ascii_dec pre delim <= 1)%nat)
                   \/ count_occ ascii_dec pre delim = 0%nat).
      { rewrite (count_occ_cons_neq ascii_dec pre Hnd) in Hcount.
        exact Hcount. }
      rewrite <- Hidx.
      destruct (len b =? 0); [destruct (Ascii.eqb a "0"%char) |];
        apply IH; try lia; exact Hc.
    + destruct Ha as [Ha | Ha]; [congruence |]. subst a.
      change (Ascii.eqb delim "e"%char) with false. cbv iota.
      rewrite Ascii.eqb_refl.
      rewrite (count_occ_cons_eq ascii_dec pre (eq_refl delim)) in Hcount.
      destruct Hcount as [[Hdp Hcnt] | Hcnt]; [| discriminate Hcnt].
      subst dp. change (negb (-1 =? -1)) with false. cbv iota.
      rewrite <- Hidx. apply IH; [lia |]. right. lia.
Qed.

Lemma DecodeRune_ascii (x : ascii) (rest : list ascii) :
  code x < 128 -> DecodeRune (x :: rest) = code x.
Proof.
  intros Hx. unfold DecodeRune.
  destruct (Z.ltb_spec (code x) 128) as [_ | H]; [reflexivity | lia].
Qed.

Lemma parseValue_unexpected (pre rest : list ascii) (x : ascii) :
  decimalText pre ->
  isDigit x = false -> x <> "e"%char -> x <> delim ->
  parseValue (pre ++ x :: rest)
  = inl (newPosError (UnexpectedSymbol (DecodeRune (x :: rest))) (len pre)).
Proof.
  intros [Hall Hcnt] Hx He Hd.
  destruct (scan_decimalText pre (x :: rest) Hall 0 [] (-1) (-1)
              ltac:(lia) ltac:(left; split; [reflexivity | exact Hcnt]))
    as (b' & dp' & fnz' & Hscan).
  unfold parseValue, removeLeadingZeros. rewrite Hscan, scan_cons, Hx.
  assert (E1 : Ascii.eqb x "e"%char = false)
    by (apply Ascii.eqb_neq; exact He).
  assert (E2 : Ascii.eqb x delim = false)
    by (apply Ascii.eqb_neq; exact Hd).
  rewrite E1, E2. reflexivity.
Qed.

(** A byte that is no digit, no delimiter and no ['e'], met after digits
    with at most one delimiter, stops the parse with the unexpected-symbol
    error, unless the float fallback accepts the text.  The error carries
    the rune decoded at that byte, which is the byte's own code when the
    byte is ASCII, and the byte's position in the text as given, counted
    from 1 and with the leading blanks included. *)
Theorem FromString_unexpected_symbol
    (pf : list ascii -> option (res Value))
    (ws p0 rest r' : list ascii) (c x d : ascii) :
  blank ws -> isDigit c = true -> decimalText (c :: p0) ->
  isDigit x = false -> x <> "e"%char -> x <> delim ->
  rev rest = d :: r' -> isDigit d = true ->
  pf ((c :: p0) ++ x :: rest) = None ->
  FromString pf (ws ++ (c :: p0) ++ x :: rest)
  = Err (ParsingFailed
           (newPosError (UnexpectedSymbol (DecodeRune (x :: rest)))
              (len ws + len (c :: p0) + 1))) /\
  (code x < 128 -> DecodeRune (x :: rest) = code x).
Proof.
  intros Hws Hc Hpre Hx He Hd Hrev Hdd Hpf.
  split; [| apply DecodeRune_ascii].
  set (s := (c :: p0) ++ x :: rest) in *.
  assert (Hs : s = c :: (p0 ++ x :: rest)) by reflexivity.
  assert (Hrs : rev (c :: (p0 ++ x :: rest))
                = d :: (r' ++ x :: rev (c :: p0))).
  { rewrite <- Hs. unfold s. rewrite rev_app_distr.
    change (rev (x :: rest)) with (rev rest ++ [x]). rewrite Hrev.
    cbn [app]. rewrite <- !app_assoc. reflexivity. }
  pose proof (prepareString_padded ws [] c d (p0 ++ x :: rest) _
                Hws eq_refl Hc Hdd Hrs) as Hprep.
  rewrite app_nil_r in Hprep. rewrite <- Hs in Hprep.
  unfold FromString. rewrite Hprep.
  assert (Hlen : (len s =? 0) = false).
  { rewrite Hs, len_cons. pose proof (len_nonneg (p0 ++ x :: rest)).
    apply Z.eqb_neq. lia. }
  rewrite Hlen. unfold s at 1.
  rewrite (parseValue_unexpected (c :: p0) rest x Hpre Hx He Hd).
  fold s. rewrite Hpf. unfold addPosError. cbn [pe_err pe_pos].
  do 3 f_equal. lia.
Qed.

(** The text ["  12.5x7"] reports ['x'] (rune 120) at position 7; the text
    ["12"] followed by the two bytes of U+00E9 and ["7"] reports rune 233 at
    position 3; with the lone byte 233 in that place the rune is U+FFFD. *)
Lemma FromString_unexpected_symbol_witness :
  FromString (fun _ => None) (lit "  12.5x7")
  = Err (ParsingFailed (newPosError (UnexpectedSymbol 120) 7)) /\
  FromString (fun _ => None)
    (lit "12" ++ ascii_of_nat 195 :: ascii_of_nat 169 :: lit "7")
  = Err (ParsingFailed (newPosError (UnexpectedSymbol 233) 3)) /\
  FromString (fun _ => None) (lit "12" ++ ascii_of_nat 233 :: lit "7")
  = Err (ParsingFailed (newPosError (UnexpectedSymbol RuneError) 3)).
Proof.
  assert (H1 : blank (lit "  ")) by reflexivity.
  assert (H1' : blank []) by reflexivity.
  assert (H2 : isDigit "1"%char = true) by reflexivity.
  assert (H3 : decimalText (lit "12.5")).
  { split.
    - repeat constructor; (left; reflexivity) || (right; reflexivity).
    - vm_compute. apply le_n. }
  assert (H3' : decimalText (lit "12")).
  { split.
    - repeat constructor; (left; reflexivity) || (right; reflexivity).
    - vm_compute. apply le_S, le_n. }
  assert (H4 : isDigit "x"%char = false) by reflexivity.
  assert (H5 : "x"%char <> "e"%char) by discriminate.
  assert (H6 : "x"%char <> delim) by discriminate.
  assert (H7 : rev (lit "7") = "7"%char :: []) by reflexivity.
  assert (H8 : isDigit "7"%char = true) by reflexivity.
  assert (G4 : isDigit (ascii_of_nat 195) = false) by reflexivity.
  assert (G5 : ascii_of_nat 195 <> "e"%char) by discriminate.
  assert (G6 : ascii_of_nat 195 <> delim) by discriminate.
  assert (G7 : rev (ascii_of_nat 169 :: lit "7")
               = "7"%char :: [ascii_of_nat 169]) by reflexivity.
  assert (K4 : isDigit (ascii_of_nat 233) = false) by reflexivity.
  assert (K5 : ascii_of_nat 233 <> "e"%char) by discriminate.
  assert (K6 : ascii_of_nat 233 <> delim) by discriminate.
  split; [| split].
  - exact (proj1 (FromString_unexpected_symbol (fun _ => None) (lit "  ")
             (lit "2.5") (lit "7") [] "1"%char "x"%char "7"%char
             H1 H2 H3 H4 H5 H6 H7 H8 eq_refl)).
  - exact (proj1 (FromString_unexpected_symbol (fun _ => None) []
             (lit "2") (ascii_of_nat 169 :: lit "7") [ascii_of_nat 169]
             "1"%char (ascii_of_nat 195) "7"%char
             H1' H2 H3' G4 G5 G6 G7 H8 eq_refl)).
  - exact (proj1 (FromString_unexpected_symbol (fun _ => None) []
             (lit "2") (lit "7") []
             "1"%char (ascii_of_nat 233) "7"%char
             H1' H2 H3' K4 K5 K6 H7 H8 eq_refl)).
Defined.

(** ** JSON *)

Lemma prepareString_quoted (c d : ascii) (r r' : list ascii) :
  isDigit c = true -> isDigit d = true -> rev (c :: r) = d :: r' ->
  prepareString (quote :: (c :: r) ++ [quote]) = (c :: r, 1, false).
Proof.
  intros Hc Hd Hrev.
  unfold prepareString. rewrite Ascii.eqb_refl.
  rewrite len_app, len_cons, len_cons, len_nil.
  pose proof (len_nonneg r) as Hl.
  destruct (1 + len r + (1 + 0) =? 0) eqn:E; [lia |].
  rewrite last_last, Ascii.eqb_refl, removelast_last.
  rewrite (TrimLeftSpace_digit c r Hc).
  rewrite Z.eqb_refl. cbn [negb].
  unfold TrimRightSpace. rewrite Hrev, (trimSpaceRev_digit d r' Hd).
  rewrite <- Hrev, rev_involutive.
  rewrite (digit_neq c "-"%char Hc) by reflexivity.
  rewrite (digit_neq c "+"%char Hc) by reflexivity.
  reflexivity.
Qed.

(** What the string mode of [toJSON] writes, [UnmarshalJSON] reads back as
    the canonical form of the value, and so it reads the bare text of
    [String]; the JSON object decoder and the float fallback are not
    reached.  Empty data leaves the receiver as it was. *)
Theorem JSON_string_roundtrip
    (pf : list ascii -> option (res Value))
    (ju : list ascii -> option (Z * Z))
    (formatFloat : Value -> list ascii) (old v : Value) :
  toJSON formatFloat v JSONModeString = quote :: String v ++ [quote] /\
  UnmarshalJSON pf ju old (toJSON formatFloat v JSONModeString)
  = Ok (Normalized v, None) /\
  UnmarshalJSON pf ju old (String v) = Ok (Normalized v, None) /\
  UnmarshalJSON pf ju old [] = Ok (old, Some EmptyJSON).
Proof.
  destruct (String_plain v) as (c & r & d & r' & Hs & Hc & Hrev & Hd).
  assert (Hj : toJSON formatFloat v JSONModeString
               = quote :: String v ++ [quote]) by reflexivity.
  split; [exact Hj |]. split; [| split; [| reflexivity]].
  - rewrite Hj. unfold UnmarshalJSON.
    change (Ascii.eqb quote "{"%char) with false. cbv iota.
    rewrite (FromString_prepared pf v _ 1); [reflexivity |].
    rewrite Hs in *. apply (prepareString_quoted c d r r'); assumption.
  - unfold UnmarshalJSON. rewrite Hs.
    rewrite (digit_neq c "{"%char Hc) by reflexivity.
    rewrite <- Hs.
    rewrite (FromString_prepared pf v _ 0); [reflexivity |].
    rewrite Hs in *. apply (prepareString_plain c d r r'); assumption.
Qed.

Lemma int64DecimalLen_FormatInt (i : Z) :
  - 2 ^ 63 < i < 2 ^ 63 -> int64DecimalLen i = len (FormatInt i).
Proof.
  intros Hi. unfold int64DecimalLen, FormatInt.
  destruct (i <? 0) eqn:E.
  - rewrite (i64_small (- i)) by lia. rewrite (u64_small (- i)) by lia.
    rewrite len_cons. rewrite FormatUint_length by lia.
    pose proof (decimalDigits_range (- i) ltac:(lia)).
    apply i64_small. lia.
  - rewrite (u64_small i) by lia. rewrite FormatUint_length by lia.
    pose proof (decimalDigits_range i ltac:(lia)).
    apply i64_small. lia.
Qed.

(** [jsonMELen] of a canonical word is the length of what [toMEJSON]
    writes, and [int64DecimalLen] is the length of the decimal text of an
    integer. *)
Theorem jsonMELen_is_length (v : Value) (i : Z) :
  jsonMELen (Normalized v) = len (toMEJSON v) /\
  (- 2 ^ 63 < i < 2 ^ 63 -> int64DecimalLen i = len (FormatInt i)).
Proof.
  split; [| apply int64DecimalLen_FormatInt].
  unfold jsonMELen, toMEJSON, split.
  pose proof (mant_range (Normalized v)) as Hm.
  pose proof (exp_range (Normalized v)) as He.
  rewrite minExponent_eq, maxExponent_eq, maxMantissa_eq in *.
  rewrite int64DecimalLen_FormatInt by lia.
  rewrite !len_app. rewrite FormatUint_length by lia.
  pose proof (decimalDigits_mantissa (mant (Normalized v))
                ltac:(rewrite maxMantissa_eq; lia)) as Hd.
  assert (Hf : 1 <= len (FormatInt (exp (Normalized v))) <= 4).
  { rewrite <- int64DecimalLen_FormatInt by lia. unfold int64DecimalLen.
    destruct (exp (Normalized v) <? 0) eqn:E.
    - rewrite (i64_small (- exp (Normalized v))) by lia.
      rewrite (u64_small (- exp (Normalized v))) by lia.
      pose proof (decimalDigits_range (- exp (Normalized v)) ltac:(lia)).
      pose proof (decimalDigits_le (- exp (Normalized v)) 3 ltac:(lia)
                    ltac:(lia) ltac:(change (10 ^ 3) with 1000; lia)).
      rewrite i64_small by lia. lia.
    - rewrite (u64_small (exp (Normalized v))) by lia.
      pose proof (decimalDigits_range (exp (Normalized v)) ltac:(lia)).
      pose proof (decimalDigits_le (exp (Normalized v)) 3 ltac:(lia)
                    ltac:(lia) ltac:(change (10 ^ 3) with 1000; lia)).
      rewrite i64_small by lia. lia. }
  change jsonLen with 11.
  change (len (nth 0 jsonParts [])) with 5.
  change (len (nth 1 jsonParts [])) with 5.
  change (len (nth 2 jsonParts [])) with 1.
  rewrite (i64_small (11 + decimalDigits (mant (Normalized v)))) by lia.
  rewrite i64_small by lia. lia.
Qed.

Lemma len_render (m e : Z) :
  normal m e ->
  len (render m e)
  = if e =? 0 then decimalDigits m
    else if e >? 0 then decimalDigits m + e
    else if decimalDigits m + e <=? 0 then 2 - e
    else decimalDigits m + 1.
Proof.
  intros (Hm & He & _).
  rewrite minExponent_eq, maxExponent_eq, maxMantissa_eq in *.
  unfold render. rewrite <- (FormatUint_length m) by lia.
  set (s := FormatUint m).
  pose proof (len_nonneg s) as Hl.
  destruct (e =? 0) eqn:E0; [reflexivity |].
  destruct (e >? 0) eqn:E1.
  - rewrite len_app, len_repeat. lia.
  - destruct (len s + e <=? 0) eqn:E2.
    + rewrite !len_cons, len_app, len_repeat. lia.
    + rewrite len_app, len_cons.
      unfold len. rewrite length_firstn, length_skipn.
      unfold len in *. lia.
Qed.

(** [calcStrLen], the length that the compact mode of [toJSON] expects of
    the quoted string, against the length the string really has, for a
    non-zero value: it is right for a positive canonical exponent and for a
    negative one that leaves digits before the delimiter, one too many for
    the exponent 0 and one too few when the text starts with ["0."]. *)
Theorem calcStrLen_estimate (v : Value) :
  mant v <> 0 ->
  calcStrLen v
  = len (toJSONString v)
    + (if exp (Normalized v) =? 0 then 1
       else if (exp (Normalized v) <? 0)
               && (decimalDigits (mant (Normalized v)) + exp (Normalized v)
                   <=? 0)
            then -1 else 0).
Proof.
  intros N1.
  destruct (split_Normalized_nonzero v N1) as (m & e & Hs & Hn & _).
  assert (Hm' : mant (Normalized v) = m) by (unfold split in Hs; congruence).
  assert (He' : exp (Normalized v) = e) by (unfold split in Hs; congruence).
  unfold toJSONString. rewrite len_cons, len_app, len_cons, len_nil.
  rewrite (String_render v m e Hs Hn), (len_render m e Hn).
  unfold calcStrLen. rewrite Hm', He'.
  destruct Hn as (Hm & He & _).
  rewrite minExponent_eq, maxExponent_eq, maxMantissa_eq in *.
  pose proof (decimalDigits_mantissa m ltac:(rewrite maxMantissa_eq; lia))
    as Hd.
  set (k := decimalDigits m) in *.
  rewrite (i64_small (2 + k)) by lia.
  rewrite (i64_small (2 + k + 1)) by lia.
  rewrite (i64_small (e + k)) by lia.
  destruct (e =? 0) eqn:E0.
  { destruct (e >? 0) eqn:E1; [lia |].
    destruct (e + k <? 0) eqn:E2; [lia |]. lia. }
  destruct (e >? 0) eqn:E1.
  { destruct (e <? 0) eqn:E3; [lia |]. cbn [andb].
    rewrite i64_small by lia. lia. }
  destruct (e <? 0) eqn:E3; [| lia]. cbn [andb].
  destruct (k + e <=? 0) eqn:E4.
  - destruct (e + k <? 0) eqn:E2.
    + rewrite (i64_small (- (e + k))) by lia. rewrite i64_small by lia. lia.
    + lia.
  - destruct (e + k <? 0) eqn:E2; [lia |]. lia.
Qed.

Lemma calcStrLen_estimate_witness :
  mant (FromMantAndExp 1 (-12)) <> 0 /\
  calcStrLen (FromMantAndExp 1 (-12)) = 15 /\
  len (toJSONString (FromMantAndExp 1 (-12))) = 16 /\
  calcStrLen (FromMantAndExp 1 (-12))
  = len (toJSONString (FromMantAndExp 1 (-12))) + -1.
Proof.
  assert (H : mant (FromMantAndExp 1 (-12)) <> 0) by (vm_compute; discriminate).
  split; [exact H |]. split; [vm_compute; reflexivity |].
  split; [vm_compute; reflexivity |].
  exact (calcStrLen_estimate (FromMantAndExp 1 (-12)) H).
Defined.
